(* ===== verification/_CoqProject ===== *)
-Q . S2P
Prelude.v
PyStr.v
PyRe.v
PyFloat.v
PyOs.v
FoamTime.v
FoamTimeProofs.v
CtestInputs.v
CtestElf.v
CtestClosure.v
CtestCached.v
CtestSpec.v
CtestWorklist.v
CtestProofs.v
CtestEnds.v
CtestArgs.v
ManifestData.v
ManifestSimple.v
ManifestInter.v
ManifestRho.v
Manifest.v
ManifestProofs.v
ManifestQuote.v
Audits.v
AuditProofs.v
Resize.v
ResizeProofs.v
NumPy.v
Amg.v
AmgAggregate.v
AmgLevels.v
AmgTrace.v
AmgWitness.v
AmgTables.v
Replay.v
ReplayLoad.v
ReplaySizes.v
ReplayRuns.v
ReplayProofs.v
ReplayCompare.v
ReplayOf.v
Fixed.v
ReplayWitness.v
Precond.v
PrecondColour.v
PrecondSums.v
PrecondProofs.v
PrecondKrylov.v
PrecondWitness.v
Reports.v
ReportsProofs.v
ReportsWitness.v
Render.v
RenderCamera.v
RenderProofs.v
RenderWitness.v
Stages.v
StagesProofs.v
StagesWitness.v
Defaults.v
DefaultsProofs.v
Pimple.v
PimpleProofs.v
