(* ===== verification/Prelude.v ===== *)
(** * Verification library of brae's Python tools

    brae is a CUDA port of OpenFOAM.  Its Python code is the tooling that decides
    whether the port may be trusted: the cached test runner, the comparison of time
    directories, the component manifest, the source audits, the coverage report, the
    comparison of stage dumps, the timing reports, the experiments that chose a
    preconditioner, the cameras of a film, and the multigrid replay that records what the solver does level by
    level and shows it as a film.  This library models those programs as Gallina functions and proves what
    they promise.
    Everything here is executable: the witnesses evaluate the definitions on concrete
    inputs with [vm_compute].

    ** How a program is modelled

    A function that can raise returns [res A], a value or a Python exception; a loop
    is structural recursion or has a bound, and a bound that is hit is the exception
    [OutOfFuel], which is never Python's.  State (memos, stores, recorders) is passed
    explicitly.  A [str] is a list of characters, one code point per byte.  Files are
    read from a tree of entries [fs].  Printing is not modelled: what a program
    reports is a value.

    ** The files

    Python itself: Prelude.v (this file: exceptions, [mapR] and [foldR], refinement of
    computations, [within]: not out of fuel), PyStr.v ([str]), PyRe.v ([re], with the
    engine and its declarative reading [matches]), PyFloat.v (binary64), PyOs.v
    ([os], [os.path], [struct], SHA-256), NumPy.v (arrays over a class of arithmetics,
    with the laws of exact arithmetic as a second class, and the rationals and the
    doubles as instances).

    tools/ctest_cached.py: CtestInputs.v ([loadedBytesHash], [Inputs]), CtestClosure.v
    ([Closure]), CtestCached.v ([fingerprint], [splitArguments], [main]).  CtestSpec.v is
    the specification: the same values computed without memos, and the invariant
    [coherent] of the memos.  The theorems: CtestElf.v (what the hash of an ELF file
    identifies), CtestWorklist.v (the worklist reaches everything, in any order; the
    pool's order does not matter), CtestProofs.v (a test held back has passed on the
    inputs it has now; what is recorded, run and held), CtestEnds.v (a fingerprint is
    always computed), CtestArgs.v (the command line against a grammar).

    tools/foam_time_compare.py: FoamTime.v ([Read] the tokenizer and parser, [Num]
    numbers, [Cmp] the comparison, [Main] the driver), FoamTimeProofs.v (round trip and
    termination of the parser, what the structure flag and [worst] mean, the exit
    status).

    tools/of_manifest.py: ManifestData.v, ManifestSimple.v, ManifestInter.v and
    ManifestRho.v (the component table, entry by entry), Manifest.v (quoting, [emit],
    provenance, [main]), ManifestProofs.v ([--check] accepts only the manifest produced
    now and the drift check is complete, the exit statuses, the tables are well formed),
    ManifestQuote.v (a value as [y] writes it against YAML's flow scalars, a relation
    [reads]).

    The audits: Audits.v (cache_key_audit.py, header_odr_audit.py, slice_provenance.py,
    mirror_coverage.py) with AuditProofs.v; Resize.v (resize_audit.py) with
    ResizeProofs.v; Defaults.v (default_audit.py) with DefaultsProofs.v; Pimple.v
    (pimplefoam_coverage.py) with PimpleProofs.v.  Each has its exit status in terms of
    the files it read, or says when its report can be written, and has the theorems on
    its comment stripper, scanner, closure or table.

    demo/amgpcg/make_steps.py: Amg.v (aggregation, levels, cycles, outer solvers,
    recorder, tables), AmgAggregate.v (aggregation is a partition into connected parts),
    AmgLevels.v (the levels end; the shapes of a hierarchy agree or it is cut short),
    AmgTrace.v (the frames of a run; in exact arithmetic the Galerkin entries and the
    carried residual), AmgWitness.v.

    demo/amgpcg/make_compare.py and replay.py: AmgTables.v (the four tables of
    make_steps.py as text, with the formatting of a number as a class), Replay.v
    ([Compare] and [Replay], a picture being the record of what is drawn).  ReplayLoad.v
    (what is loaded from written tables), ReplaySizes.v (the frames have the sizes of
    their grids), ReplayRuns.v (what [main] of make_steps.py leaves), ReplayProofs.v (the
    film of a run shows every recorded frame, each cell with the recorded value),
    ReplayCompare.v (the rows and the summary of make_compare.py; the three solvers in
    lockstep, and the film of a trace without brae that never starts), ReplayOf.v (the
    sizes of OpenFOAM's run; what [main] of make_steps.py writes can always be compared,
    from the trace to the film), ReplayWitness.v.

    bench/rhoSimpleFoam/eps_precond_experiment.py and u_precond_experiment.py: Precond.v
    ([Mesh] the face lists and the two colours, [Prec] the preconditioners, [Solve]
    BiCGStab and the sweeps, [Run] the two programs), PrecondColour.v (the walk decides
    whether the mesh has two colours), PrecondSums.v (sums over faces, sequential
    sweeps), PrecondProofs.v (what DILU solves; the two-colour DILU is one),
    PrecondKrylov.v (the polynomial, Gauss-Seidel by colour, where BiCGStab and
    the sweeps stop, the momentum run comes back), PrecondWitness.v.

    tools/timeInterFoam/parts_report.py and bench/rhoSimpleFoam/phase_table.py: Reports.v
    ([Parts], [Phases]), ReportsProofs.v (the cost of a step out of two runs, the mean of
    OpenFOAM's steps, the blocks that add up), ReportsWitness.v.

    tools/dumpSimpleFoam/compare_stages.py: Stages.v, StagesProofs.v (the sets of cells,
    what a line of the report says, a uniform face field), StagesWitness.v.

    demo/f16/render.py: Render.v ([Camera] the fit of a shot to points, [Film] the cells,
    the frames, the track and the pictures), RenderCamera.v (over the real numbers: the
    directions are orthonormal, a fitted distance has every point in the frame, moved
    points move the shot), RenderProofs.v (each frame is drawn once in each view; a sampled frame
    has the camera fitted to it; the views see what they are fitted to; the shot that
    loses a point, in doubles), RenderWitness.v.  Fixed.v is an arithmetic for the
    witnesses that run whole programs.

    ** Bounds of the model

    [Closure.ofScript] is given fuel quadratic in the number of scripts that can be
    reached, and [Fp.take] a depth of four: CtestEnds.v proves both enough.  The
    parser of foam_time_compare.py has as fuel the number of tokens
    ([parse_block_total]).  The comment strippers and the scan for a scope have the
    length of the text plus one, and each turn takes a character.
    [Defaults.close_loop] has [names * fields + 1]: a pass that changes something adds
    a field to a name ([filler_functions_closure]).  [Amg.build_levels] has the number
    of cells: a level has fewer cells than the one above ([build_levels_ends]).
    [Mesh.colour_loop] has the number of cells plus one: a turn colours a cell that had
    no colour ([colouring_decides]).  BiCGStab and the sweeps have
    one turn more than the code's own MAXIT, for the last test: each turn counts
    ([bicgstab_stops], [sweeps_stop]).  [Pimple.makedirs] has the length of the path plus
    one: the directory of a path is shorter ([coverage_outcome]).  The regular expressions have the length of the text: a turn of a repetition that
    consumes nothing ends it.

    ** What is a parameter

    Code that is not the repository's: ctest and the tests it runs, [nvidia-smi], the
    iteration order of a set, ofscan's database, the shell ([grep], [find]),
    what the operating system refuses to create,
    SciPy's sparse product ([Sparse]) and [spsolve], NumPy's [loadtxt], [fromstring],
    [argsort], [linspace], [interp], [percentile], [linalg.norm], [linalg.solve] and
    random vector, PyVista's reader and filters ([Vtk]), [gzip], the fixed-point
    formatting of a number, and the dumped files of the solver.

    ** Not modelled

    Printing and the wording of messages; the decoding of bytes that are not text;
    interrupted and concurrent runs of a tool (a run reads one state of the file
    system, except that the tests of ctest_cached.py may change it, and the tasks of
    its pool are atomic); times and commits beside the store's entries; argparse.  The
    solvers themselves, in C++ and CUDA, with their shell gates, are other languages.
    The scripts that only draw (the plots of bench/, whose numbers are written in
    them) are calls of matplotlib; the
    comparison scripts of tests/ belong to single test cases. *)
From stdpp Require Export base list strings gmap.
From Stdlib Require Export Ascii ZArith Lia.
From Stdlib Require String.

(** ** Text

    A Python [str] (and a [bytes] object) is the list of its code points; the
    library models code points below 256. *)
Abbreviation str := (list ascii).
Coercion String.list_ascii_of_string : String.string >-> list.

Declare Scope py_scope.
Delimit Scope py_scope with py.

Definition nl : ascii := "010"%char.

(** ** Python exceptions

    A function that can raise returns [res A].  [OutOfFuel] is not a Python
    exception: it marks a bound of the model, and every function that uses one
    has a theorem that it is never returned. *)
Inductive exn :=
  | IndexError | ValueError | TypeError | KeyError | StructError | OSError
  | OverflowError | StopIteration | ZeroDivisionError | LinAlgError
  | AttributeError | AssertionError
  | OutOfFuel.

Inductive res (A : Type) : Type :=
  | Ok (a : A)
  | Raise (e : exn).
Arguments Ok {_} _.
Arguments Raise {_} _.

#[export] Instance exn_eq_dec : EqDecision exn.
Proof. solve_decision. Defined.

#[export] Instance res_mret : MRet res := @Ok.
#[export] Instance res_mbind : MBind res := λ A B f m,
  match m with Ok a => f a | Raise e => Raise e end.
#[export] Instance res_fmap : FMap res := λ A B f m,
  match m with Ok a => Ok (f a) | Raise e => Raise e end.

Definition from_opt {A} (e : exn) (o : option A) : res A :=
  match o with Some a => Ok a | None => Raise e end.

(** [l[i]] for a non-negative index. *)
Definition getitem {A} (l : list A) (i : nat) : res A :=
  from_opt IndexError (l !! i).

Lemma bind_Ok {A B} (m : res A) (f : A → res B) b :
  (m ≫= f) = Ok b ↔ ∃ a, m = Ok a ∧ f a = Ok b.
Proof. destruct m as [a|e]; cbn; [|by split; [|intros (? & ? & _)]].
  split; [by exists a | by intros (? & [= ->] & ?)]. Qed.

Lemma fmap_Ok {A B} (m : res A) (f : A → B) b :
  (f <$> m) = Ok b ↔ ∃ a, m = Ok a ∧ b = f a.
Proof. destruct m as [a|e]; cbn; [|by split; [|intros (? & ? & _)]].
  split; [intros [= <-]; by exists a | by intros (? & [= ->] & ->)]. Qed.

Lemma from_opt_Ok {A} e (o : option A) a : from_opt e o = Ok a ↔ o = Some a.
Proof. destruct o; cbn; naive_solver. Qed.

Lemma getitem_Ok {A} (l : list A) i a : getitem l i = Ok a ↔ l !! i = Some a.
Proof. apply from_opt_Ok. Qed.

(** [res_inv] takes a hypothesis [m ≫= f = Ok b] apart. *)
Ltac res_inv :=
  repeat match goal with
  | H : (_ ≫= _) = Ok _ |- _ => apply bind_Ok in H; destruct H as (? & ? & H)
  | H : (_ <$> _) = Ok _ |- _ => apply fmap_Ok in H; destruct H as (? & ? & H)
  | H : from_opt _ _ = Ok _ |- _ => apply from_opt_Ok in H
  | H : Ok _ = Ok _ |- _ => injection H as H; try subst
  | H : Raise _ = Ok _ |- _ => discriminate H
  | H : mret _ = Ok _ |- _ => injection H as H; try subst
  end.

(** [mapM] over [res]. *)
Fixpoint mapR {A B} (f : A → res B) (l : list A) : res (list B) :=
  match l with
  | [] => Ok []
  | x :: l => y ← f x; ys ← mapR f l; Ok (y :: ys)
  end.

Lemma mapR_Ok {A B} (f : A → res B) l l' :
  mapR f l = Ok l' ↔ Forall2 (λ x y, f x = Ok y) l l'.
Proof.
  revert l'; induction l as [|x l IH]; intros l'; cbn.
  - split; [intros [= <-]; constructor | by inversion 1].
  - rewrite bind_Ok; setoid_rewrite bind_Ok. split.
    + intros (y & ? & ys & ? & [= <-]). constructor; [done | by apply IH].
    + inversion 1 as [|? y ? ys]; subst. exists y; split; [done|].
      exists ys. split; [by apply IH | done].
Qed.

Lemma mapR_total {A B} (f : A → res B) l :
  (∀ x, x ∈ l → ∃ y, f x = Ok y) → ∃ l', mapR f l = Ok l'.
Proof.
  induction l as [|x l IH]; intros Hl; [by eexists|]. cbn [mapR].
  destruct (Hl x ltac:(left)) as [y ->]. cbn [mbind res_mbind].
  destruct IH as [l' ->]; [intros z Hz; apply Hl; by right|]. by eexists.
Qed.

Lemma mapR_ext {A B} (f g : A → res B) l : (∀ x, f x = g x) → mapR f l = mapR g l.
Proof. intros Hfg. induction l as [|x l IH]; [done|]. cbn [mapR]. by rewrite Hfg, IH. Qed.

(** A left fold that can raise.  [f] stays outside the recursion, so that a
    fixpoint on nested data may pass through it. *)
Definition foldR {A S} (f : S → A → res S) : list A → S → res S :=
  fix go l s :=
    match l with
    | [] => Ok s
    | x :: l => s' ← f s x; go l s'
    end.

Lemma foldR_app {A S} (f : S → A → res S) l1 l2 s :
  foldR f (l1 ++ l2) s = (s' ← foldR f l1 s; foldR f l2 s').
Proof.
  revert s; induction l1 as [|x l1 IH]; intros s; cbn; [done|].
  destruct (f s x) as [s'|e]; cbn; [apply IH | done].
Qed.

(** An invariant of the state survives the fold. *)
Lemma foldR_ind {A S} (P : S → Prop) (f : S → A → res S) l s s' :
  foldR f l s = Ok s' → P s →
  (∀ x s1 s2, x ∈ l → P s1 → f s1 x = Ok s2 → P s2) → P s'.
Proof.
  revert s; induction l as [|x l IH]; intros s; cbn.
  - by intros [= <-].
  - intros Hf Hs Hstep; res_inv. eapply IH; [done| |].
    + eapply Hstep; [left | done | done].
    + intros y s1 s2 Hy; apply Hstep; by right.
Qed.

(** A property of the state that each step keeps exactly when its element
    satisfies [Q] holds at the end when every element does. *)
Lemma foldR_iff {A S} (G : S → Prop) (Q : A → Prop) (f : S → A → res S) l s s' :
  foldR f l s = Ok s' →
  (∀ x s1 s2, x ∈ l → f s1 x = Ok s2 → G s2 ↔ G s1 ∧ Q x) →
  G s' ↔ G s ∧ ∀ x, x ∈ l → Q x.
Proof.
  revert s; induction l as [|x l IH]; intros s; cbn.
  - intros [= <-] _. split; [|tauto]. intros H; split; [done|].
    by intros ? ?%not_elem_of_nil.
  - intros (s1 & Hs1 & Hf)%bind_Ok Hstep.
    rewrite (IH _ Hf), (Hstep x s s1) by (try left; done || (intros; apply Hstep; [by right|done])).
    setoid_rewrite elem_of_cons. split.
    + intros [[HG HQ] Hl]. split; [done|]. intros y [->|Hy]; auto.
    + intros [HG Hl]. split; [split; auto|]. auto.
Qed.

(** ** Refinement of computations

    [refines R m m']: [m] and [m'] raise the same exception, or both return,
    related values. *)
Definition refines {A B} (R : A → B → Prop) (m : res A) (m' : res B) : Prop :=
  match m, m' with
  | Ok a, Ok b => R a b
  | Raise e, Raise e' => e = e'
  | _, _ => False
  end.

Lemma refines_bind {A B A' B'} (R : A → B → Prop) (R' : A' → B' → Prop) m m' k k' :
  refines R m m' → (∀ a b, R a b → refines R' (k a) (k' b)) →
  refines R' (m ≫= k) (m' ≫= k').
Proof. destruct m, m'; cbn; try done; auto. Qed.

Lemma refines_foldR {X S T} (R : S → T → Prop) (f : S → X → res S) (g : T → X → res T) l s t :
  R s t → (∀ x s t, R s t → refines R (f s x) (g t x)) →
  refines R (foldR f l s) (foldR g l t).
Proof.
  intros H Hstep; revert s t H; induction l as [|x l IH]; intros s t H; [done|].
  cbn [foldR]. eapply refines_bind; [by apply Hstep|]. apply IH.
Qed.

Lemma refines_eq {A} (m : res A) : refines eq m m.
Proof. by destruct m. Qed.

Lemma refines_Ok {A B} (R : A → B → Prop) m m' a :
  refines R m m' → m = Ok a → ∃ b, m' = Ok b ∧ R a b.
Proof. intros H ->. destruct m'; [eauto | done]. Qed.

(** A fold that appends one result per element. *)
Lemma refines_collect {X B S} (Inv : S → Prop) (step : list B * S → X → res (list B * S))
    (g : X → res B) l rows s :
  Inv s →
  (∀ x rows s, Inv s →
     refines (λ y b, y.1 = rows ++ [b] ∧ Inv y.2) (step (rows, s) x) (g x)) →
  refines (λ y bs, y.1 = rows ++ bs ∧ Inv y.2) (foldR step l (rows, s)) (mapR g l).
Proof.
  intros Hs Hstep; revert rows s Hs; induction l as [|x l IH]; intros rows s Hs.
  { cbn. by rewrite app_nil_r. }
  cbn [foldR mapR]. eapply refines_bind; [by apply Hstep|].
  intros [rows1 s1] b [E Hs1]. cbn in E, Hs1. subst rows1.
  specialize (IH (rows ++ [b]) s1 Hs1).
  destruct (foldR step l _) as [[rows2 s2]|], (mapR g l) as [bs|]; try done.
  cbn in *. destruct IH as [-> Hs2]. by rewrite <- app_assoc.
Qed.

(** ** Computations that do not hit a bound *)
Definition within {A} (m : res A) : Prop := m ≠ Raise OutOfFuel.

Lemma within_bind {A B} (m : res A) (k : A → res B) :
  within m → (∀ a, m = Ok a → within (k a)) → within (m ≫= k).
Proof. destruct m as [a|e]; cbn; [by intros _ H; apply H|]. by intros H _ [= ->]. Qed.
Lemma within_Ok {A} (a : A) : within (Ok a).
Proof. done. Qed.
Lemma within_from_opt {A} e (o : option A) : e ≠ OutOfFuel → within (from_opt e o).
Proof. destruct o; [done|]. by intros H [= ->]. Qed.
Lemma within_fmap {A B} (g : A → B) (m : res A) : within m → within (g <$> m).
Proof. destruct m; [done|]. intros H [= ->]. by apply H. Qed.
Lemma within_mapR {A B} (g : A → res B) l : (∀ x, x ∈ l → within (g x)) → within (mapR g l).
Proof.
  induction l as [|x l IH]; intros H; [done|]. cbn [mapR].
  apply within_bind; [apply H; left|]. intros y _.
  apply within_bind; [|done]. apply IH. intros z Hz. apply H. by right.
Qed.
Lemma within_foldR {A S} (g : S → A → res S) l s :
  (∀ x s, x ∈ l → within (g s x)) → within (foldR g l s).
Proof.
  revert s; induction l as [|x l IH]; intros s H; [done|]. cbn [foldR].
  apply within_bind; [apply H; left|]. intros s' _. apply IH. intros z s2 Hz. apply H. by right.
Qed.
Lemma refines_within {A B} (R : A → B → Prop) m m' : refines R m m' → within m' → within m.
Proof. destruct m as [a|e], m' as [b|e']; cbn; [done..|intros -> H [= ->]; by apply H]. Qed.

(** [within_step] opens one bind, conditional or call. *)
Ltac within_step :=
  match goal with
  | |- within (_ ≫= _) => apply within_bind; [|intros]
  | |- within (_ <$> _) => apply within_fmap
  | |- within (from_opt _ _) => by apply within_from_opt
  | |- within (getitem _ _) => by apply within_from_opt
  | |- within (Ok _) => apply within_Ok
  | |- within (Raise _) => discriminate
  | |- within (if ?b then _ else _) => destruct b
  | |- within (match ?x with _ => _ end) => destruct x
  end.

Create HintDb within.
Ltac within := repeat (within_step || (by eauto with within)).

Create HintDb py.

(** ** Lists *)

Lemma fold_left_ind {A S} (P : S → Prop) (f : S → A → S) l s :
  P s → (∀ x s1, x ∈ l → P s1 → P (f s1 x)) → P (fold_left f l s).
Proof.
  revert s; induction l as [|x l IH]; intros s Hs Hstep; cbn; [done|].
  apply IH; [apply Hstep; [left | done] |].
  intros y s1 Hy; apply Hstep; by right.
Qed.

Lemma existsb_elem {A} (f : A → bool) l :
  existsb f l = true ↔ ∃ x, x ∈ l ∧ f x = true.
Proof.
  rewrite existsb_exists. by setoid_rewrite <- list_elem_of_In.
Qed.

Lemma forallb_elem {A} (f : A → bool) l :
  forallb f l = true ↔ ∀ x, x ∈ l → f x = true.
Proof. rewrite forallb_forall. by setoid_rewrite <- list_elem_of_In. Qed.

(** Membership in the lists the standard functions return. *)
Lemma filter_nil {A} (p : A → bool) l :
  List.filter p l = [] ↔ ∀ x, x ∈ l → p x = false.
Proof.
  induction l as [|x l IH]; cbn.
  { split; [by intros _ x ?%not_elem_of_nil | done]. }
  setoid_rewrite elem_of_cons. destruct (p x) eqn:E; rewrite ?IH.
  - split; [done|]. intros H. specialize (H x (or_introl eq_refl)). congruence.
  - split; [intros H y [->|]; auto | auto].
Qed.

Lemma filter_all {A} (p : A → bool) l : (∀ x, x ∈ l → p x = true) → List.filter p l = l.
Proof.
  induction l as [|x l IH]; intros H; cbn; [done|].
  rewrite H by left. f_equal. apply IH. intros y Hy. apply H. by right.
Qed.

Lemma elem_of_lfilter {A} (p : A → bool) l x : x ∈ List.filter p l ↔ x ∈ l ∧ p x = true.
Proof. rewrite !list_elem_of_In. apply List.filter_In. Qed.
Lemma elem_of_lmap {A B} (g : A → B) l y : y ∈ map g l ↔ ∃ x, y = g x ∧ x ∈ l.
Proof. apply list_elem_of_fmap. Qed.
Lemma elem_of_flat_map {A B} (g : A → list B) l y : y ∈ flat_map g l ↔ ∃ x, x ∈ l ∧ y ∈ g x.
Proof. rewrite list_elem_of_In, in_flat_map. by setoid_rewrite list_elem_of_In. Qed.

Lemma mapR_concat_elem {A B} (g : A → res (list B)) l ls b :
  mapR g l = Ok ls → b ∈ concat ls ↔ ∃ x bs, x ∈ l ∧ g x = Ok bs ∧ b ∈ bs.
Proof.
  intros H%mapR_Ok. induction H as [|x bs l ls Hx _ IH]; cbn.
  - split; [by intros ?%not_elem_of_nil | by intros (? & ? & ?%not_elem_of_nil & _)].
  - rewrite elem_of_app, IH. setoid_rewrite elem_of_cons. split.
    + intros [Hb|(y & bs' & Hy & Hg & Hb)]; [exists x, bs | exists y, bs']; auto.
    + intros (y & bs' & [->|Hy] & Hg & Hb); [left; congruence | right; eauto].
Qed.
