(* ===== verification/PyStr.v ===== *)
(** * Python text operations

    [str.find], [str.rfind], [str.split] with a one-character separator,
    [str.join], [str.strip], [str.lower], [str.startswith], the substring test
    [in], and the character classes of [str] and [re] on code points below 256,
    each with the lemmas that characterise it.  This file models the language's
    library, not code of the repository. *)
From Stdlib Require DecimalString DecimalZ.
From S2P Require Export Prelude.

(** ** Characters *)

Definition code (c : ascii) : Z := Z.of_N (N_of_ascii c).

Definition between (lo hi : Z) (c : ascii) : bool :=
  (lo <=? code c)%Z && (code c <=? hi)%Z.

(** [str.isspace] on code points below 256; [re]'s [\s] agrees. *)
Definition is_space (c : ascii) : bool :=
  between 9 13 c || between 28 32 c || (code c =? 133)%Z || (code c =? 160)%Z.

Definition is_digit (c : ascii) : bool := between 48 57 c.

(** [re]'s [\w]: [str.isalnum] or an underscore, on code points below 256. *)
Definition is_word (c : ascii) : bool :=
  is_digit c || between 65 90 c || between 97 122 c || (code c =? 95)%Z
  || (code c =? 170)%Z || between 178 179 c || (code c =? 181)%Z
  || between 185 186 c || between 188 190 c || between 192 214 c
  || between 216 246 c || between 248 255 c.

(** [str.lower] for one code point. *)
Definition lower1 (c : ascii) : ascii :=
  if between 65 90 c || between 192 214 c || between 216 222 c
  then ascii_of_N (Z.to_N (code c + 32)) else c.
Definition lower : str → str := map lower1.

(** [str.isdigit]: the superscripts count, the empty string does not. *)
Definition isdigit1 (c : ascii) : bool :=
  is_digit c || between 178 179 c || (code c =? 185)%Z.
Definition isdigit (s : str) : bool := negb (bool_decide (s = [])) && forallb isdigit1 s.

(** ** Prefix, substring, search *)

Fixpoint starts (p s : str) : bool :=
  match p, s with
  | [], _ => true
  | _ :: _, [] => false
  | a :: p, b :: s => Ascii.eqb a b && starts p s
  end.

(** [s.startswith(p, i)]. *)
Definition starts_at (p s : str) (i : nat) : bool := starts p (drop i s).

Definition ends (p s : str) : bool := starts (rev p) (rev s).

Fixpoint find0 (p s : str) : option nat :=
  if starts p s then Some 0
  else match s with
       | [] => None
       | _ :: s => match find0 p s with Some n => Some (S n) | None => None end
       end.

(** [s.find(p, i)] for a non-negative [i]; Python's [-1] is [None]. *)
Definition find (p s : str) (i : nat) : option nat :=
  if i <=? length s then (λ n, i + n) <$> find0 p (drop i s) else None.

(** [p in s]. *)
Definition contains (p s : str) : bool := bool_decide (is_Some (find0 p s)).

(** [s.rfind(p)]: the last occurrence. *)
Fixpoint rfind0 (p s : str) : option nat :=
  match s with
  | [] => if starts p [] then Some 0 else None
  | _ :: s' =>
      match rfind0 p s' with
      | Some n => Some (S n)
      | None => if starts p s then Some 0 else None
      end
  end.

(** [s.rfind(p, 0, hi)] for a non-negative [hi]. *)
Definition rfind (p s : str) (hi : nat) : option nat := rfind0 p (take hi s).

(** [s[i:j]] for non-negative bounds. *)
Definition slice (s : str) (i j : nat) : str := take (j - i) (drop i s).
Arguments slice : simpl never.

(** [s.count(c)] for one character. *)
Definition count (c : ascii) (s : str) : nat :=
  length (List.filter (Ascii.eqb c) s).
Arguments count : simpl never.

(** ** split, join, strip *)

(** [s.split(c)] for one character: always at least one piece. *)
Fixpoint split (c : ascii) (s : str) : list str :=
  match s with
  | [] => [[]]
  | a :: s =>
      if Ascii.eqb a c then [] :: split c s
      else match split c s with
           | [] => [[a]]
           | p :: ps => (a :: p) :: ps
           end
  end.

(** [s.split(c, 1)]: the text before the first [c], and the rest if there is
    one. *)
Fixpoint split1 (c : ascii) (s : str) : str * option str :=
  match s with
  | [] => ([], None)
  | a :: s =>
      if Ascii.eqb a c then ([], Some s)
      else let '(p, r) := split1 c s in (a :: p, r)
  end.

Fixpoint join (sep : str) (l : list str) : str :=
  match l with
  | [] => []
  | [p] => p
  | p :: l => p ++ sep ++ join sep l
  end.

Fixpoint lstrip (s : str) : str :=
  match s with
  | [] => []
  | a :: s' => if is_space a then lstrip s' else s
  end.
Definition rstrip (s : str) : str := rev (lstrip (rev s)).
Definition strip (s : str) : str := rstrip (lstrip s).

(** [s.split()]: the runs of characters that are not white space. *)
Fixpoint words_go (cur : str) (s : str) : list str :=
  match s with
  | [] => match cur with [] => [] | _ => [rev cur] end
  | a :: s =>
      if is_space a
      then match cur with [] => words_go [] s | _ => rev cur :: words_go [] s end
      else words_go (a :: cur) s
  end.
Definition words : str → list str := words_go [].

(** [s.replace(c, r)] for one character. *)
Definition replace1 (c : ascii) (r : str) (s : str) : str :=
  flat_map (λ a, if Ascii.eqb a c then r else [a]) s.

(** ** Lemmas *)

Lemma ascii_eqb_eq a b : Ascii.eqb a b = true ↔ a = b.
Proof. apply Ascii.eqb_eq. Qed.

Lemma starts_spec p s : starts p s = true ↔ ∃ r, s = p ++ r.
Proof.
  revert s; induction p as [|a p IH]; intros s; cbn.
  - split; [by exists s | done].
  - destruct s as [|b s]; [split; [done | by intros (r & [=])]|].
    rewrite andb_true_iff, ascii_eqb_eq, IH. split.
    + intros (-> & r & ->). by exists r.
    + intros (r & [= -> ->]). split; [done | by exists r].
Qed.

Lemma starts_app p r : starts p (p ++ r) = true.
Proof. apply starts_spec. by exists r. Qed.

Lemma find0_Some p s n :
  find0 p s = Some n →
  starts p (drop n s) = true ∧ n ≤ length s ∧
  ∀ m, m < n → starts p (drop m s) = false.
Proof.
  revert n; induction s as [|a s IH]; intros n; cbn.
  - destruct (starts p []) eqn:E; [intros [= <-] | done].
    repeat split; [done | cbn; lia | lia].
  - destruct (starts p (a :: s)) eqn:E.
    + intros [= <-]. repeat split; [done | lia | lia].
    + destruct (find0 p s) as [n'|]; [intros [= <-] | done].
      destruct (IH _ eq_refl) as (H1 & H2 & H3).
      repeat split; [done | cbn; lia |].
      intros [|m] Hm; [done | apply H3; lia].
Qed.

Lemma find0_None p s :
  find0 p s = None → ∀ m, m ≤ length s → starts p (drop m s) = false.
Proof.
  induction s as [|a s IH]; cbn.
  - destruct (starts p []) eqn:E; [done|]. intros _ m _. by rewrite drop_nil.
  - destruct (starts p (a :: s)) eqn:E; [done|].
    destruct (find0 p s); [done|].
    intros _ [|m] Hm; [done|]. apply IH; [done | lia].
Qed.

(** The first occurrence splits the text. *)
Lemma find0_split p s n :
  find0 p s = Some n → ∃ r, s = take n s ++ p ++ r.
Proof.
  intros (H & _ & _)%find0_Some. apply starts_spec in H as [r Hr].
  exists r. by rewrite <- Hr, take_drop.
Qed.

Lemma find0_intro p s n :
  starts p (drop n s) = true → n ≤ length s →
  (∀ m, m < n → starts p (drop m s) = false) → find0 p s = Some n.
Proof.
  intros Hn Hle Hm. destruct (find0 p s) as [k|] eqn:E.
  - apply find0_Some in E as (H1 & H2 & H3).
    destruct (Nat.lt_trichotomy n k) as [H|[->|H]]; [|done|].
    + specialize (H3 n H); congruence.
    + specialize (Hm k H); congruence.
  - pose proof (find0_None _ _ E n Hle). congruence.
Qed.

Lemma find0_char c s n : find0 [c] s = Some n → c ∉ take n s.
Proof.
  intros (_ & Hle & H)%find0_Some [i Hi]%list_elem_of_lookup_1.
  pose proof (lookup_lt_Some _ _ _ Hi) as Hlt. rewrite length_take in Hlt.
  rewrite lookup_take, decide_True in Hi by lia. specialize (H i ltac:(lia)).
  rewrite (drop_S _ _ _ Hi) in H. cbn in H. by rewrite Ascii.eqb_refl in H.
Qed.

Lemma find_char c s i j : find [c] s i = Some j → c ∉ slice s i j.
Proof.
  unfold find, slice. case_match; [|done]. intros (n & Hn & ->)%fmap_Some.
  replace (i + n - i) with n by lia. by apply find0_char.
Qed.

Lemma contains_spec p s : contains p s = true ↔ ∃ a b, s = a ++ p ++ b.
Proof.
  unfold contains. rewrite bool_decide_eq_true. split.
  - intros [n Hn]. destruct (find0_split _ _ _ Hn) as [r Hr]. eauto.
  - intros (a & b & ->). destruct (find0 p (a ++ p ++ b)) eqn:E; [done|].
    pose proof (find0_None _ _ E (length a)) as H.
    rewrite drop_app_length, starts_app in H.
    rewrite length_app in H. by discriminate H; lia.
Qed.

Lemma count_app c s t : count c (s ++ t) = count c s + count c t.
Proof. unfold count. by rewrite List.filter_app, length_app. Qed.

Lemma count_cons c a s :
  count c (a :: s) = (if Ascii.eqb c a then 1 else 0) + count c s.
Proof. unfold count; cbn. by destruct (Ascii.eqb c a). Qed.

Lemma count_0 c s : count c s = 0 ↔ c ∉ s.
Proof.
  induction s as [|a s IH]; [split; [intros _; apply not_elem_of_nil | done]|].
  rewrite count_cons, not_elem_of_cons.
  destruct (Ascii.eqb_spec c a) as [->|Hne]; cbn.
  - split; [lia | by intros [? _]].
  - rewrite IH. tauto.
Qed.

Lemma split_not_nil c s : split c s ≠ [].
Proof. destruct s as [|a s]; cbn; [done|]. repeat case_match; done. Qed.

Lemma length_split c s : length (split c s) = S (count c s).
Proof.
  induction s as [|a s IH]; cbn; [done|].
  rewrite count_cons. rewrite (Ascii.eqb_sym c a).
  destruct (Ascii.eqb a c); cbn; [by rewrite IH|].
  pose proof (split_not_nil c s). destruct (split c s); [done|]. cbn in *. lia.
Qed.

(** [c.join(s.split(c)) == s]. *)
Lemma join_split c s : join [c] (split c s) = s.
Proof.
  induction s as [|a s IH]; cbn; [done|].
  pose proof (split_not_nil c s) as Hn.
  destruct (Ascii.eqb_spec a c) as [->|Hne].
  - destruct (split c s); [done|]. cbn in *. by rewrite IH.
  - destruct (split c s) as [|p [|q ps]]; [done|..]; cbn in *; by rewrite IH.
Qed.

Lemma split_app_sep c p s : c ∉ p → split c (p ++ c :: s) = p :: split c s.
Proof.
  induction p as [|a p IH]; cbn.
  - intros _. by rewrite (proj2 (ascii_eqb_eq c c) eq_refl).
  - intros [Hne Hp]%not_elem_of_cons.
    destruct (Ascii.eqb_spec a c) as [->|_]; [done|]. by rewrite IH.
Qed.

(** The text before the first [c] and the text after it. *)
Lemma sep_inj {A} (c : A) a b r r' :
  c ∉ a → c ∉ b → a ++ c :: r = b ++ c :: r' → a = b ∧ r = r'.
Proof.
  revert b; induction a as [|x a IH]; intros [|y b] Ha Hb [= ]; subst;
    rewrite ?not_elem_of_cons in *; try tauto.
  destruct (IH b) as [-> ->]; tauto.
Qed.

Lemma split_no_sep c p : c ∉ p → split c p = [p].
Proof.
  induction p as [|a p IH]; cbn; [done|].
  intros [Hne Hp]%not_elem_of_cons.
  destruct (Ascii.eqb_spec a c) as [->|_]; [done|]. by rewrite IH.
Qed.

(** [c.join(l).split(c) == l] when no piece holds the separator. *)
Lemma split_join c l :
  l ≠ [] → Forall (λ p, c ∉ p) l → split c (join [c] l) = l.
Proof.
  intros Hne; induction l as [|p [|q l] IH]; [done| |].
  - intros [Hp _]%Forall_cons. by apply split_no_sep.
  - intros [Hp Hl]%Forall_cons. change (join [c] (p :: q :: l)) with (p ++ c :: join [c] (q :: l)).
    rewrite split_app_sep by done. f_equal. by apply IH.
Qed.

(** Joining rows with a separator no row holds is injective on non-empty
    lists. *)
Lemma join_inj c l1 l2 :
  l1 ≠ [] → l2 ≠ [] → Forall (λ p, c ∉ p) l1 → Forall (λ p, c ∉ p) l2 →
  join [c] l1 = join [c] l2 → l1 = l2.
Proof.
  intros N1 N2 H1 H2 E.
  rewrite <- (split_join c l1 N1 H1), <- (split_join c l2 N2 H2). by rewrite E.
Qed.

#[export] Hint Resolve starts_app split_not_nil : py.

(** ** Ordering and [sorted] *)

(** [a <= b] on [str]: by code points. *)
Fixpoint str_leb (a b : str) : bool :=
  match a, b with
  | [], _ => true
  | _ :: _, [] => false
  | x :: a, y :: b =>
      if Ascii.eqb x y then str_leb a b else (code x <? code y)%Z
  end.

Fixpoint insert_sorted {A} (le : A → A → bool) (x : A) (l : list A) : list A :=
  match l with
  | [] => [x]
  | y :: l' => if le x y then x :: l else y :: insert_sorted le x l'
  end.

(** [sorted(l)], stable, for a total order [le]. *)
Definition sort_by {A} (le : A → A → bool) (l : list A) : list A :=
  foldr (insert_sorted le) [] l.
Definition sorted : list str → list str := sort_by str_leb.

Lemma insert_sorted_Permutation {A} le (x : A) l :
  insert_sorted le x l ≡ₚ x :: l.
Proof.
  induction l as [|y l IH]; cbn; [done|]. case_match; [done|].
  rewrite IH. constructor.
Qed.

Lemma sort_by_Permutation {A} le (l : list A) : sort_by le l ≡ₚ l.
Proof.
  induction l as [|x l IH]; cbn; [done|].
  rewrite insert_sorted_Permutation. by f_equiv.
Qed.

Lemma elem_of_sort_by {A} le (x : A) l : x ∈ sort_by le l ↔ x ∈ l.
Proof. by rewrite sort_by_Permutation. Qed.

Lemma elem_of_sorted x l : x ∈ sorted l ↔ x ∈ l.
Proof. apply elem_of_sort_by. Qed.

Lemma code_inj a b : code a = code b → a = b.
Proof.
  unfold code. intros H%N2Z.inj. rewrite <- (ascii_N_embedding a), H.
  apply ascii_N_embedding.
Qed.

Lemma str_leb_total a b : str_leb a b = true ∨ str_leb b a = true.
Proof.
  revert b; induction a as [|x a IH]; intros [|y b]; cbn; auto.
  destruct (Ascii.eqb_spec x y) as [->|Hne].
  - rewrite (proj2 (ascii_eqb_eq y y) eq_refl). apply IH.
  - destruct (Ascii.eqb_spec y x) as [->|_]; [done|].
    assert (code x ≠ code y) by (intros H%code_inj; done).
    rewrite !Z.ltb_lt. lia.
Qed.

Lemma str_leb_antisym a b : str_leb a b = true → str_leb b a = true → a = b.
Proof.
  revert b; induction a as [|x a IH]; intros [|y b]; cbn; try done.
  destruct (Ascii.eqb_spec x y) as [->|Hne].
  - rewrite (proj2 (ascii_eqb_eq y y) eq_refl). intros; f_equal; auto.
  - destruct (Ascii.eqb_spec y x) as [->|_]; [done|].
    rewrite !Z.ltb_lt. lia.
Qed.

Lemma str_leb_trans a b c :
  str_leb a b = true → str_leb b c = true → str_leb a c = true.
Proof.
  revert b c; induction a as [|x a IH]; intros [|y b] [|z c]; cbn; try done.
  destruct (Ascii.eqb_spec x y), (Ascii.eqb_spec y z), (Ascii.eqb_spec x z);
    subst; try done; rewrite ?Z.ltb_lt; [apply IH | lia | lia].
Qed.

Inductive sorted_le {A} (le : A → A → bool) : list A → Prop :=
  | SL_nil : sorted_le le []
  | SL_cons x l :
      Forall (λ y, le x y = true) l → sorted_le le l → sorted_le le (x :: l).

Lemma insert_sorted_sorted {A} (le : A → A → bool) x l :
  (∀ a b, le a b = true ∨ le b a = true) →
  (∀ a b c, le a b = true → le b c = true → le a c = true) →
  sorted_le le l → sorted_le le (insert_sorted le x l).
Proof.
  intros Ht Htr. induction 1 as [|y l Hy Hl IH]; cbn; [repeat constructor|].
  destruct (le x y) eqn:E.
  - constructor; [|by constructor].
    constructor; [done|]. eapply Forall_impl; [done|]. eauto.
  - constructor; [|done]. rewrite insert_sorted_Permutation.
    constructor; [|done]. destruct (Ht x y); congruence.
Qed.

Lemma sort_by_sorted {A} (le : A → A → bool) l :
  (∀ a b, le a b = true ∨ le b a = true) →
  (∀ a b c, le a b = true → le b c = true → le a c = true) →
  sorted_le le (sort_by le l).
Proof.
  intros Ht Htr. induction l as [|x l IH]; cbn; [constructor|].
  by apply insert_sorted_sorted.
Qed.

(** Two sorted lists with the same members and no repetition are equal:
    [sorted] of a set is a function of the set. *)
Lemma sorted_le_unique {A} (le : A → A → bool) l1 l2 :
  (∀ a b, le a b = true → le b a = true → a = b) →
  sorted_le le l1 → sorted_le le l2 → l1 ≡ₚ l2 → l1 = l2.
Proof.
  intros Ha H1; revert l2; induction H1 as [|x l1 Hx H1 IH]; intros l2 H2 P.
  { by apply Permutation_nil_l in P as ->. }
  destruct H2 as [|y l2 Hy H2]; [by apply Permutation_nil_r in P|].
  assert (x = y) as ->.
  { assert (x ∈ y :: l2) as Hxy by (rewrite <- P; left).
    assert (y ∈ x :: l1) as Hyx by (rewrite P; left).
    apply elem_of_cons in Hxy as [->|Hxy]; [done|].
    apply elem_of_cons in Hyx as [->|Hyx]; [done|].
    rewrite Forall_forall in Hx, Hy. auto. }
  f_equal. apply IH; [done|]. by apply Permutation_cons_inv in P.
Qed.

Lemma sorted_perm l1 l2 : l1 ≡ₚ l2 → sorted l1 = sorted l2.
Proof.
  intros P. apply (sorted_le_unique str_leb).
  - apply str_leb_antisym.
  - apply sort_by_sorted; eauto using str_leb_total, str_leb_trans.
  - apply sort_by_sorted; eauto using str_leb_total, str_leb_trans.
  - unfold sorted. by rewrite !sort_by_Permutation.
Qed.

(** ** Decimal text of an integer: [str(n)], ['%d' % n] *)
Definition dec (z : Z) : str :=
  String.list_ascii_of_string (DecimalString.NilZero.string_of_int (Z.to_int z)).
Arguments dec : simpl never.

Lemma to_int_not_nil z d : Z.to_int z = d → Z.to_int (Z.of_int d) = d.
Proof. intros <-. by rewrite DecimalZ.of_to. Qed.

Lemma dec_inj a b : dec a = dec b → a = b.
Proof.
  unfold dec. intros H. apply (f_equal String.string_of_list_ascii) in H.
  rewrite !String.string_of_list_ascii_of_string in H.
  apply (f_equal DecimalString.NilZero.int_of_string) in H.
  rewrite !DecimalString.NilZero.isi in H
    by (intros E%to_int_not_nil; vm_compute in E; discriminate E).
  by injection H as H%DecimalZ.to_int_inj.
Qed.

Example dec_forms : dec 0 = "0" ∧ dec 105 = "105" ∧ dec (-7) = "-7".
Proof. vm_compute. repeat split. Qed.
