(* ===== verification/PyRe.v ===== *)
(** * Python regular expressions

    The part of the [re] module the scripts use: a pattern is a value of [re],
    matched by backtracking with the leftmost alternative first and greedy or
    lazy repetition, as CPython's engine does.  [search], [match_], [finditer],
    [findall] and [sub] are the module's functions.  [matches] is the
    declarative reading of a pattern; [mtch_sound] and [mtch_complete] relate
    the engine to it.  This file models the language's library, not code of the
    repository. *)
From S2P Require Export PyStr.

(** ** Patterns *)

Inductive citem :=
  | CChar (c : ascii) | CRange (lo hi : ascii) | CWord | CSpace | CDigit.

(** A character class; [neg] is the leading [^]. *)
Record cset := { neg : bool; items : list citem }.

Inductive re :=
  | REps
  | RSet (s : cset)
  | RSeq (a b : re)
  | RAlt (a b : re)
  | RStar (greedy : bool) (a : re)
  | RGroup (n : nat) (a : re)
  | RBol
  | REol
  | RWordB
  | RBehind (wanted : bool) (s : cset)
  | RAhead (wanted : bool) (s : cset).

Definition citem_in (i : citem) (c : ascii) : bool :=
  match i with
  | CChar a => Ascii.eqb a c
  | CRange lo hi => between (code lo) (code hi) c
  | CWord => is_word c
  | CSpace => is_space c
  | CDigit => is_digit c
  end.

Definition in_set (s : cset) (c : ascii) : bool :=
  xorb (neg s) (existsb (λ i, citem_in i c) (items s)).

(** Constructors for the notation of the patterns. *)
Definition cls (l : list citem) : re := RSet {| neg := false; items := l |}.
Definition ncls (l : list citem) : re := RSet {| neg := true; items := l |}.
Definition chr (c : ascii) : re := cls [CChar c].
Fixpoint txt (s : str) : re :=
  match s with [] => REps | [c] => chr c | c :: s => RSeq (chr c) (txt s) end.
Definition any : re := ncls [CChar nl].
Definition anys : re := ncls [].
Definition many (a : re) : re := RStar true a.
Definition many_lazy (a : re) : re := RStar false a.
Definition many1 (a : re) : re := RSeq a (RStar true a).
Definition opt (a : re) : re := RAlt a REps.
Fixpoint seqs (l : list re) : re :=
  match l with [] => REps | [a] => a | a :: l => RSeq a (seqs l) end.
Fixpoint alts (l : list re) : re :=
  match l with [] => REps | [a] => a | a :: l => RAlt a (alts l) end.
Definition w : citem := CWord.
Definition sp : re := cls [CSpace].
Definition word : re := cls [CWord].
(** A character of the text, for use inside a class. *)
Definition chars (s : str) : list citem := map CChar s.

(** ** The engine *)

Record rst := {
  pos : nat;
  prev : option ascii;
  rest : str;
  caps : list (nat * (nat * nat));
}.

(** One character forward. *)
Definition advance (c : ascii) (s : str) (st : rst) : rst :=
  {| pos := S (pos st); prev := Some c; rest := s; caps := caps st |}.

Definition opt_word (o : option ascii) : bool :=
  match o with Some c => is_word c | None => false end.

Definition opt_in (s : cset) (o : option ascii) : bool :=
  match o with Some c => in_set s c | None => false end.

(** [$] without MULTILINE: at the end, or before a final newline. *)
Definition at_end (s : str) : bool :=
  match s with [] => true | [c] => Ascii.eqb c nl | _ => false end.

Definition close_group (n start : nat) (st : rst) : rst :=
  {| pos := pos st; prev := prev st; rest := rest st;
     caps := (n, (start, pos st)) :: caps st |}.

Section engine.
(** The loop of a repetition: [m] matches the body.  An iteration that
    consumes nothing ends the loop. *)
Fixpoint loop (greedy : bool) (m : rst → (rst → option rst) → option rst)
    (fuel : nat) (st : rst) (k : rst → option rst) : option rst :=
  match fuel with
  | 0 => k st
  | S fuel =>
      let more := λ _ : unit, m st (λ st',
        if pos st' =? pos st then None else loop greedy m fuel st' k) in
      if greedy
      then match more () with Some r => Some r | None => k st end
      else match k st with Some r => Some r | None => more () end
  end.

Fixpoint mtch (r : re) (st : rst) (k : rst → option rst) : option rst :=
  match r with
  | REps => k st
  | RSet cs =>
      match rest st with
      | [] => None
      | c :: s => if in_set cs c then k (advance c s st) else None
      end
  | RSeq a b => mtch a st (λ st', mtch b st' k)
  | RAlt a b =>
      match mtch a st k with Some x => Some x | None => mtch b st k end
  | RStar g a => loop g (mtch a) (S (length (rest st))) st k
  | RGroup n a => mtch a st (λ st', k (close_group n (pos st) st'))
  | RBol => if pos st =? 0 then k st else None
  | REol => if at_end (rest st) then k st else None
  | RWordB =>
      if xorb (opt_word (prev st)) (opt_word (head (rest st)))
      then k st else None
  | RBehind wanted cs =>
      if Bool.eqb wanted (opt_in cs (prev st)) then k st else None
  | RAhead wanted cs =>
      if Bool.eqb wanted (opt_in cs (head (rest st))) then k st else None
  end.
End engine.

(** ** What a pattern means *)

Inductive matches : re → rst → rst → Prop :=
  | M_Eps st : matches REps st st
  | M_Set cs c s st :
      rest st = c :: s → in_set cs c = true →
      matches (RSet cs) st (advance c s st)
  | M_Seq a b st st1 st2 :
      matches a st st1 → matches b st1 st2 → matches (RSeq a b) st st2
  | M_AltL a b st st' : matches a st st' → matches (RAlt a b) st st'
  | M_AltR a b st st' : matches b st st' → matches (RAlt a b) st st'
  | M_Star0 g a st : matches (RStar g a) st st
  | M_StarS g a st st1 st2 :
      matches a st st1 → pos st1 ≠ pos st →
      matches (RStar g a) st1 st2 → matches (RStar g a) st st2
  | M_Group n a st st' :
      matches a st st' →
      matches (RGroup n a) st (close_group n (pos st) st')
  | M_Bol st : pos st = 0 → matches RBol st st
  | M_Eol st : at_end (rest st) = true → matches REol st st
  | M_WordB st :
      xorb (opt_word (prev st)) (opt_word (head (rest st))) = true →
      matches RWordB st st
  | M_Behind wanted cs st :
      opt_in cs (prev st) = wanted → matches (RBehind wanted cs) st st
  | M_Ahead wanted cs st :
      opt_in cs (head (rest st)) = wanted → matches (RAhead wanted cs) st st.

(** A state reached from [st] by consuming the text [t]. *)
Definition consumes (st st' : rst) (t : str) : Prop :=
  rest st = t ++ rest st' ∧ pos st' = pos st + length t ∧
  prev st' = last (option_list (prev st) ++ t).

Lemma consumes_refl st : consumes st st [].
Proof.
  repeat split; [cbn; lia|]. rewrite app_nil_r. by destruct (prev st).
Qed.

Lemma consumes_trans st1 st2 st3 t u :
  consumes st1 st2 t → consumes st2 st3 u → consumes st1 st3 (t ++ u).
Proof.
  intros (R1 & P1 & V1) (R2 & P2 & V2). repeat split.
  - by rewrite R1, R2, app_assoc.
  - rewrite P2, P1, length_app. lia.
  - rewrite V2, V1. destruct u as [|c u _] using rev_ind.
    + rewrite !app_nil_r. by destruct (last _).
    + by rewrite !app_assoc, !last_snoc.
Qed.

Lemma consumes_pos st st' t : consumes st st' t → pos st' = pos st → t = [].
Proof. intros (_ & P & _) H. destruct t; [done | cbn in P; lia]. Qed.

Lemma consumes_advance c s st :
  rest st = c :: s → consumes st (advance c s st) [c].
Proof.
  intros H. repeat split; [by rewrite H | cbn; lia |].
  cbn. by rewrite last_snoc.
Qed.

Lemma consumes_close n p st st' t :
  consumes st st' t → consumes st (close_group n p st') t.
Proof. done. Qed.

#[export] Hint Resolve consumes_refl consumes_advance consumes_trans
  consumes_close : py.

Lemma matches_consumes r st st' : matches r st st' → ∃ t, consumes st st' t.
Proof.
  induction 1; repeat match goal with H : ∃ _, _ |- _ => destruct H end;
    eauto with py.
Qed.

Lemma matches_length r st st' :
  matches r st st' → pos st' ≠ pos st → length (rest st') < length (rest st).
Proof.
  intros [t (R & P & _)]%matches_consumes Hne.
  rewrite R, length_app. destruct t; cbn in *; lia.
Qed.

(** ** The engine finds exactly what the pattern means *)

Lemma loop_sound g a m fuel st k x :
  (∀ st k x, m st k = Some x → ∃ st', matches a st st' ∧ k st' = Some x) →
  loop g m fuel st k = Some x →
  ∃ st', matches (RStar g a) st st' ∧ k st' = Some x.
Proof.
  intros Hm; revert st; induction fuel as [|fuel IH]; intros st; cbn.
  { intros H. exists st; split; [constructor | done]. }
  set (more := m st _). intros H.
  assert (k st = Some x ∨ more = Some x) as [Hk|Hmore].
  { destruct g, more, (k st); naive_solver. }
  - exists st; split; [constructor | done].
  - apply Hm in Hmore as (st1 & H1 & Hr).
    destruct (Nat.eqb_spec (pos st1) (pos st)) as [|Hne]; [done|].
    apply IH in Hr as (st2 & H2 & Hk). exists st2; split; [|done].
    by eapply M_StarS.
Qed.

Lemma mtch_sound r : ∀ st k x,
  mtch r st k = Some x → ∃ st', matches r st st' ∧ k st' = Some x.
Proof.
  induction r as [|cs|a IHa b IHb|a IHa b IHb|g a IHa|n a IHa| | | |wt cs|wt cs];
    intros st k x; cbn -[loop].
  - intros H; exists st; split; [constructor | done].
  - destruct (rest st) as [|c s] eqn:E; [done|].
    destruct (in_set cs c) eqn:Hc; [|done].
    intros H; eexists; split; [by apply M_Set | done].
  - intros (st1 & H1 & (st2 & H2 & Hk)%IHb)%IHa.
    exists st2; split; [by eapply M_Seq | done].
  - destruct (mtch a st k) eqn:E.
    + intros [= ->]. apply IHa in E as (st' & H & Hk).
      exists st'; split; [by apply M_AltL | done].
    + intros (st' & H & Hk)%IHb. exists st'; split; [by apply M_AltR | done].
  - intros H. eapply loop_sound; [|done]. done.
  - intros (st' & H & Hk)%IHa. eexists; split; [by apply M_Group | done].
  - destruct (Nat.eqb_spec (pos st) 0); [|done].
    intros H; exists st; split; [by constructor | done].
  - destruct (at_end (rest st)) eqn:E; [|done].
    intros H; exists st; split; [by constructor | done].
  - destruct (xorb _ _) eqn:E; [|done].
    intros H; exists st; split; [by constructor | done].
  - destruct (Bool.eqb_spec wt (opt_in cs (prev st))); [|done].
    intros H; exists st; split; [by constructor | done].
  - destruct (Bool.eqb_spec wt (opt_in cs (head (rest st)))); [|done].
    intros H; exists st; split; [by constructor | done].
Qed.

Lemma loop_complete g a m fuel st st' k :
  (∀ st k st', matches a st st' → is_Some (k st') → is_Some (m st k)) →
  matches (RStar g a) st st' → length (rest st) < fuel → is_Some (k st') →
  is_Some (loop g m fuel st k).
Proof.
  intros Hm Hs Hf Hk. remember (RStar g a) as r eqn:Er.
  revert fuel Hf; induction Hs as [| | | | |g' a' st|g' a' st st1 st2 H1 _ Hne Hs IH
    | | | | | |]; intros fuel Hf; try discriminate Er; injection Er as -> ->.
  - destruct fuel as [|fuel]; [done|]. cbn.
    destruct Hk as [x Hx]. rewrite Hx. destruct g; [|done].
    by case_match.
  - destruct fuel as [|fuel]; [lia|]. cbn. set (more := m st _).
    assert (is_Some more) as [x Hx].
    { apply (Hm _ _ st1); [done|]. destruct (Nat.eqb_spec (pos st1) (pos st)); [done|].
      apply IH; [done|done|]. pose proof (matches_length _ _ _ H1 Hne). lia. }
    rewrite Hx. destruct g; [done|]. by destruct (k st).
Qed.

Lemma mtch_complete r : ∀ st k st',
  matches r st st' → is_Some (k st') → is_Some (mtch r st k).
Proof.
  induction r as [|cs|a IHa b IHb|a IHa b IHb|g a IHa|n a IHa| | | |wt cs|wt cs];
    intros st k st' H Hk; cbn -[loop].
  5: { eapply loop_complete; [|done|lia|done]. intros; by eapply IHa. }
  all: inversion H; subst; clear H.
  - done.
  - match goal with H : rest st = _ |- _ => rewrite H end. by case_match.
  - eapply IHa; [done|]. by eapply IHb.
  - assert (is_Some (mtch a st k)) as [x ->] by (by eapply IHa). done.
  - case_match; [done|]. by eapply IHb.
  - by eapply IHa.
  - match goal with H : pos _ = 0 |- _ => by rewrite H end.
  - by case_match.
  - by case_match.
  - by rewrite Bool.eqb_reflx.
  - by rewrite Bool.eqb_reflx.
Qed.

(** ** Search

    A match object: its bounds in the text and its groups. *)
Record mobj := {
  m_start : nat;
  m_end : nat;
  m_caps : list (nat * (nat * nat));
}.

Definition start_state (s : str) (i : nat) : rst :=
  {| pos := i; prev := last (take i s); rest := drop i s; caps := [] |}.

Definition mk_mobj (i : nat) (st : rst) : mobj :=
  {| m_start := i; m_end := pos st; m_caps := caps st |}.

(** A match starting at the state [st]; with [must_advance] an empty match is
    not accepted. *)
Definition exec (r : re) (must_advance : bool) (st : rst) : option rst :=
  mtch r st (λ st', if must_advance && (pos st' =? pos st) then None else Some st').

(** [Pattern.match(s, i)] *)
Definition match_ (r : re) (s : str) (i : nat) : option mobj :=
  mk_mobj i <$> exec r false (start_state s i).

(** Try [i], [i+1], ... up to the end of the text. *)
Fixpoint search_go (r : re) (must_advance : bool) (s : str) (i fuel : nat) : option mobj :=
  match exec r must_advance (start_state s i) with
  | Some st => Some (mk_mobj i st)
  | None =>
      match fuel with
      | 0 => None
      | S fuel => search_go r false s (S i) fuel
      end
  end.

(** [Pattern.search(s, i)] *)
Definition search (r : re) (s : str) (i : nat) : option mobj :=
  if i <=? length s then search_go r false s i (length s - i) else None.

Fixpoint finditer_go (r : re) (s : str) (fuel : nat) (must_advance : bool) (i : nat) : list mobj :=
  match fuel with
  | 0 => []
  | S fuel =>
      if length s <? i then []
      else match search_go r must_advance s i (length s - i) with
           | None => []
           | Some m => m :: finditer_go r s fuel (m_end m =? m_start m) (m_end m)
           end
  end.

(** [Pattern.finditer(s)]: matches that do not overlap, left to right.  Each
    match ends after the previous one or is the second at its place, so twice
    the length bounds their number. *)
Definition finditer (r : re) (s : str) : list mobj :=
  finditer_go r s (S (S (2 * length s))) false 0.

(** [m.group(0)] *)
Definition group0 (s : str) (m : mobj) : str := slice s (m_start m) (m_end m).

(** [m.group(n)]: [None] when the group took no part in the match. *)
Definition group (n : nat) (s : str) (m : mobj) : option str :=
  match List.find (λ p, p.1 =? n) (m_caps m) with
  | Some (_, (i, j)) => Some (slice s i j)
  | None => None
  end.

Definition group_d (n : nat) (s : str) (m : mobj) : str := default [] (group n s m).

(** [Pattern.findall(s)] for a pattern without groups, and with one group. *)
Definition findall0 (r : re) (s : str) : list str := map (group0 s) (finditer r s).
Definition findall1 (r : re) (s : str) : list str := map (group_d 1 s) (finditer r s).

(** [Pattern.sub(f, s)]. *)
Fixpoint sub_go (f : mobj → str) (s : str) (i : nat) (l : list mobj) : str :=
  match l with
  | [] => drop i s
  | m :: l => slice s i (m_start m) ++ f m ++ sub_go f s (m_end m) l
  end.
Definition sub (r : re) (f : mobj → str) (s : str) : str := sub_go f s 0 (finditer r s).

(** *** The bounds of a match *)

Lemma exec_consumes r ma s i st :
  i ≤ length s → exec r ma (start_state s i) = Some st →
  ∃ t, consumes (start_state s i) st t ∧ matches r (start_state s i) st.
Proof.
  intros Hi (st' & H & Hk)%mtch_sound.
  destruct (ma && _); [done|]. injection Hk as ->.
  destruct (matches_consumes _ _ _ H) as [t Ht]. eauto.
Qed.

Lemma consumes_slice s i st t :
  i ≤ length s → consumes (start_state s i) st t →
  slice s i (pos st) = t ∧ pos st ≤ length s ∧ rest st = drop (pos st) s.
Proof.
  intros Hi (R & P & _); cbn in *.
  assert (length (drop i s) = length t + length (rest st)) as E
    by (rewrite R, length_app; done).
  rewrite length_drop in E. unfold slice. rewrite P.
  replace (i + length t - i) with (length t) by lia. split; [|split].
  - rewrite R. apply take_app_length.
  - lia.
  - rewrite <- drop_drop, R. by rewrite drop_app_length.
Qed.

(** A match object the engine returns for [r] on [s]: in bounds, and the text
    it spans is matched by [r]. *)
Definition is_match (r : re) (s : str) (m : mobj) : Prop :=
  m_start m ≤ m_end m ≤ length s ∧
  ∃ st, matches r (start_state s (m_start m)) st ∧
        consumes (start_state s (m_start m)) st (group0 s m) ∧
        m_end m = pos st ∧ m_caps m = caps st.

Lemma search_go_match r ma s i fuel m :
  search_go r ma s i fuel = Some m → i + fuel ≤ length s →
  i ≤ m_start m ∧ is_match r s m.
Proof.
  revert ma i; induction fuel as [|fuel IH]; intros ma i; cbn;
    (destruct (exec r ma (start_state s i)) as [st|] eqn:E; [intros [= <-] Hi|]).
  2: done.
  3: intros Hs Hi; apply IH in Hs as [H1 H2]; [split; [lia|done] | lia].
  all: apply exec_consumes in E as (t & Ht & Hm); [|lia];
    destruct (consumes_slice s i st t) as (E1 & E2 & E3); [lia|done|];
    destruct (Ht) as (_ & P & _); cbn in *; split; [done|];
    split; [cbn; lia|]; exists st; unfold group0; cbn; rewrite E1; done.
Qed.

Lemma search_match r s i m :
  search r s i = Some m → i ≤ m_start m ∧ is_match r s m.
Proof.
  unfold search. destruct (Nat.leb_spec i (length s)); [|done].
  intros Hs. apply search_go_match in Hs; [done|lia].
Qed.

Lemma search_go_None r ma s i fuel :
  search_go r ma s i fuel = None →
  ∀ j, i < j ≤ i + fuel → exec r false (start_state s j) = None.
Proof.
  revert ma i; induction fuel as [|fuel IH]; intros ma i; cbn; [lia|].
  destruct (exec r ma (start_state s i)) as [st|] eqn:E; [done|].
  intros Hs j Hj. destruct (decide (j = S i)) as [->|].
  - destruct fuel; cbn in Hs; by destruct (exec r false _).
  - eapply IH; [done|lia].
Qed.

(** When [search] finds nothing no position of the text starts a match. *)
Lemma search_None r s i :
  search r s i = None → ∀ j st, i ≤ j ≤ length s → ¬ matches r (start_state s j) st.
Proof.
  unfold search. destruct (Nat.leb_spec i (length s)); [|lia].
  intros Hs j st Hj Hm.
  assert (exec r false (start_state s j) = None) as E.
  { destruct (decide (j = i)) as [->|].
    - destruct (length s - i); cbn in Hs; by destruct (exec r false _).
    - eapply search_go_None; [done|lia]. }
  destruct (mtch_complete r (start_state s j) (λ st', Some st') st Hm) as [x Hx];
    [done|].
  unfold exec in E. cbn in E. congruence.
Qed.

(** The matches of [finditer]: in order, apart, each one a match. *)
Inductive ordered_from (r : re) (s : str) : nat → list mobj → Prop :=
  | OF_nil i : ordered_from r s i []
  | OF_cons i m l :
      i ≤ m_start m → is_match r s m → ordered_from r s (m_end m) l →
      ordered_from r s i (m :: l).

Lemma finditer_go_ordered r s fuel ma i :
  ordered_from r s i (finditer_go r s fuel ma i).
Proof.
  revert ma i; induction fuel as [|fuel IH]; intros ma i; cbn [finditer_go]; [constructor|].
  destruct (Nat.ltb_spec (length s) i); [constructor|].
  destruct (search_go _ _ _ _ _) as [m|] eqn:E; [|constructor].
  apply search_go_match in E as [H1 H2]; [|lia]. by constructor.
Qed.

Lemma finditer_ordered r s : ordered_from r s 0 (finditer r s).
Proof. apply finditer_go_ordered. Qed.

Lemma finditer_match r s m : m ∈ finditer r s → is_match r s m.
Proof.
  generalize (finditer_ordered r s); generalize 0, (finditer r s).
  intros i l; revert i; induction l as [|m' l IH]; intros i Ho;
    [by intros ?%not_elem_of_nil|].
  inversion Ho; subst. intros [->|Hm]%elem_of_cons; [done|]. by eapply IH.
Qed.

(** *** Facts about [sub]: a count preserved by every replacement is preserved
    by the substitution. *)
Lemma slice_split s i j : i ≤ j → drop i s = slice s i j ++ drop j s.
Proof.
  intros H. unfold slice. rewrite <- (take_drop (j - i) (drop i s)) at 1.
  rewrite drop_drop. do 2 f_equal. lia.
Qed.

Lemma sub_count c r f s :
  (∀ m, is_match r s m → count c (f m) = count c (group0 s m)) →
  count c (sub r f s) = count c s.
Proof.
  intros Hf. unfold sub. replace (count c s) with (count c (drop 0 s)) by done.
  generalize (finditer_ordered r s). generalize 0, (finditer r s).
  intros i l; revert i; induction l as [|m l IH]; intros i Ho; cbn; [done|].
  inversion Ho as [|??? Hle Hm Hl]; subst.
  rewrite !count_app, (IH _ Hl), (Hf _ Hm).
  destruct Hm as [[H1 H2] _].
  rewrite (slice_split s i (m_start m)), count_app by done.
  rewrite (slice_split s (m_start m) (m_end m)), count_app by done. done.
Qed.

(** *** What a pattern cannot consume *)

(** No match of the pattern consumes the character. *)
Fixpoint avoids (c : ascii) (r : re) : bool :=
  match r with
  | RSet cs => negb (in_set cs c)
  | RSeq a b | RAlt a b => avoids c a && avoids c b
  | RStar _ a | RGroup _ a => avoids c a
  | _ => true
  end.

Lemma avoids_matches c r st st' :
  matches r st st' → avoids c r = true → ∃ t, consumes st st' t ∧ c ∉ t.
Proof.
  induction 1 as [|cs a s st E Hin|a b st st1 st2 _ IH1 _ IH2| | | |g a st st1 st2 _ IH1 _ _ IH2
    |n a st st' _ IH| | | | |]; cbn [avoids]; rewrite ?andb_true_iff;
    try (intros _; exists []; split; [apply consumes_refl | apply not_elem_of_nil]; fail);
    try tauto.
  - intros Ha. exists [a]. split; [by apply consumes_advance|]. rewrite list_elem_of_singleton.
    intros ->. by rewrite Hin in Ha.
  - intros [Ha Hb]. destruct (IH1 Ha) as (t1 & H1 & N1), (IH2 Hb) as (t2 & H2 & N2).
    exists (t1 ++ t2). split; [by eapply consumes_trans|]. rewrite elem_of_app. tauto.
  - intros Ha. destruct (IH1 Ha) as (t1 & H1 & N1), (IH2 Ha) as (t2 & H2 & N2).
    exists (t1 ++ t2). split; [by eapply consumes_trans|]. rewrite elem_of_app. tauto.
Qed.

(** The text of a match holds no character its pattern avoids. *)
Lemma avoids_group0 c r s m : is_match r s m → avoids c r = true → count c (group0 s m) = 0.
Proof.
  intros (_ & st & Hm & (R & _) & _ & _) Ha.
  destruct (avoids_matches _ _ _ _ Hm Ha) as (t & (R' & _) & N). apply count_0.
  rewrite R in R'. by apply app_inv_tail in R' as ->.
Qed.

Lemma avoids_txt c s : c ∉ s → avoids c (txt s) = true.
Proof.
  induction s as [|a s IH]; [done|]. intros [Hne Hs]%not_elem_of_cons.
  assert (negb (in_set {| neg := false; items := [CChar a] |} c) = true) as Ha.
  { cbn. by destruct (Ascii.eqb_spec a c) as [->|]. }
  destruct s as [|b s]; [exact Ha|]. change (avoids c (RSeq (chr a) (txt (b :: s))) = true).
  cbn [avoids chr cls]. by rewrite Ha, IH.
Qed.

Lemma avoids_alts c l : (∀ r, r ∈ l → avoids c r = true) → avoids c (alts l) = true.
Proof.
  induction l as [|r l IH]; intros H; [done|].
  destruct l as [|r2 l]; [apply H; left|].
  change (avoids c r && avoids c (alts (r2 :: l)) = true).
  rewrite (H r) by left. apply IH. intros r' Hr'. apply H. by right.
Qed.

(** A group lies inside its match. *)
Lemma matches_caps r st st' n i j :
  matches r st st' → (n, (i, j)) ∈ caps st' → (n, (i, j)) ∈ caps st ∨ pos st ≤ i ≤ j ∧ j ≤ pos st'.
Proof.
  induction 1 as [| |a b st st1 st2 H1 IH1 H2 IH2| | | |g a st st1 st2 H1 IH1 _ H2 IH2
    |k a st st' H IH| | | | |]; auto; intros Hin.
  1,2: apply matches_consumes in H1 as (t1 & _ & P1 & _); apply matches_consumes in H2 as (t2 & _ & P2 & _);
    destruct (IH2 Hin) as [Hin1|]; [destruct (IH1 Hin1) as [|]; [by left|]|]; right; lia.
  cbn in Hin. apply elem_of_cons in Hin as [[= -> -> ->]|Hin]; [|by apply IH].
  apply matches_consumes in H as (t & _ & P & _). right. cbn. lia.
Qed.

Lemma group_inside n s m i j r :
  is_match r s m → List.find (λ p, p.1 =? n) (m_caps m) = Some (n, (i, j)) →
  m_start m ≤ i ≤ j ∧ j ≤ m_end m.
Proof.
  intros (_ & st & Hm & _ & -> & ->) Hf. apply List.find_some in Hf as [Hin _].
  apply list_elem_of_In in Hin. by destruct (matches_caps _ _ _ _ _ _ Hm Hin) as [?%not_elem_of_nil|].
Qed.

Lemma slice_app s a i b : a ≤ i → i ≤ b → slice s a b = slice s a i ++ slice s i b.
Proof.
  intros Ha Hb. unfold slice. replace (drop i s) with (drop (i - a) (drop a s))
    by (rewrite drop_drop; f_equal; lia).
  replace (b - a) with ((i - a) + (b - i)) by lia. by rewrite take_take_drop.
Qed.

Lemma count_slice c s i j a b : a ≤ i → i ≤ j → j ≤ b → count c (slice s i j) ≤ count c (slice s a b).
Proof.
  intros Ha Hi Hb. rewrite (slice_app s a i b), (slice_app s i j b), !count_app by lia. lia.
Qed.

Lemma avoids_group c r s m n : is_match r s m → avoids c r = true → c ∉ group_d n s m.
Proof.
  intros Hm Ha. unfold group_d, group.
  destruct (List.find _ _) as [[n' [i j]]|] eqn:E; [|apply not_elem_of_nil].
  assert (n' = n) as -> by (apply List.find_some in E as [_ E]; by apply Nat.eqb_eq in E).
  destruct (group_inside _ _ _ _ _ _ Hm E) as [[H1 H2] H3]. cbn. apply count_0.
  pose proof (avoids_group0 _ _ _ _ Hm Ha) as H0. unfold group0 in H0.
  pose proof (count_slice c s i j _ _ H1 H2 H3). lia.
Qed.

#[export] Hint Resolve finditer_match finditer_ordered : py.
