(* ===== verification/PyFloat.v ===== *)
(** * Python floats

    A Python [float] is an IEEE 754 binary64 value, here the standard library's
    [spec_float] with precision 53 and exponent bound 1024: subtraction,
    division, absolute value, the ordering (false when a side is NaN), Python's
    [max], and [float(str)] with correct rounding.  This file models the
    language, not code of the repository. *)
From Stdlib Require Import SpecFloat.
From S2P Require Export PyStr.

Abbreviation float := spec_float.

Definition prec : Z := 53.
Definition emax : Z := 1024.

Definition fzero : float := S754_zero false.
Definition fnan : float := S754_nan.
Definition fabs : float → float := SFabs.
Definition fopp : float → float := SFopp.
Definition fsub : float → float → float := SFsub prec emax.
Definition fadd : float → float → float := SFadd prec emax.
Definition fmul : float → float → float := SFmul prec emax.
Definition fdiv : float → float → float := SFdiv prec emax.

(** [a < b], [a <= b] *)
Definition fltb : float → float → bool := SFltb.
Definition fleb : float → float → bool := SFleb.

(** [max(a, b)]: [b] only when [b > a]. *)
Definition fmax (a b : float) : float := if fltb a b then b else a.

Definition is_nan (x : float) : bool :=
  match x with S754_nan => true | _ => false end.

(** The value of an integer literal such as [1e-300]'s mantissa and exponent,
    rounded once. *)
Definition float_of_dec (neg : bool) (m : N) (e10 : Z) : float :=
  match m with
  | N0 => S754_zero neg
  | Npos p =>
      if (0 <=? e10)%Z
      then let z := (Z.pos p * 10 ^ e10)%Z in
           binary_normalize prec emax (if neg then - z else z)%Z 0 neg
      else match (10 ^ (- e10))%Z with
           | Z.pos d =>
               let '(mz, ez, lz) := SFdiv_core_binary prec emax (Z.pos p) 0 (Z.pos d) 0 in
               binary_round_aux prec emax neg mz ez lz
           | _ => S754_nan
           end
  end.

(** ** float(str) *)

Definition digit_val (c : ascii) : N := (N_of_ascii c - 48)%N.

(** A run of digits in which single underscores may separate digits: its value,
    its number of digits and the text after it. *)
Fixpoint digits_go (acc : N) (n : nat) (after_digit : bool) (s : str) : N * nat * str :=
  match s with
  | c :: t =>
      if is_digit c then digits_go (acc * 10 + digit_val c) (S n) true t
      else match t with
           | d :: _ =>
               if after_digit && Ascii.eqb c "_" && is_digit d
               then digits_go acc n false t
               else (acc, n, s)
           | [] => (acc, n, s)
           end
  | [] => (acc, n, s)
  end.

Definition take_sign (s : str) : bool * str :=
  match s with
  | "+"%char :: t => (false, t)
  | "-"%char :: t => (true, t)
  | _ => (false, s)
  end.

(** The exponent part: nothing, or [e], a sign and at least one digit, up to
    the end of the text. *)
Definition parse_exp (s : str) : option Z :=
  match s with
  | [] => Some 0%Z
  | c :: t =>
      if Ascii.eqb c "e" || Ascii.eqb c "E" then
        let '(sg, u) := take_sign t in
        let '(v, n, r) := digits_go 0 0 false u in
        match n, r with
        | S _, [] => Some (if sg then - Z.of_N v else Z.of_N v)%Z
        | _, _ => None
        end
      else None
  end.

Definition parse_decimal (sg : bool) (s : str) : option float :=
  let '(v, n, r) := digits_go 0 0 false s in
  let '(v', n', r') :=
    match r with
    | "."%char :: t => digits_go v 0 false t
    | _ => (v, 0, r)
    end in
  match n + n' with
  | 0 => None
  | _ => (λ e, float_of_dec sg v' (e - Z.of_nat n')%Z) <$> parse_exp r'
  end.

(** [float(s)]; [None] is [ValueError]. *)
Definition float_of_str (s : str) : option float :=
  let t := strip s in
  let '(sg, u) := take_sign t in
  let l := lower u in
  if bool_decide (l = "inf" :> str) || bool_decide (l = "infinity" :> str)
  then Some (S754_infinity sg)
  else if bool_decide (l = "nan" :> str) then Some S754_nan
  else parse_decimal sg u.

(** ** Ordering

    [SFcompare] orders the values that are not NaN lexicographically; [rank]
    is the triple it compares. *)
Definition rank (x : float) : Z * Z * Z :=
  match x with
  | S754_infinity true => (-2, 0, 0)
  | S754_finite true m e => (-1, - e, - Z.pos m)
  | S754_zero _ => (0, 0, 0)
  | S754_nan => (0, 0, 0)
  | S754_finite false m e => (1, e, Z.pos m)
  | S754_infinity false => (2, 0, 0)
  end%Z.

Definition lex_lt (a b : Z * Z * Z) : Prop :=
  (let '(a1, a2, a3) := a in let '(b1, b2, b3) := b in
   a1 < b1 ∨ a1 = b1 ∧ (a2 < b2 ∨ a2 = b2 ∧ a3 < b3))%Z.

Lemma fltb_rank x y :
  fltb x y = true ↔ is_nan x = false ∧ is_nan y = false ∧ lex_lt (rank x) (rank y).
Proof.
  unfold fltb, SFltb.
  destruct x as [[]|[]| |[] mx ex], y as [[]|[]| |[] my ey]; cbn;
    try (destruct (Z.compare_spec ex ey); cbn);
    try (change (Pos.compare_cont Eq mx my) with (Pos.compare mx my);
         destruct (Pos.compare_spec mx my); cbn);
    (split; [try done; intros _; repeat split; lia | try done; intros (? & ? & ?); lia]).
Qed.

Lemma fleb_rank x y :
  fleb x y = true ↔
  is_nan x = false ∧ is_nan y = false ∧ ¬ lex_lt (rank y) (rank x).
Proof.
  unfold fleb, SFleb.
  destruct x as [[]|[]| |[] mx ex], y as [[]|[]| |[] my ey]; cbn;
    try (destruct (Z.compare_spec ex ey); cbn);
    try (change (Pos.compare_cont Eq mx my) with (Pos.compare mx my);
         destruct (Pos.compare_spec mx my); cbn);
    (split; [try done; intros _; repeat split; lia | try done; intros (? & ? & ?); lia]).
Qed.

Lemma lex_lt_irrefl a : ¬ lex_lt a a.
Proof. destruct a as [[??]?]. cbn. lia. Qed.

Lemma fleb_refl x : is_nan x = false → fleb x x = true.
Proof. intros H. apply fleb_rank. auto using lex_lt_irrefl. Qed.

Lemma fleb_trans x y z : fleb x y = true → fleb y z = true → fleb x z = true.
Proof.
  rewrite !fleb_rank. intros (? & ? & H1) (? & ? & H2). repeat split; try done.
  destruct (rank x) as [[??]?], (rank y) as [[??]?], (rank z) as [[??]?].
  cbn in *. lia.
Qed.

Lemma fltb_fleb x y : fltb x y = true → fleb x y = true.
Proof.
  rewrite fltb_rank, fleb_rank. intros (? & ? & H). repeat split; try done.
  destruct (rank x) as [[??]?], (rank y) as [[??]?]. cbn in *. lia.
Qed.

Lemma fleb_fltb_trans x y z : fleb x y = true → fltb y z = true → fltb x z = true.
Proof.
  rewrite !fltb_rank, fleb_rank. intros (? & ? & H1) (? & ? & H2).
  repeat split; try done.
  destruct (rank x) as [[??]?], (rank y) as [[??]?], (rank z) as [[??]?].
  cbn in *. lia.
Qed.

Lemma fltb_false x y :
  is_nan x = false → is_nan y = false → fltb x y = false → fleb y x = true.
Proof.
  intros Hx Hy H. apply fleb_rank. repeat split; try done.
  intros Hl. assert (fltb x y = true) by (by apply fltb_rank). congruence.
Qed.

(** [max] keeps its first argument when the second is NaN. *)
Lemma fmax_nan a b : is_nan b = true → fmax a b = a.
Proof. unfold fmax, fltb, SFltb. by destruct a as [[]|[]| |[]], b. Qed.

Lemma fmax_not_nan a b : is_nan a = false → is_nan (fmax a b) = false.
Proof.
  unfold fmax. destruct (fltb a b) eqn:E; [|done].
  intros _. by apply fltb_rank in E as (_ & ? & _).
Qed.

Lemma fmax_ge_l a b : is_nan a = false → fleb a (fmax a b) = true.
Proof.
  unfold fmax. destruct (fltb a b) eqn:E; auto using fltb_fleb, fleb_refl.
Qed.

Lemma fmax_ge_r a b :
  is_nan a = false → is_nan b = false → fleb b (fmax a b) = true.
Proof.
  unfold fmax. destruct (fltb a b) eqn:E; auto using fltb_false, fleb_refl.
Qed.

Lemma fmax_cases a b : fmax a b = a ∨ fmax a b = b.
Proof. unfold fmax. destruct (fltb a b); auto. Qed.

(** A difference of a value with itself is zero, or NaN when the value is not
    finite. *)
Lemma fsub_diag x : fabs (fsub x x) = fzero ∨ fabs (fsub x x) = fnan.
Proof.
  destruct x as [[]|[]| |s m e]; try (by left); try (by right).
  left. unfold fsub, SFsub, binary_normalize; cbn.
  replace (Z.min e e) with e by lia.
  by destruct s; rewrite Z.sub_diag || rewrite Z.add_opp_diag_r
    || rewrite Z.add_opp_diag_l.
Qed.

#[export] Hint Resolve fleb_refl fltb_fleb fmax_ge_l fmax_ge_r fmax_not_nan : py.

(** ** Values at concrete literals *)
Example float_of_str_tenth :
  float_of_str "0.1" = Some (S754_finite false 7205759403792794 (-56)).
Proof. vm_compute. reflexivity. Qed.

Example float_of_str_forms :
  map (λ s : String.string, float_of_str s)
    ["-1.5e-3"; "1_0"; "nan"; "1__0"; "e5"; "List<scalar>"]
  = [Some (S754_finite true 6917529027641082 (-62)); Some (S754_finite false 5629499534213120 (-49));
     Some S754_nan; None; None; None].
Proof. vm_compute. reflexivity. Qed.
