(* ===== verification/PyOs.v ===== *)
(** * Python os, os.path, struct and hashlib

    POSIX paths ([join], [normpath], [dirname], [basename], [relpath]), the file
    system the scripts read (a tree of entries; [real] is [os.path.realpath],
    given with the tree because it depends on symbolic links), [os.walk],
    little-endian [struct] fields, and SHA-256.  This file models the language's
    library, not code of the repository. *)
From S2P Require Export PyStr.

#[local] Set Warnings "-register-all".

(** ** Paths *)

Definition slash : ascii := "/".

(** [os.path.isabs] *)
Definition isabs (p : str) : bool := starts "/" p.

(** [os.path.join(a, b)] *)
Definition pjoin (a b : str) : str :=
  if isabs b then b
  else match a with
       | [] => b
       | _ => if ends "/" a then a ++ b else a ++ slash :: b
       end.

(** [os.path.basename] *)
Definition basename (p : str) : str := default [] (last (split slash p)).

Fixpoint strip_slashes (r : str) : str :=
  match r with
  | c :: r' => if Ascii.eqb c slash then strip_slashes r' else r
  | [] => []
  end.

(** [os.path.dirname] *)
Definition dirname (p : str) : str :=
  let head := take (length p - length (basename p)) p in
  match strip_slashes (rev head) with
  | [] => head
  | r => rev r
  end.

(** The loop of [os.path.normpath]; [acc] is reversed. *)
Fixpoint norm_comps (rooted : bool) (acc comps : list str) : list str :=
  match comps with
  | [] => rev acc
  | c :: comps =>
      if bool_decide (c = []) || bool_decide (c = "." :> str) then norm_comps rooted acc comps
      else if negb (bool_decide (c = ".." :> str))
              || (negb rooted && bool_decide (acc = []))
              || bool_decide (head acc = Some (".." : str))
      then norm_comps rooted (c :: acc) comps
      else norm_comps rooted (tail acc) comps
  end.

Definition leading (p : str) : str :=
  if starts "//" p && negb (starts "///" p) then "//"
  else if starts "/" p then "/" else [].

(** [os.path.normpath] *)
Definition normpath (p : str) : str :=
  let l := leading p in
  let comps := norm_comps (negb (bool_decide (l = []))) [] (split slash p) in
  match l ++ join "/" comps with [] => "." | r => r end.

(** [os.path.relpath(p, start)] of two absolute paths. *)
Fixpoint drop_common (a b : list str) : list str * list str :=
  match a, b with
  | x :: a', y :: b' => if bool_decide (x = y) then drop_common a' b' else (a, b)
  | _, _ => (a, b)
  end.
Definition comps_of (p : str) : list str :=
  List.filter (λ c, negb (bool_decide (c = []))) (split slash (normpath p)).
Definition relpath (p start : str) : str :=
  let '(rest, up) := drop_common (comps_of p) (comps_of start) in
  match repeat (".." : str) (length up) ++ rest with
  | [] => "."
  | l => join "/" l
  end.

(** ** The file system *)

Inductive ent :=
  | File (data : str) (mtime_ns : Z) (executable : bool)
  | Link
  | Dir (children : list (str * ent)).

Record fs := {
  root : ent;
  real : str → str;   (* os.path.realpath *)
}.

Definition child (e : ent) (n : str) : option ent :=
  match e with
  | Dir cs => snd <$> List.find (λ c, bool_decide (c.1 = n)) cs
  | _ => None
  end.

Fixpoint descend (e : ent) (comps : list str) : option ent :=
  match comps with
  | [] => Some e
  | c :: comps => e' ← child e c; descend e' comps
  end.

(** The entry a path leads to, links followed. *)
Definition entry (f : fs) (p : str) : option ent := descend (root f) (comps_of (real f p)).

Definition isfile (f : fs) (p : str) : bool :=
  match entry f p with Some (File _ _ _) => true | _ => false end.
Definition isdir (f : fs) (p : str) : bool :=
  match entry f p with Some (Dir _) => true | _ => false end.
Definition exists_ (f : fs) (p : str) : bool := isfile f p || isdir f p.

(** [open(p, 'rb').read()]; [OSError] when it is not a file. *)
Definition read_file (f : fs) (p : str) : res str :=
  match entry f p with Some (File d _ _) => Ok d | _ => Raise OSError end.

(** Text mode reads every line end as a newline. *)
Definition cr : ascii := ascii_of_N 13.
Fixpoint universal (s : str) : str :=
  match s with
  | [] => []
  | c :: s' =>
      if Ascii.eqb c cr then
        nl :: match s' with d :: s'' => if Ascii.eqb d nl then universal s'' else universal s'
              | [] => [] end
      else c :: universal s'
  end.

(** [open(p).read()] *)
Definition read_text (f : fs) (p : str) : res str := universal <$> read_file f p.

Lemma within_read_file f p : within (read_file f p).
Proof. unfold read_file. within. Qed.
#[export] Hint Resolve within_read_file : within.
Lemma within_read_text f p : within (read_text f p).
Proof. unfold read_text. within. Qed.
#[export] Hint Resolve within_read_text : within.

(** [os.access(p, os.X_OK)] of a file *)
Definition executable (f : fs) (p : str) : bool :=
  match entry f p with Some (File _ _ x) => x | Some (Dir _) => true | _ => false end.

(** [os.stat(p)]: size and mtime_ns of a file. *)
Definition stat (f : fs) (p : str) : res (Z * Z) :=
  match entry f p with
  | Some (File d t _) => Ok (Z.of_nat (length d), t)
  | Some (Dir _) => Ok (0, 0)%Z
  | _ => Raise OSError
  end.

(** [os.listdir(p)] *)
Definition listdir (f : fs) (p : str) : res (list str) :=
  match entry f p with Some (Dir cs) => Ok (map fst cs) | _ => Raise OSError end.

(** [os.walk(base)], top down, each directory's names given to [keep] before the
    walk goes into them, as assigning [dirs[:]] does, in sorted order: the pairs
    of a directory and the names in it that are not directories.  A link to a
    directory is one of the directories, and is not followed. *)
Definition is_dir_ent (e : ent) : bool := match e with Dir _ => true | _ => false end.

Fixpoint walk_ent (isd keep : str → bool) (base : str) (e : ent) : list (str * list str) :=
  match e with
  | Dir cs =>
      let files := map fst (List.filter
        (λ c, negb (is_dir_ent c.2 || isd (pjoin base c.1))) cs) in
      let subs := map (λ c, (c.1, walk_ent isd keep (pjoin base c.1) c.2)) cs in
      (base, files) ::
      concat (map snd (sort_by (λ a b, str_leb a.1 b.1) (List.filter (λ s, keep s.1) subs)))
  | _ => []
  end.

Definition walk (f : fs) (keep : str → bool) (base : str) : list (str * list str) :=
  match entry f base with Some e => walk_ent (isdir f) keep base e | None => [] end.

(** ** json.dumps of strings, ASCII only as by default *)

Definition hex1 (z : Z) : ascii :=
  ascii_of_N (Z.to_N (if (z <? 10)%Z then 48 + z else 87 + z)).
Definition hex2 (c : ascii) : str := [hex1 (code c / 16); hex1 (code c mod 16)].

Definition dquote : ascii := "034".
Definition bslash : ascii := "092".

Definition json_char (c : ascii) : str :=
  if Ascii.eqb c dquote || Ascii.eqb c bslash then [bslash; c]
  else if between 32 126 c then [c]
  else if Ascii.eqb c nl then [bslash; "n"%char]
  else if Ascii.eqb c cr then [bslash; "r"%char]
  else if Ascii.eqb c (ascii_of_N 9) then [bslash; "t"%char]
  else if Ascii.eqb c (ascii_of_N 8) then [bslash; "b"%char]
  else if Ascii.eqb c (ascii_of_N 12) then [bslash; "f"%char]
  else [bslash; "u"%char; "0"%char; "0"%char] ++ hex2 c.

Definition json_str (s : str) : str := dquote :: flat_map json_char s ++ [dquote].
Definition json_list (l : list str) : str := "[" ++ join ", " (map json_str l) ++ "]".

(** ** struct: little-endian fields *)

Definition byte (c : ascii) : Z := code c.

Fixpoint le_decode (l : str) : Z :=
  match l with [] => 0 | c :: l => (byte c + 256 * le_decode l)%Z end.

Fixpoint le_encode (n : nat) (z : Z) : str :=
  match n with
  | 0 => []
  | S n => ascii_of_N (Z.to_N (z mod 256)) :: le_encode n (z / 256)
  end.

(** [l[i:]] and [l[:n]] for integers too large for a unary count. *)
Fixpoint zdrop {A} (i : Z) (l : list A) : list A :=
  match l with
  | [] => []
  | _ :: t => if (i <=? 0)%Z then l else zdrop (i - 1) t
  end.
Fixpoint ztake {A} (n : Z) (l : list A) : list A :=
  match l with
  | [] => []
  | x :: t => if (n <=? 0)%Z then [] else x :: ztake (n - 1) t
  end.

(** [struct.unpack_from] of one unsigned field of [n] bytes at [off]. *)
Definition unpack (n : nat) (l : str) (off : Z) : res Z :=
  let w := take n (zdrop off l) in
  if length w =? n then Ok (le_decode w) else Raise StructError.

Lemma zdrop_drop {A} i (l : list A) : (0 ≤ i)%Z → zdrop i l = drop (Z.to_nat i) l.
Proof.
  revert i; induction l as [|x l IH]; intros i Hi; cbn; [by rewrite drop_nil|].
  destruct (Z.leb_spec i 0).
  - by replace (Z.to_nat i) with 0 by lia.
  - rewrite IH by lia. by replace (Z.to_nat i) with (S (Z.to_nat (i - 1))) by lia.
Qed.

Lemma ztake_take {A} n (l : list A) : (0 ≤ n)%Z → ztake n l = take (Z.to_nat n) l.
Proof.
  revert n; induction l as [|x l IH]; intros n Hn; cbn; [by rewrite take_nil|].
  destruct (Z.leb_spec n 0).
  - by replace (Z.to_nat n) with 0 by lia.
  - rewrite IH by lia. by replace (Z.to_nat n) with (S (Z.to_nat (n - 1))) by lia.
Qed.

Lemma byte_range c : (0 ≤ byte c < 256)%Z.
Proof. unfold byte, code. pose proof (N_ascii_bounded c). lia. Qed.

Lemma le_decode_range l : (0 ≤ le_decode l < 256 ^ Z.of_nat (length l))%Z.
Proof.
  induction l as [|c l IH]; cbn [le_decode length]; [done|].
  pose proof (byte_range c). rewrite Nat2Z.inj_succ, Z.pow_succ_r by lia. lia.
Qed.

Lemma length_le_encode n z : length (le_encode n z) = n.
Proof. revert z; induction n; intros; cbn; auto. Qed.

Lemma le_decode_encode n z :
  (0 ≤ z < 256 ^ Z.of_nat n)%Z → le_decode (le_encode n z) = z.
Proof.
  revert z; induction n as [|n IH]; intros z Hz; cbn [le_decode le_encode].
  { cbn in Hz. lia. }
  rewrite Nat2Z.inj_succ, Z.pow_succ_r in Hz by lia.
  rewrite IH by (split; [apply Z.div_pos; lia | apply Z.div_lt_upper_bound; lia]).
  unfold byte, code. pose proof (Z.mod_pos_bound z 256).
  rewrite N_ascii_embedding by lia. rewrite Z2N.id by lia.
  pose proof (Z.div_mod z 256). lia.
Qed.

Lemma le_encode_inj n z1 z2 :
  (0 ≤ z1 < 256 ^ Z.of_nat n)%Z → (0 ≤ z2 < 256 ^ Z.of_nat n)%Z →
  le_encode n z1 = le_encode n z2 → z1 = z2.
Proof.
  intros H1 H2 E. rewrite <- (le_decode_encode n z1), <- (le_decode_encode n z2) by done.
  by rewrite E.
Qed.

(** ** SHA-256 *)
Module Sha256.
Open Scope Z_scope.

Definition w32 (z : Z) : Z := Z.land z 4294967295.
Definition rotr (x n : Z) : Z :=
  Z.lor (Z.shiftr x n) (w32 (Z.shiftl x (32 - n))).

(** The constants: the first 32 fractional bits of the cube roots of the first
    64 primes, and of the square roots of the first eight. *)
Definition is_prime (n : Z) : bool :=
  forallb (λ d, negb (n mod Z.of_nat d =? 0)) (seq 2 (Z.to_nat n - 2)).
Definition primes : list Z := List.filter is_prime (map Z.of_nat (seq 2 310)).

(** The largest [r] with [r ^ k <= n], bit by bit from bit [b]. *)
Fixpoint iroot (k n : Z) (b : nat) (r : Z) : Z :=
  let r' := r + 2 ^ Z.of_nat b in
  let r := if r' ^ k <=? n then r' else r in
  match b with O => r | S b => iroot k n b r end.
Definition frac32 (k p : Z) : Z := w32 (iroot k (p * 2 ^ (32 * k)) 40 0).

Definition K : list Z := Eval vm_compute in map (frac32 3) primes.
Definition H0 : list Z := Eval vm_compute in map (frac32 2) (take 8 primes).

Fixpoint be (l : str) : Z :=
  match l with [] => 0 | c :: l => byte c * 256 ^ Z.of_nat (length l) + be l end.

(** The message, a one bit, zeros, and the bit length in eight bytes. *)
Definition pad (m : str) : str :=
  let n := length m in
  let z := Nat.modulo (119 - Nat.modulo n 64) 64 in
  m ++ ascii_of_N 128 :: repeat (ascii_of_N 0) z
    ++ rev (le_encode 8 (8 * Z.of_nat n)).

Fixpoint words_of (n : nat) (l : str) : list Z :=
  match n with O => [] | S n => be (take 4 l) :: words_of n (drop 4 l) end.

Definition nthz (l : list Z) (i : nat) : Z := nth i l 0.

(** The message schedule, newest word first. *)
Fixpoint schedule (n : nat) (w : list Z) : list Z :=
  match n with
  | O => w
  | S n =>
      let w15 := nthz w 14 in let w2 := nthz w 1 in
      let s0 := Z.lxor (Z.lxor (rotr w15 7) (rotr w15 18)) (Z.shiftr w15 3) in
      let s1 := Z.lxor (Z.lxor (rotr w2 17) (rotr w2 19)) (Z.shiftr w2 10) in
      schedule n (w32 (nthz w 15 + s0 + nthz w 6 + s1) :: w)
  end.

Definition round (h : list Z) (kw : Z * Z) : list Z :=
  match h with
  | [a; b; c; d; e; f; g; h] =>
      let s1 := Z.lxor (Z.lxor (rotr e 6) (rotr e 11)) (rotr e 25) in
      let ch := Z.lxor (Z.land e f) (Z.land (Z.lxor e 4294967295) g) in
      let t1 := h + s1 + ch + kw.1 + kw.2 in
      let s0 := Z.lxor (Z.lxor (rotr a 2) (rotr a 13)) (rotr a 22) in
      let maj := Z.lxor (Z.lxor (Z.land a b) (Z.land a c)) (Z.land b c) in
      [w32 (t1 + s0 + maj); a; b; c; w32 (d + t1); e; f; g]
  | _ => h
  end.

Definition block (h : list Z) (l : str) : list Z :=
  let w := rev (schedule 48 (rev (words_of 16 l))) in
  zip_with (λ x y, w32 (x + y)) h (fold_left round (zip K w) h).

Fixpoint blocks (n : nat) (h : list Z) (l : str) : list Z :=
  match n with O => h | S n => blocks n (block h (take 64 l)) (drop 64 l) end.


(** [hashlib.sha256(m).hexdigest()] *)
Definition sha256 (m : str) : str :=
  let p := pad m in
  flat_map (λ z, flat_map hex2 (rev (le_encode 4 z)))
    (blocks (Nat.div (length p) 64) H0 p).
End Sha256.

Definition sha256 : str → str := Sha256.sha256.
Arguments sha256 : simpl never.

(** Two texts that SHA-256 does not tell apart. *)
Definition collide (a b : str) : Prop := a ≠ b ∧ sha256 a = sha256 b.

Lemma sha256_inj a b : ¬ collide a b → sha256 a = sha256 b → a = b.
Proof. intros H E. destruct (decide (a = b)); [done | by destruct H]. Qed.

Example sha256_abc :
  sha256 "abc" = "ba7816bf8f01cfea414140de5dae2223b00361a396177a9cb410ff61f20015ad".
Proof. vm_compute. reflexivity. Qed.

Example sha256_empty :
  sha256 [] = "e3b0c44298fc1c149afbf4c8996fb92427ae41e4649b934ca495991b7852b855".
Proof. vm_compute. reflexivity. Qed.

Example path_forms :
  map (λ s : String.string, normpath s) ["/a/./b//../c"; "a/../../b"; "//x"; ""]
    = map String.list_ascii_of_string ["/a/c"; "../b"; "//x"; "."]
  ∧ relpath "/r/a/b" "/r/c" = "../a/b" ∧ dirname "/a/b/c" = "/a/b" ∧ basename "/a/b/c" = "c".
Proof. vm_compute. repeat split. Qed.
