(* ===== verification/FoamTime.v ===== *)
(** * tools/foam_time_compare.py

    The comparison of two OpenFOAM time directories: the tokenizer, the
    recursive-descent reader [parse_block], the reading of numeric entries, the
    entry-by-entry comparison [FileCompare] and the driver.

    A position in the token list is the list of the tokens from it on.  Notes
    keep the data of a message, not its wording; printing is not modelled. *)
From stdpp Require Import gmap.
From S2P Require Export PyRe PyFloat.

#[local] Set Warnings "-register-all".

(** ** Reading *)
Module Read.
Definition quote : ascii := "034"%char.

Definition re_block_comment : re :=
  seqs [txt "/*"; many_lazy anys; txt "*/"].
Definition re_line_comment : re :=
  seqs [txt "//"; many (ncls [CChar nl])].
Definition brackets : list citem := chars "{}();[]".
Definition re_token : re :=
  alts [seqs [chr quote; many (ncls [CChar quote]); chr quote];
        cls brackets;
        many1 (ncls (CSpace :: brackets))].

Definition tokens (text : str) : list str :=
  findall0 re_token
    (sub re_line_comment (λ _, []) (sub re_block_comment (λ _, []) text)).

(** [('dict', entries)] or [('val', tokens)] *)
Inductive fval :=
  | VDict (entries : list (str * fval))
  | VVal (toks : list str).
Abbreviation entries := (list (str * fval)).

(** The [while not (toks[i] == ";" and depth == 0)] loop: the value's tokens
    and the position after its [;]. *)
Fixpoint value_loop (toks : list str) (depth : Z) : res (list str * list str) :=
  match toks with
  | [] => Raise IndexError
  | t :: rest =>
      if bool_decide (t = ";" :> str) && (depth =? 0)%Z then Ok ([], rest)
      else
        let depth := if contains t "([" then (depth + 1)%Z else depth in
        let depth := if contains t ")]" then (depth - 1)%Z else depth in
        '(val, rest) ← value_loop rest depth; Ok (t :: val, rest)
  end.

(** The outer loop, up to the closing brace or the end of the tokens. *)
Fixpoint block_loop (fuel : nat) (toks : list str) : res (entries * list str) :=
  match toks with
  | [] => Ok ([], [])
  | key :: l1 =>
      if bool_decide (key = "}" :> str) then Ok ([], toks)
      else
        match fuel with
        | 0 => Raise OutOfFuel
        | S fuel =>
            t ← getitem l1 0;
            if bool_decide (t = "{" :> str) then
              '(inner, r) ← block_loop fuel (tail l1);
              '(out, r) ← block_loop fuel (tail r);
              Ok ((key, VDict inner) :: out, r)
            else
              '(val, r) ← value_loop l1 0;
              '(out, r) ← block_loop fuel r;
              Ok ((key, VVal val) :: out, r)
        end
  end.

Definition parse_block (toks : list str) : res (entries * list str) :=
  '(out, r) ← block_loop (length toks) toks; Ok (out, tail r).

(** [bare_list]: the header's tokens and the list's tokens when the body after
    [FoamFile] is [N ( ... )] alone. *)
Fixpoint bare_go (head rest : list str) (depth : Z) : option (list str * list str) :=
  match rest with
  | [] => None
  | t :: rest =>
      let head := head ++ [t] in
      if bool_decide (t = "{" :> str) then bare_go head rest (depth + 1)
      else if bool_decide (t = "}" :> str) then
        if (depth - 1 =? 0)%Z then
          match rest with
          | n :: p :: _ =>
              if isdigit n && bool_decide (p = "(" :> str)
              then Some (head, rest) else None
          | _ => None
          end
        else bare_go head rest (depth - 1)
      else bare_go head rest depth
  end.

Definition bare_list (toks : list str) : option (list str * list str) :=
  match toks with
  | a :: b :: _ :: _ =>
      if bool_decide (a = "FoamFile" :> str) && bool_decide (b = "{" :> str)
      then bare_go [a] (tail toks) 0 else None
  | _ => None
  end.
End Read.

(** ** Numbers *)
Module Num.
Inductive nkind := Uniform | NList | Plain.
#[export] Instance nkind_eq_dec : EqDecision nkind.
Proof. solve_decision. Defined.

Definition to_float (x : str) : res float := from_opt ValueError (float_of_str x).

(** [tuple(float(x) for x in l if x not in "()")] *)
Definition tuple_of (l : list str) : res (list float) :=
  mapR to_float (List.filter (λ x, negb (contains x "()")) l).

(** One token of a nonuniform list; [cur] is the open tuple. *)
Definition list_step (st : list (list float) * option (list float)) (x : str) :
    res (list (list float) * option (list float)) :=
  let '(ents, cur) := st in
  if bool_decide (x = "(" :> str) then Ok (ents, Some [])
  else if bool_decide (x = ")" :> str) then
    t ← from_opt TypeError cur; Ok (ents ++ [t], None)
  else
    match cur with
    | Some c => v ← to_float x; Ok (ents, Some (c ++ [v]))
    | None => v ← to_float x; Ok (ents ++ [[v]], None)
    end.

(** The [try] block of [numbers]. *)
Definition numbers_try (val : list str) : res (nkind * list (list float)) :=
  if bool_decide (head val = Some ("uniform" : str)) then
    t ← tuple_of (tail val); Ok (Uniform, [t])
  else if bool_decide (head val = Some ("nonuniform" : str)) then
    let body := drop 2 val in
    b0 ← getitem body 0;
    let start := if bool_decide (b0 = "(" :> str) then 0 else 1 in
    let inner := drop (start + 1) (take (length body - 1) body) in
    '(ents, _) ← foldR list_step inner ([], None);
    Ok (NList, ents)
  else t ← tuple_of val; Ok (Plain, [t]).

(** [None] when the entry is not numeric; a [TypeError] is not caught. *)
Definition numbers (val : list str) : res (option (nkind * list (list float))) :=
  match numbers_try val with
  | Ok v => Ok (Some v)
  | Raise ValueError | Raise IndexError => Ok None
  | Raise e => Raise e
  end.
End Num.

(** ** FileCompare *)
Module Cmp.
Import Read Num.

Definition EXACT_KEYS : list str :=
  ["dimensions" : str; "name" : str; "index" : str; "oriented" : str].

Inductive note :=
  | NNonNumeric (path : str) (va vb : list str)
  | NCount (path : str) (na nb : nat)
  | NKeywords (path : str) (ka kb : list str)
  | NOneSide (path : str)
  | NExact (path : str) (va vb : list str)
  | NText
  | NBareOneSide
  | NListCount (na nb : str).

Record FileCompare := {
  tag : str;
  structure : bool;
  notes : list note;
  worst : float;
  scale : float;
}.

Definition init (tag : str) : FileCompare :=
  {| tag := tag; structure := true; notes := []; worst := fzero; scale := fzero |}.

Definition bad (f : FileCompare) (n : note) : FileCompare :=
  {| tag := tag f; structure := false; notes := notes f ++ [n];
     worst := worst f; scale := scale f |}.

Definition with_max (f : FileCompare) (p q : float) : FileCompare :=
  {| tag := tag f; structure := structure f; notes := notes f;
     worst := fmax (worst f) (fabs (fsub p q)); scale := fmax (scale f) (fabs p) |}.

(** [l * n] for a Python list. *)
Definition list_times {A} (l : list A) (n : nat) : list A := concat (repeat l n).

(** The two sides after a uniform side is expanded against a list. *)
Definition expand (na nb : nkind * list (list float)) : list (list float) * list (list float) :=
  let '(ka, a) := na in
  let '(kb, b) := nb in
  let a := if bool_decide (ka = Uniform) && bool_decide (kb = NList)
           then list_times a (length b) else a in
  let b := if bool_decide (kb = Uniform) && bool_decide (ka = NList)
           then list_times b (length a) else b in
  (a, b).

Definition same_lengths (a b : list (list float)) : bool :=
  (length a =? length b) &&
  forallb (λ xy, length xy.1 =? length xy.2) (zip a b).

(** The pairs of numbers the two nested loops visit, in order. *)
Definition pairs (a b : list (list float)) : list (float * float) :=
  flat_map (λ xy, zip xy.1 xy.2) (zip a b).

Definition values (f : FileCompare) (path : str) (va vb : list str) : res FileCompare :=
  na ← numbers va;
  nb ← numbers vb;
  match na, nb with
  | Some na, Some nb =>
      let '(a, b) := expand na nb in
      if same_lengths a b
      then Ok (fold_left (λ f pq, with_max f pq.1 pq.2) (pairs a b) f)
      else Ok (bad f (NCount path (length a) (length b)))
  | _, _ => if bool_decide (va = vb) then Ok f else Ok (bad f (NNonNumeric path va vb))
  end.

(** [dict(l)[k]]: the last binding of [k]. *)
Definition dict_get {A} (k : str) (l : list (str * A)) : option A :=
  snd <$> List.find (λ p, bool_decide (p.1 = k)) (rev l).

Definition sub_path (path k : str) : str :=
  match path with [] => k | _ => path ++ "/" ++ k end.

(** The keywords, then every entry against its namesake. *)
Definition entries_with (cmp : FileCompare → str → str → fval → fval → res FileCompare)
    (f : FileCompare) (path : str) (ea eb : entries) : res FileCompare :=
  if bool_decide (map fst ea = map fst eb) then
    foldR (λ f e, vb ← from_opt KeyError (dict_get e.1 eb); cmp f path e.1 e.2 vb) ea f
  else Ok (bad f (NKeywords path (map fst ea) (map fst eb))).

(** The body of the loop of [entries] for one keyword. *)
Fixpoint compare_entry (f : FileCompare) (path k : str) (v vb : fval) {struct v} :
    res FileCompare :=
  let wk := sub_path path k in
  match v, vb with
  | VDict ea, VDict eb => entries_with compare_entry f wk ea eb
  | VVal va, VVal vb =>
      if bool_decide (k ∈ EXACT_KEYS) || bool_decide (path = "FoamFile" :> str)
      then if bool_decide (va = vb) then Ok f else Ok (bad f (NExact wk va vb))
      else values f wk va vb
  | _, _ => Ok (bad f (NOneSide wk))
  end.

Definition compare_entries : FileCompare → str → entries → entries → res FileCompare :=
  entries_with compare_entry.

Definition rel (f : FileCompare) : float :=
  if fltb fzero (scale f) then fdiv (worst f) (scale f) else worst f.

(** [text[text.find("FoamFile"):]]: [find] gives [-1] when the word is absent,
    and the slice is then the last character. *)
Definition from_banner (text : str) : str :=
  match find "FoamFile" text 0 with
  | Some i => drop i text
  | None => drop (length text - 1) text
  end.

Definition close : list str := ["}" : str].

Definition compare_file (ref_text other_text tag : str) (as_text : bool) : res FileCompare :=
  let fc := init tag in
  if as_text then
    Ok (if bool_decide (from_banner ref_text = from_banner other_text)
        then fc else bad fc NText)
  else
    let ta := tokens ref_text in
    let tb := tokens other_text in
    match bare_list ta, bare_list tb with
    | Some (ha, la), Some (hb, lb) =>
        '(ha, _) ← parse_block (ha ++ close);
        '(hb, _) ← parse_block (hb ++ close);
        fc ← compare_entries fc [] ha hb;
        na ← getitem la 0;
        nb ← getitem lb 0;
        let fc := if bool_decide (na = nb) then fc else bad fc (NListCount na nb) in
        values fc "list" (("nonuniform" : str) :: ("List" : str) :: la)
                         (("nonuniform" : str) :: ("List" : str) :: lb)
    | None, None =>
        '(ea, _) ← parse_block (ta ++ close);
        '(eb, _) ← parse_block (tb ++ close);
        compare_entries fc [] ea eb
    | _, _ => Ok (bad fc NBareOneSide)
    end.
End Cmp.

(** ** The driver *)
Module Main.
Import Cmp.

(** A time directory: its files by relative name, each with the text [open] or
    [gzip.open] reads. *)
Abbreviation tree := (gmap str str).

Definition gz : str := ".gz".
Definition plain_name (n : str) : str :=
  if ends gz n then take (length n - 3) n else n.

(** [files(d)] *)
Definition files (d : tree) : gset str := set_map plain_name (dom d).

(** [read(path)]: the plain file first, then its [.gz]. *)
Definition read (d : tree) (f : str) : option str :=
  match d !! f with Some t => Some t | None => d !! (f ++ gz) end.

Inductive fileset_note :=
  | NotWritten (time : str)
  | FilesetDiffers (time : str) (only_ref only_other : list str).

Record result := {
  r_structure : nat;
  r_files : gmap str FileCompare;
  r_fileset : list fileset_note;
}.

Definition as_text (f : str) : bool :=
  ends "functionObjectProperties" f
  || starts "polyMesh/" f
     && negb (bool_decide (f = "polyMesh/points" :> str)
              || bool_decide (f = "polyMesh/points0" :> str)).

Definition one_file (t : str) (da db : tree) (r : result) (f : str) : res result :=
  let tag := t ++ "/" ++ f in
  ta ← from_opt TypeError (read da f);
  tb ← from_opt TypeError (read db f);
  fc ← compare_file ta tb tag (as_text f);
  Ok {| r_structure := if structure fc then r_structure r else S (r_structure r);
        r_files := <[tag := fc]> (r_files r);
        r_fileset := r_fileset r |}.

Definition set_list (s : gset str) : list str := sorted (elements s).

Definition one_time (ref other : str → option tree) (r : result) (t : str) : res result :=
  match other t with
  | None => Ok {| r_structure := S (r_structure r); r_files := r_files r;
                  r_fileset := r_fileset r ++ [NotWritten t] |}
  | Some db =>
      let da := default ∅ (ref t) in
      let fa := files da in
      let fb := files db in
      let r := if bool_decide (fa = fb) then r
               else {| r_structure := S (r_structure r); r_files := r_files r;
                       r_fileset := r_fileset r
                         ++ [FilesetDiffers t (set_list (fa ∖ fb)) (set_list (fb ∖ fa))] |} in
      foldR (one_file t da db) (set_list (fa ∩ fb)) r
  end.

Definition empty_result : result :=
  {| r_structure := 0; r_files := ∅; r_fileset := [] |}.

(** The case directories are given by [cases]; the exit status and the record
    of the [RESULT] line. *)
Definition main (cases : str → str → option tree) (argv : list str) : res (Z * result) :=
  match argv with
  | _ :: ref :: other :: (_ :: _) as times =>
      r ← foldR (one_time (cases ref) (cases other)) (drop 3 argv) empty_result;
      Ok (if r_structure r =? 0 then 0%Z else 1%Z, r)
  | _ => Ok (2%Z, empty_result)
  end.
End Main.

(** ** What the comparison promises *)
Module Spec.
Import Read Num Cmp.

(** The tokens of a list of entries, as OpenFOAM writes them. *)
Fixpoint flat_val (v : fval) : list str :=
  match v with
  | VDict es => (("{" : str) :: concat (map (λ e, e.1 :: flat_val e.2) es)) ++ close
  | VVal toks => toks ++ [";" : str]
  end.
Definition flat (es : entries) : list str :=
  concat (map (λ e, e.1 :: flat_val e.2) es).

(** A value the loop reads back: no [;] outside brackets, brackets balanced. *)
Fixpoint closed (toks : list str) (depth : Z) : Prop :=
  match toks with
  | [] => depth = 0%Z
  | t :: rest =>
      ¬ (t = (";" : str) ∧ depth = 0%Z) ∧
      closed rest (let d := if contains t "([" then (depth + 1)%Z else depth in
                   if contains t ")]" then (d - 1)%Z else d)
  end.

Fixpoint wf_val (v : fval) : Prop :=
  match v with
  | VDict es => foldr (λ e P, e.1 ≠ ("}" : str) ∧ wf_val e.2 ∧ P) True es
  | VVal toks => head toks ≠ Some ("{" : str) ∧ closed toks 0
  end.
Definition wf (es : entries) : Prop := wf_val (VDict es).

(** No keyword twice in one dictionary. *)
Fixpoint unique_val (v : fval) : Prop :=
  match v with
  | VDict es => NoDup (map fst es) ∧ foldr (λ e P, unique_val e.2 ∧ P) True es
  | VVal _ => True
  end.
Definition unique (es : entries) : Prop := unique_val (VDict es).

(** Same structure: the same keywords in the same order, and at each keyword
    two dictionaries of the same structure, two numeric entries with the same
    shape, or the same tokens. *)
Definition exact_key (path k : str) : Prop := k ∈ EXACT_KEYS ∨ path = ("FoamFile" : str).

Inductive same_val (path k : str) : fval → fval → Prop :=
  | SV_dict ea eb :
      map fst ea = map fst eb →
      (∀ k' v vb, (k', v) ∈ ea → dict_get k' eb = Some vb →
         same_val (sub_path path k) k' v vb) →
      same_val path k (VDict ea) (VDict eb)
  | SV_exact v : exact_key path k → same_val path k (VVal v) (VVal v)
  | SV_numbers va vb na nb :
      ¬ exact_key path k →
      numbers va = Ok (Some na) → numbers vb = Ok (Some nb) →
      same_lengths (expand na nb).1 (expand na nb).2 = true →
      same_val path k (VVal va) (VVal vb)
  | SV_tokens v :
      ¬ exact_key path k → numbers v = Ok None →
      same_val path k (VVal v) (VVal v).

Definition same_entries (path : str) (ea eb : entries) : Prop :=
  map fst ea = map fst eb ∧
  ∀ k v vb, (k, v) ∈ ea → dict_get k eb = Some vb → same_val path k v vb.

(** [|p - q|] of one visited pair. *)
Definition diff (pq : float * float) : float := fabs (fsub pq.1 pq.2).

(** The pairs of one numeric entry on both sides. *)
Definition visited (va vb : list str) (ps : list (float * float)) : Prop :=
  ∃ na nb, numbers va = Ok (Some na) ∧ numbers vb = Ok (Some nb) ∧
           same_lengths (expand na nb).1 (expand na nb).2 = true ∧
           ps = pairs (expand na nb).1 (expand na nb).2.

(** The pairs of numbers a comparison of two values reaches. *)
Inductive reaches (pq : float * float) : str → str → fval → fval → Prop :=
  | R_numbers path k va vb ps :
      ¬ exact_key path k → visited va vb ps → pq ∈ ps →
      reaches pq path k (VVal va) (VVal vb)
  | R_dict path k ea eb k' v vb :
      map fst ea = map fst eb →
      (k', v) ∈ ea → dict_get k' eb = Some vb →
      reaches pq (sub_path path k) k' v vb →
      reaches pq path k (VDict ea) (VDict eb).

(** The tokens of the dictionary part of a file. *)
Definition dict_tokens (text : str) : list str :=
  match bare_list (tokens text) with Some (h, _) => h | None => tokens text end.

(** One time directory is the same on both sides: written, the same files, and
    every file of the same structure. *)
Definition same_time (da : Main.tree) (odb : option Main.tree) (t : str) : Prop :=
  ∃ db, odb = Some db ∧ Main.files da = Main.files db ∧
    ∀ f, f ∈ Main.files da →
      ∃ ta tb fc, Main.read da f = Some ta ∧ Main.read db f = Some tb ∧
        compare_file ta tb (t ++ "/" ++ f) (Main.as_text f) = Ok fc ∧
        structure fc = true.
End Spec.
