(* ===== verification/FoamTimeProofs.v ===== *)
(** * Properties of tools/foam_time_compare.py

    The lemmas on the reader, on the entry comparison and on the driver of
    [FoamTime], and the properties proved from them: the reader's round trip and
    termination, the meaning of the structure flag, the bound [worst] gives, and
    the two places where the comparison sees less than its messages say (NaN
    differences, text files without a banner). *)
From stdpp Require Import gmap.
From S2P Require Export FoamTime.

#[local] Set Warnings "-register-all".

(** ** Lemmas *)
Module Facts.
Import Read Num Cmp Spec.

Lemma value_loop_flat toks depth rest :
  closed toks depth →
  value_loop (toks ++ (";" : str) :: rest) depth = Ok (toks, rest).
Proof.
  revert depth; induction toks as [|t toks IH]; intros depth;
    cbn [value_loop closed app].
  - intros ->. done.
  - intros [Hne Hc]. cbv zeta. rewrite (IH _ Hc).
    destruct (bool_decide_reflect (t = ";" :> str)) as [->|]; [|done].
    destruct (Z.eqb_spec depth 0) as [->|]; [by destruct Hne | done].
Qed.

Lemma value_loop_rest toks depth v r :
  value_loop toks depth = Ok (v, r) → length r < length toks.
Proof.
  revert depth v r; induction toks as [|t toks IH]; intros depth v r;
    cbn [value_loop]; [done|].
  case_match; [intros [= _ <-]; cbn; lia|].
  destruct (value_loop toks _) as [[v' r']|] eqn:E; cbn; [|done].
  intros [= _ <-]. apply IH in E. cbn. lia.
Qed.

Lemma value_loop_error toks depth e :
  value_loop toks depth = Raise e → e = IndexError.
Proof.
  revert depth; induction toks as [|t toks IH]; intros depth;
    cbn [value_loop]; [by intros [= <-]|].
  case_match; [done|].
  destruct (value_loop toks _) as [[v r]|e'] eqn:E; cbn; [done|].
  intros [= <-]. by eapply IH.
Qed.

Lemma flat_cons_dict k es es' rest :
  flat ((k, VDict es) :: es') ++ rest
  = k :: ("{" : str) :: flat es ++ ("}" : str) :: flat es' ++ rest.
Proof. unfold flat. cbn. by rewrite <- !app_assoc. Qed.

Lemma flat_cons_val k v es' rest :
  flat ((k, VVal v) :: es') ++ rest = k :: v ++ (";" : str) :: flat es' ++ rest.
Proof. unfold flat. cbn. by rewrite <- !app_assoc. Qed.

Lemma length_flat_dict k es es' :
  length (flat ((k, VDict es) :: es')) = 3 + length (flat es) + length (flat es').
Proof.
  rewrite <- (app_nil_r (flat (_ :: _))), flat_cons_dict, app_nil_r.
  cbn [length]. rewrite length_app. cbn [length]. lia.
Qed.

Lemma length_flat_val k v es' :
  length (flat ((k, VVal v) :: es')) = 2 + length v + length (flat es').
Proof.
  rewrite <- (app_nil_r (flat (_ :: _))), flat_cons_val, app_nil_r.
  cbn [length]. rewrite length_app. cbn [length]. lia.
Qed.

Lemma block_loop_flat fuel es rest :
  length (flat es) ≤ fuel → wf es →
  block_loop fuel (flat es ++ ("}" : str) :: rest) = Ok (es, ("}" : str) :: rest).
Proof.
  revert es rest; induction fuel as [|fuel IH]; intros [|[k v] es] rest Hf Hwf;
    [done | destruct v; rewrite ?length_flat_dict, ?length_flat_val in Hf; lia
    | done |].
  destruct Hwf as (Hk & Hv & Hes).
  destruct v as [inner|toks].
  - rewrite length_flat_dict in Hf.
    rewrite flat_cons_dict. cbn [block_loop].
    rewrite bool_decide_false by done. cbn [tail].
    unfold getitem; cbn [lookup list_lookup from_opt mbind res_mbind].
    rewrite bool_decide_true by done.
    rewrite IH by (done || lia). cbn. rewrite IH by (done || lia). done.
  - destruct Hv as [Hh Hc].
    rewrite length_flat_val in Hf.
    rewrite flat_cons_val. cbn [block_loop].
    rewrite bool_decide_false by done.
    rewrite value_loop_flat by done.
    destruct toks as [|t toks]; cbn in *; [rewrite IH by (done || lia); done|].
    rewrite bool_decide_false by congruence. rewrite IH by (done || lia). done.
Qed.

Lemma block_loop_total fuel toks :
  length toks ≤ fuel →
  (∀ e, block_loop fuel toks = Raise e → e = IndexError) ∧
  (∀ es r, block_loop fuel toks = Ok (es, r) → length r ≤ length toks).
Proof.
  revert toks; induction fuel as [|fuel IH]; intros [|key l1] Hf;
    [cbn; split; [done | by intros ?? [= _ <-]] | cbn in Hf; lia
    |cbn; split; [done | by intros ?? [= _ <-]] |].
  cbn [block_loop]. case_match; [split; [done | by intros ?? [= _ <-]]|].
  destruct l1 as [|t l2]; cbn -[value_loop block_loop];
    [split; [by intros e [= <-] | done]|].
  cbn in Hf.
  case_match.
  - destruct (IH l2) as [E1 L1]; [lia|].
    destruct (block_loop fuel l2) as [[inner r]|e]; cbn;
      [|split; [intros e0 He0; apply E1; congruence | done]].
    specialize (L1 _ _ eq_refl).
    assert (length (tail r) ≤ length r) by (destruct r; cbn; lia).
    destruct (IH (tail r)) as [E2 L2]; [lia|].
    destruct (block_loop fuel (tail r)) as [[out r']|e]; cbn;
      [|split; [intros e0 He0; apply E2; congruence | done]].
    specialize (L2 _ _ eq_refl). split; [done|]. intros ?? [= _ <-]. lia.
  - destruct (value_loop (t :: l2) 0) as [[val r]|e] eqn:E; cbn -[block_loop].
    + apply value_loop_rest in E. cbn in E.
      destruct (IH r) as [E2 L2]; [lia|].
      destruct (block_loop fuel r) as [[out r']|e]; cbn;
      [|split; [intros e0 He0; apply E2; congruence | done]].
      specialize (L2 _ _ eq_refl). split; [done|]. intros ?? [= _ <-]. lia.
    + apply value_loop_error in E as ->. split; [by intros ? [= <-] | done].
Qed.
End Facts.

Module CmpFacts.
Import Read Num Cmp Spec.

Lemma fval_rect' (P : fval → Prop) :
  (∀ es, (∀ k v, (k, v) ∈ es → P v) → P (VDict es)) →
  (∀ toks, P (VVal toks)) → ∀ v, P v.
Proof.
  intros Hd Hv.
  assert (∀ v, P v) as H; [|exact H].
  fix IH 1. intros [es|toks]; [|exact (Hv toks)].
  assert (Forall (λ e, P e.2) es) as Hes.
  { induction es as [|e es IHes]; constructor; [exact (IH e.2) | exact IHes]. }
  apply Hd. intros k v Hin. rewrite Forall_forall in Hes. exact (Hes _ Hin).
Qed.

(** *** [with_max] over a list of pairs *)
Definition max_all (ps : list (float * float)) (f : FileCompare) : FileCompare :=
  fold_left (λ f pq, with_max f pq.1 pq.2) ps f.

Lemma max_all_same ps f :
  structure (max_all ps f) = structure f ∧ notes (max_all ps f) = notes f.
Proof.
  unfold max_all. apply (fold_left_ind (λ f', structure f' = structure f ∧ notes f' = notes f));
    [done|]. by intros [p q] f' _ H.
Qed.

Lemma max_all_not_nan ps f :
  is_nan (worst f) = false → is_nan (worst (max_all ps f)) = false.
Proof.
  intros H. unfold max_all. apply (fold_left_ind (λ f', is_nan (worst f') = false));
    [done|]. intros [p q] f' _ Hf; cbn. auto with py.
Qed.

Lemma max_all_ge ps f :
  is_nan (worst f) = false →
  fleb (worst f) (worst (max_all ps f)) = true ∧
  ∀ pq, pq ∈ ps → is_nan (diff pq) = false →
    fleb (diff pq) (worst (max_all ps f)) = true.
Proof.
  unfold max_all.
  revert f; induction ps as [|[p q] ps IH]; intros f Hf; cbn [fold_left fst snd].
  - split; [by apply fleb_refl|]. by intros ? ?%not_elem_of_nil.
  - destruct (IH (with_max f p q)) as [H1 H2]; [cbn; auto with py|].
    split.
    + eapply fleb_trans; [|exact H1]. cbn. auto with py.
    + intros pq [->|Hin]%elem_of_cons Hn; [|by apply H2].
      eapply fleb_trans; [|exact H1]. cbn. auto with py.
Qed.

Lemma max_all_worst ps f :
  worst (max_all ps f) = worst f ∨ ∃ pq, pq ∈ ps ∧ worst (max_all ps f) = diff pq.
Proof.
  unfold max_all. revert f; induction ps as [|[p q] ps IH]; intros f; cbn [fold_left fst snd];
    [by left|].
  destruct (IH (with_max f p q)) as [->|(pq & Hin & ->)].
  - cbn [worst with_max fst snd].
    destruct (fmax_cases (worst f) (fabs (fsub p q))) as [->| ->]; [by left|].
    right. exists (p, q). split; [left | done].
  - right. exists pq. split; [by right | done].
Qed.

Lemma max_all_nan ps f :
  (∀ pq, pq ∈ ps → is_nan (diff pq) = true) → worst (max_all ps f) = worst f.
Proof.
  intros H. unfold max_all.
  apply (fold_left_ind (λ f', worst f' = worst f)); [done|].
  intros [p q] f' Hin Hf. cbn. rewrite fmax_nan; [done|]. by apply (H (p, q)).
Qed.

Lemma max_all_diag ps f :
  (∀ p q, (p, q) ∈ ps → p = q) → worst f = fzero → worst (max_all ps f) = fzero.
Proof.
  intros H Hf. unfold max_all.
  apply (fold_left_ind (λ f', worst f' = fzero)); [done|].
  intros [p q] f' Hin Hw. rewrite (H _ _ Hin). cbn. rewrite Hw.
  by destruct (fsub_diag q) as [->| ->].
Qed.

(** *** [values] *)
Lemma values_cases f path va vb f' :
  values f path va vb = Ok f' →
  (∃ ps, visited va vb ps ∧ f' = max_all ps f) ∨
  (∃ n, f' = bad f n ∧ ¬ ∃ ps, visited va vb ps) ∨
  (f' = f ∧ va = vb ∧ numbers va = Ok None).
Proof.
  unfold values, visited. intros H. apply bind_Ok in H as (na & Ha & H).
  apply bind_Ok in H as (nb & Hb & H).
  destruct na as [na|], nb as [nb|].
  - destruct (expand na nb) as [a b] eqn:E.
    destruct (same_lengths a b) eqn:El; injection H as <-.
    + left. exists (pairs a b). split; [|done]. exists na, nb. by rewrite E.
    + right; left. eexists; split; [done|].
      intros (ps & na' & nb' & Ha' & Hb' & Hl & _).
      assert (na' = na) as -> by congruence.
      assert (nb' = nb) as -> by congruence.
      rewrite E in Hl. cbn in Hl. congruence.
  - destruct (bool_decide_reflect (va = vb)) as [->|Hne]; [congruence|].
    injection H as <-. right; left. eexists; split; [done|].
    intros (ps & na' & nb' & _ & Hb' & _). congruence.
  - destruct (bool_decide_reflect (va = vb)) as [->|Hne]; [congruence|].
    injection H as <-. right; left. eexists; split; [done|].
    intros (ps & na' & nb' & Ha' & _). congruence.
  - destruct (bool_decide_reflect (va = vb)) as [->|Hne]; injection H as <-.
    + by right; right.
    + right; left. eexists; split; [done|].
      intros (ps & na' & nb' & Ha' & _). congruence.
Qed.

Lemma visited_fun va vb ps ps' : visited va vb ps → visited va vb ps' → ps = ps'.
Proof.
  intros (na & nb & Ha & Hb & _ & ->) (na' & nb' & Ha' & Hb' & _ & ->).
  congruence.
Qed.

Lemma expand_diag na : expand na na = (na.2, na.2).
Proof.
  destruct na as [k a]. cbn.
  by destruct k.
Qed.

Lemma same_lengths_diag a : same_lengths a a = true.
Proof.
  unfold same_lengths. rewrite Nat.eqb_refl. cbn. apply forallb_elem.
  intros [x y] H. cbn. apply Nat.eqb_eq.
  induction a as [|z a IH]; cbn in H; [by apply not_elem_of_nil in H|].
  apply elem_of_cons in H as [[= -> ->]|H]; auto.
Qed.

Lemma zip_diag {A} (l : list A) x y : (x, y) ∈ zip l l → x = y.
Proof.
  induction l as [|z l IH]; cbn; [by intros ?%not_elem_of_nil|].
  intros [[= -> ->]|H]%elem_of_cons; auto.
Qed.

Lemma pairs_diag a p q : (p, q) ∈ pairs a a → p = q.
Proof.
  unfold pairs. rewrite list_elem_of_In, in_flat_map.
  intros ([x y] & Hx & Hp). apply list_elem_of_In in Hx, Hp. cbn in Hp.
  apply zip_diag in Hx as ->. by apply zip_diag in Hp.
Qed.

Lemma visited_diag v ps p q : visited v v ps → (p, q) ∈ ps → p = q.
Proof.
  intros (na & nb & Ha & Hb & _ & ->).
  assert (nb = na) as -> by congruence. rewrite expand_diag. apply pairs_diag.
Qed.

(** *** Nothing is reported of a value against itself *)
Definition clean (f f' : FileCompare) : Prop :=
  structure f' = structure f ∧ notes f' = notes f ∧
  (worst f = fzero → worst f' = fzero).

Lemma values_diag f path v f' : values f path v v = Ok f' → clean f f'.
Proof.
  intros H. destruct (values_cases _ _ _ _ _ H)
    as [(ps & Hv & ->)|[(n & -> & Hn)|(-> & _ & _)]]; [| |done].
  - split; [|split]; [apply max_all_same..|].
    apply max_all_diag. intros p q. by eapply visited_diag.
  - exfalso. unfold values in H.
    destruct (numbers v) as [[na|]|] eqn:E; cbn in H; [| |done].
    + apply Hn. exists (pairs na.2 na.2), na, na. rewrite expand_diag.
      repeat split; try done. apply same_lengths_diag.
    + rewrite bool_decide_true in H by done. injection H as H.
      apply (f_equal notes), (f_equal length) in H. cbn in H.
      rewrite length_app in H. cbn in H. lia.
Qed.

Lemma dict_get_elem {A} k (l : list (str * A)) v :
  dict_get k l = Some v → (k, v) ∈ l.
Proof.
  unfold dict_get. intros ([k' v'] & H & ->)%fmap_Some.
  apply List.find_some in H as [H Hk]. apply bool_decide_eq_true in Hk.
  cbn in Hk; subst k'. apply list_elem_of_In. by apply in_rev.
Qed.

Lemma dict_get_unique {A} k (l : list (str * A)) v :
  NoDup (map fst l) → (k, v) ∈ l → dict_get k l = Some v.
Proof.
  intros Hnd Hin. destruct (dict_get k l) as [v'|] eqn:E.
  - apply dict_get_elem in E. f_equal.
    induction l as [|[k1 v1] l IH]; [by apply not_elem_of_nil in Hin|].
    cbn in Hnd. apply NoDup_cons in Hnd as [Hk Hnd].
    rewrite list_elem_of_In, in_map_iff in Hk. setoid_rewrite <- list_elem_of_In in Hk.
    apply elem_of_cons in Hin as [Hin|Hin]; apply elem_of_cons in E as [E|E].
    + congruence.
    + destruct Hk. exists (k, v'). split; [cbn; congruence | done].
    + destruct Hk. exists (k, v). split; [cbn; congruence | done].
    + by apply IH.
  - unfold dict_get in E. apply fmap_None in E.
    apply list_elem_of_In, in_rev in Hin.
    pose proof (List.find_none _ _ E _ Hin) as H. cbn in H.
    by rewrite bool_decide_true in H.
Qed.

Lemma clean_trans f f1 f2 : clean f f1 → clean f1 f2 → clean f f2.
Proof.
  intros (E1 & E2 & E3) (E4 & E5 & E6). unfold clean.
  rewrite E4, E5. auto.
Qed.

Lemma unique_elem es k v : unique es → (k, v) ∈ es → unique_val v.
Proof.
  intros [_ H] Hin. induction es as [|[k' v'] es IH].
  - by apply not_elem_of_nil in Hin.
  - destruct H as [H1 H2]. apply elem_of_cons in Hin as [[= -> ->]|Hin]; auto.
Qed.

Lemma entries_diag cmp f path es f' :
  NoDup (map fst es) →
  (∀ f f' k v, (k, v) ∈ es → cmp f path k v v = Ok f' → clean f f') →
  entries_with cmp f path es es = Ok f' → clean f f'.
Proof.
  intros Hnd Hc. unfold entries_with. rewrite bool_decide_true by done.
  intros H. eapply (foldR_ind (clean f)); [exact H | done |].
  intros [k v] f1 f2 Hin Hf1 Hs. cbn in Hs.
  rewrite (dict_get_unique k es v) in Hs by done. cbn in Hs.
  eapply clean_trans; [done|]. by eapply Hc.
Qed.

Lemma compare_entry_diag v : ∀ f path k f',
  unique_val v → compare_entry f path k v v = Ok f' → clean f f'.
Proof.
  induction v as [es IH|toks] using fval_rect'; intros f path k f' Hu; cbn [compare_entry].
  - apply entries_diag; [apply Hu|]. intros f1 f2 k' v Hin. eapply IH; [done|].
    by eapply unique_elem.
  - rewrite (bool_decide_true (toks = toks)) by done.
    case_match; [by intros [= <-] | apply values_diag].
Qed.

Lemma compare_entries_diag f path es f' :
  unique es → compare_entries f path es es = Ok f' → clean f f'.
Proof.
  intros Hu. apply entries_diag; [apply Hu|].
  intros f1 f2 k v Hin. apply compare_entry_diag. by eapply unique_elem.
Qed.
End CmpFacts.

Module DeepFacts.
Import Read Num Cmp Spec CmpFacts.

Lemma exact_key_spec path k :
  bool_decide (k ∈ EXACT_KEYS) || bool_decide (path = "FoamFile" :> str) = true
  ↔ exact_key path k.
Proof. by rewrite orb_true_iff, !bool_decide_eq_true. Qed.

Lemma values_structure f path va vb f' :
  values f path va vb = Ok f' →
  structure f' = true ↔
  structure f = true ∧
  ((∃ ps, visited va vb ps) ∨ va = vb ∧ numbers va = Ok None).
Proof.
  intros H. destruct (values_cases _ _ _ _ _ H)
    as [(ps & Hv & ->)|[(n & -> & Hn)|(-> & -> & Hn)]].
  - destruct (max_all_same ps f) as [-> _]. split; [eauto | tauto].
  - cbn. split; [done|]. intros [Hf [Hv|[-> Hv]]]; [done|].
    unfold values in H. rewrite Hv in H. cbn in H.
    rewrite bool_decide_true in H by done. injection H as H.
    apply (f_equal structure) in H. cbn in H. congruence.
  - split; [eauto | tauto].
Qed.

Lemma entries_structure cmp f path ea eb f' :
  (∀ k v vb f f', (k, v) ∈ ea → cmp f path k v vb = Ok f' →
     structure f' = true ↔ structure f = true ∧ same_val path k v vb) →
  entries_with cmp f path ea eb = Ok f' →
  structure f' = true ↔ structure f = true ∧ same_entries path ea eb.
Proof.
  intros Hc. unfold entries_with, same_entries.
  destruct (bool_decide_reflect (map fst ea = map fst eb)) as [Hk|Hk].
  - intros H.
    rewrite (foldR_iff (λ f, structure f = true)
      (λ e, ∀ vb, dict_get e.1 eb = Some vb → same_val path e.1 e.2 vb) _ _ _ _ H).
    + split.
      * intros [Hf Hl]. repeat split; try done. intros k v vb Hin. by apply (Hl (k, v)).
      * intros (Hf & _ & Hl). split; [done|]. intros [k v] Hin vb. by apply Hl.
    + intros [k v] f1 f2 Hin (vb & Hvb & Hs)%bind_Ok. cbn in *.
      apply from_opt_Ok in Hvb. rewrite (Hc _ _ _ _ _ Hin Hs). rewrite Hvb.
      split; intros [Hf Hq]; (split; [done|]); [by intros ? [= <-] | by apply Hq].
  - intros [= <-]. cbn. split; [done|]. by intros (_ & ? & _).
Qed.

Lemma compare_entry_structure v : ∀ f path k vb f',
  compare_entry f path k v vb = Ok f' →
  structure f' = true ↔ structure f = true ∧ same_val path k v vb.
Proof.
  induction v as [es IH|toks] using fval_rect'; intros f path k [eb|vb] f';
    cbn [compare_entry].
  - intros H. apply entries_structure in H; [|intros; by eapply IH].
    rewrite H. split; (intros [Hf Hs]; split; [done|]).
    + destruct Hs. by constructor.
    + inversion Hs; subst. by split.
  - intros [= <-]. cbn. split; [done|]. intros [_ Hs]; inversion Hs.
  - intros [= <-]. cbn. split; [done|]. intros [_ Hs]; inversion Hs.
  - destruct (_ || _) eqn:E.
    + apply exact_key_spec in E.
      destruct (bool_decide_reflect (toks = vb)) as [->|Hne]; intros [= <-].
      * split; [|tauto]. intros Hf; split; [done|]. by constructor.
      * cbn. split; [done|]. intros [_ Hs]; inversion Hs; subst; done.
    + assert (¬ exact_key path k) as Hx.
      { intros Hx%exact_key_spec. congruence. }
      intros H%values_structure. rewrite H.
      split; (intros [Hf Hs]; split; [done|]).
      * destruct Hs as [(ps & na & nb & Ha & Hb & Hl & _)|[-> Hn]];
          [by eapply SV_numbers | by apply SV_tokens].
      * inversion Hs; subst; [done| |by right].
        left. eexists. unfold visited. eauto 10.
Qed.

(** *** The worst difference bounds every pair reached *)
Definition grows (f f' : FileCompare) : Prop :=
  is_nan (worst f) = false →
  is_nan (worst f') = false ∧ fleb (worst f) (worst f') = true.

Lemma grows_eq f f' : worst f' = worst f → grows f f'.
Proof. intros E H. rewrite E. auto with py. Qed.

Lemma grows_trans f1 f2 f3 : grows f1 f2 → grows f2 f3 → grows f1 f3.
Proof.
  intros H1 H2 Hn. destruct (H1 Hn) as [Hn2 L1]. destruct (H2 Hn2) as [Hn3 L2].
  split; [done|]. by eapply fleb_trans.
Qed.

Lemma values_grows f path va vb f' : values f path va vb = Ok f' → grows f f'.
Proof.
  intros H. destruct (values_cases _ _ _ _ _ H)
    as [(ps & Hv & ->)|[(n & -> & Hn)|(-> & -> & Hn)]];
    [|by apply grows_eq..].
  intros Hn. split; [by apply max_all_not_nan | by apply max_all_ge].
Qed.

Lemma entries_grows cmp f path ea eb f' :
  (∀ k v vb f f', (k, v) ∈ ea → cmp f path k v vb = Ok f' → grows f f') →
  entries_with cmp f path ea eb = Ok f' → grows f f'.
Proof.
  intros Hc. unfold entries_with. case_match; [|intros [= <-]; by apply grows_eq].
  intros H'. eapply (foldR_ind (grows f)); [exact H' | by apply grows_eq |].
  intros [k v] f1 f2 Hin Hg (vb & _ & Hs)%bind_Ok.
  eapply grows_trans; [done|]. by eapply Hc.
Qed.

Lemma compare_entry_grows v : ∀ f path k vb f',
  compare_entry f path k v vb = Ok f' → grows f f'.
Proof.
  induction v as [es IH|toks] using fval_rect'; intros f path k [eb|vb] f';
    cbn [compare_entry]; try (intros [= <-]; by apply grows_eq).
  - apply entries_grows. intros; by eapply IH.
  - case_match; [|apply values_grows].
    case_match; intros [= <-]; by apply grows_eq.
Qed.

Lemma values_reach f path va vb f' ps pq :
  values f path va vb = Ok f' → is_nan (worst f) = false →
  visited va vb ps → pq ∈ ps → is_nan (diff pq) = false →
  fleb (diff pq) (worst f') = true.
Proof.
  intros H Hf Hv Hin Hn. destruct (values_cases _ _ _ _ _ H)
    as [(ps' & Hv' & ->)|[(n & -> & Hnv)|(-> & -> & Hnum)]].
  - rewrite (visited_fun _ _ _ _ Hv Hv') in Hin. by apply max_all_ge.
  - exfalso. eauto.
  - destruct Hv as (na & nb & Ha & _). congruence.
Qed.

(** Once an element of the fold has brought [worst] above a value it stays
    above. *)
Lemma foldR_reach {A} (step : FileCompare → A → res FileCompare) l x d f f' :
  foldR step l f = Ok f' → x ∈ l → is_nan (worst f) = false →
  (∀ y f1 f2, y ∈ l → step f1 y = Ok f2 → grows f1 f2) →
  (∀ f1 f2, is_nan (worst f1) = false → step f1 x = Ok f2 → fleb d (worst f2) = true) →
  fleb d (worst f') = true.
Proof.
  intros H Hin Hf Hg Hx. apply list_elem_of_split in Hin as (l1 & l2 & ->).
  rewrite foldR_app in H. apply bind_Ok in H as (f1 & H1 & H2).
  cbn in H2. apply bind_Ok in H2 as (f2 & Hs & H3).
  assert (grows f f1) as G1.
  { eapply (foldR_ind (grows f)); [exact H1 | by apply grows_eq |].
    intros y s1 s2 Hy Hs1 Hs2. eapply grows_trans; [done|].
    eapply Hg; [|done]. set_solver. }
  assert (grows f2 f') as G3.
  { eapply (foldR_ind (grows f2)); [exact H3 | by apply grows_eq |].
    intros y s1 s2 Hy Hs1 Hs2. eapply grows_trans; [done|].
    eapply Hg; [|done]. set_solver. }
  destruct (G1 Hf) as [Hf1 _].
  assert (grows f1 f2) as G2 by (eapply Hg; [|done]; set_solver).
  destruct (G2 Hf1) as [Hf2 _]. destruct (G3 Hf2) as [_ Hle].
  eapply fleb_trans; [exact (Hx _ _ Hf1 Hs) | done].
Qed.

Lemma entries_reach pq f path ea eb k v vb f' :
  compare_entries f path ea eb = Ok f' → is_nan (worst f) = false →
  map fst ea = map fst eb → (k, v) ∈ ea → dict_get k eb = Some vb →
  (∀ f1 f2, is_nan (worst f1) = false → compare_entry f1 path k v vb = Ok f2 →
     fleb (diff pq) (worst f2) = true) →
  fleb (diff pq) (worst f') = true.
Proof.
  unfold compare_entries, entries_with. intros H Hf Hk Hin Hget Hx.
  rewrite bool_decide_true in H by done.
  eapply (foldR_reach _ _ (k, v)); [exact H|done|done|..].
  - intros [k1 v1] f1 f2 _ (vb1 & _ & Hs)%bind_Ok. by eapply compare_entry_grows.
  - intros f1 f2 Hf1 (vb1 & Hvb%from_opt_Ok & Hs)%bind_Ok. cbn in *.
    rewrite Hget in Hvb. injection Hvb as <-. by eapply Hx.
Qed.

Lemma compare_entry_reach pq path k v vb :
  reaches pq path k v vb → is_nan (diff pq) = false →
  ∀ f f', is_nan (worst f) = false → compare_entry f path k v vb = Ok f' →
    fleb (diff pq) (worst f') = true.
Proof.
  induction 1 as [path k va vb ps Hx Hv Hin|path k ea eb k' v vb Hk Hin Hget _ IH];
    intros Hn f f' Hf; cbn [compare_entry].
  - destruct (_ || _) eqn:E; [apply exact_key_spec in E; by destruct Hx|].
    intros H. by eapply values_reach.
  - intros H. eapply entries_reach; [exact H|done..|]. by apply IH.
Qed.
End DeepFacts.

(** ** Properties *)
Module Props.
Import Read Num Cmp Main Spec Facts CmpFacts DeepFacts.

(** C12: the reader gives back every well-formed dictionary it is handed in
    OpenFOAM's own layout, and stops after its closing brace. *)
Theorem parse_block_flat (es : entries) (rest : list str) :
  wf es → parse_block (flat es ++ ("}" : str) :: rest) = Ok (es, rest).
Proof.
  intros H. unfold parse_block. rewrite block_loop_flat; [done| |done].
  rewrite length_app. cbn. lia.
Qed.

(** the reader ends on every token list, and its only failure is running off
    the end ([IndexError]). *)
Theorem parse_block_total (toks : list str) :
  (∃ es r, parse_block toks = Ok (es, r) ∧ length r ≤ length toks) ∨
  parse_block toks = Raise IndexError.
Proof.
  unfold parse_block.
  destruct (block_loop_total (length toks) toks) as [E L]; [done|].
  destruct (block_loop (length toks) toks) as [[es r]|e] eqn:H.
  - left. exists es, (tail r). split; [done|].
    specialize (L _ _ eq_refl). destruct r; cbn in *; lia.
  - right. by rewrite (E e eq_refl).
Qed.

Definition sample_entries : entries :=
  [("class" : str, VVal ["volScalarField" : str]);
   ("wall" : str, VDict [("value" : str, VVal ["uniform" : str; "(" : str; "0" : str; ")" : str])])].

Lemma parse_block_flat_witness :
  wf sample_entries ∧
  parse_block (flat sample_entries ++ ("}" : str) :: ["x" : str]) = Ok (sample_entries, ["x" : str]).
Proof.
  assert (wf sample_entries) as H
    by (vm_compute; repeat split; try discriminate; intros [H1 H2]; discriminate).
  split; [exact H|]. exact (parse_block_flat sample_entries ["x" : str] H).
Defined.

(** C10: the structure flag decides sameness of structure: after comparing two
    dictionaries it is still set exactly when it was set before and the two have
    the same keywords in the same order, with at every keyword two dictionaries
    of the same structure, two numeric entries of the same shape, or the same
    tokens. *)
Theorem compare_entries_structure f path ea eb f' :
  compare_entries f path ea eb = Ok f' →
  structure f' = true ↔ structure f = true ∧ same_entries path ea eb.
Proof. apply entries_structure. intros; by apply compare_entry_structure. Qed.

Lemma compare_entries_structure_witness :
  ∃ f', compare_entries (init "t") [] sample_entries sample_entries = Ok f' ∧
    structure f' = true ∧ same_entries [] sample_entries sample_entries.
Proof.
  destruct (compare_entries (init "t") [] sample_entries sample_entries) as [f'|e] eqn:E.
  - exists f'. split; [reflexivity|].
    assert (structure f' = true) as H by (vm_compute in E; injection E as <-; reflexivity).
    split; [exact H|].
    exact (proj2 (proj1 (compare_entries_structure _ _ _ _ _ E) H)).
  - vm_compute in E. discriminate E.
Defined.

(** C11: the reported worst difference is an upper bound: every pair of numbers
    the comparison of two dictionaries reaches differs by at most [worst],
    unless the difference is NaN. *)
Theorem compare_entries_worst f path ea eb f' k v vb pq :
  compare_entries f path ea eb = Ok f' → is_nan (worst f) = false →
  map fst ea = map fst eb → (k, v) ∈ ea → dict_get k eb = Some vb →
  reaches pq path k v vb → is_nan (diff pq) = false →
  fleb (diff pq) (worst f') = true.
Proof.
  intros H Hf Hk Hin Hget Hr Hn. eapply entries_reach; [exact H|done..|].
  intros f1 f2. by apply compare_entry_reach.
Qed.

Definition side (x : str) : entries := [("v" : str, VVal ["uniform" : str; x])].
Definition one : float := float_of_dec false 1 0.
Definition two : float := float_of_dec false 2 0.

Lemma compare_entries_worst_witness :
  ∃ f', compare_entries (init "t") [] (side "1") (side "2") = Ok f' ∧
    fleb (diff (one, two)) (worst f') = true.
Proof.
  destruct (compare_entries (init "t") [] (side "1") (side "2")) as [f'|e] eqn:E;
    [|vm_compute in E; discriminate E].
  exists f'. split; [reflexivity|].
  refine (compare_entries_worst _ _ _ _ _ "v" (VVal ["uniform" : str; "1" : str])
    (VVal ["uniform" : str; "2" : str]) (one, two) E _ _ _ _ _ _); try reflexivity.
  - left.
  - eapply (R_numbers _ _ _ _ _ [(one, two)]); [|eexists _, _; repeat split; reflexivity|left].
    intros [H|H]; [|discriminate H].
    repeat (apply elem_of_cons in H as [H|H]; [discriminate H|]).
    by apply not_elem_of_nil in H.
Defined.

(** A file compared with itself reports nothing: no structural failure, no
    note, relative difference zero, provided no dictionary of it repeats a
    keyword. *)
Theorem compare_file_same text tg b f' :
  (∀ es r, parse_block (dict_tokens text ++ close) = Ok (es, r) → unique es) →
  compare_file text text tg b = Ok f' →
  structure f' = true ∧ notes f' = [] ∧ rel f' = fzero.
Proof.
  intros Hu H.
  assert (clean (init tg) f') as (E1 & E2 & E3).
  { unfold compare_file in H. unfold dict_tokens in Hu. destruct b.
    - rewrite bool_decide_true in H by done. by injection H as <-.
    - destruct (bare_list (tokens text)) as [[ha la]|].
      + apply bind_Ok in H as ([es r] & Hp & H). rewrite Hp in H. cbn in H.
        apply bind_Ok in H as (f1 & H1 & H).
        apply bind_Ok in H as (n & Hn & H). rewrite Hn in H. cbn in H.
        rewrite bool_decide_true in H by done.
        eapply clean_trans; [eapply compare_entries_diag; [by eapply Hu|exact H1]|].
        by eapply values_diag.
      + apply bind_Ok in H as ([es r] & Hp & H). rewrite Hp in H. cbn in H.
        eapply compare_entries_diag; [by eapply Hu | exact H]. }
  split; [done|]. split; [done|]. unfold rel. rewrite (E3 eq_refl).
  case_match eqn:Hs; [|done]. apply fltb_rank in Hs as (_ & Hn & Hl).
  destruct (scale f') as [[]|[]| |[] m e]; cbn in *; try done; lia.
Qed.

Definition sample_text : str :=
  "FoamFile { class volScalarField; } dimensions [0 2 -1 0 0 0 0]; internalField nonuniform List<scalar> 2 ( 1 2.5 ) ; wall { type zeroGradient; }".

Lemma compare_file_same_witness :
  ∃ f', compare_file sample_text sample_text "t" false = Ok f' ∧ structure f' = true.
Proof.
  destruct (compare_file sample_text sample_text "t" false) as [f'|e] eqn:E;
    [|vm_compute in E; discriminate E].
  exists f'. split; [reflexivity|].
  refine (proj1 (compare_file_same sample_text "t" false f' _ E)).
  intros es r H. vm_compute in H. injection H as <- _.
  repeat (split || apply NoDup_cons_2 || apply NoDup_nil_2 ||
    (intros H; repeat (apply elem_of_cons in H as [H|H]; [discriminate H|]);
     by apply not_elem_of_nil in H) || exact I).
Defined.

(** NaN differences are not seen: when every compared number of an entry
    gives a NaN difference (one side NaN, or the same infinity on both), the
    structure flag, the notes and the reported worst difference stay what they
    were, however many numbers the entry holds. *)
Theorem nan_difference_unseen f path va vb f' ps :
  values f path va vb = Ok f' → visited va vb ps →
  (∀ pq, pq ∈ ps → is_nan (diff pq) = true) →
  structure f' = structure f ∧ notes f' = notes f ∧ worst f' = worst f.
Proof.
  intros H Hv Hn. destruct (values_cases _ _ _ _ _ H)
    as [(ps' & Hv' & ->)|[(n & -> & Hnv)|(-> & _ & _)]]; [| |done].
  - rewrite <- (visited_fun _ _ _ _ Hv Hv').
    destruct (max_all_same ps f) as [-> ->]. repeat split. by apply max_all_nan.
  - exfalso. eauto.
Qed.

Lemma nan_difference_unseen_witness :
  ∃ f', values (init "t") "v" ["uniform" : str; "1" : str] ["uniform" : str; "nan" : str] = Ok f' ∧
    structure f' = true ∧ notes f' = [] ∧ worst f' = fzero.
Proof.
  destruct (values (init "t") "v" ["uniform" : str; "1" : str] ["uniform" : str; "nan" : str])
    as [f'|e] eqn:E; [|vm_compute in E; discriminate E].
  exists f'. split; [reflexivity|].
  refine (nan_difference_unseen (init "t") "v" _ _ f' [(one, fnan)] E _ _).
  - eexists _, _. repeat split; reflexivity.
  - intros pq [->|H]%elem_of_cons; [reflexivity | by apply not_elem_of_nil in H].
Defined.

(** Two text files without the word FoamFile compare equal whenever their
    last characters are equal: [find] gives -1 and the slice from -1 keeps one
    character. *)
Theorem text_without_banner a b c t :
  find "FoamFile" (a ++ [c]) 0 = None → find "FoamFile" (b ++ [c]) 0 = None →
  compare_file (a ++ [c]) (b ++ [c]) t true = Ok (init t).
Proof.
  intros Ha Hb. unfold compare_file, from_banner. rewrite Ha, Hb.
  rewrite !length_app. cbn [length]. rewrite !Nat.add_sub, !drop_app_length.
  by rewrite bool_decide_true.
Qed.

Lemma text_without_banner_witness :
  compare_file (("1 0 5" : str) ++ [nl]) (("2 7 9 9" : str) ++ [nl]) "t" true = Ok (init "t").
Proof. apply (text_without_banner "1 0 5" "2 7 9 9" nl "t"); vm_compute; reflexivity. Defined.

(** C9: the exit status is 0 exactly when every given time is written by the
    other case with the reference's file set, and every common file keeps its
    structure. *)
Theorem main_exit_status cases prog ref other times c r :
  main cases (prog :: ref :: other :: times) = Ok (c, r) → times ≠ [] →
  c = 0%Z ↔
  ∀ t, t ∈ times → same_time (default ∅ (cases ref t)) (cases other t) t.
Proof.
  destruct times as [|t0 times]; [done|]. intros H _. cbn [main drop] in H.
  apply bind_Ok in H as (r' & H & [= Hc <-]).
  assert (c = 0%Z ↔ r_structure r' = 0) as ->.
  { subst c. destruct (Nat.eqb_spec (r_structure r') 0); naive_solver. }
  rewrite (foldR_iff (λ r, r_structure r = 0)
    (λ t, same_time (default ∅ (cases ref t)) (cases other t) t) _ _ _ _ H).
  { split; [by intros [_ ?] | done]. }
  intros t r1 r2 _ Ht. unfold one_time in Ht. unfold same_time.
  destruct (cases other t) as [db|].
  2: { injection Ht as <-. cbn. split; [done|]. by intros [_ (? & ? & _)]. }
  set (da := default ∅ (cases ref t)) in *.
  rewrite (foldR_iff (λ r, r_structure r = 0)
    (λ f, ∃ ta tb fc, read da f = Some ta ∧ read db f = Some tb ∧
       compare_file ta tb (t ++ "/" ++ f) (as_text f) = Ok fc ∧
       structure fc = true) _ _ _ _ Ht).
  - unfold set_list. setoid_rewrite elem_of_sorted.
    setoid_rewrite elem_of_elements.
    destruct (bool_decide_reflect (files da = files db)) as [E|E]; cbn.
    + rewrite <- E. split; [intros [H1 H2]; split; [done|]|intros [H1 (db' & [= <-] & _ & H2)]].
      * exists db. repeat split; [done..|]. intros f Hf. by apply H2, elem_of_intersection.
      * split; [done|]. intros f [Hf _]%elem_of_intersection. by apply H2.
    + split; [by intros [? _]|]. by intros [_ (db' & [= <-] & ? & _)].
  - intros f s1 s2 _ Hs. unfold one_file in Hs.
    apply bind_Ok in Hs as (ta & Hta%from_opt_Ok & Hs).
    apply bind_Ok in Hs as (tb & Htb%from_opt_Ok & Hs).
    apply bind_Ok in Hs as (fc & Hfc & [= <-]). cbn. rewrite Hta, Htb.
    destruct (structure fc) eqn:Es.
    + split; [|by intros [? _]]. intros ?; split; [done|]. by exists ta, tb, fc.
    + split; [done|]. intros [_ (ta' & tb' & fc' & [= <-] & [= <-] & Hc' & Hs')].
      assert (Ok fc' = Ok fc) as [= ->] by (rewrite <- Hc'; exact Hfc).
      congruence.
Qed.

Definition wit_dir (x : str) : tree :=
  {[ ("U" : str) := ("FoamFile { } v uniform " : str) ++ x ++ (";" : str) ]}.
Definition wit_cases (c t : str) : option tree :=
  if bool_decide (c = "a" :> str) then Some (wit_dir "1")
  else if bool_decide (t = "1" :> str) then Some (wit_dir "2") else None.

Lemma main_exit_status_witness :
  ∃ r, main wit_cases ["p" : str; "a" : str; "b" : str; "1" : str] = Ok (0%Z, r) ∧
    ∀ t, t ∈ ["1" : str] →
      same_time (default ∅ (wit_cases "a" t)) (wit_cases "b" t) t.
Proof.
  destruct (main wit_cases ["p" : str; "a" : str; "b" : str; "1" : str]) as [[c r]|e] eqn:E;
    [|vm_compute in E; discriminate E].
  assert (c = 0%Z) as Hc by (vm_compute in E; injection E as <- _; reflexivity).
  exists r. split; [by rewrite Hc|].
  refine (proj1 (main_exit_status wit_cases "p" "a" "b" ["1" : str] c r E _) Hc).
  discriminate.
Defined.
End Props.
