(* ===== verification/CtestInputs.v ===== *)
(** * tools/ctest_cached.py: file and directory fingerprints

    [loadedBytesHash], the fingerprint of an ELF file's loaded sections, and the
    class [Inputs], the memo of file and tree digests.  The memo of the run
    ([fresh]) and the memo of earlier runs ([memo]) are maps; the entries the
    source keeps under the keys ['embedded:' + path] are maps of their own here,
    because an absolute path never starts with that prefix. *)
From stdpp Require Import gmap.
From S2P Require Export PyOs.

(** ** loadedBytesHash *)
Module Elf.
Record section := {
  s_name : Z;
  s_kind : Z;
  s_flags : Z;
  s_offset : Z;
  s_size : Z;
}.

Definition magic : str := [ascii_of_N 127; "E"%char; "L"%char; "F"%char].
Definition nul : ascii := ascii_of_N 0.

(** [f.seek(off)]: an offset beyond a C long is an OverflowError. *)
Definition seek (data : str) (off : Z) : res str :=
  if (2 ^ 63 <=? off)%Z then Raise OverflowError else Ok (zdrop off data).

(** [f.read(n)] *)
Definition read (l : str) (n : Z) : res str :=
  if (2 ^ 63 <=? n)%Z then Raise OverflowError else Ok (ztake n l).

(** [struct.unpack_from('<IIQQQQ', table, base)] *)
Definition unpack_section (table : str) (base : Z) : res section :=
  name ← unpack 4 table base;
  kind ← unpack 4 table (base + 4);
  flags ← unpack 8 table (base + 8);
  addr ← unpack 8 table (base + 16);
  offset ← unpack 8 table (base + 24);
  size ← unpack 8 table (base + 32);
  Ok {| s_name := name; s_kind := kind; s_flags := flags; s_offset := offset; s_size := size |}.

(** [names[name:names.index(b'\0', name)]] *)
Definition label_of (names : str) (name : Z) : res str :=
  if (Z.of_nat (length names) <? name)%Z then Raise ValueError
  else let i := Z.to_nat name in
       j ← from_opt ValueError (find [nul] names i); Ok (slice names i j).

Definition build_id : str := ".note.gnu.build-id".

(** SHF_ALLOC, not SHT_NOBITS, and not the linker's id. *)
Definition loaded (s : section) (label : str) : bool :=
  negb ((Z.land (s_flags s) 2 =? 0)%Z || (s_kind s =? 8)%Z
        || bool_decide (label = build_id)).

(** One turn of the loop: what [h] has been fed so far. *)
Definition feed (data names h : str) (s : section) : res str :=
  label ← label_of names (s_name s);
  if loaded s label then
    body ← seek data (s_offset s);
    Ok (h ++ label ++ nul :: le_encode 8 (s_flags s) ++ le_encode 8 (s_size s)
          ++ ztake (s_size s) body)
  else Ok h.

(** The sections and the section names; [None] when the file is not a 64-bit
    little-endian ELF with a section table. *)
Definition sections_of (data : str) : res (option (list section * str)) :=
  let hd := take 64 data in
  if (length hd <? 64) || negb (bool_decide (take 4 hd = magic))
     || negb (bool_decide (hd !! 4 = Some (ascii_of_N 2)))
     || negb (bool_decide (hd !! 5 = Some (ascii_of_N 1)))
  then Ok None
  else
    shoff ← unpack 8 hd 0x28;
    shentsize ← unpack 2 hd 0x3A;
    shnum ← unpack 2 hd 0x3C;
    shstrndx ← unpack 2 hd 0x3E;
    if (shoff =? 0)%Z || (shnum =? 0)%Z || (shentsize <? 64)%Z then Ok None
    else
      body ← seek data shoff;
      table ← read body (shentsize * shnum);
      sections ← mapR (λ k, unpack_section table (Z.of_nat k * shentsize))
                      (seq 0 (Z.to_nat shnum));
      strtab ← getitem sections (Z.to_nat shstrndx);
      body ← seek data (s_offset strtab);
      names ← read body (s_size strtab);
      Ok (Some (sections, names)).

(** The bytes the hash is fed. *)
Definition loaded_stream (data : str) : res (option str) :=
  o ← sections_of data;
  match o with
  | None => Ok None
  | Some (sections, names) => Some <$> foldR (feed data names) sections []
  end.

Definition loadedBytesHash (data : str) : res (option str) :=
  o ← loaded_stream data;
  Ok (match o with Some h => Some (("loaded:" : str) ++ sha256 h) | None => None end).
End Elf.

(** ** class Inputs *)
Module Inputs.
Record t := {
  memo : gmap str (str * str);
  fresh : gmap str (str * str);
  memo_embedded : gmap str (str * list str);
  fresh_embedded : gmap str (str * list str);
  trees : gmap (str * bool) str;
}.

Definition set_fresh (i : t) (p : str) (v : str * str) : t :=
  {| memo := memo i; fresh := <[p := v]> (fresh i); memo_embedded := memo_embedded i;
     fresh_embedded := fresh_embedded i; trees := trees i |}.
Definition set_tree (i : t) (k : str * bool) (v : str) : t :=
  {| memo := memo i; fresh := fresh i; memo_embedded := memo_embedded i;
     fresh_embedded := fresh_embedded i; trees := <[k := v]> (trees i) |}.
Definition set_embedded (i : t) (p : str) (v : str * list str) : t :=
  {| memo := memo i; fresh := fresh i; memo_embedded := memo_embedded i;
     fresh_embedded := <[p := v]> (fresh_embedded i); trees := trees i |}.
Definition clear_trees (i : t) : t :=
  {| memo := memo i; fresh := fresh i; memo_embedded := memo_embedded i;
     fresh_embedded := fresh_embedded i; trees := ∅ |}.

(** [__init__]: the memo file of earlier runs, or nothing. *)
Definition init (saved : option (gmap str (str * str) * gmap str (str * list str))) : t :=
  {| memo := from_option fst ∅ saved; fresh := ∅;
     memo_embedded := from_option snd ∅ saved; fresh_embedded := ∅; trees := ∅ |}.

(** ['%d:%d' % (st.st_size, st.st_mtime_ns)] *)
Definition stamp (f : fs) (path : str) : res str :=
  '(size, mtime) ← stat f path; Ok (dec size ++ ":" ++ dec mtime).

(** The digest of a file's bytes: the loaded sections of an ELF file, the
    whole contents otherwise. *)
Definition digest (data : str) : res str :=
  o ← Elf.loadedBytesHash data;
  Ok (match o with Some d => d | None => sha256 data end).

Definition fileHash (f : fs) (i : t) (path : str) : res (str * t) :=
  let path := real f path in
  st ← stamp f path;
  let compute :=
    data ← read_file f path;
    d ← digest data;
    Ok (d, set_fresh i path (st, d)) in
  let from_memo :=
    match memo i !! path with
    | Some (s, d) => if bool_decide (s = st) then Ok (d, set_fresh i path (s, d)) else compute
    | None => compute
    end in
  match fresh i !! path with
  | Some (s, d) => if bool_decide (s = st) then Ok (d, i) else from_memo
  | None => from_memo
  end.

(** [hashMany]: the work of the thread pool, one task after the other in the
    order [todo]. *)
Definition run_tasks (f : fs) (todo : list str) (i : t) : res t :=
  foldR (λ i p, '(_, i) ← fileHash f i p; Ok i) todo i.
Definition hashMany (f : fs) (i : t) (paths : list str) : res t :=
  run_tasks f (sorted (elements (list_to_set (C := gset str)
    (map (real f) (List.filter (isfile f) paths))))) i.

Definition SKIP_DIRS : list str :=
  ["__pycache__" : str; ".git" : str; "build" : str; "Testing" : str; "processor0" : str].
Definition keep_dir (d : str) : bool := negb (bool_decide (d ∈ SKIP_DIRS)).

(** One file of the walk: its row, or nothing. *)
Definition tree_row (f : fs) (root : str) (byContent : bool) (i : t) (base name : str) :
    res (list str * t) :=
  let full := pjoin base name in
  if ends ".pyc" name || negb (isfile f full) then Ok ([], i)
  else
    let rel := relpath full root in
    '(v, i) ← (if byContent then fileHash f i full
               else (λ s, (s, i)) <$> stamp f full);
    Ok ([rel ++ " " ++ v], i).

(** The files of the tree in the order of the walk. *)
Definition tree_files (f : fs) (root : str) : list (str * str) :=
  concat (map (λ bf, map (λ n, (bf.1, n)) (sorted bf.2)) (walk f keep_dir root)).

Definition tree_rows (f : fs) (root : str) (byContent : bool) (i : t) : res (list str * t) :=
  foldR (λ ri bn, '(row, i) ← tree_row f root byContent ri.2 bn.1 bn.2;
                  Ok (ri.1 ++ row, i))
        (tree_files f root) ([], i).

Definition treeHash (f : fs) (i : t) (root : str) (byContent : bool) : res (str * t) :=
  let key := (real f root, byContent) in
  match trees i !! key with
  | Some d => Ok (d, i)
  | None =>
      '(rows, i) ← tree_rows f key.1 byContent i;
      let d := sha256 (join [nl] rows) in
      Ok (d, set_tree i key d)
  end.

(** [p.split(':', 1)[-1]] *)
Definition after_colon (p : str) : str :=
  match split1 ":" p with (_, Some r) => r | (p, None) => p end.

(** [save]: both maps after [memo.update(fresh)], and what is written: the
    entries whose path still exists. *)
Definition save (f : fs) (i : t) :
    (gmap str (str * str) * gmap str (str * list str)) * t :=
  let m := fresh i ∪ memo i in
  let me := fresh_embedded i ∪ memo_embedded i in
  let live := filter (λ kv, exists_ f (after_colon kv.1) = true) m in
  let live_embedded := filter (λ kv, exists_ f (after_colon (("embedded:" : str) ++ kv.1)) = true) me in
  ((live, live_embedded),
   {| memo := m; fresh := fresh i; memo_embedded := me;
      fresh_embedded := fresh_embedded i; trees := trees i |}).
End Inputs.
