(* ===== verification/CtestElf.v ===== *)
(** * What loadedBytesHash identifies

    [loaded_sections] reads off an ELF file the sections the fingerprint is
    about; [elf_hash_loaded] says that the fingerprint of a file identifies them
    and depends on nothing else. *)
From S2P Require Import CtestInputs.

Module ElfSpec.
Import Elf.

(** Label, flags, size, and the bytes the file has for it. *)
Record content := {
  k_label : str;
  k_flags : Z;
  k_size : Z;
  k_bytes : str;
}.

Definition content_of (data names : str) (s : section) : res (option content) :=
  label ← label_of names (s_name s);
  if loaded s label then
    body ← seek data (s_offset s);
    Ok (Some {| k_label := label; k_flags := s_flags s; k_size := s_size s;
                k_bytes := ztake (s_size s) body |})
  else Ok None.

Definition loaded_sections (data : str) : res (option (list content)) :=
  o ← sections_of data;
  match o with
  | None => Ok None
  | Some (sections, names) =>
      l ← mapR (content_of data names) sections; Ok (Some (flat_map option_list l))
  end.

(** Every loaded section has all its bytes in the file. *)
Definition complete (l : list content) : Prop :=
  Forall (λ k, Z.of_nat (length (k_bytes k)) = k_size k) l.

Definition enc (k : content) : str :=
  k_label k ++ nul :: le_encode 8 (k_flags k) ++ le_encode 8 (k_size k) ++ k_bytes k.

(** The fields come from the file: no zero byte in a name, 64-bit numbers. *)
Definition valid (k : content) : Prop :=
  nul ∉ k_label k ∧ (0 ≤ k_flags k < 2 ^ 64)%Z ∧ (0 ≤ k_size k < 2 ^ 64)%Z.

(** ** The stream is the encoding of the loaded sections *)

Lemma feed_content data names h s :
  feed data names h s =
  (content_of data names s ≫= λ o, Ok (h ++ match o with Some k => enc k | None => [] end)).
Proof.
  unfold feed, content_of. destruct (label_of names (s_name s)) as [label|]; [|done].
  cbn -[seek]. destruct (loaded s label); [|by cbn; rewrite app_nil_r].
  by destruct (seek data (s_offset s)).
Qed.

Lemma feed_all data names l h :
  foldR (feed data names) l h =
  (mapR (content_of data names) l ≫= λ ks,
    Ok (h ++ flat_map enc (flat_map option_list ks))).
Proof.
  revert h; induction l as [|s l IH]; intros h; cbn -[feed content_of];
    [by rewrite app_nil_r|].
  rewrite feed_content. destruct (content_of data names s) as [o|]; [|done].
  cbn -[content_of]. rewrite IH.
  destruct (mapR _ l) as [ks|]; [|done]. cbn. destruct o; cbn; by rewrite <- ?app_assoc, ?app_nil_r.
Qed.

Lemma stream_of_sections data :
  loaded_stream data =
  (loaded_sections data ≫= λ o,
    Ok (match o with Some l => Some (flat_map enc l) | None => None end)).
Proof.
  unfold loaded_stream, loaded_sections. destruct (sections_of data) as [[[l names]|]|]; [|done..].
  cbn -[content_of]. rewrite feed_all. by destruct (mapR _ _).
Qed.

(** ** The sections of a file are valid *)

Lemma unpack_range n l off z : unpack n l off = Ok z → (0 ≤ z < 256 ^ Z.of_nat n)%Z.
Proof.
  unfold unpack. destruct (Nat.eqb_spec (length (take n (zdrop off l))) n) as [E|]; [|done].
  intros [= <-]. pose proof (le_decode_range (take n (zdrop off l))). by rewrite E in *.
Qed.

Lemma label_no_nul names i label : label_of names i = Ok label → nul ∉ label.
Proof.
  unfold label_of. case_match; [done|]. intros (j & Hj%from_opt_Ok & [= <-])%bind_Ok.
  by apply find_char.
Qed.

Lemma unpack_section_range table base s :
  unpack_section table base = Ok s → (0 ≤ s_flags s < 2 ^ 64)%Z ∧ (0 ≤ s_size s < 2 ^ 64)%Z.
Proof.
  unfold unpack_section. intros H. repeat apply bind_Ok in H as (? & ?%unpack_range & H).
  injection H as <-. done.
Qed.

Lemma content_valid data names s k :
  (0 ≤ s_flags s < 2 ^ 64)%Z ∧ (0 ≤ s_size s < 2 ^ 64)%Z →
  content_of data names s = Ok (Some k) → valid k.
Proof.
  intros Hs (label & Hl%label_no_nul & H)%bind_Ok. destruct (loaded s label); [|done].
  apply bind_Ok in H as (body & _ & [= <-]). by split.
Qed.

Lemma loaded_valid data l :
  loaded_sections data = Ok (Some l) → Forall valid l.
Proof.
  intros (o & Ho & H)%bind_Ok. destruct o as [[sections names]|]; [|done].
  apply bind_Ok in H as (ks & Hks%mapR_Ok & [= <-]).
  assert (Forall (λ s, (0 ≤ s_flags s < 2 ^ 64)%Z ∧ (0 ≤ s_size s < 2 ^ 64)%Z) sections) as Hv.
  { unfold sections_of in Ho. case_match; [done|].
    repeat (apply bind_Ok in Ho as (? & ? & Ho)). case_match; [done|].
    apply bind_Ok in Ho as (? & _ & Ho). apply bind_Ok in Ho as (table & _ & Ho).
    apply bind_Ok in Ho as (l & Hl%mapR_Ok & Ho).
    repeat (apply bind_Ok in Ho as (? & ? & Ho)). injection Ho as -> _.
    apply Forall_forall. intros s [i Hi]%list_elem_of_lookup_1.
    destruct (Forall2_lookup_r _ _ _ _ _ Hl Hi) as (j & _ & Hj).
    by apply unpack_section_range in Hj. }
  clear Ho. induction Hks as [|s o sections ks Hs _ IH]; [constructor|].
  apply Forall_cons in Hv as [Hs' Hv]. destruct o as [k|]; cbn; [|by apply IH].
  constructor; [by eapply content_valid | by apply IH].
Qed.

(** ** The encoding is injective *)

Lemma enc_cons_inj k1 k2 r1 r2 :
  valid k1 → valid k2 →
  Z.of_nat (length (k_bytes k1)) = k_size k1 → Z.of_nat (length (k_bytes k2)) = k_size k2 →
  enc k1 ++ r1 = enc k2 ++ r2 → k1 = k2 ∧ r1 = r2.
Proof.
  destruct k1 as [n1 f1 s1 b1], k2 as [n2 f2 s2 b2]; unfold enc; cbn -[le_encode].
  intros (Hn1 & Hf1 & Hs1) (Hn2 & Hf2 & Hs2) Hb1 Hb2. cbn -[Z.pow le_encode] in *.
  rewrite <- !app_assoc, <- !app_comm_cons.
  intros (-> & E)%sep_inj; [|done..]. rewrite <- !app_assoc in E.
  apply app_inj_1 in E as [Ef E]; [|by rewrite !length_le_encode].
  apply app_inj_1 in E as [Es E]; [|by rewrite !length_le_encode].
  apply le_encode_inj in Ef as ->; [|done..]. apply le_encode_inj in Es as ->; [|done..].
  apply app_inj_1 in E as [-> ->]; [done | lia].
Qed.

Lemma enc_inj l1 l2 :
  Forall valid l1 → Forall valid l2 → complete l1 → complete l2 →
  flat_map enc l1 = flat_map enc l2 → l1 = l2.
Proof.
  intros V1; revert l2; induction V1 as [|k1 l1 H1 _ IH]; intros l2 V2 C1 C2 E.
  - destruct l2 as [|k2 l2]; [done|]. cbn in E. unfold enc in E.
    by destruct (k_label k2).
  - destruct V2 as [|k2 l2 H2 V2]; [cbn in E; unfold enc in E; by destruct (k_label k1)|].
    apply Forall_cons in C1 as [C1 C1'], C2 as [C2 C2']. cbn in E.
    apply enc_cons_inj in E as [-> E]; [|done..]. f_equal. by apply IH.
Qed.

(** C8: the fingerprint of an ELF file is one of its loaded sections: two files
    whose loaded sections are whole in the file have the same fingerprint exactly
    when they load the same sections (label, flags, size and bytes, in order);
    symbol tables, build ids, file offsets and padding do not enter.  The two
    streams that are hashed are assumed not to collide. *)
Theorem elf_hash_loaded data1 data2 l1 l2 h1 h2 :
  loaded_sections data1 = Ok (Some l1) → loaded_sections data2 = Ok (Some l2) →
  complete l1 → complete l2 →
  ¬ collide (flat_map enc l1) (flat_map enc l2) →
  loadedBytesHash data1 = Ok (Some h1) → loadedBytesHash data2 = Ok (Some h2) →
  h1 = h2 ↔ l1 = l2.
Proof.
  intros H1 H2 C1 C2 Hc. unfold loadedBytesHash.
  rewrite !stream_of_sections, H1, H2. cbn -[sha256]. intros [= <-] [= <-]. split; [|by intros ->].
  intros [=E]. apply sha256_inj in E; [|done].
  apply enc_inj in E; eauto using loaded_valid.
Qed.
(** A file with the sections [.shstrtab] (not loaded) and [.text], and [junk]
    after them. *)
Definition sample_names : str := [nul] ++ (".text" : str) ++ [nul].
Definition sample_section (name flags offset size : Z) : str :=
  le_encode 4 name ++ le_encode 4 1 ++ le_encode 8 flags ++ le_encode 8 0
  ++ le_encode 8 offset ++ le_encode 8 size ++ repeat nul 24.
Definition sample_elf (text junk : str) : str :=
  magic ++ [ascii_of_N 2; ascii_of_N 1] ++ repeat nul 34 ++ le_encode 8 64
  ++ repeat nul 10 ++ le_encode 2 64 ++ le_encode 2 2 ++ le_encode 2 0
  ++ sample_section 0 0 192 7 ++ sample_section 1 2 199 (Z.of_nat (length text))
  ++ sample_names ++ text ++ junk.

Lemma elf_hash_loaded_witness :
  ∃ l h, loaded_sections (sample_elf "abc" "tmpxft_1") = Ok (Some l) ∧
    loadedBytesHash (sample_elf "abc" "tmpxft_1") = Ok (Some h) ∧
    loadedBytesHash (sample_elf "abc" "tmpxft_22") = Ok (Some h) ∧ length l = 1.
Proof.
  destruct (loaded_sections (sample_elf "abc" "tmpxft_1")) as [[l1|]|] eqn:E1;
    [|vm_compute in E1; discriminate E1..].
  destruct (loaded_sections (sample_elf "abc" "tmpxft_22")) as [[l2|]|] eqn:E2;
    [|vm_compute in E2; discriminate E2..].
  destruct (loadedBytesHash (sample_elf "abc" "tmpxft_1")) as [[h1|]|] eqn:H1;
    [|vm_compute in H1; discriminate H1..].
  destruct (loadedBytesHash (sample_elf "abc" "tmpxft_22")) as [[h2|]|] eqn:H2;
    [|vm_compute in H2; discriminate H2..].
  assert (l1 = l2 ∧ complete l1 ∧ length l1 = 1) as (El & C & L)
    by (vm_compute in E1, E2; injection E1 as <-; injection E2 as <-;
        repeat split; repeat constructor).
  subst l2. exists l1, h1. split; [reflexivity|]. split; [reflexivity|]. split; [|exact L].
  rewrite (proj2 (elf_hash_loaded _ _ l1 l1 h1 h2 E1 E2 C C (λ H, proj1 H eq_refl) H1 H2) eq_refl).
  reflexivity.
Defined.
End ElfSpec.
