(* ===== verification/CtestClosure.v ===== *)
(** * tools/ctest_cached.py: class Closure

    What a script or a binary reaches beyond its own bytes: the files, build
    executables and fixture directories a script's code names ([direct]), the
    same through every script it names ([ofScript], a worklist), and the paths
    compiled into a binary ([ofBinary]).

    The order in which Python iterates over a set is not specified: it is the
    parameter [order] of the worklist, and nothing is assumed of it but that it
    lists the set.  A text is read as one code point per byte. *)
From stdpp Require Import gmap.
From S2P Require Export PyRe CtestInputs.

Module Closure.
(** [(files, exes, trees)] *)
Abbreviation triple := (gset str * gset str * gset str)%type.

Record t := {
  repo : str;
  build : str;
  scripts : gmap str triple;
  closures : gmap str triple;
  exeNames : gset str;
  exeRe : option re;
}.

Definition set_script (c : t) (p : str) (v : triple) : t :=
  {| repo := repo c; build := build c; scripts := <[p := v]> (scripts c);
     closures := closures c; exeNames := exeNames c; exeRe := exeRe c |}.
Definition set_closure (c : t) (p : str) (v : triple) : t :=
  {| repo := repo c; build := build c; scripts := scripts c;
     closures := <[p := v]> (closures c); exeNames := exeNames c; exeRe := exeRe c |}.
Definition clear (c : t) : t :=
  {| repo := repo c; build := build c; scripts := ∅; closures := ∅;
     exeNames := exeNames c; exeRe := exeRe c |}.

(** ** codeLines *)

Definition is_comment (line : str) : bool := starts "#" (lstrip line).

Definition codeLines (f : fs) (path : str) : str :=
  match read_text f path with
  | Ok text => join [nl] (List.filter (λ l, negb (is_comment l)) (split nl text))
  | Raise _ => []
  end.

(** ** The patterns *)

Definition alnum_ : list citem :=
  [CRange "A" "Z"; CRange "a" "z"; CRange "0" "9"; CChar "_"].
Definition no_word_before : re := RBehind false {| neg := false; items := alnum_ |}.
Definition no_word_after : re := RAhead false {| neg := false; items := alnum_ |}.

Definition name_items : list citem := alnum_ ++ chars ".-".

(** Longest name first, so that the alternation prefers it. *)
Definition longest_first (names : list str) : list str :=
  sort_by (λ a b, length b <=? length a) names.

Definition exe_pattern (others : list str) : re :=
  seqs [no_word_before; RGroup 1 (alts (map txt others)); no_word_after].

Definition braeRe : re :=
  seqs [txt "/brae"; RAhead false {| neg := false; items := alnum_ ++ chars ".-/" |}].

Definition pathRe : re :=
  seqs [many (seqs [chr "."; opt (chr "."); chr "/"]);
        many1 (cls name_items);
        many (seqs [chr "/"; many1 (cls name_items)])].

Definition repoRe (repo : str) : re :=
  seqs [txt repo; chr "/"; many1 (cls (name_items ++ chars "/"))].

Definition quote_items : list citem := [CChar dquote; CChar "'"].

(** [root/] followed by an optional quote and [$] or a backquote. *)
Definition computed_path (root : str) : re :=
  seqs [RBehind false {| neg := false; items := alnum_ ++ chars "." |};
        txt root; chr "/"; opt (cls quote_items); cls (chars "$`")].

Definition variable_prefix : re :=
  seqs [chr "$"; opt (chr "{"); cls [CRange "A" "Z"; CRange "a" "z"; CChar "_"];
        many (cls alnum_); opt (chr "}"); chr "/"].

(** ** [__init__] *)

Definition is_exe (f : fs) (build name : str) : bool :=
  let full := pjoin build name in
  isfile f full && executable f full && negb (contains "." name).

Definition init (f : fs) (repo build : str) : res t :=
  l ← listdir f build;
  let names := List.filter (is_exe f build) (sorted l) in
  let others := longest_first (List.filter (λ n, negb (bool_decide (n = "brae" :> str))) names) in
  Ok {| repo := repo; build := build; scripts := ∅; closures := ∅;
        exeNames := list_to_set names;
        exeRe := match others with [] => None | _ => Some (exe_pattern others) end |}.

Definition inside (f : fs) (dir path : str) : bool :=
  let p := real f path in bool_decide (p = dir) || starts (dir ++ [slash]) p.
Definition inRepo (f : fs) (c : t) : str → bool := inside f (repo c).
Definition inBuild (f : fs) (c : t) : str → bool := inside f (build c).

(** ** direct *)

Definition DATA_ROOTS : list str :=
  ["validation" : str; "demo" : str; "bench" : str; "manifest" : str; "factory" : str;
   "src" : str; "tests" : str; "tools" : str; "docs" : str].

(** What one token of a script's code stands for. *)
Inductive named := NFile (p : str) | NTree (p : str) | NNothing.

Definition fixture (c : t) (cand : str) : named :=
  match split slash (relpath cand (repo c)) with
  | r :: _ :: _ => if bool_decide (r ∈ DATA_ROOTS) then NTree cand else NNothing
  | _ => NNothing
  end.

(** The loop over [bases]. *)
Fixpoint resolve (f : fs) (c : t) (token : str) (bases : list str) : named :=
  match bases with
  | [] => NNothing
  | base :: bases =>
      let cand := normpath (pjoin base token) in
      if negb (inRepo f c cand) || inBuild f c cand then resolve f c token bases
      else if isfile f cand then NFile cand
      else if isdir f cand && contains "/" token && negb (bool_decide (cand = repo c))
      then fixture c cand
      else resolve f c token bases
  end.

Definition bases (c : t) (path : str) : list str :=
  let here := dirname path in
  [here; dirname here; repo c; pjoin (repo c) "tests"; pjoin (repo c) "tools"].

Definition tokens (text : str) : list str :=
  let bare := sub variable_prefix (λ _, " ") text in
  List.filter (λ t, contains "/" t || contains "." t)
    (findall0 pathRe text ++ findall0 pathRe bare).

Definition code_exes (c : t) (text : str) : list str :=
  match exeRe c with Some r => findall1 r text | None => [] end
  ++ (if bool_decide (is_Some (search braeRe text 0)) then ["brae" : str] else []).

Definition code_roots (c : t) (text : str) : list str :=
  map (pjoin (repo c)) (List.filter
    (λ root, bool_decide (is_Some (search (computed_path root) text 0))) DATA_ROOTS).

(** The body of [direct]: nothing of the two memos is read. *)
Definition scan (f : fs) (c : t) (path : str) : triple :=
  let text := codeLines f path in
  let found := map (λ t, resolve f c t (bases c path)) (tokens text) in
  (list_to_set (omap (λ n, match n with NFile p => Some p | _ => None end) found),
   list_to_set (code_exes c text),
   list_to_set (code_roots c text
     ++ omap (λ n, match n with NTree p => Some p | _ => None end) found)).

Definition direct (f : fs) (c : t) (path : str) : triple * t :=
  match scripts c !! path with
  | Some r => (r, c)
  | None => let r := scan f c path in (r, set_script c path r)
  end.

(** ** ofScript *)

Definition SCRIPT_SUFFIXES : list str := [".sh" : str; ".py" : str; ".cmake" : str].
Definition is_script (p : str) : bool := existsb (λ s, ends s p) SCRIPT_SUFFIXES.

Definition union3 (a b : triple) : triple :=
  (a.1.1 ∪ b.1.1, a.1.2 ∪ b.1.2, a.2 ∪ b.2).

Section worklist.
Context (order : gset str → list str).

(** The loop: [todo] is the stack, its top first; [order] lists a set in the
    order of Python's iteration. *)
Fixpoint ofScript_loop (f : fs) (fuel : nat) (c : t) (acc : triple) (seen : gset str)
    (todo : list str) : res (triple * t) :=
  match todo with
  | [] => Ok (acc, c)
  | one :: todo =>
      match fuel with
      | 0 => Raise OutOfFuel
      | S fuel =>
          if bool_decide (one ∈ seen) then ofScript_loop f fuel c acc seen todo
          else
            let seen := {[ one ]} ∪ seen in
            let '(d, c) := direct f c one in
            let next := List.filter (λ x, is_script x && negb (bool_decide (x ∈ seen)))
                                    (order d.1.1) in
            ofScript_loop f fuel c (union3 acc d) seen (rev next ++ todo)
      end
  end.

Definition ofScript (f : fs) (fuel : nat) (c : t) (path : str) : res (triple * t) :=
  let path := real f path in
  match closures c !! path with
  | Some r => Ok (r, c)
  | None =>
      '(r, c) ← ofScript_loop f fuel c (∅, ∅, ∅) ∅ [path];
      Ok (r, set_closure c path r)
  end.
End worklist.

(** ** ofBinary *)

(** The paths found in the bytes, sorted. *)
Definition scan_binary (f : fs) (c : t) (path : str) : list str :=
  let data := match read_file f path with Ok d => d | Raise _ => [] end in
  let cands := map normpath (findall0 (repoRe (repo c)) data) in
  sorted (elements (list_to_set (C := gset str)
    (List.filter (λ p, negb (inBuild f c p) && negb (bool_decide (p = repo c))) cands))).

Definition ofBinary (f : fs) (c : t) (i : Inputs.t) (path : str) :
    res ((gset str * gset str) * Inputs.t) :=
  let path := real f path in
  stamp ← Inputs.stamp f path;
  let old := match Inputs.fresh_embedded i !! path with
             | Some v => Some v
             | None => Inputs.memo_embedded i !! path
             end in
  let got := match old with
             | Some (s, l) => if bool_decide (s = stamp) then (s, l)
                              else (stamp, scan_binary f c path)
             | None => (stamp, scan_binary f c path)
             end in
  Ok ((list_to_set (List.filter (isfile f) got.2),
       list_to_set (List.filter (isdir f) got.2)),
      Inputs.set_embedded i path got).
End Closure.
