(* ===== verification/CtestCached.v ===== *)
(** * tools/ctest_cached.py: fingerprints and the run

    [machineIdentity], [property_], [fingerprint], [splitArguments] and [main].

    Outside the scripts, and so parameters: the answer of [ctest
    --show-only=json-v1] ([listing]), the run of the tests ([runner], which may
    change the file system), [nvidia-smi]'s line ([gpu]) and the iteration order
    of a set ([order]).  The store of passes is a map from a key to the name of
    the test; the time and the commit written beside the name are left out. *)
From stdpp Require Import gmap.
From S2P Require Export CtestClosure.

(** ** The tests ctest lists *)
Module Test.
(** A property's value: a string or a list of strings. *)
Inductive pval := PStr (s : str) | PList (l : list str).

Record t := {
  name : str;
  command : list str;
  properties : list (str * pval);
}.

Fixpoint property_in (ps : list (str * pval)) (name : str) (default : pval) : pval :=
  match ps with
  | [] => default
  | (n, v) :: ps => if bool_decide (n = name) then v else property_in ps name default
  end.
Definition property_ (test : t) (name : str) (default : pval) : pval :=
  property_in (properties test) name default.

(** Iterating a value: a list's elements, a string's characters. *)
Definition elems (v : pval) : list str :=
  match v with PList l => l | PStr s => map (λ c, [c]) s end.

(** [str(v)]; a list prints its elements' [repr]. *)
Definition squote : ascii := "'".
Definition repr_char (q c : ascii) : str :=
  if Ascii.eqb c q || Ascii.eqb c bslash then [bslash; c]
  else if Ascii.eqb c nl then [bslash; "n"%char]
  else if Ascii.eqb c cr then [bslash; "r"%char]
  else if Ascii.eqb c (ascii_of_N 9) then [bslash; "t"%char]
  else if between 0 31 c || between 127 160 c || between 173 173 c
       then [bslash; "x"%char] ++ hex2 c
  else [c].
Definition repr (s : str) : str :=
  let q := if (0 <? count squote s) && (count dquote s =? 0) then dquote else squote in
  q :: flat_map (repr_char q) s ++ [q].
Definition to_str (v : pval) : str :=
  match v with PStr s => s | PList l => "[" ++ join ", " (map repr l) ++ "]" end.
End Test.

(** ** machineIdentity *)
Module Machine.
(** [d.get(k) or default]: the empty string counts as absent. *)
Definition get_or (env : gmap str str) (k : str) (d : str) : str :=
  match env !! k with Some ((_ :: _) as v) => v | _ => d end.

Definition stat_row (f : fs) (label path : str) : res str :=
  '(size, mtime) ← stat f path;
  Ok ("of " ++ label ++ " " ++ dec size ++ " " ++ dec mtime).

Definition wanted (base name : str) : bool :=
  ends "/bin" base || starts "libOpenFOAM" name || starts "libfiniteVolume" name.

Definition rows_under (f : fs) (wm sub : str) : res (list str) :=
  let full := pjoin wm sub in
  if isfile f full then row ← stat_row f sub full; Ok [row]
  else if isdir f full then
    mapR (λ bn, stat_row f bn.2 (pjoin bn.1 bn.2))
      (List.filter (λ bn, wanted bn.1 bn.2)
        (concat (map (λ bf, map (λ n, (bf.1, n)) (sorted bf.2)) (walk f (λ _, true) full))))
  else Ok [].

(** [gpu] is nvidia-smi's answer, [None] when it cannot be run. *)
Definition machineIdentity (f : fs) (gpu : option str) (env : gmap str str) : res (list str) :=
  let wm := get_or env "WM_PROJECT_DIR" "/usr/lib/openfoam/openfoam2412" in
  rows ← mapR (rows_under f wm) ["etc/bashrc" : str; "platforms" : str];
  let gpu := match gpu with Some g => strip g | None => "no nvidia-smi" end in
  Ok (concat rows ++ [("gpu " : str) ++ gpu]).
End Machine.

(** ** fingerprint *)
Module Fp.
Import Test.

Definition FORMAT : str := "ctest-cached-2".

(** What [take] collects: files, trees, outside. *)
Abbreviation taken := (gset str * gset str * gset str)%type.
Definition add_files (s : gset str) (k : taken) : taken := (s ∪ k.1.1, k.1.2, k.2).
Definition add_trees (s : gset str) (k : taken) : taken := (k.1.1, s ∪ k.1.2, k.2).
Definition add_outside (s : gset str) (k : taken) : taken := (k.1.1, k.1.2, s ∪ k.2).

(** The two memos a fingerprint goes through. *)
Abbreviation memos := (Closure.t * Inputs.t)%type.

Section take.
Context (order : gset str → list str) (sfuel : nat) (f : fs).

Definition parts : list str :=
  ["CMakeLists.txt" : str; "src" : str; "tests" : str; "tools" : str].

(** [depth] bounds the recursion of [take] and [sfuel] the worklist of
    [ofScript]. *)
Fixpoint take (depth : nat) (path : str) (s : memos * taken) : res (memos * taken) :=
  match depth with
  | 0 => Raise OutOfFuel
  | S depth =>
      let '((c, i), k) := s in
      if isfile f path then
        let k := add_files {[ real f path ]} k in
        if Closure.is_script path then
          '(more, c) ← Closure.ofScript order f sfuel c path;
          let k := add_trees more.2 (add_files more.1.1 k) in
          foldR (λ s exe, take depth (pjoin (Closure.build c) exe) s)
                (order more.1.2) ((c, i), k)
        else if Closure.inBuild f c path then
          '(more, i) ← Closure.ofBinary f c i path;
          Ok ((c, i), add_trees more.2 (add_files more.1 k))
        else Ok ((c, i), k)
      else if isdir f path && negb (Closure.inBuild f c path) then
        let p := real f path in
        if bool_decide (p = Closure.repo c) then
          foldR (λ s part, take depth (pjoin (Closure.repo c) part) s) parts ((c, i), k)
        else if Closure.inRepo f c p then Ok ((c, i), add_trees {[ p ]} k)
        else Ok ((c, i), add_outside {[ p ]} k)
      else Ok ((c, i), k)
  end.
End take.

(** [s.split('=', 1)[-1]] *)
Definition after_eq (s : str) : str :=
  match split1 "=" s with (_, Some r) => r | (p, None) => p end.

(** The paths [take] is called on, in order. *)
Definition roots (build : str) (test : Test.t) : list str :=
  List.filter isabs (flat_map (λ token, [token; after_eq token]) (command test))
  ++ omap (λ e, match split1 "=" e with
                | (_, Some v) => if isabs v then Some v else None
                | (_, None) => None end)
       (elems (property_ test "ENVIRONMENT" (PList [])))
  ++ map (pjoin build) (elems (property_ test "DEPENDS" (PList []))).

(** The rows that are not fingerprints of files: what the test is told. *)
Definition head_rows (env : gmap str str) (machine globalEnv : list str) (test : Test.t) :
    list str :=
  [FORMAT; ("salt " : str) ++ default [] (env !! ("BRAE_TEST_CACHE_SALT" : str));
   ("command " : str) ++ json_list (command test);
   ("environment " : str) ++ json_list (sorted (elems (property_ test "ENVIRONMENT" (PList []))));
   ("cwd " : str) ++ to_str (property_ test "WORKING_DIRECTORY" (PStr []))]
  ++ globalEnv ++ machine.

Definition set_list (s : gset str) : list str := sorted (elements s).

Definition file_row (f : fs) (ri : list str * Inputs.t) (p : str) : res (list str * Inputs.t) :=
  '(h, i) ← Inputs.fileHash f ri.2 p; Ok (ri.1 ++ [("file " : str) ++ p ++ " " ++ h], i).
Definition tree_row (f : fs) (label : str) (byContent : bool)
    (ri : list str * Inputs.t) (p : str) : res (list str * Inputs.t) :=
  '(h, i) ← Inputs.treeHash f ri.2 p byContent; Ok (ri.1 ++ [label ++ p ++ " " ++ h], i).

(** The rows and the memos after them. *)
Definition rows_of (order : gset str → list str) (sfuel : nat) (f : fs) (env : gmap str str)
    (machine globalEnv : list str) (m : memos) (test : Test.t) : res (list str * memos) :=
  '((c, i), k) ← foldR (λ s p, take order sfuel f 4 p s) (roots (Closure.build m.1) test) (m, (∅, ∅, ∅));
  ri ← foldR (file_row f) (set_list k.1.1) (head_rows env machine globalEnv test, i);
  ri ← foldR (tree_row f "tree " true) (set_list k.1.2) ri;
  ri ← foldR (tree_row f "outside " false) (set_list k.2) ri;
  Ok (ri.1, (c, ri.2)).

Definition key_of (rows : list str) : str := sha256 (join [nl] rows).

(** The key, the rows ([explain]) and the memos. *)
Definition fingerprint (order : gset str → list str) (sfuel : nat) (f : fs) (env : gmap str str)
    (machine globalEnv : list str) (m : memos) (test : Test.t) :
    res (str * list str * memos) :=
  '(rows, m) ← rows_of order sfuel f env machine globalEnv m test;
  Ok (key_of rows, rows, m).
End Fp.

(** ** splitArguments *)
Module Args.
Record ours := {
  testDir : str;
  noCache : bool;
  list_ : bool;
  explain : option str;
  store : option str;
}.
Definition defaults : ours :=
  {| testDir := "build"; noCache := false; list_ := false; explain := None; store := None |}.

Definition FILTER_OPTIONS : list str :=
  ["-R" : str; "--tests-regex" : str; "-E" : str; "--exclude-regex" : str; "-L" : str;
   "--label-regex" : str; "-LE" : str; "--label-exclude" : str; "-I" : str;
   "--tests-information" : str].

Abbreviation parsed := (ours * list str * list str)%type.

Inductive flag := TestDir (v : str) | NoCache | List_ | Explain (v : str) | Store (v : str).
Definition set (o : ours) (x : flag) : ours :=
  {| testDir := match x with TestDir v => v | _ => testDir o end;
     noCache := match x with NoCache => true | _ => noCache o end;
     list_ := match x with List_ => true | _ => list_ o end;
     explain := match x with Explain v => Some v | _ => explain o end;
     store := match x with Store v => Some v | _ => store o end |}.
Definition set_ours (p : parsed) (x : flag) : parsed := (set p.1.1 x, p.1.2, p.2).

(** The loop over [argv]: a position is the list from it on. *)
Fixpoint split_loop (argv : list str) (p : parsed) : res parsed :=
  match argv with
  | [] => Ok p
  | a :: argv =>
      let with_value (step : str → parsed) :=
        match argv with
        | v :: argv => split_loop argv (step v)
        | [] => Raise IndexError
        end in
      if bool_decide (a = "--test-dir" :> str) then with_value (λ v, set_ours p (TestDir v))
      else if bool_decide (a = "--no-cache" :> str) then split_loop argv (set_ours p NoCache)
      else if bool_decide (a = "--list" :> str) then split_loop argv (set_ours p List_)
      else if bool_decide (a = "--explain" :> str) then with_value (λ v, set_ours p (Explain v))
      else if bool_decide (a = "--store" :> str) then with_value (λ v, set_ours p (Store v))
      else if bool_decide (a ∈ FILTER_OPTIONS) then with_value (λ v, (p.1.1, p.1.2 ++ [a; v], p.2))
      else split_loop argv (p.1.1, p.1.2, p.2 ++ [a])
  end.

Definition splitArguments (argv : list str) : res parsed :=
  split_loop argv (defaults, [], []).
End Args.

(** ** main *)
Module Main.
Import Test.

(** One testcase of the JUnit file. *)
Record case := {
  c_name : str;
  c_status : option str;
  c_failure : bool;
  c_error : bool;
  c_skipped : bool;
}.

Definition case_passed (c : case) : bool :=
  bool_decide (c_status c = Some ("run" : str))
  && negb (c_failure c || c_error c || c_skipped c).

(** re.escape *)
Definition special : list ascii :=
  ("()[]{}?*+-|^$.&~# " : str)
  ++ [bslash; ascii_of_N 9; nl; cr; ascii_of_N 11; ascii_of_N 12].
Definition re_escape (s : str) : str :=
  flat_map (λ c, if bool_decide (c ∈ special) then [bslash; c] else [c]) s.

(** The [-R] argument that picks the tests by name. *)
Definition pattern (names : list str) : str :=
  "^(" ++ join "|" (map re_escape names) ++ ")$".

(** The store: the passes by key, and the memo file. *)
Abbreviation saved := (gmap str (str * str) * gmap str (str * list str))%type.
Record store := {
  passed : gmap str str;
  memo_file : option saved;
}.
Definition put_memo (s : store) (m : saved) : store :=
  {| passed := passed s; memo_file := Some m |}.
Definition put_pass (s : store) (key test : str) : store :=
  {| passed := <[key := test]> (passed s); memo_file := memo_file s |}.
Definition recorded (s : store) (key : str) : bool := bool_decide (is_Some (passed s !! key)).

(** The last [CMAKE_HOME_DIRECTORY:] line of CMakeCache.txt. *)
Definition repo_line (f : fs) (repo line : str) : res str :=
  if starts "CMAKE_HOME_DIRECTORY:" line then
    v ← from_opt IndexError (split1 "=" line).2; Ok (real f (strip v))
  else Ok repo.
Definition repo_of (f : fs) (build : str) : res str :=
  text ← read_text f (pjoin build "CMakeCache.txt");
  foldR (repo_line f) (split nl text) build.

(** The environment rows: [BRAE_*] and [CUDA_VISIBLE_DEVICES], sorted by name. *)
Definition own_variables : list str :=
  ["BRAE_TEST_CACHE" : str; "BRAE_TEST_CACHE_SALT" : str; "BRAE_CTEST" : str].
Definition global_key (k : str) : bool :=
  (starts "BRAE_" k || bool_decide (k = "CUDA_VISIBLE_DEVICES" :> str))
  && negb (bool_decide (k ∈ own_variables)).
Definition global_env (env : gmap str str) : list str :=
  map (λ kv, ("env " : str) ++ kv.1 ++ "=" ++ kv.2)
    (sort_by (λ a b, str_leb a.1 b.1)
      (List.filter (λ kv, global_key kv.1) (map_to_list env))).

(** What the process tells its reader before it ends. *)
Inductive report :=
  | RListingFailed
  | RExplained (rows : list str) (key : str) (is_recorded : bool)
  | RNoSuchTest
  | RListed (l : list (bool * str))
  | RNothingToRun
  | RNoResults
  | RRan (passed other moved held : list str).

(** The fixed arguments of every fingerprint of one process. *)
Record setting := {
  order : gset str → list str;
  sfuel : nat;
  env : gmap str str;
  machine : list str;
}.

Definition fp (g : setting) (f : fs) (m : Fp.memos) (test : Test.t) :
    res (str * list str * Fp.memos) :=
  Fp.fingerprint (order g) (sfuel g) f (env g) (machine g) (global_env (env g)) m test.

(** [dict((t['name'], fingerprint(t)) for t in group)] *)
Definition key_step (g : setting) (f : fs) (km : gmap str str * Fp.memos) (test : Test.t) :
    res (gmap str str * Fp.memos) :=
  '(key, _, m) ← fp g f km.2 test; Ok (<[name test := key]> km.1, m).
Definition keysOf (g : setting) (f : fs) (m : Fp.memos) (group : list Test.t) :
    res (gmap str str * Fp.memos) :=
  foldR (key_step g f) group (∅, m).

Definition is_held (s : store) (keys : gmap str str) (no_cache : bool) (test : Test.t) : bool :=
  match keys !! name test with Some k => recorded s k | None => false end && negb no_cache.

(** The passes that are written: names that passed, whose key did not move. *)
Definition record_pass (keys : gmap str str) (moved : list str) (s : store) (n : str) : store :=
  match keys !! n with
  | Some k => if bool_decide (n ∈ moved) then s else put_pass s k n
  | None => s
  end.

(** The part of [main] before the tests are run: the memos, the keys and the
    store with the memo file written. *)
Definition prepare (f : fs) (g : setting) (s : store) (repo build : str) (tests : list Test.t) :
    res (gmap str str * Fp.memos * store) :=
  let i := Inputs.init (memo_file s) in
  c ← Closure.init f repo build;
  i ← Inputs.hashMany f i (map (pjoin build) (elements (Closure.exeNames c)));
  '(keys, (c, i)) ← keysOf g f (c, i) tests;
  let '(m, i) := Inputs.save f i in
  Ok (keys, (c, i), put_memo s m).

(** [byName]: the last test of a name. *)
Definition by_name (tests : list Test.t) (n : str) : option Test.t :=
  List.find (λ t, bool_decide (name t = n)) (rev tests).

(** The part after: the passes of the JUnit file are recorded if the run left
    their key standing. *)
Definition finish (f : fs) (g : setting) (s : store) (keys : gmap str str) (m : Fp.memos)
    (tests : list Test.t) (cases : list case) :
    res (store * list str * list str * list str) :=
  let passed := map c_name (List.filter case_passed cases) in
  let other := map c_name (List.filter (λ c, negb (case_passed c)) cases) in
  let m := (Closure.clear m.1, Inputs.clear_trees m.2) in
  '(after, (c, i)) ← keysOf g f m (omap (by_name tests) passed);
  let '(file, i) := Inputs.save f i in
  let s := put_memo s file in
  let moved := List.filter (λ n, negb (bool_decide (after !! n = keys !! n))) passed in
  Ok (fold_left (record_pass keys moved) passed s, passed, other, moved).

(** [listing build filters]: the exit code and the tests; [runner f pattern
    arguments]: the file system the tests leave, the exit code, and the cases of
    the JUnit file when there is one. *)
Section main.
Context (listing : str → list str → Z * list Test.t).
Context (runner : fs → str → list str → fs * Z * option (list case)).
Context (gpu : option str).

Fixpoint explain_one (f : fs) (g : setting) (s : store) (m : Fp.memos) (wanted : str)
    (tests : list Test.t) : res (Z * report) :=
  match tests with
  | [] => Ok (2%Z, RNoSuchTest)
  | t :: tests =>
      if bool_decide (name t = wanted) then
        '(key, rows, _) ← fp g f m t; Ok (0%Z, RExplained rows key (recorded s key))
      else explain_one f g s m wanted tests
  end.

(** [main] once the keys are known. *)
Definition select (f : fs) (g : setting) (ours : Args.ours) (rest : list str)
    (tests : list Test.t) (keys : gmap str str) (m : Fp.memos) (s : store) :
    res (Z * report * store * fs) :=
  match Args.explain ours with
  | Some ((_ :: _) as wanted) =>
      '(code, r) ← explain_one f g s m wanted tests; Ok (code, r, s, f)
  | _ =>
      let held := map name (List.filter (is_held s keys (Args.noCache ours)) tests) in
      let toRun := List.filter (λ t, negb (bool_decide (name t ∈ held))) tests in
      if Args.list_ ours then
        Ok (0%Z, RListed (map (λ t, (bool_decide (name t ∈ held), name t)) tests), s, f)
      else if bool_decide (toRun = []) then Ok (0%Z, RNothingToRun, s, f)
      else
        let '(f', code, cases) := runner f (pattern (map name toRun)) rest in
        match cases with
        | None => Ok (if (code =? 0)%Z then 1%Z else code, RNoResults, s, f')
        | Some cases =>
            '(s, passed, other, moved) ← finish f' g s keys m tests cases;
            Ok (code, RRan passed other moved held, s, f')
        end
  end.

Definition main (order : gset str → list str) (sfuel : nat) (env : gmap str str)
    (f : fs) (s : store) (argv : list str) : res (Z * report * store * fs) :=
  '(ours, filters, rest) ← Args.splitArguments argv;
  let build := real f (Args.testDir ours) in
  let '(code, listed) := listing build filters in
  if negb (code =? 0)%Z then Ok (code, RListingFailed, s, f)
  else
    let tests := List.filter (λ t, negb (bool_decide (command t = []))) listed in
    repo ← repo_of f build;
    machine ← Machine.machineIdentity f gpu env;
    let g := {| order := order; sfuel := sfuel; env := env; machine := machine |} in
    '(keys, m, s) ← prepare f g s repo build tests;
    select f g ours rest tests keys m s.
End main.
End Main.
