(* ===== verification/CtestSpec.v ===== *)
(** * What a fingerprint of tools/ctest_cached.py means

    The memos of [Inputs] and [Closure] removed: [file_value], [tree_value],
    [closure_value], [binary_value], [take_value] and [rows_value] compute from
    the file system alone.  [coherent] is the invariant of the memos; the lemmas
    say that every operation keeps it and computes the memo-free value, errors
    included.

    The memos outlive a run, so their invariant speaks of every file system of a
    history [H]: the ones earlier runs saw, the present one, and the one the
    tests leave.  The tool relies on size and modification time to identify the
    bytes of a file, and on links staying what they are: [history] says so. *)
From stdpp Require Import gmap.
From S2P Require Export CtestCached.

Module Spec.
Import Inputs Closure.

(** ** The history *)

Record history (H : fs → Prop) : Prop := {
  same_bytes : ∀ f f' p s, H f → H f' → stamp f p = Ok s → stamp f' p = Ok s →
    read_file f' p = read_file f p;
  same_links : ∀ f f' p, H f → H f' → real f' p = real f p;
}.

Definition file_digest (f : fs) (p : str) : res str := data ← read_file f p; digest data.

(** The memo holds digests of what the stamp stands for. *)
Definition good_entry (H : fs → Prop) (p : str) (v : str * str) : Prop :=
  ∀ f, H f → stamp f p = Ok v.1 → file_digest f p = Ok v.2.

(** ** Files and trees *)
Section inputs.
Context (hs : fs → Prop) (Hist : history hs) (f : fs) (Hf : hs f).

Definition file_value (path : str) : res str :=
  let p := real f path in _ ← stamp f p; file_digest f p.

Definition row_value (root : str) (byContent : bool) (bn : str * str) : res (list str) :=
  let full := pjoin bn.1 bn.2 in
  if ends ".pyc" bn.2 || negb (isfile f full) then Ok []
  else v ← (if byContent then file_value full else stamp f full);
       Ok [relpath full root ++ " " ++ v].

Definition tree_rows_value (root : str) (byContent : bool) : res (list str) :=
  foldR (λ rows bn, row ← row_value root byContent bn; Ok (rows ++ row)) (tree_files f root) [].
Definition tree_value (root : str) (byContent : bool) : res str :=
  rows ← tree_rows_value root byContent; Ok (sha256 (join [nl] rows)).

Record coherent (i : Inputs.t) : Prop := {
  memo_good : ∀ p v, memo i !! p = Some v → good_entry hs p v;
  fresh_good : ∀ p v, fresh i !! p = Some v → good_entry hs p v;
  trees_good : ∀ k d, trees i !! k = Some d → tree_value k.1 k.2 = Ok d;
}.

(** The maps of embedded paths, which files and trees do not touch. *)
Definition same_embedded (i i' : Inputs.t) : Prop :=
  memo_embedded i' = memo_embedded i ∧ fresh_embedded i' = fresh_embedded i.

Definition valued {A} (i : Inputs.t) (x : A * Inputs.t) (a : A) : Prop :=
  x.1 = a ∧ coherent x.2 ∧ same_embedded i x.2.

Lemma valued_refl {A} i (a : A) : coherent i → valued i (a, i) a.
Proof. intros H. split; [done | by split]. Qed.

Lemma set_fresh_coherent i p v :
  coherent i → good_entry hs p v → coherent (set_fresh i p v).
Proof.
  intros [Hm Hn Ht] Hv; split; cbn; [done| |done].
  intros q u [[-> ->]|[_ ?]]%lookup_insert_Some; auto.
Qed.

Lemma set_tree_coherent i k d :
  coherent i → tree_value k.1 k.2 = Ok d → coherent (set_tree i k d).
Proof.
  intros [Hm Hn Ht] Hv; split; cbn; [done..|].
  intros q u [[-> ->]|[_ ?]]%lookup_insert_Some; auto.
Qed.

Lemma fileHash_refines i path :
  coherent i → refines (valued i) (fileHash f i path) (file_value path).
Proof.
  intros Hi. unfold fileHash, file_value. set (p := real f path).
  destruct (stamp f p) as [st|] eqn:Est; [|done]. cbn -[digest stamp].
  set (compute := data ← read_file f p; _).
  assert (refines (valued i) compute (file_digest f p)) as Hc.
  { unfold compute, file_digest. destruct (read_file f p) as [data|] eqn:Er; [|done].
    cbn -[digest]. destruct (digest data) as [d|] eqn:Ed; [|done].
    split; [done|]. split; [|done]. apply set_fresh_coherent; [done|].
    intros f' Hf' Hst. unfold file_digest.
    rewrite (same_bytes hs Hist f f' p st), Er by done. done. }
  assert (refines (valued i)
    match memo i !! p with
    | Some (s, d) => if bool_decide (s = st) then Ok (d, set_fresh i p (s, d)) else compute
    | None => compute
    end (file_digest f p)) as Hm.
  { destruct (memo i !! p) as [[s d]|] eqn:Em; [|done].
    destruct (bool_decide_reflect (s = st)) as [->|]; [|done].
    pose proof (memo_good i Hi _ _ Em) as Hg. rewrite (Hg f Hf Est). split; [done|].
    split; [by apply set_fresh_coherent | done]. }
  destruct (fresh i !! p) as [[s d]|] eqn:Ef; [|done].
  destruct (bool_decide_reflect (s = st)) as [->|]; [|done].
  pose proof (fresh_good i Hi _ _ Ef) as Hg. rewrite (Hg f Hf Est). done.
Qed.

Lemma same_embedded_trans i i1 i2 :
  same_embedded i i1 → same_embedded i1 i2 → same_embedded i i2.
Proof. intros [A B] [C D]. split; congruence. Qed.

Lemma tree_row_refines i root byContent bn :
  coherent i →
  refines (valued i) (Inputs.tree_row f root byContent i bn.1 bn.2) (row_value root byContent bn).
Proof.
  intros Hi. unfold Inputs.tree_row, row_value. destruct (_ || _); [done|].
  eapply (refines_bind (valued i)).
  - destruct byContent; [by apply fileHash_refines|].
    destruct (stamp f _); [|done]. by apply valued_refl.
  - intros [v i1] ? (<- & Hc & He). split; [done | by split].
Qed.

Lemma tree_rows_refines i root byContent :
  coherent i →
  refines (valued i) (tree_rows f root byContent i) (tree_rows_value root byContent).
Proof.
  intros Hi. apply refines_foldR; [by apply valued_refl|].
  intros bn [rows i1] ? (<- & Hc & He). eapply refines_bind; [by apply tree_row_refines|].
  intros [row i2] ? (<- & Hc2 & He2). split; [done|]. split; [done|].
  by eapply same_embedded_trans.
Qed.

Lemma treeHash_refines i root byContent :
  coherent i →
  refines (valued i) (treeHash f i root byContent) (tree_value (real f root) byContent).
Proof.
  intros Hi. unfold treeHash. destruct (trees i !! _) as [d|] eqn:E.
  - apply (trees_good i Hi) in E. cbn in E. rewrite E. by apply valued_refl.
  - cbn [fst snd]. pose proof (tree_rows_refines i (real f root) byContent Hi) as H.
    assert (tree_value (real f root) byContent =
      (rows ← tree_rows_value (real f root) byContent; Ok (sha256 (join [nl] rows)))) as Ev by done.
    destruct (tree_rows f _ _ i) as [[rows i1]|], (tree_rows_value _ _) as [rows'|];
      try done; [|by rewrite Ev; cbn in *; congruence].
    destruct H as (Hr & Hc & He). cbn [fst] in Hr. subst rows'. rewrite Ev.
    split; [done|]. split; [|done]. by apply set_tree_coherent.
Qed.

(** Every digest of the run's start is of the file as it is. *)
Lemma run_tasks_coherent todo i i' :
  coherent i → run_tasks f todo i = Ok i' → coherent i' ∧ same_embedded i i'.
Proof.
  intros Hi H. eapply (foldR_ind (λ j, coherent j ∧ same_embedded i j)); [exact H|done|].
  intros p j1 j2 _ [Hc He] (x & Hx & Hj)%bind_Ok. destruct x as [d j]. injection Hj as <-.
  destruct (refines_Ok _ _ _ _ (fileHash_refines j1 p Hc) Hx) as (d' & _ & _ & Hc2 & He2).
  split; [done|]. by eapply same_embedded_trans.
Qed.
End inputs.

(** ** Scripts and binaries *)

(** Two closures of one repository and build: the memos may differ. *)
Definition same_static (c c' : Closure.t) : Prop :=
  repo c' = repo c ∧ build c' = build c ∧ exeRe c' = exeRe c.

Lemma resolve_static f c c' token bs :
  same_static c c' → resolve f c' token bs = resolve f c token bs.
Proof.
  intros (Hr & Hb & _). induction bs as [|b bs IH]; cbn; [done|].
  unfold inRepo, inBuild, fixture. by rewrite IH, Hr, Hb.
Qed.

Lemma scan_static f c c' path : same_static c c' → scan f c' path = scan f c path.
Proof.
  intros H. unfold scan, code_exes, code_roots, bases.
  destruct H as (Hr & Hb & He) eqn:E. clear E. rewrite Hr, He.
  assert (∀ bs l, map (λ t, resolve f c' t bs) l = map (λ t, resolve f c t bs) l) as Hm.
  { intros bs l. apply map_ext. intros t. by apply resolve_static. }
  by rewrite Hm.
Qed.

Section closure.
Context (hs : fs → Prop) (Hist : history hs) (f : fs) (Hf : hs f).
Context (order : gset str → list str) (sfuel : nat) (c0 : Closure.t).

(** The worklist without memos. *)
Fixpoint closure_loop (fuel : nat) (acc : triple) (seen : gset str) (todo : list str) :
    res triple :=
  match todo with
  | [] => Ok acc
  | one :: todo =>
      match fuel with
      | 0 => Raise OutOfFuel
      | S fuel =>
          if bool_decide (one ∈ seen) then closure_loop fuel acc seen todo
          else
            let seen := {[ one ]} ∪ seen in
            let d := scan f c0 one in
            let next := List.filter (λ x, is_script x && negb (bool_decide (x ∈ seen)))
                                    (order d.1.1) in
            closure_loop fuel (union3 acc d) seen (rev next ++ todo)
      end
  end.
Definition closure_value (path : str) : res triple :=
  closure_loop sfuel (∅, ∅, ∅) ∅ [path].

Definition binary_value (path : str) : res (gset str * gset str) :=
  let path := real f path in
  _ ← stamp f path;
  let l := scan_binary f c0 path in
  Ok (list_to_set (List.filter (isfile f) l), list_to_set (List.filter (isdir f) l)).

Record coherent_c (c : Closure.t) : Prop := {
  static_good : same_static c0 c;
  scripts_good : ∀ p r, scripts c !! p = Some r → r = scan f c0 p;
  closures_good : ∀ p r, closures c !! p = Some r → closure_value p = Ok r;
}.

(** The paths found in the bytes the stamp stands for. *)
Definition good_binary (p : str) (v : str * list str) : Prop :=
  ∀ f, hs f → stamp f p = Ok v.1 → v.2 = scan_binary f c0 p.

Record coherent_e (i : Inputs.t) : Prop := {
  memo_e : ∀ p v, memo_embedded i !! p = Some v → good_binary p v;
  fresh_e : ∀ p v, fresh_embedded i !! p = Some v → good_binary p v;
}.

Definition coherent_m (m : Fp.memos) : Prop :=
  coherent_c m.1 ∧ coherent hs f m.2 ∧ coherent_e m.2.

Lemma coherent_e_same i i' : same_embedded i i' → coherent_e i → coherent_e i'.
Proof. intros [H1 H2] [Hm Hn]; split; [by rewrite H1 | by rewrite H2]. Qed.

Definition c_valued {A} (x : A * Closure.t) (a : A) : Prop := x.1 = a ∧ coherent_c x.2.

Lemma direct_refines c p :
  coherent_c c → (direct f c p).1 = scan f c0 p ∧ coherent_c (direct f c p).2.
Proof.
  intros Hc. unfold direct. destruct (scripts c !! p) as [r|] eqn:E.
  - split; [by apply (scripts_good c Hc) | done].
  - cbn. destruct Hc as [Hs Hp Hcl]. rewrite (scan_static f c0 c p Hs).
    split; [done|]. split; [done| |done].
    cbn. intros q r [[-> <-]|[_ ?]]%lookup_insert_Some; auto.
Qed.

Lemma loop_refines fuel c acc seen todo :
  coherent_c c →
  refines c_valued (ofScript_loop order f fuel c acc seen todo) (closure_loop fuel acc seen todo).
Proof.
  revert c acc seen todo; induction fuel as [|fuel IH]; intros c acc seen [|one todo] Hc;
    cbn [ofScript_loop closure_loop]; try done.
  destruct (bool_decide (one ∈ seen)); [by apply IH|].
  destruct (direct_refines c one Hc) as [Hd Hc'].
  destruct (direct f c one) as [d c']. cbn [fst snd] in *. subst d. by apply IH.
Qed.

Lemma ofScript_refines c path :
  coherent_c c →
  refines c_valued (ofScript order f sfuel c path) (closure_value (real f path)).
Proof.
  intros Hc. unfold ofScript. destruct (closures c !! _) as [r|] eqn:E.
  - by rewrite (closures_good c Hc _ _ E).
  - pose proof (loop_refines sfuel c (∅, ∅, ∅) ∅ [real f path] Hc) as H.
    fold (closure_value (real f path)) in H.
    destruct (ofScript_loop _ _ _ _ _ _ _) as [[r c']|], (closure_value _) as [r'|] eqn:Ev;
      try done. destruct H as [Hr [Hs Hp Hcl]]. cbn in Hr. subst r'.
    split; [done|]. split; [done|done|].
    cbn. intros q u [[<- <-]|[_ ?]]%lookup_insert_Some; auto.
Qed.

(** Files of one stamp hold the same paths. *)
Lemma good_binary_scan p s : stamp f p = Ok s → good_binary p (s, scan_binary f c0 p).
Proof.
  intros Hs f' Hf' Hs'. unfold scan_binary, inBuild, inside. cbn in *.
  rewrite (same_bytes hs Hist f f' p s) by done.
  do 3 f_equal. apply List.filter_ext. intros q. by rewrite (same_links hs Hist f f').
Qed.

Lemma scan_binary_static c p : same_static c0 c → scan_binary f c p = scan_binary f c0 p.
Proof. intros (Hr & Hb & _). unfold scan_binary, inBuild. by rewrite Hr, Hb. Qed.

(** [ofBinary] leaves files and trees alone. *)
Definition e_valued {A} (i : Inputs.t) (x : A * Inputs.t) (a : A) : Prop :=
  x.1 = a ∧ coherent hs f x.2 ∧ coherent_e x.2.

Lemma ofBinary_refines c i path :
  same_static c0 c → coherent hs f i → coherent_e i →
  refines (e_valued i) (ofBinary f c i path) (binary_value path).
Proof.
  intros Hs Hi He. unfold ofBinary, binary_value. set (p := real f path).
  destruct (stamp f p) as [st|] eqn:Est; [|done]. cbn -[scan_binary].
  set (got := match _ with Some _ => _ | None => _ end).
  assert (got.1 = st ∧ got.2 = scan_binary f c0 p) as [H1 H2].
  { unfold got. rewrite (scan_binary_static c p Hs).
    destruct (fresh_embedded i !! p) as [[s l]|] eqn:Ef.
    - destruct (bool_decide_reflect (s = st)) as [->|]; [|done].
      split; [done|]. by apply (fresh_e i He _ _ Ef f Hf).
    - destruct (memo_embedded i !! p) as [[s l]|] eqn:Em; [|done].
      destruct (bool_decide_reflect (s = st)) as [->|]; [|done].
      split; [done|]. by apply (memo_e i He _ _ Em f Hf). }
  rewrite H2. split; [done|]. split; [by destruct Hi|].
  destruct He as [Hm Hn]; split; cbn; [done|].
  intros q v [[<- <-]|[_ ?]]%lookup_insert_Some; [|by apply Hn].
  destruct got as [g1 g2]. cbn in H1, H2. subst. by apply good_binary_scan.
Qed.

(** ** take and the rows *)

(** [take] without memos: what it collects. *)
Fixpoint take_value (depth : nat) (path : str) (k : Fp.taken) : res Fp.taken :=
  match depth with
  | 0 => Raise OutOfFuel
  | S depth =>
      if isfile f path then
        let k := Fp.add_files {[ real f path ]} k in
        if is_script path then
          more ← closure_value (real f path);
          foldR (λ k exe, take_value depth (pjoin (build c0) exe) k) (order more.1.2)
                (Fp.add_trees more.2 (Fp.add_files more.1.1 k))
        else if inBuild f c0 path then
          more ← binary_value path;
          Ok (Fp.add_trees more.2 (Fp.add_files more.1 k))
        else Ok k
      else if isdir f path && negb (inBuild f c0 path) then
        let p := real f path in
        if bool_decide (p = repo c0) then
          foldR (λ k part, take_value depth (pjoin (repo c0) part) k) Fp.parts k
        else if inRepo f c0 p then Ok (Fp.add_trees {[ p ]} k)
        else Ok (Fp.add_outside {[ p ]} k)
      else Ok k
  end.

Definition taken_value (test : Test.t) : res Fp.taken :=
  foldR (λ k p, take_value 4 p k) (Fp.roots (build c0) test) (∅, ∅, ∅).

Definition file_line (p : str) : res str :=
  h ← file_value f p; Ok (("file " : str) ++ p ++ " " ++ h).
Definition tree_line (label : str) (byContent : bool) (p : str) : res str :=
  h ← tree_value f (real f p) byContent; Ok (label ++ p ++ " " ++ h).

(** The rows of a test, from the file system alone. *)
Definition rows_value (env : gmap str str) (machine globalEnv : list str) (test : Test.t) :
    res (list str) :=
  k ← taken_value test;
  files ← mapR file_line (Fp.set_list k.1.1);
  trees ← mapR (tree_line "tree " true) (Fp.set_list k.1.2);
  outside ← mapR (tree_line "outside " false) (Fp.set_list k.2);
  Ok (Fp.head_rows env machine globalEnv test ++ files ++ trees ++ outside).

Definition m_valued {A} (x : Fp.memos * A) (a : A) : Prop := x.2 = a ∧ coherent_m x.1.

Lemma take_refines depth path m k :
  coherent_m m →
  refines m_valued (Fp.take order sfuel f depth path (m, k)) (take_value depth path k).
Proof.
  revert path m k; induction depth as [|depth IH]; intros path [c i] k (Hc & Hi & He); [done|].
  cbn [Fp.take take_value fst snd] in *. destruct (static_good c Hc) as (Hr & Hb & _).
  unfold inBuild, inRepo in *. rewrite Hr, Hb.
  destruct (isfile f path).
  - destruct (is_script path).
    + eapply refines_bind; [by apply ofScript_refines|].
      intros [more c'] ? [<- Hc']. cbn [fst snd] in Hc' |- *.
      destruct (static_good c' Hc') as (_ & Hb' & _). rewrite Hb'.
      apply refines_foldR; [by split|]. intros exe [m1 k1] ? [<- Hm]. by apply IH.
    + destruct (inside f (build c0) path); [|done].
      eapply refines_bind; [by apply ofBinary_refines; [apply Hc|..]|].
      intros [more i'] ? (<- & Hi' & He'). done.
  - destruct (_ && _); [|done].
    destruct (bool_decide _); [|by destruct (inside _ _ _)].
    apply (refines_foldR m_valued); [done|]. intros part [m1 k1] ? [<- Hm]. by apply IH.
Qed.

Lemma rows_refines env machine globalEnv m test :
  coherent_m m →
  refines (λ x rows, x.1 = rows ∧ coherent_m x.2)
    (Fp.rows_of order sfuel f env machine globalEnv m test)
    (rows_value env machine globalEnv test).
Proof.
  intros Hm. unfold Fp.rows_of, rows_value, taken_value.
  destruct (static_good _ (proj1 Hm)) as (_ & Hb & _). rewrite Hb.
  eapply refines_bind.
  { apply (refines_foldR m_valued); [done|]. intros p [m1 k1] ? [<- H1]. by apply take_refines. }
  intros [[c i] k] ? [<- (Hc & Hi & He)]. cbn [fst snd] in *.
  assert (∀ label b l rows i, coherent hs f i ∧ coherent_e i →
    refines (λ y bs, y.1 = rows ++ bs ∧ coherent hs f y.2 ∧ coherent_e y.2)
      (foldR (Fp.tree_row f label b) l (rows, i)) (mapR (tree_line label b) l)) as Htree.
  { intros label b l rows j Hj. apply (refines_collect (λ i, coherent hs f i ∧ coherent_e i)); [done|].
    intros p rows1 j1 [H1 H1e]. unfold Fp.tree_row, tree_line.
    eapply refines_bind; [by apply treeHash_refines|].
    intros [h j2] ? (<- & H2 & H2e). split; [done|]. split; [done|]. by eapply coherent_e_same. }
  eapply refines_bind.
  { apply (refines_collect (λ i, coherent hs f i ∧ coherent_e i)); [done|].
    intros p rows1 j1 [H1 H1e]. unfold Fp.file_row, file_line.
    eapply refines_bind; [by apply fileHash_refines|].
    intros [h j2] ? (<- & H2 & H2e). split; [done|]. split; [done|]. by eapply coherent_e_same. }
  intros [rows1 i1] files [E1 H1]. cbn [fst snd] in *.
  eapply refines_bind; [by apply Htree|].
  intros [rows2 i2] trees [E2 H2]. cbn [fst snd] in *.
  eapply refines_bind; [by apply Htree|].
  intros [rows3 i3] outside [E3 H3]. cbn [fst snd] in *.
  subst. rewrite <- !app_assoc. by repeat split; try apply Hc; apply H3.
Qed.
End closure.
End Spec.
