(* ===== verification/CtestWorklist.v ===== *)
(** * tools/ctest_cached.py: the worklist and the thread pool

    [ofScript] collects what the scripts reachable from a script name, whatever
    the order in which sets are iterated, and it ends; [hashMany] leaves one memo
    whatever the order in which the pool's tasks finish. *)
From stdpp Require Import gmap.
From S2P Require Export CtestSpec.

Module Worklist.
Import Closure Spec.

(** One thing a triple holds. *)
Inductive item := IFile (p : str) | IExe (n : str) | ITree (p : str).
Definition holds (y : item) (r : triple) : Prop :=
  match y with IFile p => p ∈ r.1.1 | IExe n => n ∈ r.1.2 | ITree p => p ∈ r.2 end.

Lemma holds_union3 y a b : holds y (union3 a b) ↔ holds y a ∨ holds y b.
Proof. destruct y; unfold holds, union3; cbn [fst snd]; apply elem_of_union. Qed.

Lemma holds_empty y : ¬ holds y (∅, ∅, ∅).
Proof. destruct y; unfold holds; cbn [fst snd]; apply not_elem_of_empty. Qed.

(** The scripts a script's code names, and the ones those name. *)
Definition names_script (f : fs) (c : Closure.t) (p q : str) : Prop :=
  q ∈ (scan f c p).1.1 ∧ is_script q = true.
Definition reach (f : fs) (c : Closure.t) : str → str → Prop := rtc (names_script f c).

(** The parameter [order] lists a set, each element once. *)
Definition lists (order : gset str → list str) : Prop := ∀ s, order s ≡ₚ elements s.

Section loop.
Context (f : fs) (c : Closure.t) (order : gset str → list str) (Horder : lists order).

Lemma elem_of_order s x : x ∈ order s ↔ x ∈ s.
Proof. rewrite (Horder s). apply elem_of_elements. Qed.

Definition next (d : triple) (seen : gset str) : list str :=
  List.filter (λ x, is_script x && negb (bool_decide (x ∈ seen))) (order d.1.1).

Lemma elem_of_next x p seen :
  x ∈ next (scan f c p) seen ↔ names_script f c p x ∧ x ∉ seen.
Proof.
  unfold next. rewrite list_elem_of_In, List.filter_In, <- list_elem_of_In, elem_of_order.
  rewrite andb_true_iff, negb_true_iff, bool_decide_eq_false. unfold names_script. tauto.
Qed.

(** The loop's invariant, for a search from [start]. *)
Record inv (start : str) (acc : triple) (seen : gset str) (todo : list str) : Prop := {
  inv_acc : ∀ y, holds y acc ↔ ∃ q, q ∈ seen ∧ holds y (scan f c q);
  inv_seen : ∀ q, q ∈ seen → reach f c start q;
  inv_todo : ∀ q, q ∈ todo → reach f c start q;
  inv_start : start ∈ seen ∨ start ∈ todo;
  inv_closed : ∀ q x, q ∈ seen → names_script f c q x → x ∈ seen ∨ x ∈ todo;
}.

Lemma inv_step_old start acc seen one todo :
  one ∈ seen → inv start acc seen (one :: todo) → inv start acc seen todo.
Proof.
  intros Hone [Ha Hs Ht H0 Hc]. split; [done..|by intros; apply Ht; right| |].
  - destruct H0 as [?|[->|?]%elem_of_cons]; auto.
  - intros q x Hq Hx. destruct (Hc q x Hq Hx) as [?|[->|?]%elem_of_cons]; auto.
Qed.

Lemma inv_step_new start acc seen one todo :
  inv start acc seen (one :: todo) →
  inv start (union3 acc (scan f c one)) ({[ one ]} ∪ seen)
      (rev (next (scan f c one) ({[ one ]} ∪ seen)) ++ todo).
Proof.
  intros [Ha Hs Ht H0 Hc].
  assert (reach f c start one) as Hone by (apply Ht; left).
  assert (∀ x, x ∈ rev (next (scan f c one) ({[ one ]} ∪ seen)) ++ todo ↔
    (names_script f c one x ∧ x ∉ ({[ one ]} ∪ seen : gset str)) ∨ x ∈ todo) as Hn.
  { intros x. by rewrite elem_of_app, list_elem_of_In, <- in_rev, <- list_elem_of_In, elem_of_next. }
  split.
  - intros y. rewrite holds_union3, Ha. split.
    + intros [(q & Hq & Hy)|Hy]; [exists q|exists one]; (split; [|done]).
      * by apply elem_of_union_r.
      * by apply elem_of_union_l, elem_of_singleton.
    + intros (q & [->%elem_of_singleton|Hq]%elem_of_union & Hy); [by right | left; eauto].
  - intros q [->%elem_of_singleton|Hq]%elem_of_union; auto.
  - intros q [[Hq _]|Hq]%Hn; [by eapply rtc_r | apply Ht; by right].
  - rewrite Hn. destruct H0 as [?|[->|?]%elem_of_cons].
    + left. by apply elem_of_union_r.
    + left. by apply elem_of_union_l, elem_of_singleton.
    + by right; right.
  - intros q x Hq Hx. rewrite Hn. destruct (decide (x ∈ ({[ one ]} ∪ seen : gset str))); [by left|].
    right. apply elem_of_union in Hq as [->%elem_of_singleton|Hq]; [by left|].
    rewrite not_elem_of_union, not_elem_of_singleton in n. destruct n as [? ?].
    by destruct (Hc q x Hq Hx) as [?|[->|?]%elem_of_cons]; [..|right].
Qed.

Lemma loop_inv start fuel acc seen todo r :
  closure_loop f order c fuel acc seen todo = Ok r → inv start acc seen todo →
  ∃ seen', inv start r seen' [].
Proof.
  revert acc seen todo; induction fuel as [|fuel IH]; intros acc seen [|one todo]; cbn [closure_loop].
  1,3: intros [= <-] ?; by exists seen.
  { done. }
  destruct (bool_decide_reflect (one ∈ seen)) as [Hs|Hs]; intros H Hi.
  - eapply IH; [done | by eapply inv_step_old].
  - eapply IH; [exact H | by apply inv_step_new].
Qed.

Lemma inv_end start r seen :
  inv start r seen [] → ∀ y, holds y r ↔ ∃ q, reach f c start q ∧ holds y (scan f c q).
Proof.
  intros [Ha Hs _ H0 Hc] y. rewrite Ha. split; intros (q & Hq & Hy); exists q; [by auto|].
  split; [|done]. assert (start ∈ seen) as Hst by (destruct H0 as [|?%not_elem_of_nil]; done).
  assert (∀ a b, reach f c a b → a ∈ seen → b ∈ seen) as Hr.
  { induction 1 as [|a x b Hx _ IH]; [done|]. intros Hin. apply IH.
    by destruct (Hc a x Hin Hx) as [|?%not_elem_of_nil]. }
  by eapply Hr.
Qed.

Lemma closure_value_reach fuel start r :
  closure_value f order fuel c start = Ok r →
  ∀ y, holds y r ↔ ∃ q, reach f c start q ∧ holds y (scan f c q).
Proof.
  intros H. destruct (loop_inv start _ _ _ _ _ H) as [seen Hs].
  - split.
    + intros y. split; [by intros ?%holds_empty | intros (q & []%not_elem_of_empty & _)].
    + by intros q ?%not_elem_of_empty.
    + intros q [->|?%not_elem_of_nil]%elem_of_cons; [apply rtc_refl | done].
    + right; left.
    + by intros q x ?%not_elem_of_empty.
  - exact (inv_end _ _ _ Hs).
Qed.

(** ** Termination *)

(** A finite set of scripts closed under naming. *)
Definition closed (S : gset str) : Prop := ∀ p q, p ∈ S → names_script f c p q → q ∈ S.

Lemma next_length S p seen :
  closed S → p ∈ S → length (next (scan f c p) seen) ≤ size S.
Proof.
  intros HS Hp. assert (NoDup (next (scan f c p) seen)) as Hnd.
  { apply NoDup_ListNoDup, List.NoDup_filter, NoDup_ListNoDup. rewrite (Horder _).
    apply NoDup_elements. }
  rewrite <- (size_list_to_set (C := gset str) _ Hnd). apply subseteq_size.
  intros x [Hx _]%elem_of_list_to_set%elem_of_next. by eapply HS.
Qed.

Lemma loop_ends S fuel acc seen todo :
  closed S → Forall (.∈ S) todo →
  length todo + size (S ∖ seen) * size S ≤ fuel →
  ∃ r, closure_loop f order c fuel acc seen todo = Ok r.
Proof.
  intros HS; revert acc seen todo; induction fuel as [|fuel IH]; intros acc seen [|one todo] Hin Hle;
    cbn [closure_loop]; [by eexists | cbn in Hle; lia | by eexists |].
  apply Forall_cons in Hin as [Hone Hin].
  destruct (bool_decide_reflect (one ∈ seen)) as [Hs|Hs].
  - apply IH; [done | cbn in Hle; lia].
  - apply IH.
    + apply Forall_app; split; [|done]. apply Forall_rev, Forall_forall.
      intros x [Hx _]%elem_of_next. by eapply HS.
    + rewrite length_app, length_rev. fold (next (scan f c one) ({[ one ]} ∪ seen)).
      pose proof (next_length S one ({[ one ]} ∪ seen) HS Hone).
      assert (size (S ∖ ({[ one ]} ∪ seen)) < size (S ∖ seen)) as Hlt.
      { apply subset_size, strict_spec_alt. split; [clear; set_solver|]. intros E.
        assert (one ∈ S ∖ seen) as Hin1 by (by apply elem_of_difference). rewrite <- E in Hin1.
        apply elem_of_difference in Hin1 as [_ Hn1]. by apply Hn1, elem_of_union_l, elem_of_singleton. }
      cbn in Hle. nia.
Qed.
End loop.

(** ** A small tree for the witnesses *)
Definition script_a : str := ("# runs b.sh" : str) ++ nl :: ("source $ROOT/tests/b.sh; $BUILD/foo" : str).
Definition script_b : str := "cat validation/cavity/U".
Definition sample_tree : ent :=
  Dir [("r" : str, Dir
    [("build" : str, Dir [("foo" : str, File "/r/validation/cavity" 5 true);
                          ("CMakeCache.txt" : str, File "CMAKE_HOME_DIRECTORY:INTERNAL=/r" 6 false)]);
     ("tests" : str, Dir [("a.sh" : str, File script_a 1 true); ("b.sh" : str, File script_b 2 true)]);
     ("validation" : str, Dir [("cavity" : str, Dir [("U" : str, File "1 2 3" 3 false)])])])].
Definition sample_fs : fs := {| root := sample_tree; real := normpath |}.
Definition sample_closure : Closure.t :=
  match Closure.init sample_fs "/r" "/r/build" with
  | Ok c => c
  | Raise _ => {| repo := []; build := []; scripts := ∅; closures := ∅; exeNames := ∅; exeRe := None |}
  end.
Definition set_order (s : gset str) : list str := elements s.
Definition sample_set : gset str := {[ "/r/tests/a.sh" : str; "/r/tests/b.sh" : str ]}.

Lemma set_order_lists : lists set_order.
Proof. by intros s. Qed.

Lemma fresh_coherent f order sfuel c :
  scripts c = ∅ → closures c = ∅ → coherent_c f order sfuel c c.
Proof.
  intros Hs Hc. split; [done| |]; intros p r; rewrite ?Hs, ?Hc; intros H%lookup_empty_Some; done.
Qed.

Lemma sample_coherent order sfuel :
  coherent_c sample_fs order sfuel sample_closure sample_closure.
Proof. apply fresh_coherent; vm_compute; reflexivity. Qed.

(** ** Properties *)

(** C6: what [ofScript] returns is exactly what the scripts reachable from the
    given one name (files, executables, directories), whatever the memos hold as
    long as they are coherent, and whatever the order in which sets are iterated. *)
Theorem ofScript_reach f c order sfuel path r c' :
  lists order → coherent_c f order sfuel c c →
  ofScript order f sfuel c path = Ok (r, c') →
  ∀ y, holds y r ↔ ∃ q, reach f c (real f path) q ∧ holds y (scan f c q).
Proof.
  intros Ho Hc H. destruct (refines_Ok _ _ _ _ (ofScript_refines f order sfuel c c path Hc) H)
    as (r' & Hv & [Hr _]). cbn in Hr. subst r'.
  by apply (closure_value_reach f c order Ho sfuel).
Qed.

(** [ofScript] ends: when the scripts reachable from a script lie in a finite
    set, a bound quadratic in its size on the number of turns is enough. *)
Theorem ofScript_ends f c order sfuel path S :
  lists order → coherent_c f order sfuel c c →
  closed f c S → real f path ∈ S → 1 + size S * size S ≤ sfuel →
  ∃ r c', ofScript order f sfuel c path = Ok (r, c').
Proof.
  intros Ho Hc HS Hp Hle.
  destruct (loop_ends f c order Ho S sfuel (∅, ∅, ∅) ∅ [real f path]) as [r Hr]; [done| | |].
  { by repeat constructor. }
  { rewrite difference_empty_L. cbn. lia. }
  pose proof (ofScript_refines f order sfuel c c path Hc) as H.
  unfold closure_value in H. rewrite Hr in H.
  destruct (ofScript _ _ _ _ _) as [[r' c']|]; [by eexists _, _ | done].
Qed.

Definition sample_run : res (triple * Closure.t) :=
  ofScript set_order sample_fs 5 sample_closure "/r/tests/a.sh".

Lemma ofScript_reach_witness :
  ∃ r c', sample_run = Ok (r, c') ∧
    ∃ q, reach sample_fs sample_closure (real sample_fs "/r/tests/a.sh") q ∧
         holds (IFile "/r/validation/cavity/U") (scan sample_fs sample_closure q).
Proof.
  assert (match sample_run with Ok _ => true | Raise _ => false end = true) as Hok by (vm_compute; reflexivity).
  destruct sample_run as [[r c']|e] eqn:E; [|discriminate Hok]. clear Hok.
  exists r, c'. split; [reflexivity|].
  apply (ofScript_reach sample_fs sample_closure set_order 5 "/r/tests/a.sh" r c'
    set_order_lists (sample_coherent _ _) E (IFile "/r/validation/cavity/U")).
  apply (proj1 (bool_decide_eq_true (("/r/validation/cavity/U" : str) ∈ r.1.1))).
  assert (match sample_run with
          | Ok x => bool_decide (("/r/validation/cavity/U" : str) ∈ x.1.1.1)
          | _ => false end = true) as H by (vm_compute; reflexivity).
  rewrite E in H. exact H.
Defined.

Lemma sample_closed : closed sample_fs sample_closure sample_set.
Proof.
  intros p q Hp [Hq Hs].
  assert (forallb (λ p, forallb (λ q, negb (is_script q) || bool_decide (q ∈ sample_set))
    (elements (scan sample_fs sample_closure p).1.1)) (elements sample_set) = true) as H
    by (vm_compute; reflexivity).
  rewrite forallb_elem in H. specialize (H p (proj2 (elem_of_elements _ _) Hp)).
  rewrite forallb_elem in H. specialize (H q (proj2 (elem_of_elements _ _) Hq)).
  rewrite Hs in H. by apply bool_decide_eq_true in H.
Qed.

Lemma ofScript_ends_witness :
  ∃ r c', ofScript set_order sample_fs 5 sample_closure "/r/tests/a.sh" = Ok (r, c').
Proof.
  refine (ofScript_ends sample_fs sample_closure set_order 5 "/r/tests/a.sh" sample_set
    set_order_lists (sample_coherent _ _) sample_closed _ _).
  - apply (proj1 (bool_decide_eq_true (_ ∈ sample_set))). vm_compute. reflexivity.
  - apply Nat.leb_le. vm_compute. reflexivity.
Defined.

(** ** The thread pool *)
Section pool.
Import Inputs.
Context (f : fs).

(** The entry of a path after it has been hashed. *)
Definition entry_of (i : Inputs.t) (p : str) : res (str * str) :=
  st ← stamp f p;
  let compute := data ← read_file f p; d ← digest data; Ok (st, d) in
  let from_memo :=
    match memo i !! p with
    | Some (s, d) => if bool_decide (s = st) then Ok (s, d) else compute
    | None => compute
    end in
  match fresh i !! p with
  | Some (s, d) => if bool_decide (s = st) then Ok (s, d) else from_memo
  | None => from_memo
  end.

Lemma set_fresh_id i p v : fresh i !! p = Some v → set_fresh i p v = i.
Proof. intros H. destruct i; unfold set_fresh; cbn in *. by rewrite insert_id. Qed.

Lemma fileHash_entry i path :
  fileHash f i path =
  (entry_of i (real f path) ≫= λ e, Ok (e.2, set_fresh i (real f path) e)).
Proof.
  unfold fileHash, entry_of. set (p := real f path).
  destruct (stamp f p) as [st|]; [|done]. cbn -[digest].
  destruct (fresh i !! p) as [[s d]|] eqn:Ef; [case_bool_decide; [by cbn; rewrite set_fresh_id|]|];
    (destruct (memo i !! p) as [[s' d']|]; [case_bool_decide; [done|]|];
     destruct (read_file f p) as [data|]; cbn -[digest]; try done; by destruct (digest data)).
Qed.

(** One task of the pool. *)
Definition task (i : Inputs.t) (p : str) : res Inputs.t := '(_, i) ← fileHash f i p; Ok i.

Lemma task_entry i p :
  task i p = (entry_of i (real f p) ≫= λ e, Ok (set_fresh i (real f p) e)).
Proof. unfold task. rewrite fileHash_entry. by destruct (entry_of _ _). Qed.

Lemma task_commute i p q i1 i2 :
  task i p = Ok i1 → task i1 q = Ok i2 → ∃ i1', task i q = Ok i1' ∧ task i1' p = Ok i2.
Proof.
  rewrite !task_entry. intros (e & He & [= <-])%bind_Ok (e' & He' & [= <-])%bind_Ok.
  destruct (decide (real f p = real f q)) as [E|Hne].
  { rewrite <- E in He' |- *. exists (set_fresh i (real f p) e).
    rewrite He, task_entry, He'. done. }
  assert (entry_of i (real f q) = Ok e') as Hq.
  { rewrite <- He'. unfold entry_of, set_fresh. cbn -[digest]. by rewrite lookup_insert_ne. }
  exists (set_fresh i (real f q) e'). rewrite Hq. split; [done|]. rewrite task_entry.
  assert (entry_of (set_fresh i (real f q) e') (real f p) = Ok e) as ->.
  { rewrite <- He. unfold entry_of, set_fresh. cbn -[digest]. by rewrite lookup_insert_ne. }
  cbn. unfold set_fresh; cbn. by rewrite insert_insert_ne.
Qed.

(** C7: the pool of [hashMany] leaves one memo: if the tasks run to the end in one
    order they do in every order, and the memos are equal. *)
Theorem hashMany_order todo1 todo2 i i1 :
  todo1 ≡ₚ todo2 → run_tasks f todo1 i = Ok i1 → run_tasks f todo2 i = Ok i1.
Proof.
  unfold run_tasks. fold task. intros Hp; revert i i1.
  induction Hp as [|p l1 l2 _ IH|p q l|l1 l2 l3 _ IH1 _ IH2]; intros i i1; cbn [foldR].
  - done.
  - intros (j & Hj & H)%bind_Ok. rewrite Hj. by apply IH.
  - intros (j & Hj & H)%bind_Ok. cbn [foldR] in H. apply bind_Ok in H as (j2 & Hj2 & H).
    destruct (task_commute _ _ _ _ _ Hj Hj2) as (j' & H1 & H2). rewrite H1. cbn. by rewrite H2.
  - auto.
Qed.
End pool.

Lemma hashMany_order_witness :
  ∃ i1, Inputs.run_tasks sample_fs ["/r/tests/b.sh" : str; "/r/tests/a.sh" : str] (Inputs.init None) = Ok i1.
Proof.
  destruct (Inputs.run_tasks sample_fs ["/r/tests/a.sh" : str; "/r/tests/b.sh" : str]
    (Inputs.init None)) as [i1|e] eqn:E; [|vm_compute in E; discriminate E].
  exists i1. exact (hashMany_order sample_fs _ _ _ _ (perm_swap _ _ []) E).
Defined.
End Worklist.
