(* ===== verification/CtestProofs.v ===== *)
(** * tools/ctest_cached.py: what a run promises

    The keys a run computes are the hashes of the rows the file system alone
    determines ([keysOf_rows]); from that, the theorems about [main]: what is
    held, what is run, what is recorded. *)
From stdpp Require Import gmap.
From S2P Require Import CtestWorklist.

Module Run.
Import Closure Spec Worklist CtestCached.Main.

(** ** Stores *)

(** The memo file of a store holds entries of the history. *)
Definition honest (hs : fs → Prop) (c : Closure.t) (o : option saved) : Prop :=
  match o with
  | Some (m, me) => (∀ p v, m !! p = Some v → good_entry hs p v)
                    ∧ (∀ p v, me !! p = Some v → good_binary hs c p v)
  | None => True
  end.

(** Every recorded key is that of an input text that passes. *)
Definition sound (passes : str → Prop) (s : store) : Prop :=
  ∀ key n, passed s !! key = Some n → ∃ text, key = sha256 text ∧ passes text.

(** The input text of a test. *)
Definition text_of (rows : list str) : str := join [nl] rows.

Lemma by_name_cons t tests n :
  by_name (tests ++ [t]) n = if bool_decide (Test.name t = n) then Some t else by_name tests n.
Proof. unfold by_name. rewrite rev_app_distr. done. Qed.

Lemma by_name_elem tests n t : by_name tests n = Some t → t ∈ tests ∧ Test.name t = n.
Proof.
  intros [Hin Hn]%List.find_some. apply bool_decide_eq_true in Hn.
  split; [|done]. by apply list_elem_of_In, in_rev.
Qed.

Section run.
Context (hs : fs → Prop) (Hist : history hs) (f : fs) (Hf : hs f) (g : setting) (c0 : Closure.t).

Definition rows_at (t : Test.t) : res (list str) :=
  rows_value f (order g) (sfuel g) c0 (env g) (machine g) (global_env (env g)) t.
Definition coherent_at : Fp.memos → Prop := coherent_m hs f (order g) (sfuel g) c0.

Lemma fp_rows m t x :
  coherent_at m → fp g f m t = Ok x →
  ∃ rows, rows_at t = Ok rows ∧ x.1.2 = rows ∧ x.1.1 = sha256 (text_of rows) ∧ coherent_at x.2.
Proof.
  intros Hm H. unfold fp, Fp.fingerprint in H. apply bind_Ok in H as ([rows m'] & Hr & [= <-]).
  destruct (refines_Ok _ _ _ _ (rows_refines hs Hist f Hf _ _ _ _ _ _ _ t Hm) Hr)
    as (rows' & Hv & Er & Hm'). cbn in *. subst rows'. by exists rows.
Qed.

(** The key of each name is that of the last test of the name. *)
Definition keys_of_rows (tests : list Test.t) (keys : gmap str str) : Prop :=
  ∀ n, match by_name tests n with
       | Some t => ∃ rows, rows_at t = Ok rows ∧ keys !! n = Some (sha256 (text_of rows))
       | None => keys !! n = None
       end.

Lemma keysOf_rows m tests keys m' :
  coherent_at m → keysOf g f m tests = Ok (keys, m') →
  coherent_at m' ∧ keys_of_rows tests keys.
Proof.
  intros Hm; revert keys m'. unfold keysOf.
  induction tests as [|t tests IH] using rev_ind; intros keys m'.
  { intros [= <- <-]. split; [done|]. intros n. cbn. apply lookup_empty. }
  rewrite foldR_app. intros ([keys1 m1] & H1 & H)%bind_Ok. cbn [foldR] in H.
  apply bind_Ok in H as (x & Hx & [= ->]). unfold key_step in Hx. cbn [fst snd] in Hx.
  destruct (IH _ _ H1) as [Hm1 Hk1].
  apply bind_Ok in Hx as ([[key rows] m2] & Hfp & [= <- <-]).
  destruct (fp_rows _ _ _ Hm1 Hfp) as (rows' & Hr & _ & Ek & Hm2). cbn in Ek, Hm2.
  split; [done|]. intros n. rewrite by_name_cons. case_bool_decide as E.
  - subst n. exists rows'. by rewrite lookup_insert_eq, Ek.
  - specialize (Hk1 n). rewrite lookup_insert_ne by done. done.
Qed.

(** Saving the memo keeps the invariant and writes an honest file. *)
Lemma save_coherent c i file i' :
  coherent_at (c, i) → Inputs.save f i = (file, i') →
  coherent_at (c, i') ∧ honest hs c0 (Some file).
Proof.
  intros (Hc & [Hm Hn Ht] & [Em En]) [= <- <-].
  assert (∀ p v, (Inputs.fresh i ∪ Inputs.memo i) !! p = Some v → good_entry hs p v) as Hu.
  { intros p v [?|[_ ?]]%lookup_union_Some_raw; [by apply Hn | by apply Hm]. }
  assert (∀ p v, (Inputs.fresh_embedded i ∪ Inputs.memo_embedded i) !! p = Some v →
    good_binary hs c0 p v) as Hue.
  { intros p v [?|[_ ?]]%lookup_union_Some_raw; [by apply En | by apply Em]. }
  split; [split; [done|split; [split; [done..|]|split; done]]|].
  - done.
  - split; intros p v [H _]%map_lookup_filter_Some; auto.
Qed.
End run.

(** The memos of a run cleared for another file system of the history. *)
Lemma clear_coherent hs f f' g c0 c i :
  coherent_at hs f g c0 (c, i) →
  coherent_at hs f' g c0 (Closure.clear c, Inputs.clear_trees i).
Proof.
  intros (Hc & [Hm Hn Ht] & [Em En]). destruct Hc as [Hs _ _].
  split; [|split].
  - by split; cbn; [|intros p r H%lookup_empty_Some..].
  - by split; cbn; [..|intros p r H%lookup_empty_Some].
  - by split.
Qed.

(** ** The two halves of main *)
Section halves.
Context (hs : fs → Prop) (Hist : history hs) (g : setting).

Lemma init_coherent f c0 s :
  scripts c0 = ∅ → closures c0 = ∅ → honest hs c0 (memo_file s) →
  coherent_at hs f g c0 (c0, Inputs.init (memo_file s)).
Proof.
  intros H1 H2 Hh. split; [by apply fresh_coherent|].
  destruct (memo_file s) as [[m me]|]; cbn.
  - destruct Hh as [Hm Hme].
    split; split; cbn; [done|intros p v H%lookup_empty_Some; done..|done|
      intros p v H%lookup_empty_Some; done].
  - split; split; cbn; intros p v H%lookup_empty_Some; done.
Qed.

Lemma init_empty f repo build c : Closure.init f repo build = Ok c → scripts c = ∅ ∧ closures c = ∅.
Proof. unfold Closure.init. by intros (l & _ & [= <-])%bind_Ok. Qed.

Lemma prepare_spec f s repo build tests keys m s' :
  hs f →
  (∀ c, Closure.init f repo build = Ok c → honest hs c (memo_file s)) →
  prepare f g s repo build tests = Ok (keys, m, s') →
  ∃ c0, Closure.init f repo build = Ok c0 ∧ coherent_at hs f g c0 m ∧
    keys_of_rows f g c0 tests keys ∧ passed s' = passed s ∧ honest hs c0 (memo_file s').
Proof.
  intros Hf Hh H. unfold prepare in H. apply bind_Ok in H as (c0 & Hc & H).
  apply bind_Ok in H as (i1 & Hi & H). apply bind_Ok in H as ([keys1 [c2 i2]] & Hk & H).
  destruct (init_empty _ _ _ _ Hc) as [E1 E2].
  destruct (init_coherent f c0 s E1 E2 (Hh c0 Hc)) as (Hcc & Hci & Hce).
  destruct (run_tasks_coherent hs Hist f Hf _ _ _ Hci Hi) as [Hc1 He1].
  assert (coherent_at hs f g c0 (c0, i1)) as Hm1
    by (split; [done|split; [done|by eapply coherent_e_same]]).
  destruct (keysOf_rows hs Hist f Hf g c0 _ _ _ _ Hm1 Hk) as [Hm2 Hrows].
  destruct (Inputs.save f i2) as [file i3] eqn:Es. injection H as <- <- <-.
  destruct (save_coherent hs f g c0 _ _ _ _ Hm2 Es) as [Hm3 Hfile].
  by exists c0.
Qed.

(** What the second half records. *)
Lemma fold_record keys moved l s key n :
  passed (fold_left (record_pass keys moved) l s) !! key = Some n →
  passed s !! key = Some n ∨ (n ∈ l ∧ n ∉ moved ∧ keys !! n = Some key).
Proof.
  revert s; induction l as [|x l IH]; intros s; cbn [fold_left]; [auto|].
  intros [H|(Hn & Hm & Hk)]%IH; [|right; split; [by right|done]].
  unfold record_pass in H. destruct (keys !! x) as [k|] eqn:E; [|by left].
  case_bool_decide; [by left|]. cbn in H.
  apply lookup_insert_Some in H as [[-> ->]|[_ ?]]; [right; split; [left|done] | by left].
Qed.

Lemma finish_records f s keys m tests cases s' passed other moved :
  finish f g s keys m tests cases = Ok (s', passed, other, moved) →
  passed = map c_name (List.filter case_passed cases) ∧
  ∀ key n, Main.passed s' !! key = Some n →
     Main.passed s !! key = Some n ∨
     (n ∈ passed ∧ n ∉ moved ∧ keys !! n = Some key).
Proof.
  intros H. unfold finish in H. apply bind_Ok in H as ([after [c i]] & _ & H).
  destruct (Inputs.save f i) as [file i']. injection H as <- <- <- <-.
  split; [done|]. intros key n [H|H]%fold_record; [by left|by right].
Qed.

(** A pass that did not move still has its key on the file system the tests
    left. *)
Lemma finish_unmoved f s keys c0 m tests cases s' passed other moved n key :
  hs f → coherent_at hs f g c0 (Closure.clear m.1, Inputs.clear_trees m.2) →
  finish f g s keys m tests cases = Ok (s', passed, other, moved) →
  n ∈ passed → n ∉ moved → keys !! n = Some key →
  ∃ t rows, by_name tests n = Some t ∧ rows_at f g c0 t = Ok rows ∧ key = sha256 (text_of rows).
Proof.
  intros Hf Hm H Hn Hmv Hkey. unfold finish in H.
  apply bind_Ok in H as ([after [c i]] & Hk & H).
  destruct (keysOf_rows hs Hist f Hf g c0 _ _ _ _ Hm Hk) as [_ Hrows].
  destruct (Inputs.save f i) as [file i'] eqn:Es. injection H as <- <- <- <-.
  assert (after !! n = keys !! n) as E.
  { destruct (decide (after !! n = keys !! n)) as [|Hne]; [done|]. destruct Hmv.
    apply list_elem_of_In, List.filter_In. split; [by apply list_elem_of_In|].
    by rewrite bool_decide_eq_false_2. }
  rewrite Hkey in E. specialize (Hrows n).
  destruct (by_name _ n) as [t|] eqn:Et; [|congruence].
  destruct Hrows as (rows & Hr & Ek). rewrite E in Ek. injection Ek as ->.
  exists t, rows. split; [|done].
  destruct (by_name_elem _ _ _ Et) as [Hin En].
  apply list_elem_of_omap in Hin as (n' & _ & Hb). destruct (by_name_elem _ _ _ Hb) as [_ En'].
  congruence.
Qed.
End halves.

(** ** main *)
Section main.
Context (listing : str → list str → Z * list Test.t).
Context (runner : fs → str → list str → fs * Z * option (list case)).
Context (gpu : option str) (order : gset str → list str) (sfuel : nat) (env : gmap str str).
Abbreviation main := (main listing runner gpu order sfuel env).
Abbreviation select := (select runner).

(** The tests a run selects, the setting of its fingerprints, the closure it
    starts with, and its options. *)
Inductive run_of (f : fs) (argv : list str) :
    list Test.t → setting → Closure.t → Args.ours → list str → Prop :=
  | Run_of ours filters rest listed repo machine c0 :
      Args.splitArguments argv = Ok (ours, filters, rest) →
      listing (real f (Args.testDir ours)) filters = (0%Z, listed) →
      repo_of f (real f (Args.testDir ours)) = Ok repo →
      Machine.machineIdentity f gpu env = Ok machine →
      Closure.init f repo (real f (Args.testDir ours)) = Ok c0 →
      run_of f argv (List.filter (λ t, negb (bool_decide (Test.command t = []))) listed)
        {| Main.order := order; Main.sfuel := sfuel; Main.env := env; Main.machine := machine |}
        c0 ours rest.

Lemma run_of_fun f argv tests g c0 ours rest tests' g' c0' ours' rest' :
  run_of f argv tests g c0 ours rest → run_of f argv tests' g' c0' ours' rest' →
  tests = tests' ∧ g = g' ∧ c0 = c0' ∧ ours = ours' ∧ rest = rest'.
Proof. intros H1 H2. destruct H1, H2. repeat split; congruence. Qed.

Lemma main_cases hs f s argv code r s' f' :
  history hs → hs f →
  (∀ tests g c0 ours rest, run_of f argv tests g c0 ours rest → honest hs c0 (memo_file s)) →
  main f s argv = Ok (code, r, s', f') →
  (r = RListingFailed ∧ s' = s) ∨
  ∃ tests g c0 ours rest keys m s1,
    run_of f argv tests g c0 ours rest ∧ coherent_at hs f g c0 m ∧
    keys_of_rows f g c0 tests keys ∧ passed s1 = passed s ∧
    select f g ours rest tests keys m s1 = Ok (code, r, s', f').
Proof.
  intros Hist Hf Hh H. unfold CtestCached.Main.main in H.
  apply bind_Ok in H as ([[ours filters] rest] & Ha & H).
  destruct (listing _ filters) as [c listed] eqn:El.
  destruct (Z.eqb_spec c 0) as [->|]; cbn [negb] in H; [|injection H as _ <- <- _; by left].
  apply bind_Ok in H as (repo & Hr & H). apply bind_Ok in H as (machine & Hmi & H).
  apply bind_Ok in H as ([[keys m] s1] & Hp & H). right.
  assert (∀ c0, Closure.init f repo (real f (Args.testDir ours)) = Ok c0 → _) as Hrun
    by (intros c0 Hc0; exact (Run_of f argv ours filters rest listed repo machine c0 Ha El Hr Hmi Hc0)).
  destruct (prepare_spec hs Hist _ f _ _ _ _ _ _ _ Hf (λ c0 Hc0, Hh _ _ _ _ _ (Hrun c0 Hc0)) Hp)
    as (c0 & Hc0 & Hm & Hk & Hs1 & _).
  eexists _, _, c0, ours, rest, keys, m, s1. split; [by apply Hrun|done].
Qed.

Lemma explain_report f g s m w tests code r :
  explain_one f g s m w tests = Ok (code, r) →
  r = RNoSuchTest ∨ ∃ rows key b, r = RExplained rows key b.
Proof.
  induction tests as [|t l IH]; cbn [explain_one]; [intros [= _ <-]; by left|].
  case_bool_decide; [|done]. intros ([[key rows] m'] & _ & [= _ <-])%bind_Ok. right. eauto.
Qed.

Lemma select_ran f g ours rest tests keys m s code passed other moved held s' f' :
  select f g ours rest tests keys m s = Ok (code, RRan passed other moved held, s', f') →
  held = map Test.name (List.filter (is_held s keys (Args.noCache ours)) tests) ∧
  ∃ cases,
    runner f (pattern (map Test.name
      (List.filter (λ t, negb (bool_decide (Test.name t ∈ held))) tests))) rest
      = (f', code, Some cases) ∧
    finish f' g s keys m tests cases = Ok (s', passed, other, moved).
Proof.
  unfold CtestCached.Main.select. set (run := if Args.list_ ours then _ else _). intros H.
  assert (run = Ok (code, RRan passed other moved held, s', f')) as Hr.
  { destruct (Args.explain ours) as [[|x w]|]; [done| |done].
    apply bind_Ok in H as ([c r] & Hx & [= <- -> _ _]). apply explain_report in Hx as [?|(? & ? & ? & ?)]; done. }
  clear H. unfold run in Hr. destruct (Args.list_ ours); [done|].
  case_bool_decide; [done|].
  destruct (runner _ _ _) as [[f1 c1] [cases|]] eqn:Er; [|done].
  apply bind_Ok in Hr as ([[[s1 p1] o1] m1] & Hfin & [= <- <- <- <- <- <- <-]).
  split; [done|]. by exists cases.
Qed.

(** A held test has a recorded key. *)
Lemma is_held_spec s keys no_cache t :
  is_held s keys no_cache t = true ↔
  no_cache = false ∧ ∃ k, keys !! Test.name t = Some k ∧ is_Some (passed s !! k).
Proof.
  unfold is_held, recorded. rewrite andb_true_iff, negb_true_iff.
  destruct (keys !! Test.name t) as [k|]; [rewrite bool_decide_eq_true|]; naive_solver.
Qed.

(** C1: sound caching.  If the runner reports a pass only of a test whose input
    text passes, the store stays sound (every recorded key is the hash of an input
    text that passes), and every test that is held back has an input text that
    passes, unless SHA-256 confuses that text with the one recorded. *)
Theorem main_sound hs passes f s argv tests g c0 ours rest code passed other moved held s' f' :
  history hs → hs f → run_of f argv tests g c0 ours rest →
  honest hs c0 (memo_file s) → sound passes s →
  (∀ p f' code cases c t rows, runner f p rest = (f', code, Some cases) →
     c ∈ cases → case_passed c = true → by_name tests (c_name c) = Some t →
     rows_at f g c0 t = Ok rows → passes (text_of rows)) →
  main f s argv = Ok (code, RRan passed other moved held, s', f') →
  sound passes s' ∧
  ∀ n, n ∈ held → ∃ t rows, by_name tests n = Some t ∧ rows_at f g c0 t = Ok rows ∧
    (passes (text_of rows) ∨ ∃ text, passes text ∧ collide (text_of rows) text).
Proof.
  intros Hist Hf Hrun Hh Hs Hpass H.
  apply (main_cases hs) in H as [[? _]|(tests' & g' & c0' & ours' & rest' & keys & m & s1
    & Hrun' & _ & Hk & Hs1 & H)]; [done| |done|done|].
  2: { intros t2 g2 c2 o2 r2 H2.
       by destruct (run_of_fun _ _ _ _ _ _ _ _ _ _ _ _ Hrun H2) as (_ & _ & <- & _). }
  destruct (run_of_fun _ _ _ _ _ _ _ _ _ _ _ _ Hrun Hrun') as (<- & <- & <- & <- & <-).
  apply select_ran in H as (Eh & cases & Hr & Hfin).
  apply finish_records in Hfin as [Ep Hrec]. split.
  - intros key n [Hk0|(Hn & _ & Hkey)]%Hrec; [apply (Hs key n); by rewrite <- Hs1|].
    rewrite Ep in Hn. apply list_elem_of_fmap in Hn as (c & -> & Hc).
    apply list_elem_of_In, List.filter_In in Hc as [Hin Hcp].
    specialize (Hk (c_name c)). destruct (by_name tests (c_name c)) as [t|] eqn:Et; [|congruence].
    destruct Hk as (rows & Hrows & Ekey). rewrite Hkey in Ekey. injection Ekey as ->.
    exists (text_of rows). split; [done|].
    eapply Hpass; [exact Hr|by apply list_elem_of_In|done..].
  - intros n Hn. rewrite Eh in Hn. apply list_elem_of_fmap in Hn as (t0 & -> & Ht0).
    apply list_elem_of_In, List.filter_In in Ht0 as [_ (_ & k & Ek & Hk1)%is_held_spec].
    specialize (Hk (Test.name t0)). destruct (by_name tests _) as [t|]; [|congruence].
    destruct Hk as (rows & Hrows & Ekey). exists t, rows. split; [done|]. split; [done|].
    rewrite Ek in Ekey. injection Ekey as ->. destruct Hk1 as [n1 Hn1]. rewrite Hs1 in Hn1.
    destruct (Hs _ _ Hn1) as (text & E & Htext).
    destruct (decide (text_of rows = text)) as [<-|Hne]; [by left|right]. by exists text.
Qed.

(** C2: what is recorded.  A run that adds a key to the store has seen a test of
    the selection pass, the key is the hash of its rows before the run, and the
    rows on the file system the run left still have that hash. *)
Theorem main_records hs f s argv tests g c0 ours rest code passed other moved held s' f' key n :
  history hs → hs f → hs f' → run_of f argv tests g c0 ours rest →
  honest hs c0 (memo_file s) →
  main f s argv = Ok (code, RRan passed other moved held, s', f') →
  Main.passed s' !! key = Some n → Main.passed s !! key = None →
  ∃ t rows rows', n ∈ passed ∧ by_name tests n = Some t ∧
    rows_at f g c0 t = Ok rows ∧ key = sha256 (text_of rows) ∧
    rows_at f' g c0 t = Ok rows' ∧ key = sha256 (text_of rows').
Proof.
  intros Hist Hf Hf' Hrun Hh H Hkey Hnone.
  apply (main_cases hs) in H as [[? _]|(tests' & g' & c0' & ours' & rest' & keys & [c i] & s1
    & Hrun' & Hm & Hk & Hs1 & H)]; [done| |done|done|].
  2: { intros t2 g2 c2 o2 r2 H2.
       by destruct (run_of_fun _ _ _ _ _ _ _ _ _ _ _ _ Hrun H2) as (_ & _ & <- & _). }
  destruct (run_of_fun _ _ _ _ _ _ _ _ _ _ _ _ Hrun Hrun') as (<- & <- & <- & <- & <-).
  apply select_ran in H as (_ & cases & _ & Hfin).
  destruct (finish_records _ _ _ _ _ _ _ _ _ _ _ Hfin) as [_ Hrec].
  destruct (Hrec key n Hkey) as [?|(Hn & Hmv & Hkn)]; [congruence|].
  destruct (finish_unmoved hs Hist g f' _ _ c0 (c, i) _ _ _ _ _ _ n key Hf'
    (clear_coherent _ _ _ _ _ _ _ Hm) Hfin Hn Hmv Hkn) as (t & rows' & Et & Hr' & Ek').
  specialize (Hk n). rewrite Et in Hk. destruct Hk as (rows & Hr & Ek).
  exists t, rows, rows'. rewrite Ek in Hkn. by injection Hkn as <-.
Qed.

(** C3: what is run and what is held back.  A test is held back exactly when
    [--no-cache] is not given and the hash of its rows is a recorded key; the
    runner is given the other tests by name, all of them, with the caller's own
    arguments; its exit code is the run's; and every case it reports is counted
    once, as passed or not. *)
Theorem main_runs_the_rest hs f s argv tests g c0 ours rest code passed other moved held s' f' :
  history hs → hs f → run_of f argv tests g c0 ours rest → honest hs c0 (memo_file s) →
  main f s argv = Ok (code, RRan passed other moved held, s', f') →
  (∀ t, t ∈ tests →
     Test.name t ∈ held ↔
     Args.noCache ours = false ∧ ∃ t' rows, by_name tests (Test.name t) = Some t' ∧
       rows_at f g c0 t' = Ok rows ∧ is_Some (Main.passed s !! sha256 (text_of rows))) ∧
  ∃ ran cases,
    runner f (pattern (map Test.name ran)) rest = (f', code, Some cases) ∧
    (∀ t, t ∈ ran ↔ t ∈ tests ∧ Test.name t ∉ held) ∧
    passed ++ other ≡ₚ map c_name cases.
Proof.
  intros Hist Hf Hrun Hh H.
  apply (main_cases hs) in H as [[? _]|(tests' & g' & c0' & ours' & rest' & keys & m & s1
    & Hrun' & _ & Hk & Hs1 & H)]; [done| |done|done|].
  2: { intros t2 g2 c2 o2 r2 H2.
       by destruct (run_of_fun _ _ _ _ _ _ _ _ _ _ _ _ Hrun H2) as (_ & _ & <- & _). }
  destruct (run_of_fun _ _ _ _ _ _ _ _ _ _ _ _ Hrun Hrun') as (<- & <- & <- & <- & <-).
  apply select_ran in H as (Eh & cases & Hr & Hfin). split.
  - intros t Ht. rewrite Eh, list_elem_of_fmap. specialize (Hk (Test.name t)). rewrite <- Hs1. split.
    + intros (t0 & E & Ht0). apply list_elem_of_In, List.filter_In in Ht0 as [_ H0].
      apply is_held_spec in H0 as (Hn & k & Ek & Hk1). split; [done|]. rewrite <- E in Ek.
      destruct (by_name tests _) as [t'|]; [|congruence]. destruct Hk as (rows & Hrows & Ekey).
      exists t', rows. split; [done|]. split; [done|]. rewrite Ek in Ekey. by injection Ekey as <-.
    + intros (Hn & t' & rows & Et & Hrows & Hk1). rewrite Et in Hk.
      destruct Hk as (rows' & Hrows' & Ekey). assert (rows' = rows) as -> by congruence.
      exists t. split; [done|]. apply list_elem_of_In, List.filter_In.
      split; [by apply list_elem_of_In|]. apply is_held_spec. eauto.
  - eexists _, cases. split; [exact Hr|]. split.
    + intros t. rewrite list_elem_of_In, List.filter_In, <- list_elem_of_In.
      by rewrite negb_true_iff, bool_decide_eq_false.
    + unfold finish in Hfin. apply bind_Ok in Hfin as ([? [? ?]] & _ & Hfin).
      destruct (Inputs.save _ _). injection Hfin as _ <- <- _. rewrite <- map_app. f_equiv.
      clear. induction cases as [|c l IH]; cbn; [done|].
      destruct (case_passed c); cbn; [by f_equiv|]. rewrite <- Permutation_middle. by f_equiv.
Qed.

(** only a run of tests records: the listing, [--list], [--explain], an empty
    selection and a run that leaves no result file all leave the passes of the
    store as they are, and the last of them does not exit with 0. *)
Theorem main_records_nothing f s argv code r s' f' :
  main f s argv = Ok (code, r, s', f') →
  (∀ passed other moved held, r ≠ RRan passed other moved held) →
  Main.passed s' = Main.passed s ∧ (r = RNoResults → code ≠ 0%Z).
Proof.
  intros H Hr. unfold CtestCached.Main.main in H.
  apply bind_Ok in H as ([[ours filters] rest] & _ & H).
  destruct (listing _ filters) as [c listed].
  destruct (negb _); [by injection H as _ <- <- _|].
  apply bind_Ok in H as (repo & _ & H). apply bind_Ok in H as (machine & _ & H).
  apply bind_Ok in H as ([[keys m] s1] & Hp & H).
  assert (Main.passed s1 = Main.passed s) as <-.
  { unfold prepare in Hp. apply bind_Ok in Hp as (? & _ & Hp). apply bind_Ok in Hp as (? & _ & Hp).
    apply bind_Ok in Hp as ([? [? ?]] & _ & Hp). destruct (Inputs.save _ _).
    by injection Hp as _ _ <-. }
  clear Hp. unfold CtestCached.Main.select in H.
  set (tests := List.filter _ listed) in *. set (run := if Args.list_ ours then _ else _) in H.
  assert ((∃ c1 w, explain_one f {| Main.order := order; Main.sfuel := sfuel; Main.env := env;
      Main.machine := machine |} s1 m w tests = Ok (c1, r) ∧ s' = s1)
    ∨ run = Ok (code, r, s', f')) as [(c1 & w & Hw & ->)|Hrun].
  { destruct (Args.explain ours) as [[|x w]|]; [by right| |by right].
    left. apply bind_Ok in H as ([c1 r1] & He & [= _ <- <- _]). exists c1, (x :: w). split; [exact He|done]. }
  - split; [done|]. intros ->. destruct (explain_report _ _ _ _ _ _ _ _ Hw) as [E|(x1 & x2 & x3 & E)]; discriminate E.
  - unfold run in Hrun. destruct (Args.list_ ours); [injection Hrun as _ <- <- _; split; [done|discriminate]|].
    case_bool_decide; [injection Hrun as _ <- <- _; split; [done|discriminate]|].
    destruct (runner _ _ _) as [[f1 c1] [cases|]].
    + apply bind_Ok in Hrun as ([[[? ?] ?] ?] & _ & [= _ <- _ _]). by destruct (Hr _ _ _ _ eq_refl).
    + injection Hrun as <- <- <- _. split; [done|]. intros _. by destruct (Z.eqb_spec c1 0).
Qed.

(** C4: the fingerprint has no memory: computed through the memos of files,
    directories, scripts and binaries, whatever coherent state they are in, it is
    the hash of the rows the file system alone determines, with the same exception
    where there is one, and the memos stay coherent. *)
Theorem fingerprint_memo_free hs f g c0 m t :
  history hs → hs f → coherent_at hs f g c0 m →
  refines (λ x rows, x.1 = (sha256 (text_of rows), rows) ∧ coherent_at hs f g c0 x.2)
    (fp g f m t) (rows_at f g c0 t).
Proof.
  intros Hist Hf Hm. unfold fp, Fp.fingerprint.
  pose proof (rows_refines hs Hist f Hf _ _ _ (Main.env g) (Main.machine g) (global_env (Main.env g)) m t Hm) as H.
  unfold rows_at. destruct (Fp.rows_of _ _ _ _ _ _ _ _) as [[rows m']|], (rows_value _ _ _ _ _ _ _ _);
    try done. destruct H as [<- Hm']. split; [done | exact Hm'].
Qed.
End main.

(** ** A run on the small tree *)
Definition wt (n : str) (cmd : list str) : Test.t :=
  {| Test.name := n; Test.command := cmd; Test.properties := [] |}.
Definition w_tests : list Test.t :=
  [wt "ta" ["/r/tests/a.sh" : str]; wt "tb" ["/r/tests/b.sh" : str]].
Definition w_listing (build : str) (filters : list str) : Z * list Test.t := (0%Z, w_tests).
Definition w_case : case :=
  {| c_name := "tb"; c_status := Some ("run" : str); c_failure := false; c_error := false;
     c_skipped := false |}.
Definition w_runner (f : fs) (p : str) (args : list str) : fs * Z * option (list case) :=
  (f, 0%Z, Some [w_case]).
Definition w_g : setting :=
  {| Main.order := set_order; Main.sfuel := 5; Main.env := ∅;
     Main.machine := ["gpu no nvidia-smi" : str] |}.
Definition w_argv : list str := ["--test-dir" : str; "/r/build" : str].
Definition w_ours : Args.ours :=
  {| Args.testDir := "/r/build"; Args.noCache := false; Args.list_ := false;
     Args.explain := None; Args.store := None |}.

(** The pass of [ta] is recorded. *)
Definition w_rows : res (list str) :=
  rows_at sample_fs w_g sample_closure (wt "ta" ["/r/tests/a.sh" : str]).
Definition hash_of (r : res (list str)) : str :=
  match r with Ok rows => sha256 (text_of rows) | Raise _ => [] end.
Definition w_key : str := hash_of w_rows.
Definition w_store : store := {| passed := {[ w_key := "ta" : str ]}; memo_file := None |}.
Definition w_hist (f : fs) : Prop := f = sample_fs.
Definition w_passes (text : str) : Prop :=
  ∃ t rows, rows_at sample_fs w_g sample_closure t = Ok rows ∧ text = text_of rows.
Definition w_main : res (Z * report * store * fs) :=
  main w_listing w_runner None set_order 5 ∅ sample_fs w_store w_argv.

Lemma w_history : history w_hist.
Proof. split; [by intros f f' p s -> -> _ _ | by intros f f' p -> ->]. Qed.

Lemma w_run : run_of w_listing None set_order 5 ∅ sample_fs w_argv w_tests w_g sample_closure w_ours [].
Proof.
  refine (Run_of w_listing None set_order 5 ∅ sample_fs w_argv w_ours [] [] w_tests "/r"
    ["gpu no nvidia-smi" : str] sample_closure _ _ _ _ _); vm_compute; reflexivity.
Qed.

Lemma w_rows_ok : ∃ rows, w_rows = Ok rows.
Proof. destruct w_rows as [rows|e] eqn:E; [by exists rows|vm_compute in E; discriminate E]. Qed.

Lemma w_sound : sound w_passes w_store.
Proof.
  intros key n. unfold w_store. cbn [passed].
  rewrite lookup_singleton_Some. intros [<- _]. destruct w_rows_ok as [rows E].
  assert (w_key = sha256 (text_of rows)) as -> by (unfold w_key; by rewrite E).
  exists (text_of rows). split; [reflexivity|].
  exists (wt "ta" ["/r/tests/a.sh" : str]), rows. split; [exact E | reflexivity].
Qed.

(** A report of tests that ran: passed and held. *)
Definition ran_of (x : res (Z * report * store * fs)) : option (list str * list str) :=
  match x with
  | Ok (_, RRan passed other moved held, _, _) => Some (passed, held)
  | _ => None
  end.
Lemma w_ran : ran_of w_main = Some (["tb" : str], ["ta" : str]).
Proof. vm_compute. reflexivity. Qed.

Lemma ran_of_spec x p :
  ran_of x = Some p →
  ∃ code other moved s' f', x = Ok (code, RRan p.1 other moved p.2, s', f').
Proof.
  destruct x as [[[[code []] s'] f']|]; cbn; try done. intros [= <-]. by eexists _, _, _, _, _.
Qed.

Lemma main_sound_witness :
  ∃ rows, rows_at sample_fs w_g sample_closure (wt "ta" ["/r/tests/a.sh" : str]) = Ok rows ∧
    (w_passes (text_of rows) ∨ ∃ text, w_passes text ∧ collide (text_of rows) text).
Proof.
  destruct (ran_of_spec _ _ w_ran) as (code & other & moved & s' & f' & E).
  destruct (main_sound w_listing w_runner None set_order 5 ∅ w_hist w_passes sample_fs w_store
    w_argv w_tests w_g sample_closure w_ours [] code _ other moved _ s' f'
    w_history eq_refl w_run I w_sound
    (λ p f' code cases c t rows _ _ _ _ Hr, ex_intro _ t (ex_intro _ rows (conj Hr eq_refl))) E)
    as [_ H].
  destruct (H "ta" (list_elem_of_here _ _)) as (t & rows & Et & Hr & Hp).
  vm_compute in Et. injection Et as <-. exists rows. split; [exact Hr | exact Hp].
Defined.

Definition kept (key : str) (x : res (Z * report * store * fs)) : option str :=
  match x with Ok (_, _, s', _) => passed s' !! key | Raise _ => None end.
Definition left_by (x : res (Z * report * store * fs)) : option fs :=
  match x with Ok (_, _, _, f') => Some f' | Raise _ => None end.
Definition w_key_b : str :=
  hash_of (rows_at sample_fs w_g sample_closure (wt "tb" ["/r/tests/b.sh" : str])).

Lemma w_kept : kept w_key_b w_main = Some ("tb" : str) ∧ passed w_store !! w_key_b = None.
Proof. vm_compute. by split. Qed.
Lemma w_left : left_by w_main = Some sample_fs.
Proof. vm_compute. reflexivity. Qed.

Lemma main_records_witness :
  ∃ t rows rows', by_name w_tests "tb" = Some t ∧
    rows_at sample_fs w_g sample_closure t = Ok rows ∧ w_key_b = sha256 (text_of rows) ∧
    rows_at sample_fs w_g sample_closure t = Ok rows'.
Proof.
  destruct (ran_of_spec _ _ w_ran) as (code & other & moved & s' & f' & E).
  pose proof w_left as Hl. rewrite E in Hl. injection Hl as ->.
  destruct w_kept as [Hk Hn]. rewrite E in Hk.
  destruct (main_records w_listing w_runner None set_order 5 ∅ w_hist sample_fs w_store
    w_argv w_tests w_g sample_closure w_ours [] code _ other moved _ s' sample_fs w_key_b "tb"
    w_history eq_refl eq_refl w_run I E Hk Hn) as (t & rows & rows' & _ & Et & Hr & Ek & Hr' & _).
  exists t, rows, rows'. split; [exact Et|]. split; [exact Hr|]. split; [exact Ek | exact Hr'].
Defined.

Lemma main_runs_the_rest_witness :
  ∃ ran cases f' code,
    w_runner sample_fs (pattern (map Test.name ran)) [] = (f', code, Some cases) ∧
    ∀ t, t ∈ ran ↔ t ∈ w_tests ∧ Test.name t ∉ ["ta" : str].
Proof.
  destruct (ran_of_spec _ _ w_ran) as (code & other & moved & s' & f' & E).
  destruct (main_runs_the_rest w_listing w_runner None set_order 5 ∅ w_hist sample_fs w_store
    w_argv w_tests w_g sample_closure w_ours [] code _ other moved _ s' f'
    w_history eq_refl w_run I E) as [_ (ran & cases & Hr & Ht & _)].
  exists ran, cases, f', code. split; [exact Hr | exact Ht].
Defined.

Definition w_list : res (Z * report * store * fs) :=
  main w_listing w_runner None set_order 5 ∅ sample_fs w_store (w_argv ++ ["--list" : str]).
Definition listed_by (x : res (Z * report * store * fs)) : option (list (bool * str)) :=
  match x with Ok (_, RListed l, _, _) => Some l | _ => None end.
Lemma w_listed : listed_by w_list = Some [(true, "ta" : str); (false, "tb" : str)].
Proof. vm_compute. reflexivity. Qed.
Lemma listed_by_spec x l :
  listed_by x = Some l → ∃ code s' f', x = Ok (code, RListed l, s', f').
Proof. destruct x as [[[[code []] s'] f']|]; cbn; try done. intros [= <-]. by eexists _, _, _. Qed.

Lemma main_records_nothing_witness :
  ∃ code r s' f', w_list = Ok (code, r, s', f') ∧ passed s' = passed w_store.
Proof.
  destruct (listed_by_spec _ _ w_listed) as (code & s' & f' & E).
  eexists code, _, s', f'. split; [exact E|].
  refine (proj1 (main_records_nothing w_listing w_runner None set_order 5 ∅ sample_fs w_store
    _ code _ s' f' E _)).
  discriminate.
Defined.

Lemma fingerprint_memo_free_witness :
  refines (λ x rows, x.1 = (sha256 (text_of rows), rows)
                     ∧ coherent_at w_hist sample_fs w_g sample_closure x.2)
    (fp w_g sample_fs (sample_closure, Inputs.init None) (wt "ta" ["/r/tests/a.sh" : str]))
    (rows_at sample_fs w_g sample_closure (wt "ta" ["/r/tests/a.sh" : str])).
Proof.
  refine (fingerprint_memo_free w_hist sample_fs w_g sample_closure _ _ w_history eq_refl _).
  refine (init_coherent w_hist w_g sample_fs sample_closure w_store _ _ I); vm_compute; reflexivity.
Defined.
End Run.
