(* ===== verification/CtestEnds.v ===== *)
(** * tools/ctest_cached.py: a fingerprint is always computed

    The bounds of the model are never hit: with the worklist's fuel quadratic in
    the number of scripts and a depth of four for [take], a fingerprint returns or
    raises one of Python's exceptions. *)
From stdpp Require Import gmap.
From S2P Require Import CtestWorklist CtestProofs.

Module Ends.
Import Closure Spec Worklist CtestCached.Main Run.

Lemma within_stamp f p : within (Inputs.stamp f p).
Proof. unfold Inputs.stamp, stat. by repeat within_step. Qed.
Lemma within_unpack n l off : within (unpack n l off).
Proof. unfold unpack. by repeat within_step. Qed.
Lemma within_seek d off : within (Elf.seek d off).
Proof. unfold Elf.seek. by repeat within_step. Qed.
Lemma within_read l n : within (Elf.read l n).
Proof. unfold Elf.read. by repeat within_step. Qed.
Lemma within_label names n : within (Elf.label_of names n).
Proof. unfold Elf.label_of. by repeat within_step. Qed.

(** [list_cases H] splits a membership in a literal list. *)
Ltac list_cases H :=
  repeat (apply elem_of_cons in H as [->|H]);
  try (exfalso; apply not_elem_of_nil in H; exact H).

#[local] Hint Resolve within_stamp within_unpack within_seek within_read
  within_label : within.

Lemma within_sections data : within (Elf.sections_of data).
Proof.
  unfold Elf.sections_of. within. apply within_mapR. intros k _. unfold Elf.unpack_section. within.
Qed.
#[local] Hint Resolve within_sections : within.

Lemma within_digest data : within (Inputs.digest data).
Proof.
  unfold Inputs.digest, Elf.loadedBytesHash, Elf.loaded_stream. within.
  apply within_foldR. intros s h _. unfold Elf.feed. within.
Qed.
#[local] Hint Resolve within_digest : within.

Lemma within_file_value f p : within (file_value f p).
Proof. unfold file_value, file_digest. within. Qed.
#[local] Hint Resolve within_file_value : within.

Lemma within_tree_value f root b : within (tree_value f root b).
Proof.
  unfold tree_value, tree_rows_value. within.
  apply within_foldR. intros bn rows _. unfold row_value. within.
Qed.

(** ** The executables a script names *)

(** No name of a build's executables holds a dot, nor does one a script names. *)
Lemma init_exeRe f0 r b c :
  Closure.init f0 r b = Ok c → match exeRe c with Some e => avoids "." e = true | None => True end.
Proof.
  unfold Closure.init. intros (l & _ & [= <-])%bind_Ok. cbn [exeRe].
  set (others := longest_first _).
  assert (∀ n, n ∈ others → "."%char ∉ n) as Hn.
  { intros n Hn. unfold others, longest_first in Hn. rewrite elem_of_sort_by in Hn.
    rewrite list_elem_of_In, !List.filter_In in Hn. destruct Hn as [[_ Hx] _].
    unfold is_exe in Hx. rewrite !andb_true_iff, negb_true_iff in Hx. destruct Hx as [_ Hx].
    intros [i Hi]%list_elem_of_lookup_1. apply not_true_iff_false in Hx. apply Hx.
    apply contains_spec. exists (take i n), (drop (S i) n). by apply take_drop_middle in Hi. }
  destruct others as [|o l']; [done|].
  change (avoids "." (alts (map txt (o :: l'))) && true = true). rewrite andb_true_r.
  apply avoids_alts. intros r' (n & -> & Hin)%list_elem_of_fmap. apply avoids_txt. by apply Hn.
Qed.

Lemma scan_exes_dot f c p n :
  match exeRe c with Some e => avoids "." e = true | None => True end →
  n ∈ (scan f c p).1.2 → "."%char ∉ n.
Proof.
  intros He. unfold scan; cbn [fst snd]. rewrite elem_of_list_to_set. unfold code_exes.
  intros [Hn|Hn]%elem_of_app.
  - destruct (exeRe c) as [e|]; [|by apply not_elem_of_nil in Hn].
    apply list_elem_of_fmap in Hn as (m & -> & Hm).
    eapply avoids_group; [by apply finditer_match | done].
  - case_bool_decide; [|by apply not_elem_of_nil in Hn].
    apply list_elem_of_singleton in Hn as ->. by rewrite <- count_0.
Qed.

Lemma ends_spec p s : ends p s = true → ∃ r, s = r ++ p.
Proof.
  unfold ends. intros (r & E)%starts_spec. exists (rev r).
  by rewrite <- (rev_involutive s), E, rev_app_distr, rev_involutive.
Qed.

(** A suffix of [x ++ e] that is longer than [e] ends with [e]. *)
Lemma suffix_app {A} (r p x e : list A) :
  r ++ p = x ++ e → (∃ q, e = q ++ p) ∨ ∃ q y, q ≠ [] ∧ p = q ++ e ∧ x = y ++ q.
Proof.
  intros E. apply app_eq_inv in E as [(k & _ & ->)|(k & -> & ->)].
  - left. by exists k.
  - destruct k as [|a k]; [left; by exists [] | right; by exists (a :: k), r].
Qed.

Lemma exe_not_script b n : "."%char ∉ n → is_script (pjoin b n) = false.
Proof.
  intros Hn. apply not_true_iff_false. unfold is_script.
  intros (s & Hs & E)%existsb_elem. apply ends_spec in E as (r & E).
  assert ("."%char ∈ s ∧ slash ∉ s) as [Hd Hsl].
  { unfold SCRIPT_SUFFIXES in Hs. rewrite !elem_of_cons in Hs.
    destruct Hs as [->|[->|[->|?%not_elem_of_nil]]]; [..|done];
      (split; [left | by rewrite <- count_0]). }
  assert (∃ x, pjoin b n = x ++ n ∧ (x = [] ∨ last x = Some slash)) as (x & Ex & Hx).
  { unfold pjoin. destruct (isabs n); [exists []; auto|].
    destruct b as [|a b]; [exists []; auto|].
    destruct (ends "/" (a :: b)) eqn:Ee.
    - exists (a :: b). split; [done|right]. apply ends_spec in Ee as (y & ->).
      exact (last_snoc slash y).
    - exists ((a :: b) ++ [slash]). split; [by rewrite <- app_assoc | right; by rewrite last_snoc]. }
  rewrite Ex in E. destruct (suffix_app r s x n) as [(q & ->)|(q & y & Hq & -> & ->)]; [done| |].
  - apply Hn. apply elem_of_app. by right.
  - apply Hsl, elem_of_app. left. destruct q as [|c q _] using rev_ind; [done|].
    destruct Hx as [Hx|Hx]; [by destruct y, q|]. rewrite app_assoc, last_snoc in Hx.
    injection Hx as ->. apply elem_of_app. right. left.
Qed.

(** ** [take] *)
Section take.
Context (f : fs) (c0 : Closure.t) (order : gset str → list str) (sfuel : nat) (S : gset str).

(** The scripts reachable from the ones a test starts with lie in [S], the fuel
    is enough for it, and no part of the repository is a link to the whole. *)
Record bounded (starts : list str) : Prop := {
  b_built : ∃ f0 r b, Closure.init f0 r b = Ok c0;
  b_lists : lists order;
  b_closed : closed f c0 S;
  b_fuel : 1 + size S * size S ≤ sfuel;
  b_parts : ∀ part, part ∈ Fp.parts → real f (pjoin (repo c0) part) ≠ repo c0;
  b_starts : ∀ p, p ∈ starts → isfile f p = true → is_script p = true → real f p ∈ S;
}.
Context (starts : list str) (Hb : bounded starts).

Notation take_value := (take_value f order sfuel c0).

Lemma within_binary p : within (binary_value f c0 p).
Proof. unfold binary_value. within. Qed.

(** A path that is neither a script nor the repository. *)
Lemma within_leaf d p k :
  (isfile f p = true → is_script p = false) → real f p ≠ repo c0 → within (take_value (Datatypes.S d) p k).
Proof.
  intros Hs Hr. cbn [Spec.take_value]. destruct (isfile f p).
  - rewrite Hs by done. within. apply within_binary.
  - case_bool_decide; [done|]. within.
Qed.

Lemma within_part d part k :
  part ∈ Fp.parts → within (take_value (Datatypes.S d) (pjoin (repo c0) part) k).
Proof.
  intros Hp. apply within_leaf; [|by apply Hb]. intros _. apply not_true_iff_false.
  unfold is_script. intros (s & Hs & E)%existsb_elem. unfold SCRIPT_SUFFIXES in Hs.
  apply ends_spec in E as (r & E).
  assert (∃ x, pjoin (repo c0) part = x ++ part) as (x & Ex).
  { unfold pjoin. repeat case_match; [by exists [] | by exists [] | eauto|].
    eexists (_ ++ [slash]). by rewrite <- app_assoc. }
  rewrite Ex in E. apply (f_equal (@rev _)) in E. rewrite !rev_app_distr in E.
  unfold Fp.parts in Hp. list_cases Hp; list_cases Hs; done.
Qed.

Lemma within_plain d p k :
  (isfile f p = true → is_script p = false) → within (take_value (Datatypes.S (Datatypes.S d)) p k).
Proof.
  intros Hs. destruct (decide (real f p = repo c0)) as [Hr|Hr]; [|by apply within_leaf].
  cbn [Spec.take_value]. destruct (isfile f p).
  - rewrite Hs by done. within. apply within_binary.
  - rewrite bool_decide_eq_true_2 by done. within. apply within_foldR. intros part k' Hp.
    by apply (within_part d).
Qed.

Lemma closure_value_ends p :
  p ∈ S → ∃ r, closure_value f order sfuel c0 p = Ok r ∧ ∀ n, n ∈ r.1.2 → "."%char ∉ n.
Proof.
  intros Hp. destruct Hb as [(f0 & r0 & b0 & Hi) Ho Hc Hf _ _].
  destruct (loop_ends f c0 order Ho S sfuel (∅, ∅, ∅) ∅ [p]) as [r Hr]; [done| | |].
  { by repeat constructor. }
  { rewrite difference_empty_L. cbn. lia. }
  exists r. split; [done|]. intros n Hn.
  destruct (proj1 (closure_value_reach f c0 order Ho sfuel p r Hr (IExe n)) Hn) as (q & _ & Hq).
  eapply scan_exes_dot; [|exact Hq]. by apply init_exeRe in Hi.
Qed.

Lemma within_take p k : p ∈ starts → within (take_value 4 p k).
Proof.
  intros Hp. destruct (isfile f p && is_script p) eqn:E.
  - apply andb_true_iff in E as [Ef Es]. cbn [Spec.take_value]. rewrite Ef, Es.
    destruct (closure_value_ends (real f p)) as (r & -> & Hr); [by apply (b_starts _ Hb)|].
    cbn [mbind res_mbind]. apply within_foldR. intros exe k' Hexe. apply (within_plain 1).
    intros _. apply exe_not_script, Hr. by apply (elem_of_order order (b_lists _ Hb)).
  - apply (within_plain 2). intros Ef. by rewrite Ef in E.
Qed.

Lemma within_rows env machine globalEnv test :
  starts = Fp.roots (build c0) test →
  within (rows_value f order sfuel c0 env machine globalEnv test).
Proof.
  intros Es. unfold rows_value, taken_value. within.
  - apply within_foldR. intros p k Hp. apply within_take. by rewrite Es.
  - apply within_mapR. intros p _. unfold file_line. within.
  - apply within_mapR. intros p _. unfold tree_line. within. apply within_tree_value.
  - apply within_mapR. intros p _. unfold tree_line. within. apply within_tree_value.
Qed.
End take.

(** C5: a fingerprint ends.  When the scripts reachable from the ones a test names
    lie in a finite set, the worklist's fuel is quadratic in its size, and no part
    of the repository is a link to the whole repository, [fingerprint] returns or
    raises one of Python's exceptions: neither the depth of [take] nor the fuel of
    the worklist is ever used up. *)
Theorem fingerprint_ends hs f g c0 m t S :
  history hs → hs f → coherent_at hs f g c0 m →
  bounded f c0 (Main.order g) (sfuel g) S (Fp.roots (build c0) t) →
  fp g f m t ≠ Raise OutOfFuel.
Proof.
  intros Hist Hf Hm Hb. unfold fp, Fp.fingerprint. apply within_bind; [|by intros [rows m'] _].
  eapply refines_within; [by apply (rows_refines hs Hist f Hf)|].
  by eapply within_rows.
Qed.

Lemma fingerprint_ends_witness :
  fp w_g sample_fs (sample_closure, Inputs.init None) (wt "ta" ["/r/tests/a.sh" : str]) ≠ Raise OutOfFuel.
Proof.
  refine (fingerprint_ends w_hist sample_fs w_g sample_closure (sample_closure, Inputs.init None)
    (wt "ta" ["/r/tests/a.sh" : str]) sample_set w_history eq_refl _ _).
  - refine (init_coherent w_hist w_g sample_fs sample_closure w_store _ _ I); vm_compute; reflexivity.
  - split.
    + exists sample_fs, "/r", "/r/build". vm_compute. reflexivity.
    + exact set_order_lists.
    + exact sample_closed.
    + vm_compute. lia.
    + intros part Hp. unfold Fp.parts in Hp. list_cases Hp; vm_compute; discriminate.
    + intros p Hp _ _. vm_compute in Hp. list_cases Hp; vm_compute; reflexivity.
Defined.
End Ends.
