(* ===== verification/CtestArgs.v ===== *)
(** * tools/ctest_cached.py: the command line

    [splitArguments] against a grammar: a command line is a sequence of units, an
    option of the tool with its value, a filter of ctest with its value, or an
    argument passed on. *)
From S2P Require Import CtestCached.

Module ArgsSpec.
Import Args.

Inductive arg := AFlag (x : flag) | AFilter (opt v : str) | ARest (a : str).

Definition render (u : arg) : list str :=
  match u with
  | AFlag (TestDir v) => ["--test-dir" : str; v]
  | AFlag NoCache => ["--no-cache" : str]
  | AFlag List_ => ["--list" : str]
  | AFlag (Explain v) => ["--explain" : str; v]
  | AFlag (Store v) => ["--store" : str; v]
  | AFilter opt v => [opt; v]
  | ARest a => [a]
  end.

(** The words that take the next argument as a value, and all the tool's words. *)
Definition valued : list str :=
  ("--test-dir" : str) :: ("--explain" : str) :: ("--store" : str) :: FILTER_OPTIONS.
Definition reserved : list str := ("--no-cache" : str) :: ("--list" : str) :: valued.

Definition valid (u : arg) : Prop :=
  match u with
  | AFlag _ => True
  | AFilter opt _ => opt ∈ FILTER_OPTIONS
  | ARest a => a ∉ reserved
  end.

(** What a unit does to the result. *)
Definition meaning (p : parsed) (u : arg) : parsed :=
  match u with
  | AFlag x => (set p.1.1 x, p.1.2, p.2)
  | AFilter opt v => (p.1.1, p.1.2 ++ [opt; v], p.2)
  | ARest a => (p.1.1, p.1.2, p.2 ++ [a])
  end.

(** One unit in front of the rest. *)
Lemma step_unit u argv p :
  valid u → split_loop (render u ++ argv) p = split_loop argv (meaning p u).
Proof.
  destruct u as [[]|opt v|a]; try done; cbn [valid].
  - intros H. cbn [render app split_loop].
    unfold FILTER_OPTIONS in H. repeat (apply elem_of_cons in H as [->|H]; [reflexivity|]).
    by apply not_elem_of_nil in H.
  - intros H. unfold reserved, valued in H. rewrite !not_elem_of_cons in H.
    destruct H as (H1 & H2 & H3 & H4 & H5 & H6).
    cbn [render app split_loop]. by rewrite !bool_decide_eq_false_2.
Qed.

Lemma loop_units us p :
  Forall valid us → split_loop (flat_map render us) p = Ok (fold_left meaning us p).
Proof.
  intros H; revert p; induction H as [|u us Hu _ IH]; intros p; [done|].
  cbn [flat_map]. rewrite step_unit by done. apply IH.
Qed.

Lemma step_missing a p : a ∈ valued → split_loop [a] p = Raise IndexError.
Proof.
  unfold valued, FILTER_OPTIONS. intros H.
  repeat (apply elem_of_cons in H as [->|H]; [reflexivity|]). by apply not_elem_of_nil in H.
Qed.

Lemma loop_missing us a p :
  Forall valid us → a ∈ valued → split_loop (flat_map render us ++ [a]) p = Raise IndexError.
Proof.
  intros H Ha; revert p; induction H as [|u us Hu _ IH]; intros p; [by apply step_missing|].
  cbn [flat_map]. rewrite <- app_assoc, step_unit by done. apply IH.
Qed.

(** The head of a command line is a unit, or a valued word with nothing after. *)
Lemma head_unit a argv :
  (∃ u rest, valid u ∧ a :: argv = render u ++ rest ∧ length rest < S (length argv))
  ∨ (a ∈ valued ∧ argv = []).
Proof.
  destruct (decide (a ∈ valued)) as [Hv|Hv].
  - destruct argv as [|v rest]; [by right|left].
    assert (∃ u, valid u ∧ render u = [a; v]) as (u & Hu & Eu).
    { unfold valued in Hv. rewrite !elem_of_cons in Hv. destruct Hv as [->|[->|[->|Hf]]].
      - by exists (AFlag (TestDir v)).
      - by exists (AFlag (Explain v)).
      - by exists (AFlag (Store v)).
      - by exists (AFilter a v). }
    exists u, rest. rewrite Eu. repeat split; [done|cbn; lia].
  - left. assert (∃ u, valid u ∧ render u = [a]) as (u & Hu & Eu).
    { destruct (decide (a = ("--no-cache" : str))) as [->|H1]; [by exists (AFlag NoCache)|].
      destruct (decide (a = ("--list" : str))) as [->|H2]; [by exists (AFlag List_)|].
      exists (ARest a). split; [|done]. cbn [valid]. unfold reserved. by rewrite !not_elem_of_cons. }
    exists u, argv. rewrite Eu. repeat split; [done|cbn; lia].
Qed.

(** Every command line is a sequence of units, perhaps with a word left whose
    value is missing. *)
Lemma units_of argv :
  ∃ us, Forall valid us ∧
    (argv = flat_map render us ∨ ∃ a, a ∈ valued ∧ argv = flat_map render us ++ [a]).
Proof.
  remember (length argv) as n eqn:En. revert argv En.
  induction n as [n IH] using lt_wf_ind; intros argv ->.
  destruct argv as [|a argv]; [exists []; by split; [|left]|].
  destruct (head_unit a argv) as [(u & rest & Hu & E & Hl)|[Ha ->]].
  - destruct (IH (length rest) ltac:(cbn; lia) rest eq_refl) as (us & Hus & Hr).
    exists (u :: us). split; [by constructor|]. cbn [flat_map]. rewrite E.
    destruct Hr as [->|(b & Hb & ->)]; [by left|right]. exists b. by rewrite app_assoc.
  - exists []. split; [done|right]. by exists a.
Qed.

(** the command line.  [splitArguments] succeeds exactly on the command lines
    that are sequences of the tool's options, ctest's filters and other arguments,
    and returns the options in force (the last of each kind), the filters with
    their values and the other arguments, both in order. *)
Theorem splitArguments_spec argv p :
  splitArguments argv = Ok p ↔
  ∃ us, Forall valid us ∧ argv = flat_map render us ∧
        p = fold_left meaning us (defaults, [], []).
Proof.
  unfold splitArguments. split.
  - destruct (units_of argv) as (us & Hus & [->|(a & Ha & ->)]).
    + rewrite loop_units by done. intros [= <-]. by exists us.
    + by rewrite loop_missing.
  - intros (us & Hus & -> & ->). by apply loop_units.
Qed.

(** A command line fails exactly when its last word is an option whose value
    is missing, and then with an [IndexError]. *)
Theorem splitArguments_error argv e :
  splitArguments argv = Raise e ↔
  e = IndexError ∧ ∃ us a, Forall valid us ∧ a ∈ valued ∧ argv = flat_map render us ++ [a].
Proof.
  unfold splitArguments. split.
  - destruct (units_of argv) as (us & Hus & [->|(a & Ha & ->)]).
    + by rewrite loop_units.
    + rewrite loop_missing by done. intros [= <-]. split; [done|]. by exists us, a.
  - intros (-> & us & a & Hus & Ha & ->). by apply loop_missing.
Qed.
End ArgsSpec.
