(* ===== verification/ManifestData.v ===== *)
(** * tools/of_manifest.py: the entries of the component table

    One record per [dict(...)] of [COMPONENTS].  The keys every entry has are
    fields; the optional keys [emit] looks for are options; [other] holds the keys
    it does not look for. *)
From S2P Require Export Prelude.
From Stdlib Require Import String.

Record component := {
  name : string;
  of_symbol : string;
  of_file : string;
  classification : string;
  status : string;
  of_line : option Z;
  brae_driver : option string;
  brae_existing : option string;
  brae_reference : option string;
  brae_cuda : option string;
  brae_target : option string;
  validation : option string;
  note : option string;
  selection_base : option string;
  schema_for : option string;
  other : list (string * string);
}.

(** The double quote. *)
Definition dq : string := String.String "034" String.EmptyString.

(** Adjacent literals are one string. *)
Definition cat (l : list string) : string := String.concat "" l.
