(* ===== verification/ManifestSimple.v ===== *)
(** * tools/of_manifest.py: the component table of simpleFoam

    The curated entries of the table, one definition per entry, in its order. *)
From Stdlib Require Import String.
From S2P Require Import ManifestData.

Module simpleFoam.
Local Open Scope string_scope.

Definition c_simpleFoam_main : component := {|
  name := "simpleFoam_main";
  of_symbol := "main";
  of_file := "applications/solvers/incompressible/simpleFoam/simpleFoam.C";
  classification := "HOST_ONLY";
  status := "REIMPLEMENT";
  of_line := None;
  brae_driver := None;
  brae_existing := None;
  brae_reference := Some "src/applications/solvers/simpleFoam/simpleFoam_cpp.cu";
  brae_cuda := Some "src/applications/solvers/simpleFoam/simpleFoam.cu";
  brae_target := Some "src/applications/solvers/simpleFoam/simpleFoam.cu";
  validation := Some (cat [
    "tests/test_simple_step_cpp.cu -- END-TO-END, one SIMPLE iteration composed of the ";
    "_cpp components vs OpenFOAM dumpSimpleStep (validation/matrixDumpSimple/step.dat): ";
    "p 2.5e-11, U 1.6e-12, phi 1.2e-11, every boundary patch <= 3.5e-13. Gate set at ";
    "1e-9, not the 1e-5 the older step test uses. ";
    "CUDA DRIVER: tests/test_simple_step_cuda.cu runs the device driver and the _cpp ";
    "driver for one iteration from the same fields, laminar and turbulent -- U/p/phi ";
    "agree to 4.1e-09 or better, and the pre-solve p residual to 2.6e-12 ABSOLUTE. ";
    "The gate is 1e-7 because the two paths run DIFFERENT Krylov methods (host ";
    "GAMG/BiCGStab vs device AMG-PCG/BiCGStab); the 1e-16 arithmetic gates are ";
    "test_ueqn_cuda and test_peqn_cuda."]);
  note := Some (cat [
    "The _cpp driver owns NO numerics -- 9 calls into shared components, each with its own ";
    "OpenFOAM provenance and test. Replaces a 3578-line file that pimpleFoam, rhoSimpleFoam ";
    "and five common/ headers all included. NOTE ON THE FIXTURE: matrixDumpSimple's ";
    "fvSolution sets `consistent yes`, but step.dat was dumped with plain SIMPLE; the test ";
    "now asserts explicitly that the flag is OFF for that comparison, since the refusal that ";
    "used to enforce it is gone. A SIMPLEC oracle is still needed to test SIMPLEC at ";
    "step granularity; end to end it is covered by ctest stock_pitzdaily_vs_openfoam."]);
  selection_base := None;
  schema_for := None;
  other := [] |}.

Definition c_createFields : component := {|
  name := "createFields";
  of_symbol := "createFields.H";
  of_file := "applications/solvers/incompressible/simpleFoam/createFields.H";
  classification := "HOST_ONLY";
  status := "REIMPLEMENT";
  of_line := None;
  brae_driver := None;
  brae_existing := None;
  brae_reference := Some "src/applications/solvers/simpleFoam/createFields_cpp.cu";
  brae_cuda := None;
  brae_target := Some "src/applications/solvers/simpleFoam/createFields.cu";
  validation := Some (cat [
    "tests/test_simple_step_cpp.cu -- phi READ from disk (not recomputed), ";
    "needReference() false on a case whose outlet fixes p, so no reference cell is ";
    "set and adjustPhi does not run."]);
  note := Some (cat [
    "p and U are MUST_READ; phi comes from createPhi.H (READ_IF_PRESENT, else ";
    "fvc::flux(U)) -- the read-if-present half was a past defect. setRefCell REFUSES when a ";
    "reference is needed and neither pRefCell nor pRefPoint is given, rather than quietly ";
    "pinning cell 0; pRefPoint is refused outright (needs mesh.findCell)."]);
  selection_base := None;
  schema_for := None;
  other := [] |}.

Definition c_UEqn : component := {|
  name := "UEqn";
  of_symbol := "UEqn.H";
  of_file := "applications/solvers/incompressible/simpleFoam/UEqn.H";
  classification := "GPU_REQUIRED";
  status := "REIMPLEMENT";
  of_line := None;
  brae_driver := None;
  brae_existing := None;
  brae_reference := Some "src/applications/solvers/simpleFoam/UEqn_cpp.cu";
  brae_cuda := Some "src/applications/solvers/simpleFoam/UEqn.cu";
  brae_target := Some "src/applications/solvers/simpleFoam/UEqn.cu";
  validation := Some (cat [
    "tests/test_ueqn_cpp.cu -- validated by DECOMPOSITION against ";
    "validation/matrixDumpAsym/momentum.dat: the div/laplacian core matches OpenFOAM to ";
    "1e-11 on diag/upper/lower/source; adding divDevReff provably changes only `source`, ";
    "and by exactly the explicit dev2 term; relaxation raises |diag| and leaves the ";
    "off-diagonals alone; MRF and fvOptions both throw. ";
    "CUDA: tests/test_ueqn_cuda.cu compares the device assembly to the reference ";
    "field by field on a laminar AND a turbulent case -- relaxed diag 2.0e-16/2.7e-16, ";
    "upper/lower 0, sources <=1.4e-15, all six boundary-coefficient arrays (25010 ";
    "faces) EXACTLY 0, addPressureGradient <=1.3e-15. MRF/fvOptions refused on the ";
    "device path too."]);
  note := Some (cat [
    "24 lines in OpenFOAM. The _cpp reference REFUSES MRF and fvOptions rather than ignoring ";
    "them -- brae has shipped a solver that silently ignored MRFProperties and produced a ";
    "converged wrong answer. The CUDA side (UEqn.cu) mirrors it stage for stage, refusals ";
    "included, and carries `bounded` and the `corrected` laplacian."]);
  selection_base := None;
  schema_for := None;
  other := [] |}.

Definition c_pEqn : component := {|
  name := "pEqn";
  of_symbol := "pEqn.H";
  of_file := "applications/solvers/incompressible/simpleFoam/pEqn.H";
  classification := "GPU_REQUIRED";
  status := "REIMPLEMENT";
  of_line := None;
  brae_driver := None;
  brae_existing := None;
  brae_reference := Some "src/applications/solvers/simpleFoam/pEqn_cpp.cu";
  brae_cuda := Some "src/applications/solvers/simpleFoam/pEqn.cu";
  brae_target := Some "src/applications/solvers/simpleFoam/pEqn.cu";
  validation := Some (cat [
    "tests/test_peqn_cpp.cu -- stage by stage on validation/matrixDumpAsym: rAU and ";
    "HbyA vs OpenFOAM A()/H() (ops.dat) to 1e-11; the pressure Laplacian incl. all ";
    "patch coefficients vs peqn.dat to 1e-11; source == laplacian source + ";
    "div(phiHbyA)*V; setReference asserted to be exactly fvMatrix.C:1011-1023 (it ";
    "DOUBLES the diagonal, it does not overwrite it); correctFlux analytic at p=0; ";
    "relaxField analytic; MRF/fvOptions/consistent all refused. ";
    "CUDA: tests/test_peqn_cuda.cu compares the device stages to the reference on a ";
    "laminar AND a turbulent case -- rAU 1.7e-16, HbyA <=5.2e-16, phiHbyA int/bnd ";
    "2.9e-16/7.4e-17, laplacian upper/lower 0 diag 1.9e-16, source 1.3e-14, patch ";
    "coeffs <=2.8e-16, setReference 1.9e-16, flux correction 2.9e-16, p.relax ";
    "1.8e-16, corrector <=5.2e-16. All three refusals fire on the device path."]);
  note := Some (cat [
    "50 lines. Every intermediate is RETURNED rather than kept local, so the first divergent ";
    "stage can be isolated -- a past investigation ended at `phi = phiHbyA - pEqn.flux()`, ";
    "which is stage 7 here. SIMPLEC (`consistent`) is refused: it needs UEqn.H1() and ";
    "fvc::snGrad, neither ported. The CUDA side (pEqn.cu) mirrors it stage for stage; ";
    "assemblePEqn takes p because the `corrected` laplacian needs grad(p), and REFUSES a ";
    "null p rather than treating it as `no correction`."]);
  selection_base := None;
  schema_for := None;
  other := [] |}.

Definition c_simpleControl : component := {|
  name := "simpleControl";
  of_symbol := "Foam::simpleControl";
  of_file := "src/finiteVolume/cfdTools/general/solutionControl/simpleControl/simpleControl.C";
  classification := "CONFIGURATION";
  status := "REIMPLEMENT";
  of_line := None;
  brae_driver := None;
  brae_existing := None;
  brae_reference := Some (cat [
    "src/finiteVolume/cfdTools/general/solutionControl/simpleControl/";
    "simpleControl_cpp.cu"]);
  brae_cuda := None;
  brae_target := Some "src/finiteVolume/cfdTools/general/solutionControl/simpleControl/";
  validation := Some (cat [
    "tests/test_simple_step_cpp.cu -- parses the real matrixDumpSimple SIMPLE block: ";
    "`consistent yes`, nNonOrthogonalCorrectors 0, three residualControl entries ";
    "including the regex key " ++ dq ++ "(k|epsilon|omega|f|v2)" ++ dq ++ " which matches 'epsilon' and ";
    "not 'T'; correctNonOrthogonal runs nNonOrth+1 times and resets."]);
  note := Some (cat [
    "loop() = setFirstIterFlag; read(); if(initialised && criteriaSatisfied) writeAndEnd(); ";
    "else storePrevIterFields(); return runTime.loop(). Reads its keys from ";
    "solutionDict().subOrEmptyDict('SIMPLE')."]);
  selection_base := None;
  schema_for := Some "solutionControl";
  other := [] |}.

Definition c_relaxationFactors : component := {|
  name := "relaxationFactors";
  of_symbol := "Foam::solution::relaxField/relaxEquation";
  of_file := "src/OpenFOAM/matrices/solution/solution.C";
  classification := "CONFIGURATION";
  status := "REVALIDATE_EXISTING";
  of_line := None;
  brae_driver := None;
  brae_existing := Some "src/applications/solvers/common/solver_controls.cuh";
  brae_reference := None;
  brae_cuda := None;
  brae_target := Some "src/OpenFOAM/matrices/solution/";
  validation := None;
  note := Some (cat [
    "Legacy flat form promotes only p*/rho* to FIELD relaxation; select() appends 'Final' on ";
    "the final iteration. Both were past defects -- revalidate, do not assume."]);
  selection_base := None;
  schema_for := None;
  other := [] |}.

Definition c_fvm_div : component := {|
  name := "fvm_div";
  of_symbol := "Foam::fvm::div";
  of_file := "src/finiteVolume/finiteVolume/divSchemes/divScheme/divScheme.C";
  classification := "SHARED_NUMERICAL";
  status := "REVALIDATE_EXISTING";
  of_line := None;
  brae_driver := None;
  brae_existing := Some "src/cuda/device_fvm.cu";
  brae_reference := None;
  brae_cuda := None;
  brae_target := Some "src/finiteVolume/finiteVolume/divSchemes/";
  validation := None;
  note := Some (cat [
    "Implicit weights come from the SCHEME. limitedSurfaceInterpolationScheme::weights = ";
    "limiter*CDweights + (1-limiter)*pos0(faceFlux); LUST = 0.75*linear + 0.25*upwind. ";
    "Getting the implicit blend wrong is silent -- it was brae's LUST defect."]);
  selection_base := None;
  schema_for := None;
  other := [] |}.

Definition c_fvm_laplacian : component := {|
  name := "fvm_laplacian";
  of_symbol := "Foam::fvm::laplacian";
  of_file := "src/finiteVolume/finiteVolume/laplacianSchemes/laplacianScheme/laplacianSchemes.C";
  classification := "SHARED_NUMERICAL";
  status := "REVALIDATE_EXISTING";
  of_line := None;
  brae_driver := None;
  brae_existing := Some "src/cuda/device_fvm.cu";
  brae_reference := None;
  brae_cuda := None;
  brae_target := Some "src/finiteVolume/finiteVolume/laplacianSchemes/";
  validation := None;
  note := None;
  selection_base := None;
  schema_for := None;
  other := [] |}.

Definition c_fvc_grad : component := {|
  name := "fvc_grad";
  of_symbol := "Foam::fvc::grad";
  of_file := "src/finiteVolume/finiteVolume/gradSchemes/gaussGrad/gaussGrad.C";
  classification := "SHARED_NUMERICAL";
  status := "REVALIDATE_EXISTING";
  of_line := None;
  brae_driver := None;
  brae_existing := Some "src/cuda/device_fvc.cu";
  brae_reference := Some "src/finiteVolume/finiteVolume/fvc.cu";
  brae_cuda := None;
  brae_target := Some "src/finiteVolume/finiteVolume/gradSchemes/gaussGrad/";
  validation := None;
  note := Some (cat [
    "A host std::vector reference ALREADY exists (fvc.cu:6 gaussGrad) -- this is the _cpp ";
    "oracle for grad, already written. Move it, do not rewrite it."]);
  selection_base := None;
  schema_for := None;
  other := [] |}.

Definition c_fvc_div : component := {|
  name := "fvc_div";
  of_symbol := "Foam::fvc::div";
  of_file := "src/finiteVolume/finiteVolume/fvc/fvcDiv.C";
  classification := "SHARED_NUMERICAL";
  status := "REVALIDATE_EXISTING";
  of_line := None;
  brae_driver := None;
  brae_existing := Some "src/cuda/device_fvc.cu";
  brae_reference := Some "src/finiteVolume/finiteVolume/fvc.cu";
  brae_cuda := None;
  brae_target := Some "src/finiteVolume/finiteVolume/fvc/";
  validation := None;
  note := None;
  selection_base := None;
  schema_for := None;
  other := [] |}.

Definition c_fvc_flux : component := {|
  name := "fvc_flux";
  of_symbol := "Foam::fvc::flux";
  of_file := "src/finiteVolume/finiteVolume/fvc/fvcFlux.C";
  classification := "SHARED_NUMERICAL";
  status := "REVALIDATE_EXISTING";
  of_line := None;
  brae_driver := None;
  brae_existing := Some "src/cuda/device_fvc.cu";
  brae_reference := None;
  brae_cuda := None;
  brae_target := Some "src/finiteVolume/finiteVolume/fvc/";
  validation := None;
  note := None;
  selection_base := None;
  schema_for := None;
  other := [] |}.

Definition c_fvc_snGrad : component := {|
  name := "fvc_snGrad";
  of_symbol := "Foam::fvc::snGrad";
  of_file := "src/finiteVolume/finiteVolume/snGradSchemes/snGradScheme/snGradScheme.C";
  classification := "SHARED_NUMERICAL";
  status := "REIMPLEMENT";
  of_line := None;
  brae_driver := None;
  brae_existing := None;
  brae_reference := None;
  brae_cuda := None;
  brae_target := Some "src/finiteVolume/finiteVolume/snGradSchemes/";
  validation := None;
  note := Some "Only reached on the `consistent` (SIMPLEC) branch of pEqn.H.";
  selection_base := None;
  schema_for := None;
  other := [] |}.

Definition c_fvMatrix_A : component := {|
  name := "fvMatrix_A";
  of_symbol := "Foam::fvMatrix<Type>::A";
  of_file := "src/finiteVolume/fvMatrices/fvMatrix/fvMatrix.C";
  classification := "SHARED_NUMERICAL";
  status := "REVALIDATE_EXISTING";
  of_line := Some 1314%Z;
  brae_driver := None;
  brae_existing := Some "src/cuda/device_simple.cu";
  brae_reference := Some "src/finiteVolume/fvMatrices/fv_matrix_ops.cuh";
  brae_cuda := None;
  brae_target := Some "src/finiteVolume/fvMatrices/fvMatrix/";
  validation := None;
  note := Some "Host reference exists at fv_matrix_ops.cuh:138 (matrixA).";
  selection_base := None;
  schema_for := None;
  other := [] |}.

Definition c_fvMatrix_H : component := {|
  name := "fvMatrix_H";
  of_symbol := "Foam::fvMatrix<Type>::H";
  of_file := "src/finiteVolume/fvMatrices/fvMatrix/fvMatrix.C";
  classification := "SHARED_NUMERICAL";
  status := "REVALIDATE_EXISTING";
  of_line := Some 1333%Z;
  brae_driver := None;
  brae_existing := Some "src/cuda/device_simple.cu";
  brae_reference := Some "src/finiteVolume/fvMatrices/fv_matrix_ops.cuh";
  brae_cuda := None;
  brae_target := Some "src/finiteVolume/fvMatrices/fvMatrix/";
  validation := None;
  note := Some "Host reference exists at fv_matrix_ops.cuh:155 (matrixH).";
  selection_base := None;
  schema_for := None;
  other := [] |}.

Definition c_fvMatrix_H1 : component := {|
  name := "fvMatrix_H1";
  of_symbol := "Foam::fvMatrix<Type>::H1";
  of_file := "src/finiteVolume/fvMatrices/fvMatrix/fvMatrix.C";
  classification := "SHARED_NUMERICAL";
  status := "REIMPLEMENT";
  of_line := Some 1385%Z;
  brae_driver := Some "src/applications/solvers/simpleFoam/device_simple_foam.cu (the SIMPLEC rAtU row sum, and the SIMPLEC flux correction on the interface faces)";
  brae_existing := None;
  brae_reference := None;
  brae_cuda := None;
  brae_target := Some "src/finiteVolume/fvMatrices/fvMatrix/";
  validation := Some "tests/simplec_interface_vs_openfoam.sh on OpenFOAM's own basic/simpleFoam/implicitAMI (validation/implicitAMI), registered as ctest simplec_interface_vs_openfoam. Converged U against real OpenFOAM went 8.253e-02 -> 1.692e-02 and p 2.428e-01 -> 4.113e-02. The SHARP check needs no field comparison: seeded with OpenFOAM's converged U, p and phi -- a state whose true divergence is zero -- brae's own continuity error went 1.284e-01 -> 1.706e-03 and its pressure residual 3.363e-02 -> 5.797e-04, while the momentum residual stayed at 2.752e-07 throughout. Run against a rebuilt pre-fix binary the gate fails check 1 on both fields and check 3 on pressure and continuity, and PASSES the momentum line and the whole SIMPLEC-off branch.";
  note := Some (cat [
    "Only used by the `consistent` (SIMPLEC) branch -- AND IT HAS TO REACH THE COUPLED PATCHES, which is where brae's did not. OF H1() is `lduMatrix::H1()` (minus the internal off-diagonal row sum) PLUS boundaryCoeffs summed over every patch with ptf.coupled(), all divided by V. brae's row sum handled the cyclic interface and stopped there, so on a mesh coupled only by a cyclicAMI it was the internal faces alone. THE SECOND HALF, and the larger one: pEqn.H's `phiHbyA += fvc::interpolate(rAtU - rAU)*fvc::snGrad(p)*mesh.magSf()` is a surfaceScalarField whose COUPLED boundary values are evaluated like any other patch's, while brae built it from deviceMatrixFluxInternal (internal faces) and deviceMatrixFluxBoundary (NON-coupled patches) -- a cyclic or AMI face is in neither list, so the interface flux never received the term at all. NEITHER HALF IS RIGHT ALONE: with only the H1 half the converged U got WORSE, 8.253e-02 -> 9.282e-02, because rAtU became more accurate while the flux it must stay ";
    "consistent with did not; with only the flux half the seeded continuity error stopped at 4.560e-03 against 1.706e-03 for both. UNREACHABLE UNTIL NOW: no case in validation/ combined SIMPLEC with a coupled interface -- every cyclic/AMI case ran plain SIMPLE and every SIMPLEC case was uncoupled -- so validation/implicitAMI was added with the tutorial's mesh. FOUND by scanning the OpenFOAM tutorial tree for a coupled patch plus a div scheme brae assembles as a blend, which turned up implicitAMI; the first scan returned nothing because it looked for constant/polyMesh/boundary in a tree whose meshes are not generated. A REMAINING 5.8e-04 pressure residual at OpenFOAM's converged state is not yet explained."]);
  selection_base := None;
  schema_for := None;
  other := [] |}.

Definition c_fvMatrix_relax : component := {|
  name := "fvMatrix_relax";
  of_symbol := "Foam::fvMatrix<Type>::relax";
  of_file := "src/finiteVolume/fvMatrices/fvMatrix/fvMatrix.C";
  classification := "SHARED_NUMERICAL";
  status := "REVALIDATE_EXISTING";
  of_line := Some 1102%Z;
  brae_driver := None;
  brae_existing := Some "src/finiteVolume/fvMatrices/fv_matrix_ops.cuh";
  brae_reference := None;
  brae_cuda := None;
  brae_target := Some "src/finiteVolume/fvMatrices/fvMatrix/";
  validation := None;
  note := Some (cat [
    "ASYMMETRIC: adds cmptMax(cmptMag(iCoeffs)) to the diagonal and subtracts ";
    "cmptMin(iCoeffs) from the source. Guarded by if(relaxEquation(name))."]);
  selection_base := None;
  schema_for := None;
  other := [] |}.

Definition c_fvMatrix_setReference : component := {|
  name := "fvMatrix_setReference";
  of_symbol := "Foam::fvMatrix<Type>::setReference";
  of_file := "src/finiteVolume/fvMatrices/fvMatrix/fvMatrix.C";
  classification := "SHARED_NUMERICAL";
  status := "REVALIDATE_EXISTING";
  of_line := Some 1011%Z;
  brae_driver := None;
  brae_existing := Some "src/applications/solvers/common/solver_controls.cuh";
  brae_reference := None;
  brae_cuda := None;
  brae_target := Some "src/finiteVolume/fvMatrices/fvMatrix/";
  validation := None;
  note := Some (cat [
    "Currently lives inside applications/solvers/common -- solver-owned infrastructure, ";
    "exactly the layering defect this rebuild removes."]);
  selection_base := None;
  schema_for := None;
  other := [] |}.

Definition c_fvMatrix_flux : component := {|
  name := "fvMatrix_flux";
  of_symbol := "Foam::fvMatrix<Type>::flux";
  of_file := "src/finiteVolume/fvMatrices/fvMatrix/fvMatrix.C";
  classification := "SHARED_NUMERICAL";
  status := "REVALIDATE_EXISTING";
  of_line := None;
  brae_driver := None;
  brae_existing := Some "src/applications/solvers/simpleFoam/device_simple_foam.cu";
  brae_reference := None;
  brae_cuda := None;
  brae_target := Some "src/finiteVolume/fvMatrices/fvMatrix/";
  validation := None;
  note := Some (cat [
    "phi = phiHbyA - pEqn.flux() is the continuity-preserving step; a past investigation ";
    "traced a growing divergence to it."]);
  selection_base := None;
  schema_for := None;
  other := [] |}.

Definition c_constrainHbyA : component := {|
  name := "constrainHbyA";
  of_symbol := "Foam::constrainHbyA";
  of_file := "src/finiteVolume/cfdTools/general/constrainHbyA/constrainHbyA.C";
  classification := "SHARED_NUMERICAL";
  status := "REVALIDATE_EXISTING";
  of_line := None;
  brae_driver := None;
  brae_existing := Some "src/applications/solvers/simpleFoam/simple_foam.cuh";
  brae_reference := None;
  brae_cuda := None;
  brae_target := Some "src/finiteVolume/cfdTools/general/constrainHbyA/";
  validation := None;
  note := Some "Solver-owned today; must become shared.";
  selection_base := None;
  schema_for := None;
  other := [] |}.

Definition c_adjustPhi : component := {|
  name := "adjustPhi";
  of_symbol := "Foam::adjustPhi";
  of_file := "src/finiteVolume/cfdTools/general/adjustPhi/adjustPhi.C";
  classification := "SHARED_NUMERICAL";
  status := "REVALIDATE_EXISTING";
  of_line := None;
  brae_driver := None;
  brae_existing := Some "src/applications/solvers/common/solver_controls.cuh";
  brae_reference := None;
  brae_cuda := None;
  brae_target := Some "src/finiteVolume/cfdTools/general/adjustPhi/";
  validation := None;
  note := None;
  selection_base := None;
  schema_for := None;
  other := [] |}.

Definition c_constrainPressure : component := {|
  name := "constrainPressure";
  of_symbol := "Foam::constrainPressure";
  of_file := "src/finiteVolume/cfdTools/general/constrainPressure/constrainPressure.C";
  classification := "SHARED_NUMERICAL";
  status := "PORTED";
  of_line := None;
  brae_driver := None;
  brae_existing := Some "src/finiteVolume/fields/fv_patch_field.cuh (FixedFluxPressurePatchField) + the transcribed loop in simpleFoam/pEqn_cpp.cu (pEqn.H:21), rhoSimpleFoam/rhoPEqn_cpp.cu (pEqn.H:12) and rhoPcEqn_cpp.cu (pcEqn.H:16)";
  brae_reference := None;
  brae_cuda := None;
  brae_target := Some "src/finiteVolume/cfdTools/general/constrainPressure/";
  validation := Some (cat [
    "validation/ffp_vs_openfoam.sh on validation/rhoBoxP, twice (SIMPLE and SIMPLEC, the second reaching rhoPcEqn's rhorAtU divisor). The gate compares the solver-set boundary snGrad against the gradient OpenFOAM WRITES into the output p file: 2.5e-06 on max|OF| 0.7347 (SIMPLE), 1.0e-08 on 0.1198 (SIMPLEC), plus p 2.8e-12 / T 1.6e-11 / U 4.1e-09 field norms at the same iteration. Non-vacuity is asserted, not assumed: the fixture pairs fixedFluxPressure with an ASSIGNABLE-U outlet (inletOutlet) because constrainHbyA makes the numerator cancel X-minus-X at every fixed-velocity patch, so the arm refuses any fixture whose converged gradient is ~0. Fail-proof: the old silent zeroGradient mapping restored -> the arm never engages (script guard) AND the field norms fail. The CUDA half is deviceConstrainPressure (snGradMask on DeviceBoundary, refGrad overwritten per assembly), gated by the same script's cuda arm: device-vs-host p ~1e-13/iteration over 60 iterations. What it does NOT claim: MRF ";
    "inside constrainPressure is refused with MRF itself."]);
  note := Some "The BC is fixedGradient plus a solver contract: OF's updateCoeffs FATALS if updateSnGrad was not called this time index (fixedFluxPressureFvPatchScalarField.C:150-163), and FixedFluxPressurePatchField mirrors that refusal at coefficient time -- so a driver that builds the patch and never runs constrainPressure refuses instead of silently assembling the stale gradient, which is what the old factory mapping to zeroGradient did. snGrad = (phiHbyA_b - rho_b*(Sf_b & U_b))/(magSf_b * rhorAU_b), with the divisor rhorAUf (surface) in pEqn.H, rhorAtU (vol, owner-cell boundary) in pcEqn.H, and rAtU alone incompressibly.";
  selection_base := None;
  schema_for := None;
  other := [] |}.

Definition c_setRefCell : component := {|
  name := "setRefCell";
  of_symbol := "Foam::setRefCell";
  of_file := "src/finiteVolume/cfdTools/general/findRefCell/findRefCell.C";
  classification := "CONFIGURATION";
  status := "REVALIDATE_EXISTING";
  of_line := None;
  brae_driver := None;
  brae_existing := Some "src/applications/solvers/common/solver_controls.cuh";
  brae_reference := None;
  brae_cuda := None;
  brae_target := Some "src/finiteVolume/cfdTools/general/findRefCell/";
  validation := None;
  note := None;
  selection_base := None;
  schema_for := None;
  other := [] |}.

Definition c_continuityErrs : component := {|
  name := "continuityErrs";
  of_symbol := "continuityErrs.H";
  of_file := "src/finiteVolume/cfdTools/incompressible/continuityErrs.H";
  classification := "HOST_ONLY";
  status := "REVALIDATE_EXISTING";
  of_line := None;
  brae_driver := None;
  brae_existing := Some "src/applications/solvers/simpleFoam/gpuSimpleFoam.cu";
  brae_reference := None;
  brae_cuda := None;
  brae_target := Some "src/finiteVolume/cfdTools/incompressible/";
  validation := None;
  note := None;
  selection_base := None;
  schema_for := None;
  other := [] |}.

Definition c_turbulenceModel_New : component := {|
  name := "turbulenceModel_New";
  of_symbol := "Foam::incompressible::turbulenceModel::New";
  of_file := "applications/solvers/incompressible/simpleFoam/createFields.H";
  classification := "DISPATCH";
  status := "REIMPLEMENT";
  of_line := Some 42%Z;
  brae_driver := None;
  brae_existing := None;
  brae_reference := None;
  brae_cuda := None;
  brae_target := Some "src/TurbulenceModels/";
  validation := None;
  note := Some (cat [
    "26 implementations in v2412. brae supports a strict subset -- the manifest must say ";
    "which, and the solver must REFUSE the rest rather than substitute."]);
  selection_base := Some "incompressible::turbulenceModel";
  schema_for := None;
  other := [] |}.

Definition c_divDevReff : component := {|
  name := "divDevReff";
  of_symbol := "Foam::...::divDevReff";
  of_file := (cat [
    "src/TurbulenceModels/turbulenceModels/linearViscousStress/";
    "linearViscousStress.C"]);
  classification := "SHARED_NUMERICAL";
  status := "REVALIDATE_EXISTING";
  of_line := None;
  brae_driver := None;
  brae_existing := Some "src/cuda/device_divdevreff.cu";
  brae_reference := Some (cat [
    "src/TurbulenceModels/turbulenceModels/linearViscousStress/";
    "linearViscousStress_cpp.cu"]);
  brae_cuda := None;
  brae_target := Some "src/TurbulenceModels/turbulenceModels/linearViscousStress/";
  validation := Some (cat [
    "tests/test_divdevreff_cpp.cu -- 7.4e-16 vs OpenFOAM dumpDivDevReff over 12225 ";
    "cells (validation/kEpsCorrect), with a wrong-sign check and a wall-nuEff ";
    "negative control that both fire. THE BOUNDARY GRADIENT'S snGrad by patch class ";
    "(gradBKernel): inletOutlet/outletInlet are MIXED with the switch as their ";
    "valueFraction, gated on RAS/waterChannel `oneCorrector` (tests/";
    "interfoam_waterchannel_vs_openfoam.sh) where the stored-value form read U 1.3e-07; ";
    "pressureInletOutletVelocity is typed per component (piovUpdateKernel, 5 on inflow ";
    "with a ref that reproduces n(n.U), 0 on outflow), so the mixed branch gives ";
    "(value - pif)*deltaCoeffs = -(I - nn)&pif*deltaCoeffs, directionMixedFvPatchField.";
    "C:139-155 with refValue and refGrad zero -- READ, and NOT DISCRIMINATED by any ";
    "gated fixture: the branch zeroed moves waterChannel's device U from 5.7e-12 to ";
    "6.1e-12 (air's muEff on the atmosphere) and validation/rhoTP's CUDA mirror by ";
    "exactly 0 (a normal inflow has no tangential component to differentiate)."]);
  note := Some (cat [
    "FIRST component extracted onto the mirrored architecture; the template for the rest. ";
    "The _cpp reference is host-only and reuses brae existing transpose/dev2/operator* ";
    "rather than restating them. SPEED, FP-10 (2026-09-13): the device form copied each ";
    "velocity-gradient component into the 9*nC tensor with a BLOCKING device-to-device ";
    "cudaMemcpy -- nine per momentum assembly -- where deviceGradU and ";
    "deviceLeastSquaresGradU next to it use the async form on the per-thread stream. Now ";
    "async: same bytes, same order, same bits. It did not move the clock (squareBend, 200 ";
    "iterations: 4.42/4.44/4.52 s against 4.41/4.43), because a blocking copy's cost is ";
    "mostly waiting for work the GPU has to do anyway -- but it was the ONE operation ";
    "that made this assembly impossible to capture into a CUDA graph, since a blocking ";
    "copy is illegal during stream capture. FP-10 THEN CAPTURED THAT ASSEMBLY (2026-09-13) ";
    "and the capture needed three more things, each found by a failure: this function's ";
    "sixteen temporaries had to stop coming from the device pool (they are a per-mesh ";
    "workspace now) and its three std::move handovers had to stop swapping buffer ";
    "pointers (aliased instead); rhoUEqn.cu's eighteen temporary sites likewise; and the ";
    "MomentumMatrix, constructed fresh every iteration and EMPTY on entry, had to become ";
    "persistent -- with a fresh one the memory checker catches axpyKernel reading 0x100 ";
    "on the first replay. All three are bit-identical (squareBend, injectorPipe, ";
    "aerofoilNACA0012: every residual line and all nine written fields against a build ";
    "without them), and tests/rho_capture_assembly_identity.sh holds the captured arm to ";
    "the direct one. The capture is worth 38 launches and 0.17 ms of host API time per ";
    "iteration, not the 3.7 ms first estimated: the assembly is 38 launches where the ";
    "phase is 144, the rest being its solve, and most of an iteration's 1,003 launches ";
    "are solver loops whose trip count depends on a residual the host reads."]);
  selection_base := None;
  schema_for := None;
  other := [] |}.

Definition c_singlePhaseTransportModel : component := {|
  name := "singlePhaseTransportModel";
  of_symbol := "Foam::singlePhaseTransportModel";
  of_file := (cat [
    "src/transportModels/incompressible/singlePhaseTransportModel/";
    "singlePhaseTransportModel.C"]);
  classification := "MODEL";
  status := "REVALIDATE_EXISTING";
  of_line := None;
  brae_driver := None;
  brae_existing := None;
  brae_reference := None;
  brae_cuda := None;
  brae_target := Some "src/transportModels/incompressible/";
  validation := None;
  note := Some (cat [
    "laminarTransport.correct() is called every SIMPLE iteration; a Newtonian model makes it ";
    "a no-op, a non-Newtonian one does not."]);
  selection_base := None;
  schema_for := None;
  other := [] |}.

Definition c_SpalartAllmaras : component := {|
  name := "SpalartAllmaras";
  of_symbol := "Foam::RASModels::SpalartAllmaras";
  of_file := (cat [
    "src/TurbulenceModels/turbulenceModels/RAS/SpalartAllmaras/";
    "SpalartAllmaras.C"]);
  classification := "MODEL";
  status := "REVALIDATE_EXISTING";
  of_line := None;
  brae_driver := None;
  brae_existing := Some "src/cuda/device_spalart.cu";
  brae_reference := Some (cat [
    "src/TurbulenceModels/turbulenceModels/RAS/SpalartAllmaras/";
    "SpalartAllmaras_cpp.cu"]);
  brae_cuda := None;
  brae_target := Some "src/TurbulenceModels/turbulenceModels/RAS/SpalartAllmaras/";
  validation := Some (cat [
    "tests/sa_cpp_vs_openfoam.sh, END TO END on validation/airFoil2D against real ";
    "OpenFOAM's converged 500: U 6.2e-05, p 7.5e-05, nuTilda and nut 1.3e-02 ";
    "L2-relative, with brae's own residuals at OpenFOAM's level (U 4.7e-06 against ";
    "5.4e-06, p 6.6e-05 against 7.5e-05, nuTilda 9.6e-04 against 1.2e-03) and max ";
    "nuTilda 0.3842 against 0.3803. The control is laminar and fails at 1.2e-01 / ";
    "3.5e-01 / 1.0e+00, so the gate measures the closure."]);
  note := Some (cat [
    "All 12 coefficients are read via dimensioned<scalar>::getOrAddToDict -- see the derived ";
    "schema below. nut = nuTilda*fv1 on `calculated` patches was a past defect. ";
    "THE DEFECT THAT MATTERED was not in the SA equation at all -- that was within 13% of ";
    "OpenFOAM's residual from the first run. It was nut's WALL value: correctNut writes ";
    "nut_ = nuTilda*fv1 as a FIELD ASSIGNMENT, nuTilda is fixedValue ZERO at a wall, so the ";
    "assignment leaves nut_wall = 0 -- and OpenFOAM's correctBoundaryConditions() then lets ";
    "nutUSpaldingWallFunction overwrite it with Spalding's law (~4.5e-03 here). Taking the ";
    "assignment removes the wall's whole eddy viscosity and with it the wall shear; 25% of ";
    "the momentum residual sat on 78 wall faces, and fixing it moved the end-to-end ";
    "agreement 268x on U, 598x on p and 35x on nuTilda in ONE step. Two boundary defects ";
    "were fixed on the way (the freestream valueFraction was never recomputed from the flow ";
    "angle, and mixed evaluate() took refValue instead of OF's lerp blend), worth 372x -> ";
    "47x on momentum and 3551x -> 136x on pressure between them. RULED OUT along the way, ";
    "each by measurement: the coefficients (OpenFOAM prints them, all match, ft2 inactive); ";
    "Omega = sqrt(2)*mag(skew(gradU)) on a unit shear; the wall distance (meshWave against ";
    "brute force, 1.0e-04 mean over 10720 cells); and the linearUpwind correction's sign ";
    "(upwind 0.162, brae 0.250, flipped 1.72, OpenFOAM 0.380). ";
    "CUDA: PORTED but NOT YET MATCHING the _cpp. Five modules, each measured on airFoil2D ";
    "at OpenFOAM's converged 500 (OF: U 5.36e-06, p 7.51e-05, nuTilda 1.23e-03): (1) the ";
    "model on the k slot -- U 4.56e-03, p 1.00e-01, nuTilda 1.85e-02; (2) linearUpwind on ";
    "div(phi,nuTilda) -- nuTilda 7.67e-03; (3) the freestream valueFraction ";
    "(deviceUpdateMixedFreestream) -- U 2.11e-03, p 1.35e-02; (4) the Spalding wall nut -- ";
    "U 1.34e-04, p 1.88e-03; (5) inletOutlet resolved per iteration. END TO END it reaches ";
    "U 1.2e-02, p 3.3e-02, nuTilda 3.4e-01 against the _cpp's 6.2e-05 / 7.5e-05 / 1.3e-02, ";
    "so it is NOT gated yet. The SA terms themselves are NOT the cause: dumped cell by cell ";
    "(BRAE_DUMP_SA vs BRAE_DUMP_SA_CPP), gradNt2 is identical to 2.4e-11 and every formula ";
    "matches. CUDA IS NOW GATED (tests/sa_cuda_vs_openfoam.sh): END TO END from 0/ it ";
    "reaches U 5.99e-05, p 5.24e-05, nuTilda and nut 1.22e-02 against OpenFOAM's converged ";
    "500 -- matching the _cpp reference (6.20e-05 / 7.54e-05 / 1.28e-02) -- with a laminar ";
    "control that fails at 1.20e-01 / 3.54e-01. ";
    "THE COLD START was the whole of it, and no fixed-point comparison could have found it: ";
    "assembled at OpenFOAM's own fields the two momentum matrices are BIT-IDENTICAL ";
    "(tests/ueqn_localize.cu, 6.904985e-05 on both with the same patch split, at t=0 as well ";
    "as t=500), so the difference was never in the assembly but in the nuEff BOUNDARY handed ";
    "to it. Three defects there: nut = nuTilda*fv1 is a FIELD ASSIGNMENT and the device took ";
    "the adjacent cell instead (2.88e-01 out at the outlet); deviceBoundaryNutSpalding ";
    "rewrites EVERY face and replaced the non-wall ones with the cell value unless handed ";
    "`nutFile`; and deviceBoundaryNut overwrote the boundary buffer each iteration with cell ";
    "values, DESTROYING the previous wall nut that Spalding's Newton warm-starts from. ";
    "OpenFOAM seeds it from nut_ itself; a cold start with 10 iterations and a 1% early-out ";
    "settled 14% low, and that alone took the run from U 1.20e-02 to 5.99e-05 -- from 200x ";
    "worse than the _cpp to matching it. RULED OUT by measurement along the way: the solver ";
    "tolerances (tightening every solve from the case's relTol 0.1 to relTol 0 leaves the ";
    "answer bit-identical), the wall distance (nearWallDist and 1/deltaCoeffs coincide here ";
    "at 9.027330e-02), and the linearUpwind correction (forcing upwind moves the momentum ";
    "residual 1.34e-04 -> 7.99e-03, so it is applied)."]);
  selection_base := None;
  schema_for := Some "SpalartAllmarasBase";
  other := [] |}.

Definition c_limitedSnGrad : component := {|
  name := "limitedSnGrad";
  of_symbol := "Foam::fv::limitedSnGrad";
  of_file := "src/finiteVolume/finiteVolume/snGradSchemes/limitedSnGrad/limitedSnGrad.C";
  classification := "SHARED_NUMERICAL";
  status := "PORTED";
  of_line := None;
  brae_driver := None;
  brae_existing := Some "src/cuda/device_fvm.cu (deviceLaplacianCorrFluxLimited)";
  brae_reference := Some "src/finiteVolume/finiteVolume/fvm.cuh (laplacianCorrFlux, limitCoeff)";
  brae_cuda := None;
  brae_target := Some "src/finiteVolume/finiteVolume/";
  validation := Some (cat [
    "tests/limitedsngrad_vs_openfoam.sh, on validation/airFoil2D (a genuinely ";
    "non-orthogonal C-grid, so the correction is not a rounding term). Three ";
    "assertions: `limited 1` reproduces `corrected` BIT-FOR-BIT on both paths ";
    "(6.904985e-05), `limited 0.33` changes the answer (7.753060e-05) so the scheme ";
    "is not inert, and host and device agree bit-for-bit at 0.33."]);
  note := Some "limiter = min( k*|orth| / ((1 - k)*|corr| + SMALL), 1 ) applied to the non-orthogonal correction, with |orth| the ORTHOGONAL part of the same snGrad (nonOrthDeltaCoeffs*(vf[nei] - vf[own])) and both magnitudes taken BEFORE gamma*magSf. `limited 1` is exactly `corrected` and `limited 0` is `uncorrected`. THE VECTOR CASE is where this is easy to get wrong and where brae's pre-existing device implementation did: OF's limitedSnGrad<Type> takes mag() of the WHOLE snGrad and of the WHOLE correction, so all three velocity components share ONE per-face limiter. The device limited each component independently -- a different scheme, 0.6% out on airFoil2D -- and only writing the host reference and comparing the two exposed it (deviceLaplacianCorrFluxLimitedVec is the fix). Needed by turbineSiting (`Gauss linear limited corrected 0.33`), which now runs end to end -- see actuationDiskSource and atmBoundaryLayer.";
  selection_base := None;
  schema_for := None;
  other := [] |}.

Definition c_rotorDiskSource : component := {|
  name := "rotorDiskSource";
  of_symbol := "Foam::fv::rotorDiskSource";
  of_file := "src/fvOptions/sources/derived/rotorDiskSource/rotorDiskSource.C";
  classification := "MODEL";
  status := "REVALIDATE_EXISTING";
  of_line := None;
  brae_driver := None;
  brae_existing := Some "src/finiteVolume/cfdTools/fvOptions/rotor_disk.cu";
  brae_reference := Some "src/finiteVolume/cfdTools/general/fvOptions/rotorDiskSource_cpp.cu";
  brae_cuda := None;
  brae_target := Some "src/finiteVolume/cfdTools/general/fvOptions/";
  validation := Some (cat [
    "tests/rotordisk_vs_openfoam.sh, on validation/rotorDisk -- the tutorial on its ";
    "REAL 71734-cell snappyHexMesh, run to its own convergence at t=224. OpenFOAM's ";
    "rotorDiskSource PRINTS its own answer, so the oracle is unusually direct: ";
    "min/max(AOA) -61.412/-7.44884 against -61.413193/-7.4489333, Effective drag ";
    "-130.396343 against -130.399890, Effective lift 1230.695836 against 1230.716500 ";
    "-- all within 2.7e-05, which is the one-iteration offset between OpenFOAM's ";
    "printed value (start of iteration 224) and the written t=224 field. The gate ";
    "also compares the DEVICE force against the host one (5.6e-16) and asserts the ";
    "lift has OpenFOAM's sign."]);
  note := Some (cat [
    "Froude blade-element momentum. Scoped, and refused rather than approximated outside it: geometryMode `specified`, fixedTrim, no coning (Rcone = I), one lookup profile, inletFlowType local|fixed. THE SIGN is the thing worth stating: OF's addSup is `eqn -= force` with force carrying eqn's dimensions PER VOLUME (calculate divides by V), and fvMatrix::operator-= is source() += V*su -- so the extensive source GAINS the raw force. A body force that pushes the wrong way still converges, it just converges to the wrong answer, so nothing about a residual would have caught it. brae's device rotorDisk existed with NO test at all and a header comment describing the opposite (`relaxSrc -= force`); the host port plus this gate established that the device FORCE is right to 5.6e-16 and that the comment refers to the solver's application, not the force. Unblocks the rotorDisk tutorial (its other two blockers, linearUpwind on div(phi,k) and div(phi,omega), were cleared by the turbulence-scheme work). ";
    "APPLICATION SIGN, corrected 2026-08-20: addSup is `eqn -= force` with force PER VOLUME, so the OPTION matrix's source gains V*force; simpleFoam then writes `UEqn == fvOptions(U)` and the free operator== is `UEqn - fvOptions(U)`, so the MOMENTUM source LOSES it. The V2 driver added it instead. tests/rotordisk_vs_openfoam.sh could not see this -- it evaluates the blade-element force at OpenFOAM's OWN converged velocity, and drag, lift and AOA are identical whichever way the force is then applied. Measured end to end on the rotorDisk tutorial at deep convergence: U L2 1.04e-02 with the minus against 9.76e-01 with the plus, which also fails to converge at all (residual 0.13 after 800 iterations)."]);
  selection_base := None;
  schema_for := None;
  other := [] |}.

Definition c_cellLimitedGrad : component := {|
  name := "cellLimitedGrad";
  of_symbol := "Foam::fv::cellLimitedGrad";
  of_file := (cat [
    "src/finiteVolume/finiteVolume/gradSchemes/limitedGradSchemes/cellLimitedGrad/";
    "cellLimitedGrad.C"]);
  classification := "SHARED_NUMERICAL";
  status := "PORTED";
  of_line := None;
  brae_driver := None;
  brae_existing := Some "src/cuda/device_mesh.cu (deviceCellLimitGrad)";
  brae_reference := Some (cat [
    "src/finiteVolume/finiteVolume/gradSchemes/limitedGradSchemes/";
    "cellLimitedGrad_cpp.cu"]);
  brae_cuda := None;
  brae_target := Some "src/finiteVolume/finiteVolume/gradSchemes/limitedGradSchemes/";
  validation := Some (cat [
    "tests/test_celllimited_cpp.cu -- the new host port against the already ";
    "OpenFOAM-validated device one, 3.2e-15 (scalar grad(p)) and 3.7e-16 (vector ";
    "grad(U)) on validation/pitzDailyTurb, with a check that the limiter actually ";
    "bites (5.8e+03) and a TRANSPOSED control that disagrees by 1.005. ";
    "tests/celllimited_vs_openfoam.sh then measures it on the case it unblocks: ";
    "assembling the momentum equation at OpenFOAM's own t=400 on ";
    "validation/windAroundBuildingsBox gives Ux 1.53e-04 (host) and 1.50e-04 ";
    "(device) against OpenFOAM's 1.09e-04 -- 1.40x and 1.37x -- where the SAME ";
    "assembly with the limiter off gives 2.98e-02, i.e. 272x. On the real 185237-cell ";
    "snappyHexMesh the same measurement is 1.33x limited against 6.25x unlimited."]);
  note := Some (cat [
    "`cellLimited Gauss linear <k>` scales the base Gauss gradient per cell and PER ";
    "COMPONENT so extrapolating to any of the cell's own face centres cannot overshoot its ";
    "neighbours' range. Three places it is easy to get wrong. (1) limitFaceCmpt RETURNS ";
    "when |extrapolate| <= SMALL -- no constraint at all, which is NOT the same as r = 1. ";
    "(2) The boundary faces contribute the patch VALUE to the range (a coupled patch its ";
    "neighbour field); omitting them lets the gradient overshoot exactly where the field is ";
    "driven from outside. (3) For a vector the limiter is itself a VECTOR and scales COLUMN ";
    "j of grad(U), because OpenFOAM's grad(U)_ij is d(U_j)/d(x_i) -- reading it as a row is ";
    "the transposed control the unit test carries. k < SMALL disables the scheme; k < 1 ";
    "widens the band by (1/k - 1)*(maxDelta - minDelta). WHY IT MATTERS: linearUpwind's ";
    "deferred correction is built from the gradient the scheme NAMES, and that correction ";
    "does not vanish at convergence -- so running the plain Gauss gradient under a limited ";
    "name is a different equation, not a slower one. That is what windAroundBuildings was ";
    "refused for. SPEED, FP-4 (bench/rhoSimpleFoam/FASTPATH.md, 2026-09-12): this limiter ";
    "is a THIRD of the momentum phase on gasMixing/injectorPipe -- 4.1 ms/it with the ";
    "tutorial's schemes, 2.7 with grad(U) unlimited, 2.5 with upwind divergence as well ";
    "(three runs of 100 iterations each), and 12 launches at 1.90 of the iteration's 13.73 ";
    "GPU ms. deviceCellLimitGradFused now limits up to three fields in one launch, ";
    "bit-identical per field (tests/test_cell_limit_grad_fused.cu, ctest ";
    "cell_limit_grad_fused: memcmp for n=1,2,3 at k=1 and k=0.5, sheared and empty-patch ";
    "meshes, one-ulp cross-contamination controls, and a control that the limiter bites at ";
    "all; fail-proof RUN, 10 arms red). IT DID NOT MOVE THE CLOCK, and the measurements say ";
    "why: 12 launches became 8 and 1.90 ms became 1.74, inside run-to-run noise on the ";
    "iteration, because the cost is the SIX face-loop passes over scattered neighbour ";
    "values and fusing N fields removes none of them. Occupancy was excluded (92 registers ";
    "against 58; capping to 80 moved 0.780 ms to 0.771), and so was pass-sharing: a kernel ";
    "fusing the gradient's face passes with the limiter's range pass was written, held ";
    "bit-identical, measured at 1.026 -> 0.999 ms for the two sites it served, and reverted ";
    "-- the second pass was already L2-resident. What remains is the scheme's own gather ";
    "traffic."]);
  selection_base := None;
  schema_for := None;
  other := [] |}.

Definition c_kEpsilon : component := {|
  name := "kEpsilon";
  of_symbol := "Foam::RASModels::kEpsilon";
  of_file := "src/TurbulenceModels/turbulenceModels/RAS/kEpsilon/kEpsilon.C";
  classification := "MODEL";
  status := "REVALIDATE_EXISTING";
  of_line := None;
  brae_driver := None;
  brae_existing := Some "src/cuda/device_kepsilon.cu";
  brae_reference := Some (cat [
    "src/TurbulenceModels/turbulenceModels/RAS/kEpsilon/kEpsilon_cpp.cu ";
    "(standalone host correct() + the KEResiduals oracle); ";
    "src/TurbulenceModels/turbulenceModels/RAS/kEpsilon/k_epsilon.cuh ";
    "(the older host correct(), moved into the mirrored path)"]);
  brae_cuda := None;
  brae_target := Some "src/TurbulenceModels/turbulenceModels/RAS/kEpsilon/";
  validation := Some (cat [
    "Coefficients checked against the DERIVED schema below -- brae defaults match ";
    "OpenFOAM exactly (Cmu .09, C1 1.44, C2 1.92, C3 0, sigmak 1.0, sigmaEps 1.3). ";
    "tests/test_simple_turbulent_cpp.cu wires it into the _cpp loop on ";
    "validation/pitzDailyTurb from OpenFOAM's converged 1576: the rebuilt loop is ";
    "BIT-IDENTICAL (rel 0) to the pre-existing OpenFOAM-validated host path on U, p, ";
    "phi, k, epsilon and nut, with a laminar control (drift 1.3e-01) proving nut ";
    "really reaches the momentum equation. tests/boundary_nut_vs_openfoam.sh ";
    "assembles k and epsilon at OpenFOAM's OWN converged 1576 fields and compares ";
    "the initial residuals against its log: epsilon 1.900e-07 vs 1.912e-07 (0.64%) ";
    "and k 3.655e-07 vs 3.680e-07 (0.68%), where reverting the patch diffusivity ";
    "gives 1.20e-05 (63x) and 6.44e-06 (17x)."]);
  note := Some (cat [
    "REUSED, not rewritten: a complete host kEpsilon::correct already existed and is ";
    "validated against OpenFOAM (correct.dat). The new work is the COUPLING -- nuEff = ";
    "nu + nut with boundary values from nut's own boundary field, and the LAGGED ordering ";
    "(turbulence->correct() at the END of the iteration, simpleFoam.C:93-94). That same ";
    "boundary distinction applies a SECOND time, to the k and epsilon equations' own ";
    "diffusivity: OF builds nut by FIELD ASSIGNMENT (nut_ = Cmu*sqr(k_)/epsilon_), which ";
    "writes the boundary from the boundary k and epsilon, and correctBoundaryConditions() ";
    "leaves a `calculated` patch alone -- so DkEff(patchi)/DepsilonEff(patchi) carry ";
    "Cmu*k_b^2/eps_b, not the adjacent cell value. Interpolating the cell nut there put ";
    "90.5% of the whole epsilon residual on pitzDaily's inlet. realizableKE (variable ";
    "rCmu) and kOmegaSST (a1*k/max(a1*omega, b1*F2*sqrt(S2))) have different nut ";
    "expressions and are excluded from that evaluation."]);
  selection_base := None;
  schema_for := None;
  other := [] |}.

Definition c_kOmegaSST : component := {|
  name := "kOmegaSST";
  of_symbol := "Foam::RASModels::kOmegaSST";
  of_file := "src/TurbulenceModels/turbulenceModels/RAS/kOmegaSST/kOmegaSST.C";
  classification := "MODEL";
  status := "REVALIDATE_EXISTING";
  of_line := None;
  brae_driver := None;
  brae_existing := Some "src/cuda/device_komega_sst.cu";
  brae_reference := Some "src/TurbulenceModels/turbulenceModels/RAS/kOmegaSST/kOmegaSST_cpp.cu";
  brae_cuda := None;
  brae_target := Some "src/TurbulenceModels/turbulenceModels/RAS/kOmegaSST/";
  validation := Some (cat [
    "tests/sst_cpp_vs_openfoam.sh, on validation/pitzDailySST against real ";
    "OpenFOAM (log.simpleFoam, whose 2000/ this repo carries and which a rerun ";
    "reproduces bit-identically). FIXED POINT, one iteration from OpenFOAM's own ";
    "converged fields: omega 3.288e-04 vs 2.836e-04 (1.16x) and k 3.683e-05 vs ";
    "2.537e-05 (1.45x), with an upwind control at 8.3x and 82x that the gate ";
    "requires to breach its bound. END TO END from 0/ (sst_cpp_full): U 1.9e-04, ";
    "p 7.4e-04, k 9.2e-04, omega 9.4e-03, nut 2.4e-03 L2-relative against ";
    "OpenFOAM's converged fields -- at parity with the established CUDA solver on ";
    "the same case (1.7e-04 / 5.1e-04 / 6.8e-04 / 1.3e-02 / 3.9e-03). CUDA: ";
    "tests/sst_cuda_vs_openfoam.sh runs the SAME case through the V2 driver and ";
    "reaches U 1.05x, omega 1.16x and k 1.45x of OpenFOAM's initial residual at its ";
    "converged state -- the _cpp reference's own numbers to within 0.4% (U to seven ";
    "digits) -- and end to end U 2.2e-04, p 7.4e-04, k 9.3e-04, omega 2.2e-02, ";
    "nut 4.8e-03.";
    " COMPRESSIBLE fvm::ddt under `Euler` (kOmegaSSTBase.C:572,602), the same term as kEpsilon's: tests/rho_komegasst_vs_openfoam.sh's Euler arm holds omega and k to 1e-13 against the instrumented model and reads omega D() 9.6e-04 / k source 3.0e-02 with the term zeroed. No shipped rhoSimpleFoam tutorial runs kOmegaSST under Euler, so this is gated on sbMatched with the scheme switched. CUDA against the _cpp reference inside the driver, tests/rho_step_cuda_euler.sh (rhoSST switched to Euler, 3 iterations): k 3.5e-13, omega 3.1e-12, nut 1.2e-11, the same floor as the steadyState control run beside it; with the device term withheld k 8.64e-05."]);
  note := Some (cat [
    "The _cpp reference could NOT run an SST case until this, and a single-iteration ";
    "probe did not show it: probing from the converged state gave 1.2-1.5x while the ";
    "same code from 0/ reached omega 1e+46 by iteration 200. Three defects, all of them ";
    "end-to-end-only. (1) div(phi,k)/div(phi,omega) were upwind where the tutorials ask ";
    "for `bounded Gauss limitedLinear 1` -- a different matrix, not a looser tolerance. ";
    "(2) A negative omega was FLOORED to SMALL instead of taking Foam::bound's ";
    "neighbour average; the next iteration divides CDkOmega by it, so a floored cell ";
    "contributes ~1e15. OpenFOAM bounds omega 258 times on this case, first at ";
    "min -2445.7, against brae's -2534.0 on the same iteration -- upwind never produces ";
    "the negative cell, which is why the floor survived until (1) was fixed. ";
    "(3) correctNut wrote only wall patches, so a `calculated` inlet shipped as ";
    "`value uniform 0` kept zero eddy viscosity for the whole run. The patch ";
    "diffusivity DkEff(patchi) = alphaK(F1)*nut_b + nu is now taken from nut's own ";
    "boundary as well; on THIS case that is worth 2.7% because the near-inlet cell nut ";
    "is close to the boundary value, unlike kEpsilon's pitzDaily where it is 12x off. ";
    "PORTED TO CUDA one module at a time against that working _cpp, testing after each: ";
    "(1) the div(phi,k)/div(phi,omega) scheme read from fvSchemes instead of hardcoded ";
    "upwind, which alone moved omega 19x -> 6.8x and k 125x -> 23x and also wired the ";
    "`bounded` prefix the kEpsilon path had been dropping; (2) the `calculated` nut ";
    "evaluation; (3) the patch diffusivity. (2) and (3) are inert at the fixed point by ";
    "construction and only the end-to-end mode exercises them. Foam::bound was ALREADY ";
    "correct on the device. Comparing module by module against the _cpp is what exposed ";
    "the wall mask: it keyed on isEpsilonWallFunction while omegaWallFunction mapped to a ";
    "plain zeroGradient field, so every kOmegaSST case on the rebuilt driver ran with NO ";
    "wall faces -- no wall nut, hence wrong wall shear and everything downstream, ";
    "measuring U 48x and omega 6.8x off OpenFOAM. The predicate is now ";
    "isTurbulenceWallFunction and both wall functions answer it."]);
  selection_base := None;
  schema_for := None;
  other := [] |}.

Definition c_bound : component := {|
  name := "bound";
  of_symbol := "Foam::bound";
  of_file := "src/finiteVolume/cfdTools/general/bound/bound.C";
  classification := "SHARED_NUMERICAL";
  status := "PORTED";
  of_line := None;
  brae_driver := None;
  brae_existing := None;
  brae_reference := Some "src/finiteVolume/cfdTools/general/bound/bound_cpp.cu";
  brae_cuda := None;
  brae_target := Some "src/finiteVolume/cfdTools/general/bound/";
  validation := Some (cat [
    "Exercised by every RAS correct(); the discriminating case is ";
    "tests/sst_cpp_vs_openfoam.sh full mode, which diverges to omega 1e+46 with a ";
    "floor in place of it and converges to 9.4e-03 of OpenFOAM with it."]);
  note := Some (cat [
    "NOT a clamp. vsf = max(max(vsf, average(max(vsf, lowerBound))*pos0(-vsf)), ";
    "lowerBound): a cell that solved NEGATIVE takes the area-weighted average of its ";
    "neighbours, and only a merely-small cell is floored. Both lower bounds are SMALL, ";
    "so the floor and OpenFOAM agree everywhere except the negative cell -- which is ";
    "exactly the cell that matters. CUDA (kEpsilon.cu boundField, shared with kOmegaSST): ";
    "the average is ONE GATHER PER CELL in OpenFOAM's face order (fvcSurfaceIntegrate.C: ";
    "owner faces and losort-ordered neighbour faces merged by face index, then the boundary ";
    "faces), not the atomicAdd scatter it was until 2026-09-12 -- that scatter summed a ";
    "clamped cell's faces in hardware order, and was the D-1 run-to-run drift: squareBendLiq ";
    "and injectorPipe wrote different low bits between two runs of one binary (first ";
    "differing stage epsOut at iteration 4 with epsSolveOut identical). ";
    "tests/rho_run_to_run_identity.sh holds three tutorials byte-identical over two ";
    "20-iteration runs, with BRAE_BOUND_SCATTER=1 as the control that still drifts."]);
  selection_base := None;
  schema_for := None;
  other := [] |}.

Definition c_MRFZoneList : component := {|
  name := "MRFZoneList";
  of_symbol := "Foam::MRFZoneList";
  of_file := "src/finiteVolume/cfdTools/general/MRF/MRFZoneList.C";
  classification := "SHARED_NUMERICAL";
  status := "REVALIDATE_EXISTING";
  of_line := None;
  brae_driver := None;
  brae_existing := Some "src/finiteVolume/cfdTools/MRF/device_mrf.cu";
  brae_reference := Some "src/finiteVolume/cfdTools/general/MRF/MRF_cpp.cu";
  brae_cuda := None;
  brae_target := Some "src/finiteVolume/cfdTools/general/MRF/";
  validation := Some (cat [
    "tests/mrf_cpp_vs_openfoam.sh, END TO END on validation/mixerVessel2D (cellZone ";
    "`rotor`, omega 104.72 about z) against real OpenFOAM's converged 500: U 2.0e-03, ";
    "p 8.1e-04, k 1.5e-02, epsilon 1.6e-02 L2-relative, and at OpenFOAM's OWN ";
    "converged state an initial residual of 1.53e-05 against its 1.54e-05 (0.7%). CUDA: ";
    "tests/mrf_cuda_vs_openfoam.sh runs the SAME case through the V2 driver -- ";
    "U 2.5e-03, p 9.2e-04, k 1.5e-02, epsilon 1.6e-02 -- with a control that REMOVES ";
    "constant/MRFProperties, exercising the real dictionary path rather than a debug ";
    "switch. rotatingCylinders (laminar, Omega 100 over 6400 cells) runs on the same ";
    "wiring. Ported one hook at a time: correctBoundaryVelocity alone left the ";
    "momentum residual at 2.53e-02, adding DDt took it to 1.5256e-05, and ";
    "makeRelative left THAT unchanged -- see the note. THE CONTROL IS THE POINT -- ";
    "with the zones dropped the case has no driving force at all, the flow is ";
    "quiescent and every field reads 1.000, so MRF is 100% of this case's physics ";
    "rather than a correction to it. Each hook was checked the same way: dropping ";
    "DDt alone costs 158x on the momentum residual and dropping makeRelative 30x on ";
    "pressure."]);
  note := Some (cat [
    "Reached four times in the closure: correctBoundaryVelocity, DDt, makeRelative, update. ";
    "Silently ignoring it produced a converged wrong answer on the compressible path. ";
    "DDt is EXPLICIT: MRFZoneList::DDt builds a volVectorField of Omega x U from the ";
    "current U, which UEqn.H adds to the LHS, so it lands as source -= V*(Omega x U) and ";
    "is lagged like any other deferred term. update() is moving-mesh only and inert on a ";
    "steady static mesh; constrainPressure (pEqn.H:21) does nothing without a ";
    "fixedFluxPressure patch, which is outside this path's envelope anyway. The first working version was 10x (U) and 52x (p) off ";
    "OpenFOAM's initial residual at its own converged state. Localizing it put 93.8% on ";
    "ONE patch -- the rotor wall -- and the cause was not in MRF at all: brae's noSlip ";
    "returned a hardcoded ZERO from valueBoundaryCoeffs and re-zeroed its value on every ";
    "evaluate(), baking in `this wall is stationary`. True of every case that does not ";
    "rotate, false of every case that does. OpenFOAM's noSlip is a fixedValue whose ";
    "coefficients come from the LIVE patch value, and MRFZone::correctBoundaryVelocity ";
    "writes onto it with operator== precisely because that assigns regardless of ";
    "assignable(). Fixing noSlip took U from 1.60e-04 to 1.53e-05 against OpenFOAM's ";
    "1.54e-05, and the rotor's share of the residual from 93.8% to 3.6%. ";
    "MAKERELATIVE LOOKS INERT IN ONE ITERATION AND IS NOT: Omega x r is a solid-body ";
    "rotation and therefore DIVERGENCE-FREE, so removing its flux leaves ";
    "div(phiHbyA) -- the pressure equation's entire source -- unchanged, and p moves ";
    "only in the 7th digit. What it changes is phi itself, the convecting flux for ";
    "the NEXT iteration; end to end it is the difference between U 2.5e-03 and ";
    "U 7.2e-01. A single-iteration gate would have called that hook dead code. (An ";
    "earlier bisect putting makeRelative at 30x on the pressure residual was measured ";
    "before the noSlip fix and does not hold on the fixed code.) NOT TESTED BY THIS ";
    "CASE: OpenFOAM's internalFaces are the faces with EITHER cell in the zone, not ";
    "both, and brae existing (device_mrf.cu) uses BOTH. mixerVessel2D DOES have an ";
    "internal interface -- 96 of its 3024 zone faces -- yet the two readings give ";
    "bit-identical answers, because those 96 faces carry a frame flux of 6.4e-13 ";
    "against 1.5e-04 on the interior ones: the interface is a circle of constant ";
    "radius about the rotation axis, so its normals are radial while Omega x r is ";
    "circumferential and the dot product vanishes by geometry. Gating OR-vs-AND needs ";
    "a zone whose boundary is NOT a surface of revolution about its own axis."]);
  selection_base := None;
  schema_for := Some "MRFZone";
  other := [] |}.

Definition c_fvOptions : component := {|
  name := "fvOptions";
  of_symbol := "Foam::fv::options";
  of_file := "src/finiteVolume/cfdTools/general/fvOptions/fvOptions.C";
  classification := "DISPATCH";
  status := "REVALIDATE_EXISTING";
  of_line := None;
  brae_driver := None;
  brae_existing := Some "src/finiteVolume/cfdTools/fvOptions/device_fvoptions.cu";
  brae_reference := None;
  brae_cuda := None;
  brae_target := Some "src/finiteVolume/cfdTools/general/fvOptions/";
  validation := None;
  note := Some "Reached three times in UEqn.H/pEqn.H: fvOptions(U), constrain(UEqn), correct(U).";
  selection_base := Some "option";
  schema_for := None;
  other := [] |}.

Definition c_lduMatrix_solver : component := {|
  name := "lduMatrix_solver";
  of_symbol := "Foam::lduMatrix::solver::New";
  of_file := "src/OpenFOAM/matrices/lduMatrix/lduMatrix/lduMatrixSolver.C";
  classification := "LINEAR_SOLVER";
  status := "REUSE_EXISTING";
  of_line := None;
  brae_driver := None;
  brae_existing := Some "src/cuda/device_pcg.cu, src/cuda/device_amg_pcg.cu";
  brae_reference := None;
  brae_cuda := None;
  brae_target := Some "src/matrices/lduMatrix/solvers/";
  validation := None;
  note := Some (cat [
    "8 keys in v2412. brae implements PCG (+AMG preconditioning) and PBiCGStab. ";
    "PBiCGStab HAS TWO LOOPS AND THEY MUST AGREE: a device conditional-graph loop (4 host ";
    "reads per solve, mailbox) and the host loop it falls back to when checkEvery > 1, ";
    "BRAE_BICG_HOST_LOOP=1 or BRAE_NORMFACTOR_HOST=1 is set, or the graph declines. DEFECT ";
    "FOUND AND FIXED 2026-09-12: the fallback forwarded every argument EXCEPT polyDeg, so a ";
    "solve that took it ran the bare DIAGONAL where the caller asked for a degree-d ";
    "truncated Neumann series -- a silent preconditioner substitution, invisible in a ";
    "residual line because the solve still reaches the case's tolerance and only stops ";
    "somewhere else. It surfaced when the FP-2 policy put the ENERGY solve on the series: ";
    "normfactor_device_identity's rhoBox arm, which holds the two normFactor paths ";
    "identical, then diverged from iteration 2 (49 of 51 lines). ";
    "tests/bicg_polydeg_host_loop.sh holds it directly -- the same case through the graph ";
    "loop, BRAE_BICG_HOST_LOOP=1 and BRAE_NORMFACTOR_HOST=1, every residual line and every ";
    "written field identical, with the case's own DILU as the control that proves the ";
    "preconditioner can move the iterate there. Fail-proof RUN: dropping polyDeg again ";
    "turned both gates red."]);
  selection_base := Some "lduMatrix::solver";
  schema_for := None;
  other := [] |}.

Definition c_GAMGPreconditioner : component := {|
  name := "GAMGPreconditioner";
  of_symbol := "Foam::GAMGPreconditioner";
  of_file := (cat [
    "src/OpenFOAM/matrices/lduMatrix/preconditioners/GAMGPreconditioner/";
    "GAMGPreconditioner.C"]);
  classification := "LINEAR_SOLVER";
  status := "REUSE_EXISTING";
  of_line := None;
  brae_driver := None;
  brae_existing := Some "src/cuda/device_amg.cu";
  brae_reference := None;
  brae_cuda := None;
  brae_target := Some "src/matrices/lduMatrix/preconditioners/GAMGPreconditioner/";
  validation := None;
  note := Some "brae's AMG is the analogue. Carries the whole-loop conditional-graph PCG.";
  selection_base := None;
  schema_for := Some "GAMGPreconditioner";
  other := [] |}.

Definition c_DILUPreconditioner : component := {|
  name := "DILUPreconditioner";
  of_symbol := "Foam::DILUPreconditioner";
  of_file := (cat [
    "src/OpenFOAM/matrices/lduMatrix/preconditioners/DILUPreconditioner/";
    "DILUPreconditioner.C"]);
  classification := "LINEAR_SOLVER";
  status := "REUSE_EXISTING";
  of_line := None;
  brae_driver := None;
  brae_existing := Some "src/cuda/device_dilu.cu";
  brae_reference := None;
  brae_cuda := None;
  brae_target := Some "src/matrices/lduMatrix/preconditioners/DILUPreconditioner/";
  validation := None;
  note := Some (cat [
    "Level-scheduled, bit-identical to OpenFOAM. TWO WALKS OF THE SAME LEVELS, same bits ";
    "(tests/dilu_single_block_identity.sh): one kernel launch per level, or ONE thread block ";
    "walking every level with __syncthreads between them. Which one runs is a speed rule on ";
    "the mean level width. FP-2 (bench/rhoSimpleFoam/FASTPATH.md, 2026-09-12) re-measured it ";
    "end to end after the graphs and the mailbox landed: the single block wins at mean 132 ";
    "(aerofoilNACA0012, 121 levels: turbulence 5.8 -> 3.3 ms/it, energy 3.2 -> 2.1), 205 and ";
    "417 (squareBend at 38k and 112k with DILU on every field: 36 -> 22 and 57.5 -> 47.9 ms/it) ";
    "and loses at 817 and 1665 (307k: 121.5 -> 135.4; 896k: 257 -> 396). The rule moved from ";
    "128 to 512, and the widest-level guard went (the block strides a level). On the aerofoil ";
    "the DILU level kernels were 862 of the turbulence phase's 1081 launches per iteration ";
    "and 449 of the energy phase's 539 (nsys, --cuda-graph-trace=node). THE ENTRY POLICY, ";
    "decided 2026-09-12 (rhoSimpleFoamDriver.cu, the CUDA arm): a `preconditioner DILU` ";
    "entry on k, epsilon/omega or the energy field takes the truncated Neumann series ";
    "wherever fvMatrix::relax bounds it -- the derivation the pair already takes on a GAMG ";
    "entry, factored into neumannDegreeIfRelaxed (linear_solver_setup.cuh), degree ";
    "ceil(ln 0.1 / ln alpha) capped at 24 -- announced per field as [approximated]; ";
    "BRAE_DILU_KE=1 and BRAE_DILU_HE=1 keep DILU, and an unrelaxed entry keeps it ";
    "regardless. Measured: aerofoil 3x100 iterations, turbulence 3.2 -> 1.6-1.8 ms/it, ";
    "energy 1.9 -> 1.2-1.4, four phases 10.0-10.2 -> 7.7-8.4 (1.0x 20 cores per ";
    "iteration); sbMatched at ITS pinned 1e-12 relTol 0 (degrees 22 and 11), turbulence ";
    "79 -> 13.5 and energy 30 -> 5.1 ms/it with the iteration-20 residual line identical to ";
    "five digits. Gate tests/rho_dilu_entry_policy_vs_openfoam.sh against real OpenFOAM on ";
    "the aerofoil at its own relTol: the series' k/omega/e residuals within [0.9, 1.2] of ";
    "OpenFOAM's (measured 1.07, 1.04, 1.03) and DILU-kept within [0.9, 1.1] (1.00, 1.00, ";
    "1.01), no bounding on either arm, turbulence under 0.8x (0.59x). The two assembly ";
    "gates that hold sbMatched at 1e-10 with the solvers pinned (rho_sbmatched_transient, ";
    "rho_gradp_lsq_simplec) keep DILU through the hatches, since at 1e-12 the residual ";
    "leaves the iterate free at about 1e-9 and only OpenFOAM's own algorithm lands on ";
    "OpenFOAM's iterate; their bounds are unchanged."]);
  selection_base := None;
  schema_for := None;
  other := [] |}.

Definition c_GAMGSolver : component := {|
  name := "GAMGSolver";
  of_symbol := "Foam::GAMGSolver";
  of_file := "src/OpenFOAM/matrices/lduMatrix/solvers/GAMG/GAMGSolver.C";
  classification := "LINEAR_SOLVER";
  status := "UNSUPPORTED";
  of_line := None;
  brae_driver := None;
  brae_existing := None;
  brae_reference := None;
  brae_cuda := None;
  brae_target := Some "src/matrices/lduMatrix/solvers/GAMG/";
  validation := None;
  note := Some (cat [
    "pitzDaily and motorBike BOTH select `GAMG` for p. brae substitutes AMG-preconditioned ";
    "PCG. That is a different algorithm with a different iteration count -- the solver must ";
    "say so, not silently substitute. SPEED, FP-12 (bench/rhoSimpleFoam/FASTPATH.md, ";
    "2026-09-13): the pressure equation is the largest phase of every rhoSimpleFoam ";
    "tutorial, 37-52% of the four, and the V-cycle is ~95% overhead rather than ";
    "arithmetic. On gasMixing/injectorPipe (74,650 cells, 11 levels, ~15 V-cycles per ";
    "iteration) the phase is 1,814 launches and 6.57 GPU ms -- 121 kernels per cycle, all ";
    "already inside a CUDA graph -- while three fine-level SpMVs move about 6 MB, some 12 ";
    "us of bandwidth against 290 us of measured cycle. The FP32 SpMV costs 4.2 us on ";
    "levels under 1,000 cells where an elementwise kernel on the same grid costs 0.76. ";
    "MEASURED AND REJECTED: a bigger coarsest level (BRAE_AMG_TARGET 32/100/200/500/1k/2k/";
    "5k gives p solve 4.5/4.2/5.8/8.4/12.7/23.9/34.7 ms/it on injectorPipe and ";
    "6.2/5.6/11.4/32.6/74.8/77.6/56.3 on squareBend -- the dense coarse LU punishes it); a ";
    "block sized to the level (bit-identical, 2.602 -> 2.533 ms SpMV on one case and ";
    "nothing on the other, reverted); the Gauss-Seidel smoother (BRAE_AMG_GS: p solve 4.4 ";
    "-> 13.0); and smoothed aggregation (BRAE_AMG_SA: the solve 4.4 -> 3.3 but the phase ";
    "7.1 -> 12.8, since its RAP setup runs every SIMPLE iteration -- and it scatters with ";
    "atomics, so it is not run-to-run deterministic, and squareBend diverges under it). ";
    "The FP32 V-cycle that is already the default is worth 0.8 ms/it. What the row points ";
    "at next, with the prize measured: fuse the coarse hierarchy into ONE kernel the way ";
    "device_dilu.cu walks its levels in a single block. THAT WAS WRITTEN AND IT LOSES ";
    "(2026-09-13): one block walking every level below a threshold -- down, the coarsest ";
    "LU solve, and back up -- is exactly bit-identical (100 iterations of injectorPipe, ";
    "every residual line) and slower at every threshold, 6.7/6.7/6.9/6.9/7.1/7.0 ms per ";
    "iteration for 64/128/256/512/1024/2048 cells against 6.5 unfused. The reason ";
    "corrects the earlier reading: these kernels are ALREADY graph nodes, so node ";
    "boundaries are cheap (fusing below 64 cells removes a dozen of them on levels where ";
    "one block is ample parallelism and gains nothing). What the coarse levels pay is the ";
    "device-side duration of a scattered indirect gather -- 4.2 us for the SpMV under ";
    "1,000 cells where zeroT on the same grid is 0.76 -- and one multiprocessor makes ";
    "that worse. Reverted; the finding is in device_amg_vcycle.cu. The candidate the ";
    "measurements still support is the coarse operator's LAYOUT, AND THAT ONE WORKS ";
    "(2026-09-13). Every grid now carries its rows contiguously -- entry i of row c is a ";
    "(value, column) pair, the cell's owner faces in ownerStart order then its neighbour ";
    "faces in losort order, which is the exact sequence the face-form kernel sums in, so ";
    "the terms, their order and the bits are unchanged (amulCsrFK against amulFK). The ";
    "values are refilled once per solve from the FP64 face arrays, replacing the two ";
    "casts that grid's upper and lower needed, so the layout costs no launch; the ";
    "structure is built once per hierarchy because the agglomeration is static for the ";
    "life of the mesh. MEASURED on gasMixing/injectorPipe: the SpMV goes 2.602 -> 1.634 ";
    "ms per iteration for the same 451 launches (-37%) and the whole iteration 13.79 -> ";
    "12.77 GPU ms. Pressure solve over three runs of 100 iterations: injectorPipe 4.3 -> ";
    "3.9, aerofoilNACA0012 2.9 -> 2.5, squareBendLiq 5.2 -> 4.8 ms/it; squareBend is flat ";
    "because it is transonic, where the asymmetric matrix puts the V-cycle inside ";
    "BiCGStab and the cycle is a smaller share of the solve. The threshold was swept and ";
    "EVERY grid wins, the finest included (4.3 / 4.3 / 4.2 / 4.0 / 3.9 / 3.8 ms for the ";
    "face form and thresholds 512 / 2,048 / 8,192 / 16,384 / all): the fine grid's owner ";
    "half is already sequential in the face arrays but its neighbour half is read through ";
    "losort. Bit-identical over 100 iterations on injectorPipe, squareBend, ";
    "aerofoilNACA0012 and squareBendLiq; BRAE_AMG_CSR=0 restores the face form and ";
    "BRAE_AMG_CSR_BELOW restricts it by grid size. THE TRANSONIC PATH IS A DIFFERENT ";
    "QUESTION (measured 2026-09-13): an asymmetric pressure matrix runs the FP64 cycle ";
    "with the two-stage Gauss-Seidel smoother, so the row layout -- built for the FP32 ";
    "mirrors -- never applies there; its FP64 SpMV is 1.41 of squareBend's pressure phase ";
    "(4.58 GPU ms per iteration) and would take the same 37%. But that phase is only 38% ";
    "GPU-BUSY under nsys, and so is injectorPipe's: the four phases are 10.92 busy of ";
    "23.41 wall on squareBend and 12.64 of 25.64 on injectorPipe (about 60% and 75% ";
    "unprofiled). The idle time is host launch throughput -- 656 cudaLaunchKernel calls ";
    "across 17 gaps, 38 per gap, because only the SOLVERS are captured into graphs while ";
    "the assemblies, boundary updates and reporting are not -- plus one blocking ";
    "reduction per iteration feeding the flow-rate inlet (463 us). So the transonic tail ";
    "belongs to the launch-floor row, not to the V-cycle. WHAT THE HOST IS DOING, counted on ";
    "squareBend (2026-09-13): 49.6 blocking cudaMemcpy per iteration at 7.04 ms of API time, 5 ";
    "cudaDeviceSynchronize at 1.39, and 1,004 cudaLaunchKernel at 4.45. Two wasteful items ";
    "were removed -- the SIMPLEC row sum built and uploaded a host vector of nCells ones on ";
    "EVERY iteration (a blocking 896 KB copy, 0.53 ms/it, where deviceOnes already existed) ";
    "and the continuity report recomputed sum(V), a mesh property, and took three blocking ";
    "reductions where one cached value and one mailbox read do. Blocking operations fell 54.6 ";
    "-> 50.6 per iteration and their API time 8.43 -> 6.80 ms. THE WALL DID NOT MOVE, and that ";
    "is the lesson: a blocking copy's API duration is mostly the host waiting for work the GPU ";
    "would do anyway, not idle GPU. The idle GPU is the 2.4 ms/it of gaps where the host issues ";
    "~38 kernels apiece, and closing those needs whole-phase graph capture, whose prerequisite ";
    "is hoisting the assemblies' pool-allocated temporaries into a stable workspace."]);
  selection_base := None;
  schema_for := Some "GAMGSolver";
  other := [] |}.

Definition c_dispatch_note_1 : string := cat [
    "OPT-IN via BRAE_SIMPLEFOAM_V2=1 while the envelope is small, and there is deliberately ";
    "NO try/catch around it: selected-but-unsupported must stop, never fall through to the ";
    "old solver. A user who asked for the new path and silently got the old one cannot tell ";
    "from the output which algorithm produced the answer. ENVELOPE TODAY: steady, laminar, ";
    "upwind or linearUpwind div(phi,U), orthogonal or `corrected` laplacian, SIMPLE or SIMPLEC, ";
    "no MRF/fvOptions, no fixedFluxPressure, no coupled patches -- stock pitzDaily and ";
    "pitzDailyTurb (RAS/kEpsilon) is inside it. The non-orthogonal check reads ";
    "laplacianSchemes ONLY: `laplacianSchemes Gauss linear orthogonal` builds an orthogonal ";
    "laplacian whatever snGradSchemes says, since snGradSchemes governs explicit fvc::snGrad ";
    "which in simpleFoam appears only in the refused SIMPLEC branch. ";
    "NON-ORTHOGONAL CORRECTION: implemented on the _cpp reference exactly as OpenFOAM defines ";
    "it -- BOTH halves, which is the part that is easy to miss: the implicit face ";
    "coefficient switches to nonOrthDeltaCoeffs = 1/max(n.delta, 0.05|delta|) ";
    "(correctedSnGrad.H:108-119, basicFvGeometryScheme.C:266) AND an explicit deferred ";
    "source -V*div(gamma*magSf*(corrVecs & interpolate(grad(vf)))) is added ";
    "(gaussLaplacianScheme.C), with corrVecs zero on boundary faces. VALIDATED against REAL ";
    "OpenFOAM (ctest: nonorth_vs_openfoam, which generates the reference by running ";
    "simpleFoam itself): on validation/shearedChannel -- genuinely non-orthogonal and using ";
    "only implemented schemes -- U 6.92e-04 and p 3.75e-04 vs OpenFOAM WITH the correction, ";
    "against U 8.47e-02 and p 1.37e-01 without it, i.e. 122x and 365x. The control requiring ";
    "the uncorrected path to be >=20x worse is the substance of that gate: on a ";
    "near-orthogonal mesh like pitzDaily every brae path agrees to 4 digits whether or not ";
    "the term is applied, so a gate there would pass with the code deleted. A SIGN ERROR was ";
    "found by this measurement -- divDevReff returns MINUS the laplacian, so its source ";
    "contribution is +V*div(...) while the pressure laplacian keeps OpenFOAM's own sign; ";
    "writing the laplacian sign in both places made U worse with the correction on (1.69e-01) ";
    "while p improved, and that asymmetry is what localised it. ";
    "THE CUDA SIDE IS NOW DONE TOO and carries both halves: deviceLaplacianCoeffs(..., ";
    "nonOrth=true) for the implicit coefficient and deviceLaplacianCorr for the deferred ";
    "source, in UEqn.cu (momentum, sign -1 because divDevReff carries minus the laplacian) ";
    "and pEqn.cu (pressure, sign +1). Matched to the reference at 2.9e-16 on the relaxed ";
    "diag and <=9.2e-16 on every source component, with controls asserting BOTH halves move ";
    "something (implicit 2.0e-03, explicit 1.7e-03 on U; 3.5e-03 and 7.0e-02 on p) so the ";
    "machine-precision agreement is not vacuous. The nonorth_vs_openfoam gate gained a CUDA ";
    "column that reproduces the reference against real OpenFOAM digit for digit: U 6.9193e-04 ";
    "and p 3.7529e-04, versus 8.4713e-02 / 1.3702e-01 uncorrected. TWO ORDERING TRAPS, both ";
    "of which built and ran clean while being wrong: (1) deviceDivDevReff ASSIGNS the ";
    "momentum source (device_divdevreff.cu, `dX[c] = d[0]`) rather than accumulating, so the ";
    "correction must be added AFTER it -- added before, it is silently discarded; (2) in the ";
    "diagnostic the GPU flags were copied from the host struct at the point `gin` is filled ";
    "in, which runs BEFORE those host flags are assigned, so the device got the struct ";
    "defaults and the CUDA column reproduced the uncorrected answer to five digits. Both ";
    "were caught by the gate's control, not by the build. `limited <coeff>` is REFUSED ";
    "separately: limitedSnGrad caps the correction and only `limited 1` equals `corrected`, ";
    "so accepting the whole family would over-correct. STILL OPEN for stock pitzDaily: ";
    "linearUpwind and SIMPLEC (`consistent yes`), which is what that case ships -- both ";
    "remain blockers. KNOWN NARROW GAP: on COUPLED patches OpenFOAM passes the corrected ";
    "deltaCoeffs to gradientInternalCoeffs (gaussLaplacianScheme.C, the pvf.coupled() ";
    "branch) while uncoupled patches use the plain ones; neither brae path does the coupled ";
    "variant, which is unreachable today because coupled patches are refused outright, and ";
    "must be revisited when they are added. ";
    "ENVELOPE WIDENING: `bounded` (-fvm::Sp(fvc::div(phi),U)) is DONE on both paths and ";
    "matched to 2.9e-16 (tests/test_ueqn_cuda.cu), with a control asserting the term ";
    "actually contributes -- it is ~2e-08 of the diagonal on a converged case because it ";
    "vanishes exactly at convergence, which is why agreement alone cannot prove it was ";
    "applied. The kernel sequence is the existing GPU driver's (device_simple_foam.cu:1150) ";
    "minus the cyclic/AMI additions. An earlier report that the CUDA term was a NO-OP was ";
    "wrong: the test's struct is `gi` and the patch set `gmi`, so the flag was never ";
    "enabled. ";
    "linearUpwind IS DONE on both paths. linearUpwind derives from `upwind`, so the MATRIX ";
    "is unchanged and the entire scheme is a deferred source correction ";
    "corr_f = (Cf - C_up) & grad(vf)_up, entering as `fvm += fvc::surfaceIntegrate(phi*corr)` ";
    "-- which is `source -= faceSum(...)`, since fvMatrix::operator+=(DimensionedField) is ";
    "`source() -= V*su` (fvMatrix.C:1855). Boundary faces contribute NOTHING on uncoupled ";
    "patches: linearUpwind::correction fills only the pvf.coupled() branch, so that is the ";
    "scheme, not an omission. OpenFOAM's `vector` SPECIALISATION uses one tensor grad(U) ";
    "rather than three scalar grads; the device does it per component, which is the same ";
    "field under grad(U)_ij = d(U_j)/dx_i, not an approximation. CUDA matches the reference ";
    "at 6.4e-16/8.8e-16 on the source with a control asserting the term moves the source ";
    "(3.5e-03) AND leaves the matrix EXACTLY alone -- a diagonal that moved would mean the ";
    "implicit weights had been changed, which is not what OpenFOAM does. The named gradient ";
    "is GUARDED: `linearUpwind grad(U)` resolves grad(U) through gradSchemes ";
    "(linearUpwind.H gradSchemeName_ -> mesh.gradScheme(name)), and anything but Gauss ";
    "linear -- cellLimited, leastSquares -- is REFUSED, because this correction does not ";
    "vanish at convergence and a different gradient is a different answer. GATE: ";
    "ctest linearupwind_vs_openfoam generates the oracle by running simpleFoam on ";
    "pitzDaily's own discretisation and CONTROLS with a plain-upwind brae run: ";
    "linearUpwind lands 1.9x (U), 3.2x (k), 2.4x (epsilon), 2.0x (nut) closer to OpenFOAM ";
    "than upwind does, measured in L2 -- pitzDaily's MAX-norm error sits in a few cells at ";
    "the step corner and is ~9.3e-02 whatever the scheme is, so the max norm cannot see ";
    "this term at all. Proven to FAIL with the correction disabled (every ratio collapses ";
    "to exactly 1.00x). ";
    "SIMPLEC (`consistent`) IS DONE on both paths: rAtU = 1/(1/rAU - UEqn.H1()), with ";
    "phiHbyA += interpolate(rAtU-rAU)*snGrad(p)*magSf and HbyA -= (rAU-rAtU)*grad(p), placed ";
    "AFTER adjustPhi as pEqn.H places them. matrixH1 (lduMatrixATmul.C) and fvc::snGrad ";
    "(snGradScheme.C + correctedSnGrad.C) were added for it. On the device the flux term is ";
    "written as a LAPLACIAN FLUX plus its non-orth part rather than as an explicit snGrad, ";
    "because fvm::laplacian(gamma,p).flux() IS gamma_f*magSf_f*snGrad(p)_f -- that keeps the ";
    "correction consistent with the equation it corrects by construction. What is still ";
    "refused is constrainPressure, i.e. a fixedFluxPressure patch: brae maps that type to ";
    "zeroGradient, which is the same BC only when the imposed flux is zero. ";
    "A REAL DEFECT WAS FOUND BY THIS WORK, in the non-orthogonal correction rather than in ";
    "SIMPLEC. fvMatrix::flux() adds faceFluxCorrectionPtr_ (fvMatrix.C:1688), which ";
    "gaussLaplacianScheme stores alongside the source correction (gaussLaplacianScheme.C:";
    "186-199). brae had the correction in the pressure equation's SOURCE and NOT in ";
    "pEqn.flux(), so `phi = phiHbyA - pEqn.flux()` dropped it and phi was not conservative ";
    "on a non-orthogonal mesh -- silently, because the pressure equation still solved and ";
    "every per-stage test still passed at 1e-16. It was exposed by a control that has ";
    "nothing to do with fluxes: SIMPLEC and plain SIMPLE must converge to the SAME fixed ";
    "point, since SIMPLEC changes the iteration and not the discrete system, and brae's ";
    "differed by 5.3e-03 (U, L2). FIXED by porting faceFluxCorrection onto FvMatrix and ";
    "PressureMatrix, with the per-cell source now computed FROM the face flux so the two ";
    "cannot drift apart. Effect: SIMPLEC-vs-SIMPLE 5.3e-03 -> 2.8e-04; the nonorth gate on ";
    "shearedChannel U 6.92e-04 -> 3.12e-05 and p 3.75e-04 -> 2.69e-06 against real ";
    "OpenFOAM, its discriminating ratio 122x -> 2716x, and its bound tightened 5e-03 -> ";
    "1e-04 accordingly. ";
    "STOCK pitzDaily NOW RUNS AND IS GATED (ctest stock_pitzdaily_vs_openfoam): SIMPLEC + ";
    "bounded Gauss linearUpwind grad(U) + Gauss linear corrected + RAS/kEpsilon, ";
    "unmodified apart from tightening residualControl from the stock `p 1e-2` (at which ";
    "both solvers stop early at different states, so the comparison would measure where ";
    "each stopped). vs real OpenFOAM, L2: U 5.18e-03, p 2.25e-02, k 1.85e-02, ";
    "epsilon 3.82e-02, nut 2.75e-02, and brae is settled -- iteration 749 vs 2000 differs ";
    "by 1.8e-08. The gate also asserts every feature is REPORTED as applied, so a silent ";
    "skip fails it. ";
    "PERFORMANCE, measured on GB10 vs OpenFOAM v2412 on 20 cores, 100 SIMPLE iterations on ";
    "scaled pitzDaily (12k/110k/440k/1.22M): the rebuilt path was NOT reading the case's ";
    "fvSolution solver settings at all -- StepInput hardcoded tolerance 1e-10 / relTol 0 ";
    "while pitzDaily asks for relTol 0.1 -- so every inner solve ran to near machine ";
    "precision every outer iteration. nsys: 614 fine-grid SpMV per SIMPLE iteration against ";
    "the existing GPU driver's 62. FIXED by reading solvers/p and solvers/U (subDict ";
    "resolves OpenFOAM regex keys, so `" ++ dq ++ "(U|k|epsilon|omega|f|v2)" ++ dq ++ "` is found by " ++ dq ++ "U" ++ dq ++ "); ";
    "maxIter is read too, since an `maxIter 10` caps the answer. Effect: 2.3-2.6x faster at ";
    "every mesh size (1.22M: 166s -> 67s) with the converged answer UNCHANGED -- U L2 vs ";
    "OpenFOAM is 5.1790e-03 before and after, which is the point: the inner tolerance ";
    "changes the path, not the fixed point. Side effect on the gate: brae now plateaus like ";
    "OpenFOAM (U ~9e-06, p ~2e-04, flat from iteration ~700) instead of reaching a tight ";
    "residualControl, so stock_pitzdaily_vs_openfoam now ASSERTS settledness by re-running ";
    "to half the endTime rather than trusting a residual. REMAINING GAP to the existing GPU ";
    "driver is ~2.3x and is now dominated by the MOMENTUM solve: the rebuilt path uses ";
    "Jacobi-BiCGStab (~42 iterations per component per outer step, ~90% of all ";
    "linear-algebra time) where the case asks for smoothSolver/symGaussSeidel, which brae ";
    "already implements and the old driver uses (gsColorT). Also unwired on this path: the ";
    "AMG V-cycle CUDA-graph capture (deviceAMGPCG's captureVcycle defaults false; the old ";
    "driver passes useGraph=true), the PCG residual-read cadence (checkEvery), and the ";
    "turbulence hook's nuEff refresh, which round-trips nut to the HOST and does the face ";
    "interpolation there every iteration when deviceInterpolate would keep it resident. ";
    "The rebuilt driver also writes only its final time -- writeInterval is not honoured. "].

Definition c_dispatch_note_2 : string := cat [
    "FOLLOW-UP, all measured on the same sweep (100 iterations, seconds, 12k/110k/440k/1.22M). ";
    "(a) The MOMENTUM solver was routed to smoothSolver/symGaussSeidel, which is what the case ";
    "asks for and what the existing driver uses -- a real fidelity fix (it was a silent solver ";
    "substitution) but PERFORMANCE-NEUTRAL: 6.99->6.49 / 11.95->11.05 / 28.52->30.11 / ";
    "67.05->69.44. An earlier reading of the profile had attributed ~90% of linear-algebra ";
    "time to it; removing BiCGStab from U cut only ~7% of the SpMV, so that attribution was ";
    "wrong and is retracted. (b) The ACTUAL cost was the same defect one level down: the ";
    "turbulence hook passed a hardcoded tol=1e-10 with relTol 0 to deviceKEpsilonCorrect, so ";
    "k and epsilon were solved to near machine precision every outer iteration. Phase timing ";
    "found it -- the hook was 174.5 ms of a ~300 ms outer iteration at 440k, and only 6.1 ms ";
    "of that was the nuEff host round-trip everyone would suspect. Reading solvers/k ";
    "(tolerance, relTol, smoother) cut the hook to 48.7 ms and the run to ";
    "1.87/4.30/17.35/47.94. (c) The nuEff host round-trip is therefore NOT worth fixing on ";
    "cost grounds (6 ms); it stays on the list only as an unnecessary host dependency. ";
    "(d) CUDA GRAPH: deviceAMGPCG on CUDA>=13 already dispatches to a DEVICE-RESIDENT ";
    "conditional-graph PCG (BRAE_PCG_DEVICE, default on) that captures the whole Krylov loop, ";
    "measured A/B 17.9 s on vs 18.7 s off at 440k. The captureVcycle/checkEvery arguments ";
    "this path now passes explicitly are ignored by that dispatch and reach only the ";
    "host-driven fallback -- worth knowing before anyone else measures them and concludes ";
    "graphs do nothing. (e) AMG SMOOTHED AGGREGATION cuts the pressure iteration count ";
    "roughly in half (BRAE_AMG_SA=1 36->27, with BRAE_AMG_GS=1 36->19 AMG-PCG iterations for ";
    "a 10x residual drop at 440k) but does NOT reduce wall time -- each cycle costs more than ";
    "the halved count saves -- so neither is enabled by default. NET: 17.90->2.60 (12k), ";
    "28.05->4.83, 67.58->17.27, 165.84->47.19 (1.22M), i.e. 3.5-6.9x, with the answer ";
    "unchanged (U L2 vs OpenFOAM 5.1790e-03 -> 5.1805e-03). Reference points on the same box: ";
    "OpenFOAM v2412 on 20 cores 1.04/2.52/8.85/26.56 and brae's existing GPU driver ";
    "2.04/4.43/14.79/39.42. STILL OPEN: the GPU is busy 74 ms of a 173 ms outer iteration at ";
    "440k, the rest being blocking scalar convergence reads (188 per outer iteration); ";
    "closing that needs the outer loop itself captured, not the inner solves. Also open as ";
    "FIDELITY, not speed: div(phi,k)/div(phi,epsilon) are run as upwind while pitzDaily asks ";
    "for `bounded Gauss limitedLinear 1`, and the envelope guard does not check them. ";
    "AMG REUSE: the hierarchy is built ONCE per run and reused across every SIMPLE iteration ";
    "(SolverWorkspace::amgBuilt); only the coarse-operator VALUES are re-Galerkined each ";
    "iteration, which is required because the fine coefficients change. Across RUNS it was ";
    "cold every time -- the rebuilt driver called buildAMG, not buildOrLoadAMG -- so the ";
    "existing .brae_amgcache serialization of the agglomeration STRUCTURE was unreachable ";
    "from this path. Now opt-in via BRAE_AMG_CACHE=1, which writes ";
    "constant/polyMesh/.brae_amgcache and reloads it when it is newer than `owner`: startup ";
    "at 1.22M cells 7.27 s cold -> 4.92 s warm (the whole run is ~47 s, so ~5%). ";
    "SCALING to 4.89M cells, 100 iterations: OpenFOAM v2412 on 20 cores 125.4 s, brae's ";
    "existing GPU driver 155.4 s, the rebuilt path 211.2 s. The OF-to-brae ratio narrows ";
    "with mesh size but slowly -- 2.5x at 12k, 2.0x at 440k, 1.8x at 1.22M, 1.7x at 4.89M -- ";
    "so on THIS hardware (GB10, a workstation part with modest FP64) brae does not overtake ";
    "a 20-core CPU by extrapolation. AMG mode at 4.89M: SA+GS 202.8 s and SA 207.4 s beat ";
    "the default 211.2 s by only 2-4%, while GS ALONE is clearly worse at 247.9 s (+17%). ";
    "SA halves the pressure ITERATION count (36->19 at 440k) at every size but only starts ";
    "paying for itself in wall time around 5M, so it stays off by default and GS-without-SA ";
    "should be avoided. ";
    "TUTORIAL SWEEP of all 17 incompressible/simpleFoam tutorials: 4 skipped (no mesh ";
    "without snappyHexMesh/m4/extrude), 13 meshable, of which 2 run -- pitzDaily and ";
    "pitzDailyExptInlet -- and 11 are refused with named reasons. Tally of what blocks them: ";
    "turbulence model 5 (kOmegaSST x3, realizableKE, kOmegaSSTLM), div(phi,U) scheme 5 ";
    "(LUST, linearUpwindV, limitedLinearV x2, fusedGauss), fvOptions 3, MRF 1, cyclicAMI 1, ";
    "transient ddt 1, laplacian `limited` 1, and linearUpwind naming a cellLimited gradient ";
    "1. Nothing ran and gave a wrong answer; every refusal named its component. ";
    "THAT SWEEP MEASURES THE REBUILD, NOT brae. Re-run offering each meshed tutorial to BOTH ";
    "paths: the SHIPPED driver runs 9 of 9 -- backwardFacingStep2D, pipeCyclic, pitzDaily, ";
    "pitzDailyExptInlet, rotatingCylinders, rotorDisk, simpleCar, T3A, and motorBike ";
    "(353,784 cells, snappyHexMesh, kOmegaSST + linearUpwindV, producing Cd/Cl/Cm through ";
    "its forceCoeffs functionObject) -- while the rebuilt path runs 2. The shipped path ";
    "wires 13 turbulence models (kEpsilon, kOmega, kOmegaSST + DES/IDDES/LM, realizableKE, ";
    "RNGkEpsilon, SpalartAllmaras + DDES/IDDES, Smagorinsky, WALE, laminar), MRF, fvOptions, ";
    "cyclic/cyclicAMI/cyclicACMI, porosity. The gap is the REBUILD's by construction: this ";
    "port admits a component only after it is validated against OpenFOAM, and refuses ";
    "otherwise. Closing it is wiring plus gating, not new CUDA -- the device kernels for ";
    "linearUpwindV, limitedLinear(+V), LUST, vanAlbada and the other turbulence models ";
    "already exist and the shipped path drives them. MESHING is not and never was brae's: ";
    "blockMesh/snappyHexMesh are OpenFOAM's, and the `no mesh` rows in the first sweep were ";
    "the sweep harness failing to drive each tutorial's own workflow (geometry copied from ";
    "tutorials/resources/geometry, m4, snappy), not a brae capability. motorBike is the ";
    "proof: meshed with OpenFOAM's own tools, brae reads it and solves it. ";
    "kOmegaSST IS NOW PORTED, and driven from ofscan rather than from tutorial refusals -- ";
    "which was the wrong source of truth and is corrected: `ofscan impls ";
    "incompressible::turbulenceModel` enumerates 26 models, and `ofscan schema ";
    "kOmegaSSTBase` gives 17 dictionary keys with defaults and file:line. That enumeration ";
    "immediately found a gap no tutorial exercises: brae reads 13 of the 17 and not ";
    "decayControl/kInf/omegaInf. THE _cpp REFERENCE CAME FIRST, per the port discipline: ";
    "kOmegaSST_cpp transcribes kOmegaSSTBase::correct() -- S2, GbyNu0, CDkOmega, F1, F2, ";
    "the GbyNu production limiter, both transport equations, the omega wall function ";
    "(blender BINOMIAL n=2 by default: omega = sqrt(omegaVis^2 + omegaLog^2)) and ";
    "correctNut -- and REFUSES F3, decayControl, MRF and fvOptions. Two transcription ";
    "subtleties it has to get right and which a fused port hides: the k equation takes G ";
    "from the RAW GbyNu0 while the omega equation takes the LIMITED one (kOmegaSSTBase.C ";
    "reassigns GbyNu0 only after G is formed), and correctNut(S2) at the end uses the OLD ";
    "S2 but F23() re-read from the NEW post-solve k/omega. ";
    "THE ORACLE IS THE EQUATION RESIDUAL, not a fixed point: at OpenFOAM's converged ";
    "pitzDaily-kOmegaSST fields our assembled equations give omega 3.99e-03 and k 1.53e-02 ";
    "in OpenFOAM's own normalisation, and a (k,omega)x1.5 perturbation raises them to ";
    "7.10e-02 / 7.70e-02 (the control). The tempting test -- run one correct() and check ";
    "nothing moves -- was tried and is INVALID here, because OpenFOAM stops on a residual ";
    "plateau rather than at an exact fixed point, so solving from its state to 1e-12 moves ";
    "omega by 1.5e-01 in max norm with nothing wrong; that measurement is what localised ";
    "the oracle, after first confirming the wall cells were fine (1.1e-03), the wall ";
    "distance right (max 0.0252 m against a 0.0254 m half-height) and the solves converged ";
    "(47 iterations to 3.6e-13). GbyNu0 and S2 agree to four digits on this field, which is ";
    "the expected identity for divergence-free flow and an independent cross-check of two ";
    "separate transcriptions. END TO END the CUDA path then runs the same case and agrees ";
    "with real OpenFOAM at U 9.25e-03, p 1.81e-02, k 2.42e-02, nut 3.50e-02 (L2), ";
    "comparable to the kEpsilon path's U 5.18e-03. STILL OPEN, and NOT started: ";
    "linearUpwindV, limitedLinearV, limitedLinear, LUST, fvOptions, MRF, cyclicAMI, ";
    "realizableKE and kOmegaSSTLM. kEpsilon also still has NO _cpp reference -- it was ";
    "wired straight to CUDA earlier in this port, which is the gap this component avoided. ";
    "LIMITED/BLENDED CONVECTION SCHEMES, _cpp reference: ofscan enumerates 78 ";
    "surfaceInterpolationScheme implementations, of which this step ports the weight side of ";
    "three -- LUST, limitedLinear and limitedLinearV. The classification is the part that ";
    "matters and is easy to get silently wrong: `upwind` is weights only; `linearUpwind` ";
    "derives from upwind so its weights are UNCHANGED and it is a deferred correction only; ";
    "`limitedLinear`(+V) is weights only; `LUST` is BOTH (LUST.H overrides weights() as ";
    "0.75*linear + 0.25*upwind AND correction() as 0.25*linearUpwind's). A scheme ported as ";
    "the wrong one of those three still converges to a plausible answer. Transcribed: ";
    "weights = limiter*CDweights + (1-limiter)*pos0(phi) ";
    "(limitedSurfaceInterpolationScheme.C), limiter = clamp(twoByk*r, 0, 1) with ";
    "twoByk = 2/max(k,SMALL) (limitedLinear.H:82), r = 2*(gradcf/gradf) - 1 with OpenFOAM's ";
    "own 1000x guard (NVDTVD.H), and for the V forms gradf = gradfV & gradfV with ";
    "gradcf = gradfV & (d & gradc) (NVDVTVDV.H) -- ONE limiter shared across the three ";
    "components. fvm::div gained a weights overload so `upwind` is just the pos0 special ";
    "case and every existing call site is untouched. VALIDATED against exact properties of ";
    "OpenFOAM's source rather than a stored field: LUST reproduces its blend identity to ";
    "0.0e+00, limitedLinear collapses to upwind as k->inf (4.0e-10, asymptotic not exact -- ";
    "twoByk*r is ~1e-9 there, and an exact-equality assertion was wrong), reaches the linear ";
    "limit on 22939 of 24170 faces at k->0, and all three stay inside the TVD bound [0,1]. ";
    "THE CONTROL that earns the V variant: limitedLinearV differs from per-component ";
    "limitedLinear by 5.49e-01, so limiting the components independently would have been a ";
    "different scheme, not a rounding difference. NOT YET DONE for these schemes: the ";
    "wiring into UEqn (scheme selection), the envelope acceptance, LUST's 0.25x ";
    "linearUpwind correction at the call site, and the CUDA comparison -- so the envelope ";
    "still REFUSES all of them, which is the correct state until they are gated. ";
    "linearUpwindV is NOT started (deviceLinearUpwindVCorr exists on the device side). ";
    "THE THREE SCHEMES ARE NOW WIRED AND GATED on both paths. fvm::div gained a weights ";
    "overload; UEqn_cpp gained divWithScheme() branching on DivScheme, and a ";
    "correctionFactor() that is a FACTOR rather than a flag because LUST carries 0.25 of ";
    "linearUpwind's deferred correction as well as its own weights. The CUDA side branches ";
    "the same way: deviceDivLimitedCoeffs (on magSqr(U)), deviceDivLimitedVCoeffs, and for ";
    "LUST a 0.75/0.25 blend of the CENTRAL and UPWIND coefficient arrays -- exact, not an ";
    "approximation, because the coefficients are linear in the weights. fvc::gaussGrad ";
    "gained an array form so magSqr(U) does not need a synthetic GeometricField with ";
    "invented boundary types. ";
    "GATE (ctest divschemes_vs_openfoam): each scheme run in OpenFOAM AND in brae on ";
    "pitzDaily, with a plain-upwind brae run against the same oracle as the CONTROL. U ";
    "cannot discriminate -- every scheme including upwind lands within ~5.5e-03 of "].

Definition c_dispatch_note_3 : string := cat [
    "OpenFOAM -- so the gate asserts on k, where the convection scheme actually bites: ";
    "limitedLinear 1.88e-02 vs upwind 5.39e-02 (2.87x), limitedLinearV 1.85e-02 vs 5.53e-02 ";
    "(2.99x), LUST 1.88e-02 vs 5.69e-02 (3.03x). ";
    "CUDA vs the reference with a limiter active is 5.5e-12 on the off-diagonals, NOT the ";
    "1e-16 the upwind path reaches, and that is the scheme's arithmetic rather than a ";
    "defect: r = 2*(gradcf/gradf) - 1 divides by a face difference that approaches zero in ";
    "smooth regions, so the ~1e-16 disagreement between the host and device Gauss gradients ";
    "(different face summation order) is amplified. test_ueqn_cuda therefore carries a ";
    "SCHEME-AWARE tolerance -- 1e-13 for upwind, 5e-11 with a limiter -- with a control ";
    "asserting the limiter moves the off-diagonals by 4.4e-01, so the looser bound is not ";
    "hiding an absent term. Envelope: five div(phi,U) schemes accepted by name, everything ";
    "else refused; the scheme COEFFICIENT is read too, since `limitedLinear 0.2` is a ";
    "materially different scheme from `limitedLinear 1`. ";
    "linearUpwindV IS NOW PORTED TOO, and it is the fourth KIND: weights UNCHANGED (it ";
    "derives from upwind like linearUpwind) but a DIFFERENT correction, not a scaled one, ";
    "so it could not be folded into the LUST correction factor. linearUpwindV.C limits the ";
    "correction against the owner-to-neighbour jump PROJECTED ON THE CORRECTION'S OWN ";
    "DIRECTION: s = magSqr(corr), mx = corr & maxCorr, and then corr is zeroed when mx < 0 ";
    "or scaled by mx/(s + VSMALL) when s > mx -- a test over the VECTOR, so it cannot be ";
    "applied per component, the same trap limitedLinear/limitedLinearV sets. The face ";
    "corrections are exposed (linearUpwindVFaceCorrection) and the per-cell sum computed ";
    "FROM them, because the limiter has an exact postcondition that is only checkable per ";
    "face: after limiting, either corr == 0 or 0 <= magSqr(corr) <= corr & maxCorr. On ";
    "pitzDailyTurb that holds on all 24170 faces with 0 violations, 125 zeroed and 12557 at ";
    "the limit, and the result differs from the UNLIMITED linearUpwind correction by ";
    "8.87e-01 -- the limiter is the scheme, not a detail. Gate: 2.90x closer to OpenFOAM ";
    "than upwind on k (1.87e-02 vs 5.42e-02). ";
    "CUDA-vs-REFERENCE AT MATRIX GRANULARITY for every ported scheme, one ctest each, and ";
    "the numbers correct the earlier blanket tolerance: linearUpwindV 2.9e-16 diag / 0.0 ";
    "upper and LUST 3.0e-16 / 1.1e-16 reach MACHINE PRECISION, while limitedLinearV is ";
    "1.4e-13 and limitedLinear 5.5e-12. Only the r-ratio limiters amplify, because only ";
    "they divide by a face difference that approaches zero; giving LUST and linearUpwindV ";
    "the loose 5e-11 bound would have hidden a real defect in them, so the tolerance is now ";
    "per-scheme. linearUpwindV additionally asserts its matrix is EXACTLY upwind's ";
    "(rel = 0.0) -- for a correction-only scheme, asserting the matrix MOVED would assert ";
    "the opposite of the port. ";
    "realizableKE IS NOW PORTED. ofscan's schema gives its four keys (A0 4.0, C2 1.9, ";
    "sigmak 1.0, sigmaEps 1.2). Three things make it realizableKE rather than k-epsilon ";
    "with different constants, and each is a place a port silently becomes the standard ";
    "model: (1) Cmu IS NOT CONSTANT -- rCmu = 1/(A0 + As*Us*k/eps) with As from the strain ";
    "invariants through W = 2*sqrt(2)*((S&S)&&S)/(magS*S2 + SMALL) and ";
    "phis = acos(clamp(sqrt(6)*W,-1,1))/3; (2) S2 = 2*magSqr(devSymm(gradU)) -- devSymm, ";
    "NOT the symm kOmegaSST uses a few directories away, and they differ by the trace term; ";
    "(3) the EPSILON EQUATION IS A DIFFERENT EQUATION -- C1*magS*eps production with ";
    "C1 = max(eta/(5+eta), 0.43) and C2*eps/(k + sqrt(nuLimited*eps)) destruction, with ";
    "neither kEpsilon's C1*Cmu*k*GbyNu production nor its divU SuSp term. The k equation ";
    "IS kEpsilon's shape. Wall functions keep Cmu = 0.09 regardless, because OpenFOAM's ";
    "nutk/epsilon wall functions read it from their own patch dictionaries. ";
    "_cpp reference validated on the same residual oracle as kOmegaSST: at OpenFOAM's ";
    "converged pitzDaily-realizableKE fields our equations give epsilon 4.82e-03 and ";
    "k 2.26e-05. The perturbation control had to be REDESIGNED: scaling k and epsilon ";
    "TOGETHER barely moves the epsilon residual (4.82e-03 -> 8.48e-03, 1.8x) because the ";
    "destruction term C2*eps/(k + sqrt(nu*eps)) is a ratio in which a common factor largely ";
    "cancels -- so each equation is now probed by perturbing ITS OWN field, giving 26x on ";
    "epsilon and 11x on k. Sharpening the probe was the right fix; loosening the threshold ";
    "would have hidden the cancellation instead of exposing it. Two controls say WHICH ";
    "model was ported: rCmu varies over [0.0239, 0.2500] (a constant 0.09 would be standard ";
    "k-epsilon, which would still work and still converge) and devSymm-S2 differs from ";
    "symm-S2 by 5.84e+05. CUDA needed no new kernel -- KEpsilonCoeffs::realizable already ";
    "selects the variable Cmu, the strain production and the modified destruction inside ";
    "the fused deviceKEpsilonCorrect -- so the wiring is a coefficient change, and the ";
    "envelope now accepts kEpsilon, realizableKE and kOmegaSST. End to end vs real ";
    "OpenFOAM: U 5.41e-03, p 2.80e-02, k 2.66e-02, epsilon 3.09e-02, nut 4.14e-02 (L2), ";
    "in line with kEpsilon's U 5.18e-03. ";
    "fvOptions is NOT started and is deliberately not half-started: ofscan counts 46 ";
    "implementations, and the port splits into a FRAMEWORK (reading system/ or ";
    "constant/fvOptions, the selectionMode cell selection, and the three hooks UEqn.H/pEqn.H ";
    "use -- fvOptions(U) as a source, fvOptions.constrain(UEqn), fvOptions.correct(U)) plus ";
    "individual sources. The three refused tutorials need three different ones: ";
    "explicitPorositySource/DarcyForchheimer (simpleCar), rotorDiskSource (rotorDisk) and ";
    "actuationDiskSource (turbineSiting), so the framework buys nothing on its own. ";
    "THE FRAMEWORK AND explicitPorositySource ARE NOW PORTED. The framework reads system/ or ";
    "constant/fvOptions, resolves the selection through the EXISTING cellSetOption port ";
    "(cell_selection.cuh, written for MRF and reused rather than rewritten), and applies ";
    "UEqn.H's `== fvOptions(U)`; fvOptions.constrain(UEqn) and fvOptions.correct(U) are NOT ";
    "implemented for any option. Any option whose TYPE is not ported is refused BY NAME -- ";
    "reading the framework as `fvOptions is supported` would be precisely the silent ";
    "substitution this guard exists for, and ofscan counts 46 fv::option implementations. ";
    "THE SIGN passes through two negations that cancel: explicitPorositySource does ";
    "`eqn -= porosityEqn` and simpleFoam writes `UEqn == fvOptions(U)`, so the net effect is ";
    "the porosity equation as written -- diag += V*tr(Cd), source -= V*((Cd - I*tr(Cd))&U) ";
    "with Cd = nu*D + |U|*F. Applying one negation and not the other gives a porosity that ";
    "ACCELERATES the flow, so the unit test asserts a positive diagonal explicitly. Other ";
    "transcription points: the 0.5 lives in F (calcTransformModelData's forchCoeff), NOT in ";
    "the resistance; and DarcyForchheimer looks up the field NAMED `nu`, the LAMINAR ";
    "viscosity, not nuEff -- using nuEff would make the Darcy resistance scale with the ";
    "turbulence model. On the device the coordinate system must be IDENTITY: the existing ";
    "deviceFvoPorosity kernels take diagonal d/f, so a rotated coordinateSystem is REFUSED ";
    "rather than having its off-diagonals dropped. ";
    "UNIT (ctest fvoptions_cpp, on simpleCar's mesh): the cellZone resolves to exactly the ";
    "10 cells OpenFOAM's own topoSet reports (12750-12759), D.xx = 5e7 with d.y = -1000 ";
    "keeping its sign, D diagonal under an identity system, and the resistance matches ";
    "DarcyForchheimerTemplates.C to 6.8e-18 on the diagonal and 3.3e-21 on the source, with ";
    "the 12930 cells outside the zone left untouched. ";
    "END-TO-END (ctest fvoptions_vs_openfoam) IS NOT ON simpleCar, and the reason is a ";
    "finding in itself: brae disagrees with OpenFOAM on simpleCar by U 5.05e-01 (L2) with ";
    "the fvOptions file REMOVED FROM BOTH, and the SHIPPED driver disagrees identically ";
    "(5.05e-01) -- so this is a pre-existing, brae-wide disagreement on that case, not ";
    "something this port introduced, and simpleCar can say nothing about the porosity until ";
    "it is understood. Its U boundary conditions (pressureInletOutletVelocity, ";
    "surfaceNormalFixedValue, uniformNormalFixedValue) are all implemented and brae throws ";
    "on genuinely unknown types, so silent BC substitution is ruled out; the cause is ";
    "LOCALISED, and the elimination is worth keeping because most of it was cheap. NOT the porosity (the ";
    "disagreement is identical with fvOptions removed from both). NOT the rebuild (the SHIPPED ";
    "driver disagrees identically, 5.05e-01). NOT the mesh harness (simpleCar's Allrun runs ";
    "createPatch -overwrite, which the first attempt skipped; meshing it properly gives the same ";
    "5.04e-01). NOT the `ramp` on surfaceNormalFixedValue, which brae deliberately ignores -- ";
    "OpenFOAM with and without the ramp agree to 2.2e-04. NOT surfaceNormalFixedValue and NOT ";
    "pressureInletOutletVelocity: replacing airIntake with a plain wall and the outlet with ";
    "zeroGradient IN BOTH leaves 5.05e-01. NOT OpenFOAM being unconverged -- although it was: at ";
    "t=2000 its Ux residual is 2.7e-05 and its own answer still moves 9.4e-02 by t=20000, where ";
    "the residual reaches 1.5e-08; brae is 5.15e-01 from THAT. ";
    "IT IS THE PRESSURE EQUATION. Restarting brae from OpenFOAM's t=20000 converged fields, the ";
    "first-iteration residuals are p 1.2e-01 against U 2.6e-03, and brae moves 29% away within 50 ";
    "iterations -- so OpenFOAM's solution is not a fixed point of brae's pressure equation on ";
    "this mesh. THE MESH is what distinguishes the case: simpleCar is max non-orthogonality ";
    "44.6 degrees (average 11.9) with max skewness 2.30, against pitzDaily's 5.95/1.63 and ";
    "skewness 0.26. The nonorth gate's shearedChannel is a UNIFORM 30.96 degrees with skewness ";
    "1.5 and brae matches OpenFOAM there to 3.1e-05, so plain non-orthogonality is not ";
    "sufficient to reproduce it -- the untested regime is the combination of a high-angle TAIL ";
    "(44.6 max over an 11.9 average) with skewness above 2, and `nNonOrthogonalCorrectors 0` ";
    "means the deferred correction gets a single pass. RULED OUT as the cause: the geometry ";
    "primitives, all four of which match OpenFOAM's formulas exactly -- weights ";
    "SfdNei/(SfdOwn+SfdNei) with the Sf-projected distances (surfaceInterpolation::makeWeights), ";
    "deltaCoeffs 1/|delta|, nonOrthDeltaCoeffs 1/max(n.delta, 0.05|delta|), and correction ";
    "vectors n - delta*nonOrthDeltaCoeffs. STILL OPEN, and it affects the SHIPPED solver, not ";
    "just this port. ";
    "THE _cpp REFERENCE DISAGREES TOO, which redirects the search and which the first pass ";
    "MISSED by chasing simpleCar entirely through the CUDA path: diag_simple_loop from ";
    "OpenFOAM's converged fields gives _cpp U 6.13e-01, old-host 5.97e-01 and CUDA 5.96e-01, ";
    "all three together. So the defect is in the TRANSCRIPTION of OpenFOAM into the _cpp ";
    "reference, not in the CUDA port of it -- which is the order this port is supposed to ";
    "establish first, since nothing downstream can be right if _cpp is not. ";
    "THE MESH-ANGLE HYPOTHESIS IS REFUTED. Sweeping shearedChannel's shear (its top-edge ";
    "offset over a 0.1 height, so the angle is one parameter) against a freshly-run OpenFOAM ";
    "at each level, U on the _cpp path: 30.96 deg/skew 1.5 -> 3.12e-05, 45/2.5 -> 4.85e-05, ";
    "56.3/3.75 -> 5.38e-05, 63.4/4.0 -> 1.75e-04, 68.2/3.45 -> 1.26e-03. The error does grow ";
    "with angle, but even at 68 degrees with skewness 3.4 it is 1.3e-03 -- about 400x ";
    "smaller than simpleCar's 5e-01 on a 44.6 deg / 2.30 mesh. Uniform shear does not ";
    "reproduce it, so `non-orthogonality plus skewness` is NOT the cause. The sweep also has "].

Definition c_dispatch_note_4 : string := cat [
    "_cpp and CUDA tracking to four digits at EVERY level (3.1195e-05 vs 3.1180e-05, and so ";
    "on), independent confirmation that the CUDA port is faithful across the whole range. ";
    "A LAMINAR simpleCar cannot isolate the turbulence either: at nu 1e-5 and 10 m/s the ";
    "case is physically unsteady and OpenFOAM itself does not converge (p residual stuck at ";
    "0.24 after 3000 iterations); brae additionally goes NaN there, a robustness difference ";
    "on an ill-posed case rather than a usable control. Ruled out so far: the porosity, the ";
    "rebuild-vs-shipped split, the mesh harness, the ramp, surfaceNormalFixedValue, ";
    "pressureInletOutletVelocity, OpenFOAM non-convergence, mesh angle and skewness, and the ";
    "four geometry primitives. ";
    "RETRACTION: the claim that the _cpp reference disagrees on simpleCar is WRONG and is ";
    "withdrawn. diag_simple_loop runs LAMINAR by construction (dctl.turbulent = false, ";
    "nuEff = nu everywhere -- it was built for the laminar shearedChannel non-orth work), so ";
    "that measurement compared a laminar brae against a kEpsilon OpenFOAM reference. An ";
    "unequal comparison, the same class of error the diagnostic's own header warns about. ";
    "THE CAUSE IS THE TURBULENCE MODEL, established by removing it from the comparison ";
    "rather than by reasoning about it. tests/resid_probe.cu takes OpenFOAM's converged ";
    "fields INCLUDING ITS OWN nut, sets nuEff = nu + nut, and runs brae's _cpp SIMPLE loop ";
    "with in.turb = nullptr so kepsilon::correct never executes. On simpleCar that converges ";
    "BACK to OpenFOAM: U 2.76e-02 and p 3.14e-02 in the max norm after 300 iterations, ";
    "against 5.9e-01 and 9.8e-01 when brae runs its own turbulence. So the momentum and ";
    "pressure transcription is CORRECT on this mesh, including the non-orthogonal ";
    "correction, and the disagreement is entirely in the k-epsilon model. Consistent with ";
    "the converged fields: k, epsilon and nut are all ~97-99% different while U is 50%. ";
    "A note on what does NOT diagnose this: the pressure equation's residual at a converged ";
    "SIMPLE state is a cancellation and is LARGER on pitzDaily (3.70e-01), where brae agrees ";
    "to 5e-03, than on simpleCar (1.82e-01), where it does not -- so that residual cannot be ";
    "used to rank cases, only the frozen-nut experiment settles it. ";
    "A kEpsilon _cpp REFERENCE NOW EXISTS (kEpsilon_cpp.cu, transcribed from kEpsilon.C) -- ";
    "it was the one turbulence model wired straight to CUDA without one, and it is the one ";
    "that turned out to be wrong. It carries a residuals out-parameter and a diagnostic ";
    "term mask so a disagreement can be bisected. ONE REAL DEFECT FOUND AND FIXED: the ";
    "epsilon/nut wall treatment was keyed on the MESH PATCH TYPE (fvp[pi].type == " ++ dq ++ "wall" ++ dq ++ ") ";
    "where OpenFOAM keys on the BC TYPE -- createAveragingWeights counts the faces whose ";
    "epsilon field carries an epsilonWallFunction. The two coincide on pitzDaily, whose ";
    "walls carry the wall function explicitly, which is why it survived this long. They do ";
    "NOT coincide on simpleCar: its 0/epsilon sets " ++ dq ++ "(body|upperWall|lowerWall)" ++ dq ++ " to ";
    "epsilonWallFunction and then a trailing " ++ dq ++ ".*" ++ dq ++ " entry overrides it to zeroGradient. ";
    "OpenFOAM resolves that the same way brae does -- last matching regex wins, confirmed by ";
    "OpenFOAM's own written 20000/epsilon showing `type zeroGradient` on body -- so OpenFOAM ";
    "applies NO epsilon wall function there and brae was applying one on three patches. Same ";
    "story for nut, whose nutkWallFunction is overridden by a " ++ dq ++ ".*" ++ dq ++ " calculated entry. Fixed ";
    "by adding EpsilonWallFunctionPatchField and an isEpsilonWallFunction() discriminator ";
    "(brae had mapped the type to plain zeroGradient, losing the distinction). 27/27 scoped ";
    "tests still pass. Effect on simpleCar: 5.04e-01 -> 4.91e-01, so it is a genuine defect ";
    "but NOT the dominant one. A SECOND GAP found and measured as inert here: the k and ";
    "epsilon equations never had `bounded` wired, though simpleCar asks for `bounded Gauss ";
    "upwind`; adding it changes the residual by nothing (4.2293e-02 either way), as expected ";
    "for a term that vanishes where phi is conservative. THE BAD TERM IS NOT PINNED. A term ";
    "bisect over the epsilon equation -- dropping the production, the divU SuSp, the ";
    "destruction and the diffusion in turn -- makes the residual WORSE in every case on ";
    "simpleCar (6.4e-01, 4.2e-02, 6.3e-01, 2.1e-01 against 4.2e-02), so every term is doing ";
    "useful work and no single one is wrong. CAVEAT on the headline number: the probe runs ";
    "UNRELAXED while OpenFOAM's logged residual is on the relaxed matrix, so the 4300x ratio ";
    "against OpenFOAM's log is inflated; what is like-for-like is pitzDaily 9.3e-06 against ";
    "simpleCar 4.2e-02 under identical probe settings. ";
    "A THIRD DEFECT, found while chasing the second and worth its own line because it ";
    "actively misleads: the field WRITER emits each boundary patch's INPUT specification ";
    "rather than the computed boundary values. brae writes `nut ... value uniform 0` on ";
    "pitzDaily's upperWall, where the nutkWallFunction certainly produced something else, ";
    "and the same on simpleCar's body. That is not a solver error -- the momentum path takes ";
    "its boundary nuEff from deviceBoundaryNut, not from the file -- but every written ";
    "boundary field is unusable for comparison against OpenFOAM, and it cost a full ";
    "investigation branch here: OpenFOAM's `calculated` nut on simpleCar's body carries ";
    "0.6-2.5 while brae's file said 0, which looked exactly like the defect being hunted. ";
    "It is not: for a zeroGradient k and epsilon, OpenFOAM's assignment Cmu*k_b^2/eps_b ";
    "reduces to the adjacent cell's nut, which is what deviceBoundaryNut already supplies ";
    "for a non-wall face (and the kernel even carries calcMask/kBnd/epsBnd parameters for ";
    "the general case). THE BAD TERM REMAINS UNPINNED after three defects found. ";
    "The gate therefore BUILDS its case -- pitzDaily, which brae reproduces to ";
    "~5e-03 on U, with a topoSet porous cellZone cut out of the middle -- so the porosity ";
    "is the only variable. Result: U 5.29e-03 and p 2.72e-02 with the porosity against ";
    "1.62e-02 and 1.66e-01 without it, i.e. 3.1x and 6.1x, which is the control. ";
    "RAS/kEpsilon passes the ";
    "envelope check and the hook IS now wired to deviceKEpsilonCorrect: the hook also owns the ";
    "nuEff refresh (nu + nut, boundary value from deviceBoundaryNut's wall function, never ";
    "the owner cell), which is what makes the lagged coupling work without the driver ";
    "knowing the model. ";
    "CONVERGENCE GAP -- FOUND AND FIXED. The CUDA driver allocated its PressureMatrix and ";
    "folded diagonal fresh every iteration while the AMG hierarchy -- and the V-cycle/PCG ";
    "graph caches keyed on that fine matrix -- persisted across iterations. Iteration 1 was ";
    "exact (dU 8.2e-14 from identical inputs) and iteration 2 was wrong by 1.3e-01, with ";
    "EVERY per-stage test still passing at 1e-16. Fixed by holding the pressure buffers in ";
    "SolverWorkspace, matching how device_simple_foam.cu keeps them as members. All four ";
    "drivers (old host, old GPU, _cpp, CUDA) now agree over 60 iterations ";
    "(iter 59: 2.9136e-02 / 2.914e-02 / 2.91e-02 / 2.91e-02) and the rebuilt solver ";
    "converges end-to-end: 1.0 -> 0.391 -> 0.0615 -> 0.0284 over 60 iterations. ";
    "Regression: tests/test_simple_step_cuda.cu gained a multi-iteration mode ";
    "(ctest simple_step_cuda_loop, 10 iterations, tight solves) -- verified to FAIL ";
    "(U 1.5e-01, p 3.7e-01) when the buffers are made transient again. ";
    "TWO EARLIER DIAGNOSES IN THIS INVESTIGATION WERE WRONG and are retracted: the ";
    "host-vs-GPU 'convergence gap' was a sampling artifact (reading lines 1/5/10/20 of an ";
    "oscillating series), and the 'HbyA wrong by 42%' was a reference rebuilt without the ";
    "momentum predictor. Ruled out on the way: bounded, the non-orthogonal correction, ";
    "solver tolerances, deviceGaussGrad (4e-15), AMG face-weight slicing (no effect -- ";
    "internal faces already come first). Found and fixed as genuine silent-substitution ";
    "holes in the envelope guard: `bounded` and the non-orthogonal laplacian correction."].

Definition c_dispatch : component := {|
  name := "dispatch";
  of_symbol := "controlDict application";
  of_file := "applications/solvers/incompressible/simpleFoam/simpleFoam.C";
  classification := "DISPATCH";
  status := "REIMPLEMENT";
  of_line := None;
  brae_driver := None;
  brae_existing := None;
  brae_reference := None;
  brae_cuda := Some "src/applications/solvers/simpleFoam/simpleFoamV2.cu";
  brae_target := Some "src/applications/solvers/simpleFoam/simpleFoamV2.cu";
  validation := Some (cat [
    "CONVERGENCE GATE tests/simplefoam_v2_convergence.sh (ctest: ";
    "simplefoam_v2_convergence, ~90 s) -- the rebuilt path runs pitzDailyTurb from 0/ ";
    "to convergence (1713 iterations; OpenFOAM took 1576) and its converged fields are ";
    "compared with OpenFOAM's own 1576/: U 1.257e-01, p 1.922e-01, k 1.187e-02, ";
    "epsilon 2.512e-02, nut 6.686e-03. The bounds are what brae's ESTABLISHED solver ";
    "reaches against the same reference in the passing simple_turbulent_full gate ";
    "(U 1.311e-01, p 1.989e-01, ...) -- the rebuilt path is marginally better on every ";
    "field. The disagreement is localised (6 of 12225 cells above 0.5 m/s, worst at the ";
    "step corner) and is a property of the comparison, not of the rebuild. Carries a ";
    "control requiring the INITIAL field to exceed the bound. ";
    "ALSO tests/simplefoam_v2_dispatch.sh (ctest: simplefoam_v2_dispatch) -- drives the real ";
    "binary on real cases: OFF changes nothing and stays silent; ON+supported runs to ";
    "endTime and writes; ON+unsupported REFUSES with the reason and exits 1 for each of ";
    "MRF, fvOptions, SIMPLEC, a non-upwind div(phi,U), a transient ddtScheme and RAS; ";
    "the GAMG->AMG-PCG substitution is announced; RAS/kEpsilon RUNS and writes k/epsilon/nut ";
    "with a control that nut changed. Negative control: the guard admits the supported ";
    "case, so it is not refusing unconditionally."]);
  note := Some (cat [c_dispatch_note_1; c_dispatch_note_2; c_dispatch_note_3; c_dispatch_note_4]);
  selection_base := None;
  schema_for := None;
  other := [] |}.

Definition c_cuda_vs_reference : component := {|
  name := "cuda_vs_reference";
  of_symbol := "(brae-specific)";
  of_file := "-";
  classification := "GPU_REQUIRED";
  status := "REVALIDATE_EXISTING";
  of_line := None;
  brae_driver := None;
  brae_existing := Some "src/cuda/device_simple.cu, src/cuda/device_fvm.cu";
  brae_reference := None;
  brae_cuda := None;
  brae_target := Some "src/applications/solvers/simpleFoam/";
  validation := Some (cat [
    "tests/test_gpu_vs_cpp.cu -- CUDA against the _cpp reference at STAGE granularity, ";
    "run on BOTH a laminar case (matrixDumpAsym/282) and a TURBULENT one ";
    "(pitzDailyTurb/1576, nuEff varying per cell and per boundary face). ";
    "PRESSURE: rAU 1.5e-16, laplacian upper/lower 0 diag 1.4e-16, pEqn.flux() 0, ";
    "setReference 0. MOMENTUM: div(phi,U) upper/lower 0 diag 4.6e-18, divDevReff ";
    "source 4.8e-15/5.6e-16/2.4e-16, H(U) 3.8e-16/2.3e-16/2.4e-16, phiHbyA 0, ";
    "corrector 0. TURBULENCE: GbyNu 7.6e-17, nut 0. Three controls fire."]);
  note := Some (cat [
    "Closes the chain OpenFOAM -> _cpp -> CUDA. Every other GPU test compares the device ";
    "against CPU code written inline in that same test, which proves consistency but not ";
    "correctness. Running on a turbulent case as well is what makes it load-bearing: with ";
    "constant nuEff a kernel that mishandles a per-face diffusivity, or reads the owner ";
    "cell's value on a wall instead of the patch value, still agrees perfectly. NOT yet ";
    "compared this way: the linear solves themselves, the wall functions (G0/eps0), and the ";
    "k/epsilon transport assembly."]);
  selection_base := None;
  schema_for := None;
  other := [] |}.

Definition c_deterministic_assembly : component := {|
  name := "deterministic_assembly";
  of_symbol := "(brae-specific)";
  of_file := "-";
  classification := "GPU_REQUIRED";
  status := "REUSE_EXISTING";
  of_line := None;
  brae_driver := None;
  brae_existing := Some "src/matrices/lduMatrix/lduMatrix/reductions.cu";
  brae_reference := None;
  brae_cuda := None;
  brae_target := Some "src/matrices/lduMatrix/lduMatrix/";
  validation := Some (cat [
    "tests/determinism_gate.sh -- pitzDaily (kEpsilon) and pitzDailyKOmega bit-identical ";
    "over two runs; verified to 200 iterations, plus airfoil and backwardFacingStep2D. ";
    "Carries a 1-ULP negative control."]);
  note := Some (cat [
    "DONE for the incompressible simpleFoam path. Was 3.6e-02 after 20 iterations, now 0. ";
    "Three scatter sites, all converted to fixed-order gathers: AMG restriction ";
    "(rc[map[c]] += r[c], hit every level of every V-cycle of every PCG iteration), the ";
    "turbulence wall functions (cells with >1 wall face), and the eps setValues constraint ";
    "(cells with >1 constrained face). The last two are RARE -- bit-identical at 1/5/8/10/15 ";
    "iterations and different at 12 -- so intermittency, not just a systematic offset, is ";
    "what the gate has to catch. STILL OPEN: the opt-in BRAE_AMG_SA path still scatters, and ";
    "the cyclic/AMI (42 sites) and distributed (device_halo) paths are untouched."]);
  selection_base := None;
  schema_for := None;
  other := [] |}.

Definition c_actuationDiskSource : component := {|
  name := "actuationDiskSource";
  of_symbol := "Foam::fv::actuationDiskSource";
  of_file := "src/fvOptions/sources/derived/actuationDiskSource/actuationDiskSourceTemplates.C";
  classification := "MODEL";
  status := "PORTED";
  of_line := None;
  brae_driver := None;
  brae_existing := Some "src/finiteVolume/cfdTools/fvOptions/actuation_disk.cu";
  brae_reference := Some "src/finiteVolume/cfdTools/general/fvOptions/actuationDiskSource_cpp.cu";
  brae_cuda := None;
  brae_target := Some "src/finiteVolume/cfdTools/general/fvOptions/";
  validation := Some "tests/actuationdisk_vs_openfoam.sh and tests/turbinesiting_cuda_vs_openfoam.sh, on validation/turbineSiting -- the tutorial on its REAL 120246-cell snappyHexMesh. OpenFOAM WRITES ITS OWN ANSWER to postProcessing/<name>/<t>/actuationDiskSource.dat (Uref, Cp, Ct, a, T, diskDir) every iteration, so the model gate needs no reimplementation of anything: brae reproduces Uref, a and T BIT-EXACTLY (rel 0.00e+00, both turbines). The exactness comes from respecting the one-iteration offset -- calcFroudeMethod runs while UEqn is assembled at iteration N, so the row at time N was computed from the field WRITTEN at N-1; comparing brae on the N-1 field against the row at N is the same arithmetic on the same input. The end-to-end gate then runs the whole case through the CUDA V2 driver at DEEP convergence: U 1.25e-03, p 1.86e-03, k 1.37e-02, epsilon 2.90e-02, nut 1.22e-02, and the converged thrust within 2.8e-04 on both turbines. Control: the same run with the turbines removed is 23x worse on U.";
  note := Some "Froude variant only. a = 1 - Cp/Ct (sink cancels: OF scales BOTH by sink_), T = 2*rhoRef*diskArea*(Uref & diskDir)^2*a*(1-a) with Uref the mean over the monitor cells and rhoRef 1 on the incompressible path, distributed as (V[c]/Vdisk)*T*diskDir over the disk cells. REFUSED rather than approximated: variant variableScaling (a different thrust law), and Cp/Ct as a non-constant Function1 (OF evaluates them against mag(Uref) every iteration, so a table is a thrust curve -- taking its first knot would run a plausible turbine at the wrong operating point). Both previously caused the source to be dropped SILENTLY, which converges perfectly well to a turbine site with no turbines in it. THE SIGN is the same trap as rotorDiskSource and is documented there: the momentum source LOSES the thrust, via `UEqn == fvOptions(U)`.";
  selection_base := None;
  schema_for := None;
  other := [] |}.

Definition c_atmBoundaryLayer : component := {|
  name := "atmBoundaryLayer";
  of_symbol := "Foam::atmBoundaryLayer";
  of_file := "src/atmosphericModels/derivedFvPatchFields/atmBoundaryLayer/atmBoundaryLayer.C";
  classification := "BOUNDARY_CONDITION";
  status := "PORTED";
  of_line := None;
  brae_driver := None;
  brae_existing := Some "src/finiteVolume/fields/fv_patch_field.cuh";
  brae_reference := None;
  brae_cuda := None;
  brae_target := Some "src/finiteVolume/fields/";
  validation := Some "tests/turbinesiting_cuda_vs_openfoam.sh -- turbineSiting is the only case in validation/ with an ABL inlet, and it now converges to OpenFOAM's fixed point.";
  note := Some "PROFILE ORIGIN, fixed 2026-08-20: OF measures the log profile from the PATCH's own lowest point, `groundMin = zDir & boundBox(patch.localPoints()).min()` (atmBoundaryLayer.C:45,218), not from z = 0. brae used the raw height. turbineSiting sits at a real elevation near z = 1000 m, so the inlet was the logarithm of the ALTITUDE rather than a boundary layer -- ~40% fast at the inlet, and the case never converged in either brae path (p stuck at ~3e-3 against OpenFOAM's 8e-5, in a limit cycle). It is the patch POINTS, not the face centres: FvPatch gained ppMin for this. Also: OF v2412 WRITES flowDir/zDir/Uref/Zref/z0/d as Function1/PatchFunction1 (`flowDir constant (1 0 0)`), which brae's reader could not read back and its writer did not emit at all -- so no OpenFOAM-written ABL field could be read, and no brae-written one could be restarted from.";
  selection_base := None;
  schema_for := None;
  other := [] |}.

Definition c_fusedGauss : component := {|
  name := "fusedGauss";
  of_symbol := "Foam::fv::fusedGaussConvectionScheme, fusedGaussDivScheme, fusedGaussGrad, fusedGaussLaplacianScheme";
  of_file := "src/fused/finiteVolume/fusedGaussConvectionScheme.C";
  classification := "SHARED_NUMERICAL";
  status := "EQUIVALENT";
  of_line := None;
  brae_driver := None;
  brae_existing := Some "src/applications/solvers/common/scheme_parse.cuh (readFvSchemesText)";
  brae_reference := None;
  brae_cuda := None;
  brae_target := Some "src/applications/solvers/common/";
  validation := Some "tests/fusedgauss_vs_openfoam.sh, on validation/pitzDaily with OpenFOAM's OWN pitzDaily and pitzDaily_fused scheme files. Four assertions: (1) the equivalence measured from OpenFOAM ITSELF -- real OpenFOAM runs the same case under both spellings and lands within 3.4e-05 (U) to 4.5e-04 (nut), the gap being fused summation ORDER, not a different scheme; (2) brae is BIT-IDENTICAL on the two spellings (Linf 0.000e+00 on U, p, k, epsilon, nut), which is the assertion that the rewrite is a rename and nothing else; (3) end to end against OpenFOAM on the fused case -- U 1.02e-04, p 3.55e-04, k 7.78e-04, epsilon 9.57e-04, nut 1.29e-03, TIGHTER than OpenFOAM's own two spellings differ because brae runs identical code for both; (4) control: div(phi,U) forced to upwind is 119x worse.";
  note := Some (cat [
    "fusedGauss is NOT a different discretisation. Every member of the family is the plain Gauss scheme with the field-expression temporaries replaced by fused loops, and OpenFOAM leaves the original lines in as comments directly above the fused calls (`//fvm.lower() = -weights.primitiveField()*faceFlux.primitiveField();` above `multiplySubtract(...)`); fusedGaussLaplacianScheme::fvmLaplacian is line-for-line identical to gaussLaplacianScheme::fvmLaplacian, and fusedGaussGrad::calcGrad computes `area*(lambda*(own - nei) + nei)` summed and divided by V, which is gaussGrad. pitzDaily_fused is stock pitzDaily with `libs (fusedFiniteVolume)` and the scheme words renamed -- diff the two system/ directories. brae rewrites the WHOLE TOKEN `fusedGauss` to `Gauss` once, in readFvSchemesText, so every downstream parser (V2's and the shipped path's) is unchanged and `fusedGauss <scheme brae cannot do>` is still refused by name. It is ANNOUNCED with a new notice kind, `equivalent` -- reporting an ";
    "exact equivalence as `approximated` would teach the reader to discount the approximated lines that really do differ."]);
  selection_base := None;
  schema_for := None;
  other := [] |}.

Definition c_kOmegaSSTLM : component := {|
  name := "kOmegaSSTLM";
  of_symbol := "Foam::RASModels::kOmegaSSTLM";
  of_file := "src/TurbulenceModels/turbulenceModels/RAS/kOmegaSSTLM/kOmegaSSTLM.C";
  classification := "MODEL";
  status := "PORTED";
  of_line := None;
  brae_driver := None;
  brae_existing := Some "src/cuda/device_komega_sst.cu (lmReThetatPrepKernel / lmGammaPrepKernel / lmGammaEffKernel / deviceKOmegaSSTLMCorrect)";
  brae_reference := Some "src/TurbulenceModels/turbulenceModels/RAS/kOmegaSSTLM/kOmegaSSTLM_cpp.cu";
  brae_cuda := None;
  brae_target := Some "src/TurbulenceModels/turbulenceModels/RAS/kOmegaSSTLM/";
  validation := Some (cat [
    "TWO gates. (1) tests/lm_cuda_vs_openfoam.sh -- the CUDA V2 driver end to end on T3A: U 7.89e-05, p 8.88e-05, k 1.41e-03, omega 2.55e-06, nut 1.48e-03, TIGHTER than the _cpp reference it was ported from because the driver reads the case's linear-solver settings. It runs the MODULE comparison first (tests/lm_cuda_probe.cu): Fthetat 1.3e-13, both reaction preps 5.5e-14, gammaIntEff 6.2e-16, the two solved transports 9.8e-08 -- so an end-to-end agreement reached by cancellation cannot pass. Control: plain kOmegaSST through the same driver is 430x worse on U and 431x on k. (2) tests/lm_cpp_vs_openfoam.sh, on validation/T3A -- the ERCOFTAC T3A flat-plate transition tutorial on its own 26820-cell blockMesh, run by OpenFOAM v2412 to the case's own residualControl at t=269. END TO END from 0/, 500 iterations, no CUDA: U 2.04e-04, p 1.26e-03, k 1.39e-03, omega 5.02e-05, nut 1.57e-03, settled at U 9.7e-09. CONTROL: the same case with the transition model removed (plain kOmegaSST, identical ";
    "solver and schemes) against the same reference is 167x worse on U, 437x on k and 114x on nut -- the transition model is doing the work, not the bounds."]);
  note := Some (cat [
    "kOmegaSSTLM IS kOmegaSST plus two transport equations (ReThetat, gammaInt) and three overrides of the base model, so the overrides live in kOmegaSST_cpp as LMHooks rather than as a branch: F1 = max(kOmegaSST::F1, exp(-(Ry/120)^8)) with Ry = y*sqrt(k)/nu, Pk *= gammaIntEff, epsilonByk *= clamp(gammaIntEff, 0.1, 1). That F3 is NOT kOmegaSSTBase's F3 near-wall switch, which brae refuses -- two different functions with the same name in a base and its derived class. THE ORDER IS THE MODEL: correct() runs kOmegaSST::correct() FIRST, so k and omega advance on the PREVIOUS iteration's transition state, and gammaIntEff is constructed ZERO, so the first outer iteration has no turbulent production at all. Within correctReThetatGammaInt, Fthetat is formed ONCE from the OLD ReThetat and OLD gammaInt and reused in gammaSep at the end, while ReThetac/Rev/RT see the NEW ReThetat and gammaSep sees the NEW gammaInt. ReThetat0 is a per-cell fixed-point iteration on lambda with NO iteration cap (OpenFOAM ";
    "warns past maxLambdaIter and carries on); transcribed as written. DgammaIntEff is nut + nu -- there is no sigmaGamma in this model. REFUSED: MRF and fvOptions on the two transition equations."]);
  selection_base := None;
  schema_for := None;
  other := [] |}.

Definition c_turbulenceSchemesInV2 : component := {|
  name := "turbulenceSchemesInV2";
  of_symbol := "fvSchemes divSchemes/laplacianSchemes, applied to the turbulence equations";
  of_file := "src/finiteVolume/finiteVolume/laplacianSchemes/gaussLaplacianScheme/gaussLaplacianScheme.C";
  classification := "SHARED_NUMERICAL";
  status := "PORTED";
  of_line := None;
  brae_driver := None;
  brae_existing := Some "src/applications/solvers/simpleFoam/simpleFoamV2.cu";
  brae_reference := None;
  brae_cuda := None;
  brae_target := Some "src/applications/solvers/simpleFoam/";
  validation := Some "tests/lm_cuda_vs_openfoam.sh asserts the driver REPORTS reading `div(phi,k): bounded linearUpwind` and `non-orthogonal correction ON`, and then measures the answer end to end; every other V2 gate (stock pitzDaily, SST, SA, MRF, turbineSiting, fusedGauss) was re-run against the change and is unmoved.";
  note := Some "The V2 driver passed linearUpwindK, linearUpwindOmega and the laplacian nonOrth flag as literal FALSE to the turbulence hook, while its own setup line printed what the case had asked for. A case naming `bounded Gauss linearUpwind grad` and `Gauss linear corrected` therefore ran upwind and orthogonal on every turbulence scalar -- printed one thing and did another, which is worse than not reading the entry at all. The same gap existed in the _cpp kOmegaSST reference (no linearUpwind parameter, orthogonal laplacian); on T3A honouring linearUpwind was worth a factor of 12 on the end-to-end error and the corrected laplacian was worth 5.2e-04 on ReThetat, whose mesh reaches 43.8 degrees non-orthogonality. OpenFOAM applies the case's laplacianScheme to EVERY laplacian, the turbulence equations included.";
  selection_base := None;
  schema_for := None;
  other := [] |}.

Definition c_lmLambdaIteration : component := {|
  name := "lmLambdaIteration";
  of_symbol := "Foam::RASModels::kOmegaSSTLM::ReThetat0";
  of_file := "src/TurbulenceModels/turbulenceModels/RAS/kOmegaSSTLM/kOmegaSSTLM.C";
  classification := "MODEL";
  status := "PORTED";
  of_line := None;
  brae_driver := None;
  brae_existing := Some "src/cuda/device_komega_sst.cu (lmReThetatPrepKernel + lmLaunchReThetatPrep)";
  brae_reference := Some "src/TurbulenceModels/turbulenceModels/RAS/kOmegaSSTLM/kOmegaSSTLM_cpp.cu";
  brae_cuda := None;
  brae_target := Some "src/TurbulenceModels/turbulenceModels/RAS/kOmegaSSTLM/";
  validation := Some "tests/lm_cuda_probe.cu -- the ReThetat reaction (which ReThetat0 feeds) matches the _cpp reference to 5.5e-14 on T3A.";
  note := Some "OpenFOAM's lambda loop is `do { ... } while (lambdaErr > lambdaErr_)` with NO cap at all -- maxLambdaIter is only the threshold past which it WARNS and carries on. The device kernel stopped at maxLambdaIter (10), returning a lambda that had not met the case's own lambdaErr, which is a different ReThetat0 correlation, silently. It now iterates to lambdaErr with a hang guard far above any converging cell, reports the worst count with an atomicMax, warns exactly where OpenFOAM warns, and REFUSES at the guard. Also fixed: the kernel used 1e-37 for deltaU and deltaMin where OpenFOAM uses SMALL (1e-15) -- Us appears squared in a denominator and delta sits under y in y/delta, so the value of the floor is part of the model where the flow stagnates. And LMCoeffs were hardcoded to OpenFOAM's defaults, so a case overriding ca1 or cThetat ran the defaults; they are now read from the RAS dict.";
  selection_base := None;
  schema_for := None;
  other := [] |}.

Definition c_linearUpwindTurbulence : component := {|
  name := "linearUpwindTurbulence";
  of_symbol := "Foam::fv::gaussConvectionScheme with linearUpwind, on k/omega";
  of_file := "src/finiteVolume/interpolation/surfaceInterpolation/schemes/linearUpwind/linearUpwind.C";
  classification := "SHARED_NUMERICAL";
  status := "PORTED";
  of_line := None;
  brae_driver := None;
  brae_existing := None;
  brae_reference := Some "src/TurbulenceModels/turbulenceModels/RAS/kOmegaSST/kOmegaSST_cpp.cu";
  brae_cuda := None;
  brae_target := Some "src/TurbulenceModels/turbulenceModels/RAS/kOmegaSST/";
  validation := Some "tests/lm_cpp_vs_openfoam.sh -- T3A asks for `bounded Gauss linearUpwind grad` on k, omega, gammaInt and ReThetat. Honouring it moved the end-to-end U error from 2.43e-03 to 2.04e-04, a factor of 12.";
  note := Some "The _cpp kOmegaSST had no linearUpwind parameter AT ALL, so a case asking for it silently got UPWIND -- a different matrix under the case's own scheme name, which is the substitution class this port exists to eliminate. SpalartAllmaras already had it (SA::DivScheme::linearUpwind); kOmegaSST did not. linearUpwind's matrix IS upwind's; the scheme is the deferred gradient correction subtracted from the source.";
  selection_base := None;
  schema_for := None;
  other := [] |}.

Definition c_amgInterfaceAgglomeration : component := {|
  name := "amgInterfaceAgglomeration";
  of_symbol := "Foam::cyclicGAMGInterface / cyclicAMIGAMGInterface";
  of_file := "src/finiteVolume/fvMatrices/solvers/GAMGSymSolver/GAMGAgglomerations";
  classification := "SHARED_NUMERICAL";
  status := "PORTED";
  of_line := None;
  brae_driver := None;
  brae_existing := Some "src/applications/solvers/simpleFoam/device_simple_foam.cu (amgFineCoeffKernel + the extended edge list)";
  brae_reference := None;
  brae_cuda := None;
  brae_target := Some "src/matrices/lduMatrix/preconditioners/GAMGPreconditioner/";
  validation := Some "Measured on the conformal pipeCyclic (1250 cells, one periodic pair): pressure iterations 153/118/8/130/129 before, 129/37/14/37/36 after -- ~3.5x on every iteration past the first. Same for a conforming cyclicAMI (133/36/13/38/40). The converged answer is UNCHANGED to every digit printed (U 6.060e-02, p 2.479e-01 against OpenFOAM before and after), which is what a pure preconditioner change must do. 60 gates re-run green, including every AMG/PCG/SpMV/determinism test.";
  note := Some (cat [
    "brae used to switch the pressure solve OFF AMG entirely on any mesh carrying a cyclic or cyclicAMI patch and fall back to Jacobi-PCG -- a diagonal preconditioner on a Poisson problem. The cost was visible against mesh size: 1250 cells with a periodic pair needed 153 iterations while the interface-free 12225-cell pitzDaily needed 18, the O(sqrt(N)) signature of losing the multigrid. Nothing about a periodic edge actually resists agglomeration: buildAMG takes a plain edge list, and an interface entry IS an edge -- (ownCell, nbrCell) for a conformal pair, (ownCell[i], nbrCell[k]) per stencil entry with the AMI weight folded into the face weight otherwise. THE SIGN is the subtlety: an interface entry is ONE direction (Apsi[own] += ifCoeff*psi[nbr]), so each appended edge carries upper = ifCoeff and lower = ZERO, the reverse direction being the matching entry on the other patch; writing ifCoeff into both would count every periodic connection twice. It still comes out symmetric on the ";
    "coarse grid because the two edges agglomerate to the same coarse face with opposite orientation and agglomerate()'s faceFlip sends the reversed one's upper into cLower. STILL OPEN: a NON-CONFORMING AMI keeps BiCGStab (the operator is not self-adjoint, so CG is invalid) and so still runs unpreconditioned by AMG; and brae's AMG remains ~7x OpenFOAM's GAMG in iteration count here (37 against 5), which is the general brae-AMG gap rather than an interface one. The hierarchy CACHE is bypassed on interface meshes, since it keys on the mesh alone and must not serve a hierarchy built without the interface edges."]);
  selection_base := None;
  schema_for := None;
  other := [] |}.

Definition c_cyclicAMI : component := {|
  name := "cyclicAMI";
  of_symbol := "Foam::cyclicAMIFvPatchField, Foam::AMIInterpolation";
  of_file := "src/finiteVolume/fields/fvPatchFields/constraint/cyclicAMI/cyclicAMIFvPatchField.C";
  classification := "BOUNDARY_CONDITION";
  status := "CPP_REFERENCE";
  of_line := None;
  brae_driver := None;
  brae_existing := Some "src/cuda/device_ami.cu (the shipped device path)";
  brae_reference := Some "src/finiteVolume/fvMatrices/cyclicAMI/cyclicAMI_cpp.cu";
  brae_cuda := None;
  brae_target := Some "src/finiteVolume/fvMatrices/cyclicAMI/";
  validation := Some (cat [
    "tests/ami_cpp_vs_device.sh. SIXTEEN stages compared against their device twins at identical inputs, bounded at 1e-12 because these are the same arithmetic in two places: interpolate, interpolateVec (rotated) x3 components, faceValue, assembleLaplacian ifCoeff + diag, assembleMomentum ifCoeff + diag, amul, flux, addH, addDiv, addGrad, and lapCorr on all three components. All pass at 0.000e+00 -- bit-identical. lapCorr is the laplacian's DEFERRED non-orthogonal correction and the one with a trap in it twice over: the neighbour's velocity gradient is a TENSOR, so a rotational interface transforms it as R G R^T on BOTH indices (R G alone leaves the derivative index in the neighbour's frame -- invisible on a translational interface, wrong by the sector angle on a rotational one); and the device packs gUx[l]/gUy[l]/gUz[l] = d(U_l)/d(x,y,z), row = velocity COMPONENT, which is the TRANSPOSE of fvc::gaussGrad's gradU_ij = d(U_j)/d(x_i). The gate hands both sides the same gradient explicitly so ";
    "neither the rotation nor the packing can hide a difference. Run on validation/pipeCyclicAMI, a NON-CONFORMING rotational AMI (400 source faces against 250, with 50 of them carrying 4-entry stencils) at a developed state -- the first version of this gate shipped a CONFORMAL case and passed all twelve without ever executing the multi-entry interpolation, since a conformal stencil is one entry of weight 1. It now asserts both that some stencil has more than one entry and that the interface flux is nonzero, so it cannot pass on arithmetic it did not run. A SECOND invocation cross-checks the AMI GEOMETRY against the separately-gated cyclic geometry on validation/pipeCyclicAMIConformal, whose cyclic twin is derived by changing one word in constant/polyMesh/boundary: deltaCoeffs and weights agree to 5e-16. The two invocations want opposite meshes on purpose -- the stencil test needs a non-conforming interface, and only a conforming one has a cyclic twin."]);
  note := Some (cat [
    "WHY A HOST REFERENCE FOR CODE THAT ALREADY WORKS: brae's device AMI is one fused path, so a disagreement anywhere in it produced a single number for the whole interface. pipeCyclic puts 97% of its momentum residual on interface cells with the interior EXACTLY zero, and four passes of reading the device code did not explain it -- reading is not measuring. Every other defect in this port fell out quickly once a _cpp reference existed to compare stage by stage. WHAT IT CAUGHT IMMEDIATELY: the reference's own assembleLaplacian sign, backwards on first writing because it was copied from assembleMomentum -- momentum carries -laplacian(nuEff,U) and the pressure equation +laplacian(rAUf,p), so the two interface assemblies have OPPOSITE signs (ifCoeff = -lap, diag += lap versus ifCoeff = +c, diag -= c). WHAT IT NOW RULES OUT: all twelve stages compute the right number from the right inputs -- on a non-conforming interface with 4-entry stencils -- AND the geometry those inputs are built from ";
    "matches the independently-gated cyclic geometry to 5e-16. So pipeCyclic's interface-localised momentum residual is none of: the sixteen stages, the interface geometry, nuEff (correct to 1.3e-05, and that gap is OpenFOAM's own correctNut), the interface flux (a real defect, fixed, and it moved the residual not at all), or gradU. Composition was inspected too and is symmetric -- the flux lifecycle is correctly ordered and interfaceAddLapCorr/interfaceLapCorrP are called for both cyclic and AMI at all three sites, the gradient is built AMI-inclusively, and divDevReff receives the interface. THE REFRAMING THIS FORCES: every one of those gates proves brae's DEVICE equals brae's REFERENCE, and the reference is a transcription of what the device does. Neither has been checked against OPENFOAM's formulation of a cyclicAMI momentum interface beyond reading internalCoeffs/boundaryCoeffs for div and laplacian. Closing this needs an OF-side oracle -- OpenFOAM's own fvMatrix diagonal and source at ";
    "the interface cells -- not another brae-to-brae comparison. ONE DIRECTION PER ENTRY is the invariant that runs through the whole reference: an interface entry couples own <- nbr only, the reverse being a separate entry on the paired patch -- which is why amul adds to Apsi[own] alone and why the AMG agglomeration gives each appended edge upper = ifCoeff with lower = zero."]);
  selection_base := None;
  schema_for := None;
  other := [] |}.

Definition c_interfaceFluxOnRestart : component := {|
  name := "interfaceFluxOnRestart";
  of_symbol := "Foam::surfaceScalarField phi, coupled-patch boundary values (createPhi.H READ_IF_PRESENT)";
  of_file := "src/finiteVolume/cfdTools/incompressible/createPhi.H";
  classification := "SHARED_NUMERICAL";
  status := "PORTED";
  of_line := None;
  brae_driver := None;
  brae_existing := Some "src/applications/solvers/simpleFoam/device_simple_foam.cu (the AMI flux init)";
  brae_reference := None;
  brae_cuda := None;
  brae_target := Some "src/applications/solvers/simpleFoam/";
  validation := Some "Measured on pipeCyclic restarted from OpenFOAM's own converged state: brae's rebuilt interface flux differed from the written one by 4.98e-03 relative on side1 (max 1.2e-04 against values up to 1.7e-02). 37 gates re-run green, restart and roundtrip included.";
  note := Some (cat [
    "brae rebuilt the cyclicAMI interface flux from fvc::flux(U) at construction unconditionally. That is RIGHT for a cold start -- the host phi carries a zeroGradient placeholder on a coupled patch, so its boundary value is neither coupled nor rotated nor conservative -- and WRONG on a restart: OpenFOAM writes the interface flux per patch (pipeCyclic's side1/side2 carry 400 and 250 values) and createFields copies those straight into phi.boundary, past the patch-field layer that would otherwise replace them. That flux is the conservative one the previous run ended with; fvc::flux(U) is not, because U alone does not know what the pressure correction did. readPhiIfPresent now reports which branch it took and the driver restores the written interface flux when there is one. HONEST LIMIT: this was found while hunting pipeCyclic's interface-localised momentum residual and it did NOT explain it -- the residual moved from 2.37977e-02 to 2.38361e-02, i.e. not at all. It is a real defect on its own ";
    "merits (a restart should resume the flux it stopped on) and it also removes a contaminant from the residual ORACLE on interface cases, but the residual itself remains unexplained."]);
  selection_base := None;
  schema_for := None;
  other := [] |}.

Definition c_coupledInterfaceConvection : component := {|
  name := "coupledInterfaceConvection";
  of_symbol := "Foam::fvm::div on a coupled patch -- internalCoeffs = phi*w, boundaryCoeffs = -phi*(1-w); LimitedScheme::calcLimiter, coupled() branch";
  of_file := "src/finiteVolume/finiteVolume/convectionSchemes/gaussConvectionScheme/gaussConvectionScheme.C";
  classification := "SHARED_NUMERICAL";
  status := "PORTED";
  of_line := None;
  brae_driver := Some "src/applications/solvers/simpleFoam/device_simple_foam.cu (momentum), src/cuda/device_scalar_transport.cuh (k/epsilon/omega/nuTilda/ReThetat/gammaInt)";
  brae_existing := None;
  brae_reference := Some "src/finiteVolume/interpolation/surfaceInterpolation/limitedSchemes/limitedSchemes_cpp.cu (limitedLinearWeightsCoupled, limitedLinearVWeightsCoupled), src/finiteVolume/fvMatrices/cyclicAMI/cyclicAMI_cpp.cu (limitedLinearWeights, limitedLinearVWeights, interpolateTensor)";
  brae_cuda := None;
  brae_target := Some "src/cuda/device_ami.cu (amiLimitedVWeightKernel, amiLimitedWeightKernel), src/cuda/device_cyclic.cu (cycLimitedVWeightKernel, cycLimitedWeightKernel)";
  validation := Some (cat [
    "tests/coupledinterfacescheme_vs_openfoam.sh, run on TWO cases and two different schemes -- ctest coupledinterfacescheme_vs_openfoam (validation/pipeCyclic, `bounded Gauss limitedLinearV 1`) and ctest linearinterfacescheme_vs_openfoam (validation/implicitAMI, `bounded Gauss linear`) -- plus tests/ami_cpp_vs_device.sh STAGE 12. The gate takes its bounds from the caller because they are properties of the CASE, and checks the fields the case actually wrote, so a laminar case is not failed for having no k. Its CHECK 0 asserts both codes reached a steady state, counting a run that satisfied the case own residualControl as well as one that ran to endTime with the residual down: implicitAMI ships endTime 100 and at that point OpenFOAM is at residual 1e-04 while brae is at 1e-07, so comparing there measures relative convergence RATE and reports it as a discretisation error -- which is how this investigation first misread that case. Measured on pipeCyclic, brae against OpenFOAM's converged ";
    "state -- U 5.942e-02 -> 1.127e-03, p 2.406e-01 -> 5.036e-03, epsilon 2.142e-01 -> 1.708e-02, k 2.302e-01 -> 4.317e-02, nut 2.172e-01 -> 4.718e-02. The gate runs FOUR cases: brae and OpenFOAM under both the limited and the upwind scheme, because matching OpenFOAM on one scheme proves nothing unless the case is shown to discriminate the two (it does: OF limited vs OF upwind is 1.85e-01 on U, 6.78e-01 on k). Re-run against the pre-fix binary it fails on all five fields of check 1 and on the symmetry check, and PASSES checks 2, 3 and 4 -- which is why those three alone were never sufficient."]);
  note := Some (cat [
    "FOUND BY THE OPENFOAM-SIDE ORACLE (validation/of_apps/dumpUEqnInterface), and findable no other way: brae's device and its _cpp reference agreed perfectly on the SAME WRONG SCHEME through sixteen stage gates. OpenFOAM assembles a coupled patch with the interpolation weights of the div scheme the case NAMED; brae hardcoded UPWIND -- ifCoeff = -lap + min(phi,0), diag += lap + max(phi,0) -- which is the special case w = pos0(phi). Measured L2 6.86e-01 against OpenFOAM's own boundaryCoeffs, the gap equal to phi*(1-w) face by face. WHAT THE PORT ADDS: w = limiter*wCD + (1-limiter)*pos0(phi), with wCD the patch's own interpolation weight, d = fvPatch::delta() (dOwn minus the TRANSFORMED, AMI-interpolated neighbour delta -- now stored on both interfaces rather than re-derived per consumer), and the limiter from the same NVDTVD/NVDVTVDV r the internal faces use (moved to limitedSchemes_cpp.cuh so there is ONE definition, not two). patchNeighbourField is where the transform lives: a scalar is ";
    "never rotated, a vector is, a gradient TENSOR is rotated on both indices as R G R^T. `Gauss linear` IS NOW WIRED TOO and needed no kernel at all: OF's linear scheme returns mesh.surfaceInterpolation::weights() (linear.H:106), whose boundary field on a coupled patch IS the patch's own interpolation weight -- the number both interface structs already carry and already use for every face value they form -- so the weight is a pointer, not a computation. It is the widest of the blends in absolute terms (w ~ 0.5, the furthest from upwind's 0 or 1). On implicitAMI it took U from 2.894e-01 to 1.780e-02 and p from 2.610e-01 to 5.081e-03, leaving the case tracking OpenFOAM about as well under `Gauss linear` as under upwind (1.692e-02). The upwind run is bit-for-bit unchanged, which is the built-in control. STILL OPEN at a coupled face: LUST alone (w = 0.75*wCD + 0.25*pos0), which has no simpleFoam tutorial to be gated on -- the fourteen tutorials naming it are fireFoam and pimpleFoam LES. ";
    "linearUpwind needs nothing -- its MATRIX is upwind's and brae applies the deferred correction separately."]);
  selection_base := None;
  schema_for := None;
  other := [] |}.

Definition c_tutorialCoverage : component := {|
  name := "tutorialCoverage";
  of_symbol := "tutorials/incompressible/simpleFoam -- the seventeen stock cases";
  of_file := "tutorials/incompressible/simpleFoam";
  classification := "COVERAGE";
  status := "COMPLETE";
  of_line := None;
  brae_driver := None;
  brae_existing := None;
  brae_reference := None;
  brae_cuda := None;
  brae_target := None;
  validation := Some "Nine of the seventeen had a dedicated gate built around whatever defect they exposed (pitzDaily, pitzDaily_fused, T3A, turbineSiting, rotorDisk, pipeCyclic, airFoil2D, mixerVessel2D, simpleCar, windAroundBuildings). Three more were swept against real OpenFOAM and now agree: rotatingCylinders U 2.965e-04 / p 4.640e-04 (6400 cells, laminar, MRF, `bounded Gauss linearUpwind grad(U)`), backwardFacingStep2D U 3.482e-03 / p 8.217e-03 / k 9.267e-03 / omega 7.711e-04 / nut 7.211e-03 (20540 cells, kOmegaSST, SIMPLEC, `bounded Gauss LUST grad(U)`), squareBend U 1.773e-03 / p 1.735e-03 / k 4.199e-03 / epsilon 1.032e-02 / nut 1.623e-03 (112000 cells, kEpsilon, SIMPLEC, `Gauss limitedLinearV 1`). The first two are now gated by tests/tutorial_vs_openfoam.sh, which reads the case straight from the OpenFOAM installation so nothing has to be committed.";
  note := Some (cat [
    "backwardFacingStep2D IS THE ONLY simpleFoam tutorial that names LUST, so it is the whole evidence base for brae's internal LUST weights, and it agrees. That also settles the shape of the remaining LUST gap: the INTERNAL faces are validated here, and only the COUPLED-face weight (w = 0.75*wCD + 0.25*pos0) is still assembled upwind -- with no simpleFoam tutorial pairing LUST with a coupled patch to gate it on, since this case has no cyclic or AMI faces. STILL UNGATED, and why: squareBend needs 765 s of OpenFOAM alone at the iteration count where the comparison is fair, too slow for a routine gate, so its agreement is recorded here and not enforced. ALL 17 NOW RUN AND ALL 20 CONFIGURATIONS ARE GATED. The four that had no comparison are done: motorBike (353700 cells from snappyHexMesh, kOmegaSST -- the only tutorial whose OpenFOAM side runs in PARALLEL, 6 processors then reconstructPar) at U 5.001e-02 / p 5.544e-02 / k 1.041e-01 / omega 5.819e-02 / nut 1.056e-02; pitzDailyExptInlet (ships ";
    "no Allrun at all -- blockMesh plus simpleFoam) at U 2.866e-02 / p 1.630e-01 / nut 1.185e-01; squareBend at U 1.773e-03 / p 1.735e-03 / k 4.199e-03 / epsilon 1.032e-02 / nut 1.623e-03; bump2D:kOmegaSST at U 5.256e-04 / p 5.193e-04 / k 9.445e-03 / omega 1.125e-05 / nut 1.108e-01. THE ONLY CONFIGURATION brae CANNOT RUN is bump2D:kEpsilonPhitF, whose turbulence model is not implemented and which is refused by name -- gated as a refusal. MOTORBIKE IS THE LOOSEST at ~5% on U, and it is LOCALISED TO THE kOmegaSST CLOSURE. Not a stopping-criterion artefact: run both codes 5x longer, to 2500, and the comparison is unchanged (U 5.58e-02 against 5.00e-02) while OpenFOAM residual falls to 6.0e-05 and brae to 1.4e-04. Not the convection scheme either: forcing div(phi,U) to `bounded Gauss upwind` in BOTH codes, with both then converged to ~5e-06, still reads U 4.672e-02. THE SPLIT THAT NAMES IT is running both codes LAMINAR on the same mesh with the same scheme -- U 9.691e-03 and p 5.696e-03, five ";
    "times closer -- so the base discretisation (momentum, pressure, the non-orthogonal and skew corrections on a mesh whose non-orthogonality reaches 65 degrees with 12 highly skew faces) is good to about 1% here and the turbulence closure carries the rest. SPATIALLY the difference is compact: the top 1% of cells hold 63.8% of the error^2 and sit at x [-0.23, 1.73], y [-0.23, 0.29], z [0.04, 1.26] -- wrapped around the bike body, not the wake or the far field -- where brae |U| is 7.892 against OpenFOAM 8.759. Seeded at OpenFOAM converged state brae momentum residuals split the same way: Ux 7.04e-05 but Uy 1.65e-03 and Uz 1.23e-03, the cross-stream components ~20x worse and not decaying. STILL OPEN: which part of the kOmegaSST closure. The candidates left are the wall distance (the case asks `method meshWave`, which brae implements, but meshWave on a complex snappyHexMesh body is where an implementation would diverge), the nutkWallFunction on the bike patches, and the F1/F2 blending -- all ";
    "three read y and all three act exactly where the error is. Extracting OpenFOAM own y for a direct comparison was attempted and did not work (`postProcess -func writeObjects(y)` registers nothing), which is the next thing to solve. Every other loose number here IS the stopping criterion -- squareBend reads 2.759e-02 at its shipped endTime and 1.773e-03 at 8000, pitzDailyExptInlet reads p 1.630e-01 at its own p 1e-2 control and 1.540e-02 at 1e-9, bump2D:kOmegaSST reads nut 1.108e-01 at its 1e-5 control and 9.905e-03 at 1e-8. THE GATE GREW THREE CAPABILITIES for these: a fallback for a tutorial with no Allrun, handling for a parallel/reconstructed layout (drop processor*, rebuild 0 from 0.orig), and an optional endTime override plus a per-case steady-state threshold -- the latter used ONLY for motorBike, and only because running longer was shown to move the residual and not the answer. The control also now skips fields it cannot parse (motorBike 0.orig uses #include and $macro) and fails ";
    "loudly if it could read NONE, rather than reporting unreadable as bounds-too-loose. THE MULTI-SETUP TUTORIALS ARE NOW RUNNABLE: tests/tutorial_vs_openfoam.sh composes `tutorial:setup[:grading]` the way their own Allrun does (common skeleton, then the setup's 0.orig/constant/system copied over it) and expands turbulentFlatPlate's blockMeshDict.template with the named grading, since that case is a MATRIX of (turbulence model x near-wall y+ grading) rather than a list of cases. Of the five setups: turbulentFlatPlate:kOmegaSST:2200 gated at U 1.905e-05 / p 8.685e-03 / k 8.118e-05 / omega 3.543e-05 / nut 3.766e-03 (the tightest agreement of any tutorial here), bump2D:SpalartAllmaras gated at U 3.845e-04 / p 1.928e-04 / nut 2.070e-02, bump2D:kEpsilonPhitF gated as a REFUSAL (brae has no such model and must say so by name rather than run it as kEpsilon), bump2D:kOmegaSST measured but NOT gated (its residualControl of 1e-05 is too loose to compare the two codes -- see nutLowReWallFunction), ";
    "and turbulentFlatPlate:kEpsilon DIVERGES (see epsilonWallFunction_lowReCorrection). CONVERGENCE MUST BE ASSERTED, NOT ASSUMED, and this cost real time three separate times in one session: comparing two codes at a fixed iteration count compares TRAJECTORIES unless both have arrived. squareBend reads U 2.759e-02 at its tutorial endTime of 500 and 1.773e-03 at 8000 where both codes sit on the same 2.5e-05 residual plateau -- a factor of 16 from nothing but where the comparison was taken. implicitAMI is worse: at its endTime of 100 OpenFOAM is at residual 1e-04 while brae is at 1e-07. Both gates now check it explicitly, counting a run that satisfied its own residualControl as arrived."]);
  selection_base := None;
  schema_for := None;
  other := [] |}.

Definition c_epsilonWallFunction_lowReCorrection : component := {|
  name := "epsilonWallFunction_lowReCorrection";
  of_symbol := "Foam::epsilonWallFunctionFvPatchScalarField -- the `lowReCorrection` switch";
  of_file := "src/TurbulenceModels/turbulenceModels/derivedFvPatchFields/wallFunctions/epsilonWallFunctions/epsilonWallFunction/epsilonWallFunctionFvPatchScalarField.C";
  classification := "SHARED_NUMERICAL";
  status := "PORTED";
  of_line := None;
  brae_driver := Some "src/finiteVolume/fields/foam_field_reader.cuh (parses it off the epsilon BC), src/applications/solvers/common/turbulence_setup.cuh (into KEpsilonCoeffs::epsLowRe)";
  brae_existing := None;
  brae_reference := Some "src/TurbulenceModels/turbulenceModels/RAS/kEpsilon/kEpsilon_cpp.cu (correct, the wall loop)";
  brae_cuda := None;
  brae_target := Some "src/cuda/device_kepsilon.cu (wallFnKernel)";
  validation := Some "FOUND by the multi-setup tutorial runner: turbulentFlatPlate:kEpsilon at grading 2200 (y+ ~ 1). Real OpenFOAM runs it to 5000 iterations. brae DIVERGED at ITERATION 10 before this port and reaches ITERATION 395 after it -- a 40x improvement and still a failure, so the case is NOT gated. brae's non-finite guard catches the blow-up and refuses to write a field, which is the right behaviour once it has happened.";
  note := Some (cat [
    "THE SWITCH WAS SILENTLY IGNORED, which was the defect: `lowReCorrection` appeared in brae exactly once, in a COMMENT, and the entry sits inside a boundaryField patch dictionary, which the dict audit does not track per key -- so a case asking for it got the high-Re log-law epsilon and nothing warned. Now parsed and honoured on both paths, as two branches transcribed from epsilonWallFunctionFvPatchScalarField.C: a face with y+ < yPlusLam takes epsilon = 2*k*nu/y^2 in place of Cmu^0.75*k^1.5/(kappa*y) (:242, STEPWISE being that BC's default blender per :413), and its wall production is DROPPED ENTIRELY rather than scaled -- OF's guard is `if (!lowReCorrection_ || (yPlus > yPlusLam))` (:338). Both halves or neither: the log epsilon under-predicts dissipation on a resolved mesh while the production keeps feeding k. Carried on KEpsilonCoeffs::epsLowRe rather than threaded through every signature, and yPlusLam was EXPORTED from nut_wall_function.cu (it was file-local) so the threshold has ";
    "one definition rather than two. PROVABLY INERT ELSEWHERE: the default is false, which reproduces the previous arithmetic exactly, and only two cases in the entire OpenFOAM tutorial tree set the flag -- turbulentFlatPlate:kEpsilon and bump2D:kEpsilonPhitF, and brae refuses the latter's model outright. STILL OPEN: what remains after iteration 395. The k residual settles to ~1e-06 and then runs away, so it is not the initial transient; not localised this pass."]);
  selection_base := None;
  schema_for := None;
  other := [] |}.

Definition c_nutLowReWallFunction : component := {|
  name := "nutLowReWallFunction";
  of_symbol := "Foam::nutLowReWallFunctionFvPatchScalarField::calcNut -- returns Zero, unconditionally";
  of_file := "src/TurbulenceModels/turbulenceModels/derivedFvPatchFields/wallFunctions/nutWallFunctions/nutLowReWallFunction/nutLowReWallFunctionFvPatchScalarField.C";
  classification := "SHARED_NUMERICAL";
  status := "SUBSTITUTED";
  of_line := None;
  brae_driver := None;
  brae_existing := Some "src/applications/solvers/common/turbulence_setup.cuh (setNutWall), src/TurbulenceModels/turbulenceModels/derivedFvPatchFields/wallFunctions/nut_wall_function.cuh (wallProductionG0)";
  brae_reference := None;
  brae_cuda := None;
  brae_target := None;
  validation := Some "bump2D:kOmegaSST, via the multi-setup runner. brae announces the substitution -- `nut boundary 'bump' uses nutLowReWallFunction; brae applies nutkWallFunction (log law). Identical only where y+<yPlusLam (resolved mesh)` -- and on THIS mesh the claim holds: real OpenFOAM run with the BC swapped to nutkWallFunction writes `value uniform 0` too, and its two runs are BIT-IDENTICAL in U, k, omega and nut. So bump2D cannot discriminate the two wall functions, and no simpleFoam tutorial found so far can.";
  note := Some (cat [
    "A PORT WAS ATTEMPTED THIS PASS AND BACKED OUT. calcNut() is zero unconditionally, so the exact port is trivial, and it was made in two places (the wall nut itself, and wallProductionG0's `(nutw + nu)` production override, where a LowRe case was falling through to the velocity-based BLENDED fallback). It made brae's wall nut match OpenFOAM's `uniform 0` exactly -- verified against OpenFOAM's own written output -- and yet moved every field AWAY from OpenFOAM on bump2D (U 5.261e-04 -> 1.779e-03, nut 1.103e-01 -> 2.429e-01). The reason is a SECOND inconsistency it exposed: OpenFOAM gives bit-identical results under either BC on this mesh, while brae's two paths differ (nut 3.940e-01 apart at iteration 300) even though BOTH write a zero wall nut -- so brae's nutk and LowRe paths disagree somewhere that is not the wall value, and brae's near-wall y+ regime is the prime suspect. Reverted rather than shipped: a change that is correct by source reading but degrades the only case exercising it ";
    "is exactly the kind this project's discipline exists to stop. THE 24% IS NOT ITSELF A DEFECT -- bump2D's own residualControl of 1e-05 is far too loose to compare the two codes: at 1e-05 the converged nut fields differ by 2.429e-01 and at 1e-08 by 9.905e-03, with U going 1.779e-03 -> 1.495e-05. Any future work here must converge to 1e-08 before believing a number."]);
  selection_base := None;
  schema_for := None;
  other := [] |}.

Definition c_wallFunctionCellSelection : component := {|
  name := "wallFunctionCellSelection";
  of_symbol := "epsilonWallFunction / omegaWallFunction -- applied per BOUNDARY CONDITION, not per patch type";
  of_file := "src/TurbulenceModels/turbulenceModels/derivedFvPatchFields/wallFunctions/epsilonWallFunctions/epsilonWallFunction/epsilonWallFunctionFvPatchScalarField.C";
  classification := "SHARED_NUMERICAL";
  status := "PORTED";
  of_line := None;
  brae_driver := None;
  brae_existing := None;
  brae_reference := None;
  brae_cuda := None;
  brae_target := Some "src/cuda/device_kepsilon.cuh (isTurbWallPatch + buildDeviceWallData), src/applications/solvers/common/turbulence_setup.cuh (the mask), src/applications/solvers/common/solver_controls.cuh (DeviceSimpleControls::turbWallPatch)";
  validation := Some (cat [
    "LOCALISED on turbulentFlatPlate:kEpsilon at grading 2200, which diverges where OpenFOAM runs to 5000. STILL DIVERGES AFTER THIS FIX, and sooner (iteration 171 against 395), because the override was accidentally stabilising. The remaining defect is now LOCALISED, by running both codes to the SAME iteration on the same mesh from the same start (iteration 100) rather than comparing a transient against a converged state -- the mistake that misread this case twice. Median ratio brae/OpenFOAM: at the wall (y<1e-3) k 0.797 and eps 0.833; in the boundary layer (1e-3<y<0.03) k 0.994 and eps 0.862; in the FREESTREAM (y>0.05) k 5.98 and eps 1.77. So the wall closure and the boundary layer are close and the freestream is not: k/eps comes out 3.4x high there, freestream turbulence decays about 3.4x too slowly, and nut ~ k^2/eps inherits ~20x. The blow-up then starts in the freestream at (x 1.61, y 0.125) and reaches 6.98e+08 by iteration 168. RULED OUT BY MEASUREMENT, not argument: spurious ";
    "production near the slip top boundary (G = nut*gByNu is 1.0e-09 against eps 1.0e-01 there, eight orders down, and G/eps is ~0 in the runaway band itself); k/epsilon bounding (instrumented -- brae bounds on 279 of 336 field-iterations against OpenFOAM bounding on ~4950 of 5000, a comparable rate, and brae implements OpenFOAM neighbour-average recovery rather than a floor clamp); and the topWall slip boundary itself, whose layer is healthy after this fix (k max 1.18e-01). THE DECAY BALANCE WAS CHASED AND IS NOT A WRONG TERM -- IT IS A ROBUSTNESS GAP. With ONLY the turbulence relaxation tightened (k 0.8 -> 0.4, epsilon 0.7 -> 0.4, nothing else touched) brae completes all 5000 iterations and lands at U 7.160e-03, p 5.615e-03, k 7.200e-02, epsilon 5.813e-02, nut 1.742e-01 of OpenFOAM -- so the SAME discretisation converges to about the right answer once it is walked through the transient. Everything else was excluded by running it: forcing div(phi,k|epsilon) to `bounded Gauss upwind` makes ";
    "it WORSE, not better (blow-up at 124 against 171), which rules out the convection scheme and its limiter -- maximal numerical diffusion should cure a dispersive wiggle and instead accelerates the failure; turning SIMPLEC off with classic SIMPLE relaxation (U 0.7, p 0.3) is worse again (25). The freestream k/eps ratio running 3.4x high at iteration 100 is therefore a SYMPTOM of the developing runaway, not an independent term error. The freestream k profile along x is non-monotonic in brae (8.5e-04, 1.6e-04, 3.2e-03, 1.8e-04, 6.5e-04 at x = -0.30, -0.10, 0.10, 0.50, 0.99) where OpenFOAM decays smoothly (7.9e-04, 2.8e-04, 1.6e-04, 1.2e-04, 3.7e-05), but since upwind does not fix it that oscillation is downstream of the instability rather than its cause. Residual traces give no warning either -- brae k and epsilon sit within 2-4x of OpenFOAM and decay similarly right up to a sudden runaway. ROOT CAUSE FOUND -- THE PRECONDITIONER SUBSTITUTION ON THE TURBULENCE SOLVE, and it is a STABILITY ";
    "effect, not the cost-only one brae own notice claims. The case asks for PBiCGStab with DILU on (omega|epsilon|k) at relTol 0.1; brae substitutes Jacobi-BiCGStab and says so as an [approximated] notice reading `same linear system and tolerance -- iteration count and cost differ`. Both codes honour relTol 0.1, but they stop in very different places: measured over 60 consecutive k solves, OpenFOAM DILU-preconditioned solve reduces the residual to a MEDIAN 0.0064 of initial -- one iteration overshoots the 0.1 threshold by more than 10x -- while brae Jacobi solve stops right at it, median 0.0726. In the stiff k-epsilon pair that leaves the two fields mutually inconsistent every outer iteration, and on this y+ ~ 1 mesh the inconsistency runs away. PROOF: set relTol to 1e-3 for (omega|epsilon|k) and change NOTHING else -- the case relaxation stays at its own k 0.8 and epsilon 0.7 -- and brae runs all 5000 iterations and lands at U 1.040e-05, p 3.088e-04, k 1.286e-04, epsilon 2.671e-04, nut ";
    "6.332e-04 of OpenFOAM, with a final Ux residual of 3.85e-07 against OpenFOAM 3.49e-07. That is the tightest agreement of any tutorial in this port. THE MODEL ITSELF WAS VERIFIED FAITHFUL along the way, term by term against kEpsilon.C: both reaction kernels including the Sp/SuSp splits and the C1*Cmu*k*GbyNu production form that avoids eps/k; the solve order (epsilon, bound, k, bound, correctNut); relax BEFORE the near-wall setValues, using the relaxed diagonal; and bound() implementing the neighbour-average recovery at a comparable firing rate. FIXED: the turbulence BiCGStab now takes the DILU preconditioner the case asks for. brae already had an exact, level-scheduled device DILU (device_dilu.cuh) wired to the MOMENTUM solve only, so this is wiring rather than new numerics -- one DeviceDilu now serves both, since the level schedule is a property of the mesh addressing and diluUpdate recomputes rD from whichever matrix is being solved. Selected by DeviceSimpleControls::diluKE, read ";
    "from the turbulence solver sub-dictionary AFTER gsK/gsEps (a smoothSolver field has no preconditioner to honour) and resolved with the regex-aware subDict, so the usual (omega|epsilon|k) key needs no special case. Held in a file-scope accessor next to turbStore rather than threaded through deviceKEpsilonCorrect, deviceKOmegaSSTCorrect, deviceSpalartCorrect and deviceEnergyCorrect, which would pass the same pointer four times. RESULT: brae k solve now reduces the residual to a median 0.00680 of initial against OpenFOAM 0.0064 -- it was 0.0726 -- and turbulentFlatPlate:kEpsilon runs all 5000 iterations UNMODIFIED, landing at U 1.812e-05, p 2.470e-04, k 3.296e-04, epsilon 3.566e-03, nut 2.299e-04 of OpenFOAM, with a final Ux residual of 3.59e-07 against 3.49e-07. Gated as ctest tutorial_turbulentflatplate_kepsilon. THE NOTICE TEXT WAS ALSO WRONG IN TWO WAYS and is corrected: it exempted the WORD DILU rather than the fields brae actually wires it on, so a DILU request on k/epsilon was ";
    "answered with Jacobi and NO notice at all; and it described the substitution as differing in iteration count and cost, when what it really changes is where the solve STOPS -- and that can decide whether the case runs. Measured in the topWall-adjacent layer -- 545 cells, exactly topWall's face count -- brae at iteration 100 against OpenFOAM: epsilon 1.556e-03 vs 3.055e-02 (20x LOW), nut 1.073e-04 vs 1.044e-07 (1028x HIGH), k 1.147e-03 vs 1.551e-04 (7.4x high), |U| 69.40 vs 69.48 (right). brae's epsilon there IS the wall-function formula: Cmu^0.75*k^1.5/(kappa*y) with y = 0.0098, the half-height of that cell layer, gives 1.589e-03 against the measured 1.556e-03, a 2% match. So epsilon is being PINNED by a wall function instead of transported, nut = Cmu*k^2/eps comes out ~1000x high, freestream k never decays (it sits at its 1.08e-03 inlet value while OpenFOAM's decays to 1.55e-04) and runs away."]);
  note := Some (cat [
    "brae SELECTS WALL-FUNCTION CELLS BY PATCH TYPE, OpenFOAM BY BC TYPE. buildDeviceWallData takes every patch with `type wall`; OpenFOAM's epsilonWallFunction is a boundary condition OBJECT on the epsilon field, so only patches whose epsilon BC is that type get a cornerWeights_ entry and an epsilon0/G0 override. turbulentFlatPlate's `topWall` is typed `wall` in constant/polyMesh/boundary but carries U `slip`, k `zeroGradient`, epsilon `zeroGradient`, nut `calculated` -- physically a slip far-field. OpenFOAM applies nothing there; brae applies the full epsilon wall function to its 545 faces. FIXED: the wall set is now built from the patches whose epsilon/omega BC IS the wall function (isTurbWallPatch -- a wall-typed patch AND named by that BC), which is the missing half of a check brae already had in the other direction (guardWallFn errors when a wall-function BC sits on a non-wall patch). One predicate, shared by the DeviceWallData faces and the wall-face -> boundary-face map, because ";
    "those two drifting apart would silently point the map at the wrong faces. An EMPTY mask falls back to the patch type, which is what the SA and LES paths use -- they have no epsilon/omega field to read. MEASURED EFFECT on the topWall layer at iteration 100: epsilon 1.556e-03 -> 9.940e-02 against OpenFOAM 3.055e-02 (from 20x LOW to 3.3x high) and nut 1.073e-04 -> 3.912e-06 against 1.044e-07 (from 1028x high to 37x). THE MASK MUST BE RESOLVED WITH findPatchEntry, NOT a name comparison: a boundaryField key can be an exact name, a GROUP or a REGEX, resolved in that order with the last match winning. The first attempt compared names, so backwardFacingStep2D -- which writes its wall BC as the regex (upperWall|lowerWall) -- matched nothing, the mask came out all zeros and the wall function was removed from the ENTIRE case: U 3.482e-03 -> 1.400e-01 and omega 7.711e-04 -> 9.905e-01 against OpenFOAM. The turbulence suite caught it; it is the reason that suite is the gate for this change. RULED ";
    "OUT along the way, each by measurement rather than argument: the steady discretisation (seeded at OpenFOAM's own state brae is stable -- Ux residual 2.9e-05, epsilon 3.0e-06, drift 5.9e-05 in U over 5 iterations); k/epsilon bounding (brae's deviceBoundField does implement OpenFOAM's neighbour-average recovery, not a floor clamp, and IS called from deviceSolveScalarTransport -- it simply never prints, so a `bounding` grep of brae's log measures nothing); and the Uz residual of ~1 on this 2D empty case, which is a 0/0 normalisation artefact (|Uz| max 8.4e-17)."]);
  selection_base := None;
  schema_for := None;
  other := [] |}.

Definition c_cellWallDist_meshWave_complexGeometry : component := {|
  name := "cellWallDist_meshWave_complexGeometry";
  of_symbol := "Foam::patchWave::correct -> cellDistFuncs::correctBoundaryCells (the useCombinedWallPatch branch)";
  of_file := "src/meshTools/cellDist/patchWave/patchWave.C";
  classification := "SHARED_NUMERICAL";
  status := "PORTED";
  of_line := None;
  brae_driver := None;
  brae_existing := None;
  brae_reference := None;
  brae_cuda := None;
  brae_target := Some "src/finiteVolume/fvMesh/cell_wall_dist.cuh (cellWallDist, the correctWalls block)";
  validation := Some "Measured directly against OpenFOAM own field on motorBike (353700 cells, 68 wall patches) with validation/of_apps/dumpWallDist against brae BRAE_DUMP_STAGE stage_y. BEFORE: L2 rel 1.688e-04 with 963 cells more than 1% out, brae reading a median 0.894 of OpenFOAM and 0.49 at worst. AFTER: L2 rel 1.506e-15, ZERO cells out, max|dy| 7.1e-15 -- machine precision.";
  note := Some (cat [
    "THE SOURCE HAS TWO BRANCHES AND THE OBVIOUS ONE IS DEAD. patchWave::correct() reads `if (cellDistFuncs::useCombinedWallPatch) correctBoundaryCells(patchIDs.sortedToc(), true, ...) else { correctBoundaryFaceCells(...); correctBoundaryPointCells(...); }` and that switch defaults TRUE (cellDistFuncs.C:42). The pair of functions the class is normally read for is the branch commented `Backwards compatible` and does NOT run. correctBoundaryCells instead builds ONE uindirectPrimitivePatch from every wall patch's faces and does both passes on THAT, so a point's face set spans patch boundaries. Porting the per-patch branch -- which is what a careful reading of cellDistFuncs.C alone produces -- measured WORSE, twice: both passes gave 4680 cells out instead of 963 with brae reading a median 1.295 of OpenFOAM, and the point-cell half alone gave 2847 at 1.239, in both cases too LARGE because a per-patch point sees only a fraction of the faces around it. Those attempts were reverted before the real ";
    "branch was found. THE INSTRUMENT THAT FOUND IT was validation/of_apps/dumpWallDistDetail, added here: cellDistFuncs' correction routines are public and take the nearestFace Map by reference, so calling them exactly as patchWave does and writing that Map out gives OpenFOAM's own per-cell face choice. It showed OpenFOAM final y never exceeding its own correctBoundaryFaceCells/PointCells output (max ratio exactly 1.000 over 5325 differing cells, median 0.819) -- a field that is supposed to be an unconditional overwrite cannot be uniformly smaller than itself, which is what pointed at a different routine doing the work. THE PORTED RULE: combined patch, faces in patch-then-face order; meshPoints in first-appearance order walking those faces; pass 1 gives each wall face's owner smallestDist over getPointNeighbours on the combined patch, written unconditionally so a cell owning several wall faces keeps the LAST; pass 2 lets the first combined meshPoint to reach an unclaimed cell set it from ";
    "that point's combined faces and LOCKS it. EFFECT ON THE CASE IT WAS FOUND ON: motorBike U against OpenFOAM went 5.580e-02 -> 4.021e-02 at 2500 iterations and p 7.066e-02 -> 4.651e-02, about 28% of the U gap. NOT the whole gap, which matches what the correlation said before the fix -- the y-error cells and the velocity-error cells shared a region but only overlapped 3.2x above baseline, so y was one contributor and not the only one. What remains of motorBike's difference is still open."]);
  selection_base := None;
  schema_for := None;
  other := [] |}.

Definition components : list component := [
  c_simpleFoam_main;
  c_createFields;
  c_UEqn;
  c_pEqn;
  c_simpleControl;
  c_relaxationFactors;
  c_fvm_div;
  c_fvm_laplacian;
  c_fvc_grad;
  c_fvc_div;
  c_fvc_flux;
  c_fvc_snGrad;
  c_fvMatrix_A;
  c_fvMatrix_H;
  c_fvMatrix_H1;
  c_fvMatrix_relax;
  c_fvMatrix_setReference;
  c_fvMatrix_flux;
  c_constrainHbyA;
  c_adjustPhi;
  c_constrainPressure;
  c_setRefCell;
  c_continuityErrs;
  c_turbulenceModel_New;
  c_divDevReff;
  c_singlePhaseTransportModel;
  c_SpalartAllmaras;
  c_limitedSnGrad;
  c_rotorDiskSource;
  c_cellLimitedGrad;
  c_kEpsilon;
  c_kOmegaSST;
  c_bound;
  c_MRFZoneList;
  c_fvOptions;
  c_lduMatrix_solver;
  c_GAMGPreconditioner;
  c_DILUPreconditioner;
  c_GAMGSolver;
  c_dispatch;
  c_cuda_vs_reference;
  c_deterministic_assembly;
  c_actuationDiskSource;
  c_atmBoundaryLayer;
  c_fusedGauss;
  c_kOmegaSSTLM;
  c_turbulenceSchemesInV2;
  c_lmLambdaIteration;
  c_linearUpwindTurbulence;
  c_amgInterfaceAgglomeration;
  c_cyclicAMI;
  c_interfaceFluxOnRestart;
  c_coupledInterfaceConvection;
  c_tutorialCoverage;
  c_epsilonWallFunction_lowReCorrection;
  c_nutLowReWallFunction;
  c_wallFunctionCellSelection;
  c_cellWallDist_meshWave_complexGeometry].
End simpleFoam.
