(* ===== verification/ManifestInter.v ===== *)
(** * tools/of_manifest.py: the component table of interFoam

    The curated entries of the table, one definition per entry, in its order. *)
From Stdlib Require Import String.
From S2P Require Import ManifestData.

Module interFoam.
Local Open Scope string_scope.

Definition c_interFoam_main_validation_1 : string := cat [
    "A WHOLE TIME STEP'S ALPHA HALF NOW RUNS ON THE DEVICE ";
    "(device_inter_alpha_step.cu: the sub-cycle, the correctors, the MULESCorr ";
    "pre-solve, and mixture.correct() at all three placements OpenFOAM runs it). ";
    "Against the host solver over six steps of three sub-cycles and two correctors: ";
    "the explicit path 8.9e-16 in alpha and 9.1e-13 in rho, the MULESCorr path ";
    "6.9e-11 and 6.8e-08 -- larger because two different linear solvers run the ";
    "pre-solve -- and the two paths differ from each other by 1.4e-02, so neither ";
    "arm is a copy of the other. Leaving out the mixture.correct() AFTER the ";
    "sub-cycle (alphaEqnSubCycle.H:36-38) leaves rho 1.1e+02 of 1000 wrong while ";
    "alpha is 0.000e+00 unchanged: UEqn would be built on the wrong density and no ";
    "interface gate could see it. ";
    "ON damBreak'S OWN MESH AND CASE, the device alpha half tracks the host to ";
    "4.2e-11 in alpha and 1.2e-10 relative in rhoPhi over five steps from a ";
    "developed state (tests/interfoam_dambreak_device_vs_host.sh). That case brings ";
    "what no box fixture here did: 4536 of its 4744 boundary faces are EMPTY, its ";
    "atmosphere is inletOutlet, and its fvSolution asks for MULESCorr with ";
    "nLimiterIter 5 and nAlphaCorr 2. It also has to be WARMED UP -- damBreak starts ";
    "from rest, so phi is zero and the alpha equation advects nothing until the ";
    "pressure corrector has made a flux; run from 0/ the gate reported three green ";
    "numbers on two fields that had not moved. THE WHOLE STEP ON damBreak PRODUCED ";
    "NaN IN ALL 2268 CELLS, and the cause was fvc::reconstruct on a 2-D mesh: ";
    "surfaceSum skips empty patches, so sum(SfHat (x) Sf) has NO zz contribution ";
    "and a plain cofactor inverse divides by zero. OpenFOAM's inv(Field<tensor>) ";
    "is Tensor::safeInv (tensorField.C:55, TensorI.H:608-661), NOT Tensor::inv: it ";
    "adds 1 to any diagonal below SMALL*(magSqr of the three), inverts, subtracts 1 ";
    "back, and returns the ZERO tensor below ROOTVSMALL. Ported to both sides. ";
    "brae's own correctVelocity was ALSO not skipping empty patches, which is what ";
    "had been hiding the singularity on the host. End to end after the fix: alpha ";
    "3.4346e-09 unchanged, U 3.308e-06 unchanged, p_rgh 2.29e-06 -> 2.364e-06 (both ";
    "far inside the two linear solves' residuals), capillaryRise 0.7% unchanged. ";
    "TWO TRAPS WORTH CARRYING. std::fmax(a, NaN) returns a -- it IGNORES the NaN -- ";
    "so a worst-difference loop built on fmax, which is how nearly every arm in ";
    "this tree accumulates, reports 0.000e+00 for a field that has gone entirely ";
    "non-finite; a finiteness check has to precede any fmax accumulator. And ";
    "BRAE_INTER_STEP_CHECK on deviceInterStep names the first stage whose output is ";
    "not finite, which is what turned this from 'damBreak gives NaN' into a line. ";
    "WITH THAT FIXED the whole step runs on damBreak: finite, bounded to 2.0e-11, ";
    "advancing, and alpha tracks the host to 1.85e-03 of a field whose range is 1. ";
    "U is 1.60e-01 of 2.65e-01 -- SIXTY PER CENT, a defect and not a tolerance -- ";
    "so the whole-step arm stays behind BRAE_INTER_WHOLE_STEP rather than red in ";
    "the suite. damBreak sets `momentumPredictor no`, so U comes only from ";
    "HbyA + rAU*reconstruct((phig - flux)/rAUf): the error is in HbyA or in the ";
    "momentum matrix under this case's real conditions. Two more things that arm ";
    "paid for: the staged case must be forced to `adjustTimeStep no`, because the ";
    "host reads damBreak's own controlDict and grows dt while the device loop takes ";
    "the fixed one -- the two sat at different physical times and alpha read ";
    "9.57e-01 out; and deviceInterStep was not computing fvc::ddtCorr at all, which ";
    "cost alpha 2.28e-03 -> 1.85e-03 and p_rgh 1.22e+02 -> 7.57e+01; and the step ";
    "ran ONE pressure corrector where damBreak's PIMPLE block asks for THREE -- ";
    "interFoam.C wraps the WHOLE of pEqn.H in while(pimple.correct()), so rAU, ";
    "HbyA, phiHbyA and phig are all rebuilt each pass. That last one is a real ";
    "omission and NOT the cause of the 60%: measured, three correctors instead of ";
    "one moved U from 1.6039e-01 to 1.5848e-01, about one per cent of the gap. ";
    "The step also hardcoded solutionD as all-valid where damBreak is 2-D and ";
    "polyMesh::solutionD() gives (1 1 -1), which fvMatrix::H()'s validComponents ";
    "block honours -- fixed, and also NOT the cause. ";
    "THE TAPS (DeviceInterStepTaps) LOCALISED IT, against the host's own ";
    "assembleUEqn/matrixA/matrixH from the SAME post-alpha state: UEqn.diag ";
    "3.6e-15 of 2.4e+01 and rAU 1.4e-20 of 3.8e-05, both exact, so the implicit ";
    "half -- div coefficients, laplacian, ddt -- is right; UEqn.source.x 1.6e-03 of ";
    "2.1e-01, 0.76%, so the fault is an EXPLICIT term; and HbyA.x 5.0e-03 of ";
    "2.0e-01 follows from it. Two candidates, both visible: gpu::assembleUEqn ";
    "passes UbStored = nullptr so the device RE-DERIVES U's boundary instead of ";
    "taking the stored value, and damBreak's atmosphere is ";
    "pressureInletOutletVelocity where those differ; and deviceInterStep builds the ";
    "boundary mixture from the FACE CELL's rho where InterFields builds it from ";
    "alpha's PATCH values -- the distinction worth 12.8% on capillaryRise. BOTH ";
    "ARE NOW FIXED (MomentumInput gained UbStored, and the boundary mixture is ";
    "built from alpha1Bnd through the same deviceMixtureCorrect the cells use) and ";
    "NEITHER moved the gap: 1.5628e-03 to five digits before and after. The viscous ";
    "term looked ruled out too -- assembling both sides with nuEff ZEROED left the ";
    "source gap IDENTICAL -- BUT THAT READING WAS WRONG, and only because the ";
    "linearUpwind error below was two orders larger and masked it: with that fixed, ";
    "the SAME bisect collapses the gap to 1.99e-11. A bisect only speaks about the ";
    "DOMINANT term. At the time it correctly said the source was dominated by ";
    "the ddt (rDeltaT*rhoOld*V*UOld, about 0.2 on this mesh). UOld is the same ";
    "array on both sides, V is the mesh's, and ";
    "rhoOld is mixtureRho of the same alpha1Old; the diagonal matches exactly so ";
    "relaxedDiag does too; the relax source was bisected out as well (relax OFF on ";
    "both sides leaves the gap IDENTICAL), and rho.oldTime() matched EXACTLY. ";
    "FOUND: deviceInterStep HARDCODED div(rhoPhi,U) as upwind, and damBreak's ";
    "fvSchemes says `Gauss linearUpwind grad(U)` -- the ONE scheme whose MATRIX is ";
    "pure upwind while the whole of it lives in a DEFERRED SOURCE CORRECTION, so it ";
    "gives an exact diagonal with a wrong source, which is exactly the signature ";
    "that took six candidates to reach. 24 of the 44 shipped tutorials name it. ";
    "Taking the scheme from the case: source 1.5628e-03 -> 2.2390e-06 of 2.0650e-01 ";
    "(700x) and HbyA.x 5.0146e-03 -> 8.2621e-05 of 1.9643e-01 (60x). The momentum ";
    "equation is now right to 1.1e-05 relative. WHAT REMAINS IS THE PRESSURE HALF, ";
    "and it is wrong from the FIRST step, not accumulating: after one step alpha is ";
    "1.39e-11 and phiHbyA 1.66e-07 of 6.63e-04 (2.5e-04 relative), but the SOLVED ";
    "p_rgh is 6.35e+01 of 2.85e+03 (2.2%) and U 5.86e-02 of 2.55e-01 (23%). That is ";
    "consistent rather than contradictory: div(phiHbyA) is a near-cancellation of ";
    "four face fluxes, so 2.5e-04 in the flux is tens of per cent in the divergence ";
    "the pressure equation is built on -- which means the momentum source's ";
    "remaining 1.1e-05 is not yet small enough, and HbyA amplifies it 40x. damBreak ";
    "names `gradSchemes default Gauss linear`, so linearUpwind's correction takes an ";
    "UNLIMITED gradient and gradULimitK 0 is right. RE-RUNNING THE BISECTS AFTER ";
    "THE FIX NAMES THE REMAINDER: zeroing nuEff now drops the source gap from ";
    "2.2390e-06 to 1.9933e-11, while upwind-on-both and relax-off leave it ";
    "unchanged -- so the whole of the residual 1.1e-05 is the EXPLICIT ";
    "dev2(T(grad U)) term of divDevRhoReff. OF forms (rho*nuEff)*dev2(T(grad U)) ";
    "per CELL and lets fvc::div interpolate the product; interpolating mu and the ";
    "tensor separately is a different field -- but the device already forms the ";
    "product per cell (sigmaKernel) and interpolates THAT, so it is not the fault. ";
    "SPLITTING THE dev2 CONTRIBUTION INTERIOR FROM PATCH-ADJACENT NAMES IT: exact ";
    "in all 2066 interior cells (1.39e-17 of 1.03e-03) and wrong only in the 202 ";
    "cells touching a patch (2.24e-06 of 9.06e-05, 2.5% of the term there). Exact ";
    "inside and wrong at the boundary is a boundary face value, not a scheme -- the ";
    "same split that named the stale inletOutlet on rhoSimpleFoam. It is in ";
    "divDevRhoReff's BOUNDARY sigma. SPLIT BY PATCH it was the ATMOSPHERE -- ";
    "pressureInletOutletVelocity, 46 faces -- at 2.24e-06 of 2.24e-06, ONE HUNDRED ";
    "PER CENT of the term there, against 0.13%, 0.8% and exact on the three noSlip ";
    "walls. CAUSE: this port filled UbStored with deviceBCValue, which RE-DERIVES ";
    "the patch value on the device -- precisely what UbStored exists to avoid. ";
    "fvc::grad(U) inside divDevRhoReff reads the STORED value, and at a ";
    "flux-conditional patch the two are different fields. Taking it from the host's ";
    "evaluate instead: every patch drops to round-off (atmosphere 5.08e-21) and the ";
    "momentum source goes 2.2390e-06 -> 1.9933e-11, five orders. ";
    "WHAT IS STILL OPEN, and it is now ONE named quantity: HbyA is 4.95e-05 of ";
    "1.96e-01 (2.5e-04) with the source and diagonal both exact, and comparing the ";
    "rest of H()'s inputs says upper, lower and iC are BIT-IDENTICAL while bC.x is ";
    "3.3406e-06 of 3.3406e-06 -- 100% wrong. The two paths agree exactly on the ";
    "implicit half of every boundary condition and disagree entirely on the explicit ";
    "one, on that same atmosphere patch. THE DEVICE SIDE IS AT bC = 0 AND THE HOST ";
    "AT 3.3406e-06, and the device's reason is one line in ";
    "buildDeviceVectorBoundary: bcCategory 6 (pressureInletOutletVelocity) is ";
    "mapped to device bcType 0, PLAIN zeroGradient, whose valueInternalCoeffs is 1 ";
    "and valueBoundaryCoeffs is 0 -- so the device cannot produce a non-zero bC ";
    "there at all, while brae's HOST class overrides both as transformFvPatchField ";
    "does (iC = 1 - d_k, bC = value_k - (1 - d_k)*pif_k). WHICH SIDE IS RIGHT IS ";
    "NOT SETTLED: d_k = sqrt(|valueFraction_kk|) is ZERO on an outflow face, which ";
    "is consistent with iC agreeing bit-for-bit, and then bC = value - pif turns on ";
    "whether the stored patch value equals the extrapolation at that instant. ";
    "Deciding that by reasoning between brae's two implementations is what the ";
    "of-instrument skill exists to prevent, so tools/dumpInterFoam's UEqn.H now ";
    "dumps OpenFOAM's own assembled UEqn boundaryCoeffs per patch, after relax(). ";
    "OPENFOAM SAYS |bC| = 0 ON THE ATMOSPHERE -- and on all three noSlip walls. ";
    "THE DEVICE IS RIGHT AND brae's HOST IS WRONG: device 0, OpenFOAM 0, host ";
    "3.3406e-06. So the fix is to the HOST's PressureInletOutletVelocityPatchField, ";
    "not to buildDeviceVectorBoundary's category-6 mapping, which had looked like "].

Definition c_interFoam_main_validation_2 : string := cat [
    "the defect for a whole turn. (One caveat recorded in the tool: the assembled ";
    "matrix's internalCoeffs/boundaryCoeffs are the SUM of the div and laplacian ";
    "contributions, each already scaled by its own face coefficient -- they are not ";
    "the per-BC valueInternalCoeffs/valueBoundaryCoeffs that transformFvPatchField's ";
    "identity relates, so that identity must not be checked against them.) ";
    "THE FIX IS updateFromPatchVelocity, which rhoSimpleFoam has called since its ";
    "own pcEqn gate and interFoam never did: OpenFOAM's directionMixed evaluate() ";
    "leaves the patch value at patchInternalField on an OUTFLOW face, and its ";
    "valueBoundaryCoeffs = value - (1 - d)*pif is then identically zero BECAUSE ";
    "value == pif there; leaving the written seed makes it value - pif. Added to ";
    "pressureCorrector and to both sides of the device gate. WITH IT THE WHOLE ";
    "MOMENTUM-TO-PRESSURE HAND-OFF IS EXACT: source 2.8e-17, diag 3.6e-15, rAU ";
    "1.4e-20, upper/lower/iC/bC all 0.000e+00, HbyA 2.1e-17 and phiHbyA 2.2e-19 -- ";
    "from 4.9e-05 and 1.7e-07. damBreak end to end is UNCHANGED (alpha 3.4346e-09, ";
    "p_rgh 2.364e-06, U 3.308e-06), so the solver path was already close enough ";
    "there for it not to show. AND THE ONE-STEP U AND p_rgh DID NOT MOVE EITHER ";
    "(5.86e-02 of 2.55e-01, 6.35e+01 of 2.85e+03): with the pressure equation's ";
    "entire input now exact to 2e-19, what is left is WHOLLY INSIDE THE PRESSURE ";
    "SOLVE -- OR IN THE COMPARISON ITSELF, and it turned out to be the latter. ";
    "Taking the pressure half apart the same way: the p_rgh error is NOT a constant ";
    "offset (mean 1.09, spread 62.4, so not the reference) and NOT localised to a ";
    "patch (interior 6.0e+01, lowerWall 6.4e+01, atmosphere 0.03); phiHbyA's ";
    "BOUNDARY is exact too (2.1e-22, and fvc::div sums it, so the source is exact); ";
    "and the p_rgh MATRIX is exact -- diag 4.2e-22, upper 0, source 3.3e-19, iC 0, ";
    "bC 0. THEN SOLVING THE IDENTICAL SYSTEM ON THE HOST LANDS ON THE DEVICE'S ";
    "ANSWER TO 4.3e-07 of 2.9e+03 (1.5e-10 relative). So the device's whole pressure ";
    "pass is correct and the 6.4e+01 gap is against runInterFoam, which is solving a ";
    "DIFFERENT system: the test's reconstruction of the host's sequence is what is ";
    "off, not the device. Two fixture faults already found on the way there -- the ";
    "case must be forced to `adjustTimeStep no`, and brae's host driver HARDCODES ";
    "the p_rgh solve to 1e-9 (BRAE_PTOL) instead of reading the case's ";
    "solvers/p_rgh entry, which damBreak sets to tolerance 1e-07 relTol 0.05. ";
    "THE CAUSE WAS IN THE GATE: its hooks called mixtureNu(alpha1, alpha2, ...) ";
    "where the second argument is mu -- nu = mu/(clamped blend), not a complement ";
    "(two_phase_mixture_cpp.cuh:130). Both sides of the in-test comparison used the ";
    "same nonsense, so every coefficient agreed to round-off while runInterFoam, ";
    "which calls it correctly, did not; that alone was 58% of U and it was in the ";
    "measurement, not in the code under test. WITH IT FIXED THE WHOLE DEVICE TIME ";
    "STEP TRACKS THE HOST ON damBreak'S REAL CASE: over five steps alpha 7.3e-11, ";
    "U 6.8e-10 of 2.7e-01 (2.6e-09 relative) and p_rgh 2.0e-07 of 2.8e+03 ";
    "(6.9e-11), from U 1.53e-01 (58%). The arm is now a GATE rather than a ";
    "diagnostic, at bounds two orders above what is measured. ";
    "THE HOST NOW READS solvers/p_rgh instead of hardcoding psc.tolP = 1e-9: ";
    "OpenFOAM reads it, and a case asking for a LOOSER solve (damBreak says ";
    "tolerance 1e-07 relTol 0.05) was being solved far tighter than OpenFOAM solves ";
    "it. relTol comes from the Final entry, because PIMPLE selects p_rghFinal on ";
    "the last corrector and the tutorials set relTol 0 there so the step ends on a ";
    "converged pressure. THE END-TO-END NUMBERS MOVED AND ARE RECORDED AS MEASURED: ";
    "damBreak alpha 3.4346e-09 -> 1.2402e-08, p_rgh 2.364e-06 -> 3.351e-06, U ";
    "3.308e-06 -> 9.756e-06, water volume still identical to ten digits, ";
    "capillaryRise still 0.7%. All remain two orders inside the gate's 1e-4 bound, ";
    "which that gate already attributes to the two linear solves' own residuals -- ";
    "solving TIGHTER than OpenFOAM happened to land closer to it, and that is not a ";
    "reason to keep doing it, because OpenFOAM's answer IS the one solved at the ";
    "case's tolerance. BRAE_PTOL still overrides, because a device-vs-host gate has ";
    "to pin both sides to one stopping point. ";
    "THE fmax TRAP IS NOW GUARDED EVERYWHERE: tests/device_gate_finite.cuh's ";
    "nonFinite() sits ahead of 124 accumulators across all 16 device gates and ";
    "adds straight into each gate's failure count, so a field that has gone ";
    "non-finite can no longer read as 0.000e+00. It carries its own fail-proof in ";
    "test_device_alpha_flux.cu: handed {1, NaN, 3} it reports the NaN, while fmax ";
    "over the same differences returns 2.0 with the NaN silently dropped. ";
    "brae_interFoam NOW TAKES -device, running runInterFoamDevice: the SAME case ";
    "translation and the same components the gates call, with the hooks living in ";
    "the driver rather than in a test -- a device path whose boundary evaluation is ";
    "written inside a gate is the defect braeInterFoam.cu's own header names. On ";
    "damBreak at 5 fixed steps the two paths print the same summary line: max|U| ";
    "0.2702 m/s both, alpha in [0, 1] against [-5.1e-34, 1], worst |div(phi)| ";
    "8.5e-05 host against 5.0e-05 device. It USED TO REFUSE adjustTimeStep by ";
    "name; the device loop now computes both Courant numbers off the flux the last ";
    "step left behind and runs them through the same setDeltaTVoF the host calls, ";
    "and the gate has an arm for it -- twelve steps on damBreak's own clock, Co ";
    "1.5130e-03 agreeing to 6.2e-12, alphaCo 1.4556e-03 to 2.3e-10, the same dt to ";
    "3.7e-10 and the same physical time to 2.2e-10. THE FIRST DRAFT OF THAT ARM WAS ";
    "VACUOUS: setDeltaT takes min(maxCo/Co, 1 + 0.1*maxCo/Co, 1.2), so below ";
    "maxCo/Co = 2 the answer is the constant 1.2 and dt rides the cap whatever Co ";
    "says -- damBreak at its own maxCo 1 does that for its first TWENTY-THREE ";
    "steps, and both runs grew by 1.2^5 and agreed to 0.000e+00 with the ported ";
    "Courant number never consulted. The arm now runs at maxCo 0.0015 and refuses ";
    "the cap trajectory by name. Twelve steps rather than five for a second reason: ";
    "damBreak's setFields leaves a SHARP interface, so nearInterface()'s [0.01, ";
    "0.99] band is EMPTY and alphaCoNum is identically zero until step 11. (The ";
    "report's maxU and worstDivPhi had to be filled ";
    "too: left at their defaults the device path printed `max|U| 0 m/s, worst ";
    "|div(phi)| 0.000e+00` on a run whose U reaches 0.27.) THE GATE NOW CALLS ";
    "BOTH SHIPPED DRIVERS rather than a hand-rolled copy of the hooks, so what is ";
    "measured is what runs: from damBreak's 0/ over five fixed steps, alpha ";
    "1.6e-10, U 3.7e-08 relative, p_rgh 2.1e-10, excursion 8.9e-16, and the ";
    "interface moved 5.6e-03 -- which a start from rest only does through the ";
    "pressure corrector, so that number is what says the whole loop ran and not ";
    "just its alpha half. The 900 lines of taps and bisects that found the six ";
    "defects are gone with the hunt; DeviceInterStepTaps stays in the production ";
    "header for the next one. ";
    "AND A WHOLE TIME STEP NOW RUNS ON THE DEVICE (device_inter_step.cu): the alpha ";
    "sub-cycle, mixture.correct(), the momentum matrix and the pressure corrector, ";
    "with only the boundary conditions on the host. Five steps at Co ~ 0.16 leave ";
    "alpha in [0,1] EXACTLY and p == p_rgh + rho*gh exactly. Two arms pin the LOOP ";
    "ORDER, which is the thing nothing underneath can check: the mixture UEqn is ";
    "built on differs from the one the step STARTED with by 1.3e+02 of 1000 in 43 of ";
    "256 cells -- the interface band, and the single-phase order would use the ";
    "second; and rhoPhi is the MULES-limited flux the alpha equation left, 9.1e-01 ";
    "of 2.4e+00 away from interpolate(rho)*phi rebuilt afterwards. ";
    "SHIPPED and gated end to end. brae_interFoam runs a case from the command line and ";
    "`brae -case` routes to it (tests/solver_dispatch.sh). Against real OpenFOAM: ";
    "damBreak alpha 3.4e-09, p_rgh 2.3e-06 and U 3.3e-06 relative ";
    "(tests/interfoam_dambreak_vs_openfoam.sh); capillaryRise -- where surface ";
    "tension IS the answer and the only tutorial with a contact angle -- 0.7% ";
    "(tests/interfoam_capillaryrise_vs_openfoam.sh); the curvature itself to ";
    "2.5e-14 at four calculateK pass counts ";
    "(tests/interfoam_curvature_vs_openfoam.sh). THE SUB-CYCLE IS ON THE DEVICE ";
    "(device_alpha_subcycle.cu) and matches the host's loop to 1.1e-16 in alpha and ";
    "2.2e-16 in the weighted rhoPhi over three sub-steps. Its gate is four ";
    "deliberately-wrong sub-cycles run beside the right one, because each failure ";
    "leaves a bounded plausible field: the full deltaT per sub-step 3.2e-01, ";
    "restarting each from the old alpha 9.8e-02, the last rhoPhi instead of the ";
    "weighted sum 4.1e-02 of 8.4e-01 -- and that last one is 0.000e+00 in ALPHA, so ";
    "no boundedness or interface gate could ever see it."].

Definition c_interFoam_main_note_1 : string := cat [
    "The time loop, and the sub-cycle inside it. THE SUB-CYCLE is used by 33 of the 44 ";
    "shipped tutorials (23 at nAlphaSubCycles 3), and all three ways to get it wrong ";
    "leave a BOUNDED, plausible alpha field that no boundedness gate sees: running the ";
    "sub-steps at the full deltaT (Time::subCycle divides it, Time.C:1006-1009), ";
    "restarting each from the time step's old alpha instead of the previous sub-step's ";
    "result, and taking the last rhoPhi instead of the time-weighted sum ";
    "sum_k (dt_k/dt_total)*rhoPhi_k. alpha.oldTime() is also RESTORED afterwards ";
    "(subCycleField's destructor), or the PIMPLE outer loop's second pass advances from ";
    "the first's result. THE LOOP ORDER is not numerics but which field each equation ";
    "sees: alpha advances BEFORE the momentum predictor and mixture.correct runs between ";
    "them, so UEqn is built on the new rho. The single-phase order -- UEqn first -- ";
    "converges fine, on last step's density, which at a water/air interface is wrong by ";
    "1000. frozenFlow's `continue` skips the turbulence corrector as well as UEqn and ";
    "pEqn. adjustTimeStep/maxAlphaCo is interFoam_alphaCourantNo and is landed. ";
    "WHAT interFoam.C HONOURS AND brae DID NOT EVEN READ. The next port on the list was ";
    "`vanLeerV` (8 tutorials), and a census was taken first to rank it: every one of the 44 ";
    "shipped tutorials was meshed and handed to brae_interFoam for one step, and brae's OWN ";
    "message recorded. That changed the ranking -- all eight vanLeerV cases also carry a ";
    "moving mesh, so the scheme alone unlocks none; the single-blocker counts are waves 9, ";
    "turbulence 7, moving mesh 2, MRF 1, limitedLinear 1 -- and it found something worse than ";
    "a missing scheme. TWO TUTORIALS REACHED `End:` THAT SHOULD NOT HAVE: ";
    "laminar/damBreakWithObstacle and laminar/oscillatingBox both ask for ";
    "`dynamicRefineFvMesh`, adaptive refinement driven by alpha, and brae ran them on the ";
    "mesh as written without a word. brae's interFoam never opened constant/dynamicMeshDict. ";
    "Seventeen more tutorials carry a moving mesh and were stopped only because they hit some ";
    "OTHER refusal first. A one-input-at-a-time sweep on damBreak then found the rest: ";
    "MRFProperties and fvOptions (both locations) ran silently although braeInterFoam.cu's ";
    "own header listed both as refused; a DICTIONARY-form sigma -- a surfaceTensionModel -- ";
    "and a MISSING sigma both became ZERO surface tension, because it was read with ";
    "scalarOr(" ++ dq ++ "sigma" ++ dq ++ ", 0); a setTimeStep function object, which overrides deltaT from inside ";
    "Time::adjustDeltaT, was ignored; and the device loop ran nOuterCorrectors as 1 and ";
    "nNonOrthogonalCorrectors as 0 whatever the case said (5 and 4 tutorials ask for more), ";
    "where the host honours both. All are refused by name now, each by OpenFOAM's OWN rule ";
    "read from the source: dynamicFvMesh is mandatory once the dictionary exists and only ";
    "staticFvMesh is static (dynamicFvMeshNew.C:65-128); an MRF zone and an fvOption are ";
    "active unless they say otherwise (MRFZone.C:553, fvOption.C:72); constant/fvOptions is ";
    "looked up BEFORE system/fvOptions and OpenFOAM stops at the first (fvOptions.C:46-84); a ";
    "dictionary named sigma selects a model and a scalar one has no default ";
    "(surfaceTensionModelNew.C:36-66). tests/interfoam_refusals.sh holds 25 arms, and EVERY ";
    "REFUSAL HAS ITS OPPOSITE beside it -- staticFvMesh, `active no` on a zone and on an ";
    "option, an inactive constant/fvOptions hiding an active system/ one, sigma 0, a harmless ";
    "function object -- which must still RUN, because a refusal that fires on a case OpenFOAM ";
    "would run unchanged is a defect too. After it the census shows exactly two tutorials ";
    "reaching `End:`: damBreak and capillaryRise, the two that are gated. That note ended by ";
    "saying what it did NOT claim -- that nOuterCorrectors 2, nNonOrthogonalCorrectors 1 ";
    "and momentumPredictor yes were RIGHT on the host, only that they ran. They were ";
    "checked next, and two of the three were not. ";
    "THREE PIMPLE CONTROLS RAN AND WERE NEVER HELD TO ANYTHING, and two of them were wrong. ";
    "damBreak uses none of nOuterCorrectors 2, nNonOrthogonalCorrectors 1 or ";
    "momentumPredictor yes (5, 4 and 5 of the 44 shipped tutorials set them), brae's host ";
    "executed all three, and no gate compared any of them with OpenFOAM -- the position ";
    "alphaApplyPrevCorr was in while it carried a wrong limiter argument. Each is now a ";
    "profile of tests/interfoam_dambreak_vs_openfoam.sh at the big step, with the control on ";
    "the ORACLE: the setting moves OpenFOAM's own alpha by 1.6e-01, 5.4e-04 and 7.5e-02 ";
    "respectively, so a brae that ignored it could not pass. (1) nOuterCorrectors 2 WAS ";
    "WRONG: alpha 4.9e-06, p_rgh 4.5e-06, U 1.0e-03, one alpha solve taking 3 sweeps for ";
    "OpenFOAM's 2. The solver log localised it in one read: every FIRST-pass alpha solve ";
    "exact to 1e-13, every SECOND-pass one 84% to 170% out in its initial residual, and p_rgh ";
    "exact through step two's first pass. alphaEqnStep reset alpha1 to its old time at the ";
    "top of every call, and alphaEqn.H has NO such assignment anywhere: the old time enters ";
    "through fvmDdt's source and MULES' psi.oldTime(), while the CURRENT alpha1 is the pre- ";
    "solve's initial guess, the field alphaPhiUn is built from, and what the limiter takes ";
    "its extrema from (MULESTemplates.C:208 against :244). With one outer corrector the two ";
    "are the same field, so the reset was a no-op for as long as the function had only ever ";
    "been run that way. After: alpha 2.8e-12, U 8.6e-12, 10 of 10 alpha counts. brae's MULES ";
    "already took psi and psiOld separately, as OpenFOAM's does; only the caller forced them ";
    "equal. (2) nNonOrthogonalCorrectors 1 WAS RIGHT: alpha 1.2e-12, 30 of 30 p_rgh counts. ";
    "(3) momentumPredictor yes FOUND THREE THINGS. OpenFOAM itself REFUSES damBreak with the ";
    "predictor on -- `Entry 'UFinal' not found` -- because fvMatrix::solve() selects the ";
    "Final entry on the last outer corrector and with one corrector that is the only one; ";
    "brae ran the case, reading NEITHER entry: a struct default of 1e-7 on PBiCGStab on the ";
    "host and a hardcoded 1e-12 on Jacobi-BiCGStab on the device, where the case says ";
    "smoothSolver symGaussSeidel at 1e-06. That is the third time the same substitution has ";
    "turned up (p_rgh, alpha, U). Both paths now read U and UFinal, require each exactly ";
    "where OpenFOAM does, run the case's smoother (solveVector took a VectorLinearSolver; the ";
    "device calls deviceSymGaussSeidel), skip the component a 2-D mesh does not solve as ";
    "fvMatrixSolve.C:162-164 does, and log every solve. THEN THE HOST WAS STILL THREE ORDERS ";
    "WORSE THAN THE DEVICE on the same case with the same solver and the same sweep counts -- ";
    "alpha 9.1e-10 against 1.4e-12, U 9.2e-08 against 8.7e-12 -- which is a comparison that ";
    "only exists because both paths are gated against the same oracle. fvMatrix::solve() ends ";
    "with correctBoundaryConditions(); the host's predictor ended with evaluateBoundary() ";
    "alone, and brae's pressureInletOutletVelocity keeps its STORED value through that on ";
    "purpose, so the atmosphere's U_b was one solve stale going into the first pressure ";
    "corrector, where totalPressure reads 0.5*rho*|U_b|^2. The device refreshed it and the ";
    "host did not. One shared updateVelocityPatchesFromCells now serves the corrector, the ";
    "predictor and the device driver: host alpha 1.4e-12, p_rgh 1.4e-12, U 8.4e-12, every Ux, ";
    "Uy, p_rgh and alpha count OpenFOAM's on both paths. The device REFUSES the first two ";
    "controls (its loop runs one outer corrector and no non-orthogonal pass), and on those ";
    "profiles the gate asserts the refusal. ALONG THE WAY the residual comparison got the ";
    "floor a normalised residual has: it had failed on two agreements it should have praised, ";
    "a 5e-8 initial residual the two codes held 6e-18 apart ('1.3e-10 relative') and a ";
    "1.935e-14 final residual matching to four digits ('2.2e-05 relative'); below 1e-16 ";
    "absolute the difference is now zero, and a different SOLVER is still nine orders above ";
    "that."].

Definition c_interFoam_main : component := {|
  name := "interFoam_main";
  of_symbol := "main";
  of_file := "applications/solvers/multiphase/interFoam/interFoam.C";
  classification := "HOST_ONLY";
  status := "REIMPLEMENT";
  of_line := None;
  brae_driver := None;
  brae_existing := None;
  brae_reference := Some "src/applications/solvers/interFoam/inter_solve_cpp.cuh";
  brae_cuda := None;
  brae_target := Some "src/applications/solvers/interFoam/braeInterFoam.cu";
  validation := Some (cat [c_interFoam_main_validation_1; c_interFoam_main_validation_2]);
  note := Some (cat [c_interFoam_main_note_1]);
  selection_base := None;
  schema_for := None;
  other := [] |}.

Definition c_interFoam_alphaEqn : component := {|
  name := "interFoam_alphaEqn";
  of_symbol := "alphaEqn";
  of_file := "applications/solvers/multiphase/VoF/alphaEqn.H";
  classification := "SHARED_NUMERICAL";
  status := "REIMPLEMENT";
  of_line := None;
  brae_driver := None;
  brae_existing := None;
  brae_reference := Some "src/applications/solvers/interFoam/alpha_eqn_cpp.cuh";
  brae_cuda := None;
  brae_target := Some "src/applications/solvers/interFoam/device_alpha_step.cu";
  validation := Some (cat [
    "tests/test_alpha_eqn_cpp.cu covers the FLUX ASSEMBLY. Boundedness is the gate for ";
    "the MULES half and is an ASSERTION, not a tolerance: 0 <= alpha <= 1 exactly, ";
    "every cell, every sub-cycle. A VoF gate that only checks agreement can pass ";
    "while the field goes unbounded and is then clipped. ON THE DEVICE, ";
    "tests/test_device_alpha_step.cu runs the WHOLE explicit corrector on a rotating ";
    "blob -- discretely divergence-free, so boundedness means something -- against ";
    "the host: alpha in [0,1] exactly, 1.1e-16 after one step and 9.99e-16 after ";
    "forty of two correctors each."]);
  note := Some (cat [
    "minIter ON THE PRE-SOLVE is honoured on the host (AlphaStepInput::minIterAlpha): gated as laminar/damBreak `alphaminiter` on the sweep count, which is all damBreak can witness (the forced sweep acts on an exact solution); ignored it logs 0 where OpenFOAM logs 1. The device refuses it. ";
    "ALPHA'S BOUNDARY IS NOT EVALUATED BEFORE ITS FLUXES (alphaEqn.H has no such call): the explicit path reads the patch values the last MULES solve left, at the first step the file's own `value`; brae evaluated at the top of alphaEqnStep. MEASURED on RAS/mixerVesselAMI, whose outlet writes `value uniform 0` under water: OpenFOAM's 62 outlet cells rise to 1.104 in the first sub-cycle, brae held them at 1, alpha 9.4e-02 after one step (tests/interfoam_ami_vs_openfoam.sh; restored, 1.9e-06 of U after 100 steps). ";
    "SPLIT IN TWO. The flux assembly is landed: alphaControls, the off-centring, phic, ";
    "phiCN, alphaPhiUn and rhoPhi. MULES is interFoam_MULES and is not. Su/Sp/divU are ";
    "identically zero for THIS solver (interFoam/alphaSuSp.H is three zeroFields); they ";
    "are live in interPhaseChangeFoam, which has its own. Three things the gate pins that ";
    "no field shows: phic is zeroed on every NON-COUPLED boundary (alphaEqn.H:79-89, ";
    "compression at an inlet sharpens an interface the boundary does not have); ";
    "alphaPhiUn's compressive term is a nested flux with TWO minus signs, which cancel ";
    "exactly under `Gauss linear` (31 tutorials, so the mistake is invisible there) and ";
    "do not under `Gauss vanLeer` (7); and rhoPhi's two branches multiply rho2f by phiCN ";
    "on the Euler path and phi on the other. Only Euler, localEuler and CrankNicolson ddt ";
    "are accepted (alphaEqn.H:49-51), and CrankNicolson is refused when sub-cycling. ";
    "`Gauss interfaceCompression` on div(phirb,alpha) (4 tutorials) is interFoam_interfaceCompression. ";
    "THE WHOLE MULESCorr PATH NOW RUNS ON THE DEVICE and is gated end to end against the ";
    "host over 40 steps at nAlphaCorr 2 / nLimiterIter 5, damBreak's own settings: ";
    "1.07e-10, and it differs from the explicit path by 3.3e-02 so the arm is not a ";
    "second copy of it. Two things that gate found. CMULES' outlet test reads ";
    "alphaPhiUn, not phiCN -- OpenFOAM passes talphaPhi1Un() -- and passing the ";
    "volumetric flux there cost 3.99e-09 against the host. And the path is NOT exactly ";
    "bounded at nLimiterIter 5: 1.307e-06, the host's number to four digits, which is ";
    "the fixed-point iteration and nothing else -- the pre-solve alone is 0.000e+00 at ";
    "solver tolerance 1e-12 and 1.31e-06 at 1e-6, and the final field is 0.000e+00 at ";
    "nLimiterIter 40. ";
    "THE IMPLICIT PRE-SOLVE IS ON THE DEVICE (device_alpha_presolve.cu): the upwind LDU, ";
    "the Euler ddt, the BiCGStab solve and alpha1Eqn.flux(), with only the boundary ";
    "coefficients built on the host. Its gate pins the flux by the closure ";
    "alpha == alphaOld - (dt/V)*sum_f alphaPhi10, which tracks the SOLVER RESIDUAL ";
    "(1.3e-12 at tolerance 1e-12, 3.0e-06 at 1e-6) where a flux rebuilt from the ";
    "pre-solve field leaves a fixed 5.1e-03 and a central one 2.3e-02. ";
    "THE DEVICE SPLIT IS ONE CORRECTOR PER CALL, not the nAlphaCorr loop: OpenFOAM ";
    "re-evaluates alpha's boundary at the end of every MULES solve and runs ";
    "mixture.correct() after that, and the next corrector's flux, gradient and limiter all ";
    "read them. Looping inside the call put nHatf 2.885e-04 out on a field whose largest ";
    "value is 1.736e-03, and 3.2e-09 into alpha by the end of a single step. ";
    "THE PRE-SOLVE'S LINEAR SOLVER WAS A SUBSTITUTION HIDDEN BY A TOLERANCE. Every MULESCorr ";
    "tutorial names `solver smoothSolver; smoother symGaussSeidel; tolerance 1e-8` for alpha. ";
    "The device ran Jacobi-BiCGStab to a HARDCODED 1e-12 and the host DILU-PBiCGStab to a ";
    "struct default of 1e-8; neither read the case. It matters because an implicit upwind ";
    "matrix is nearly triangular in flow order, so a Gauss-Seidel sweep is nearly an exact ";
    "solve -- OpenFOAM's log on damBreak reads `No Iterations 2, Final residual 9.3e-14` -- ";
    "while Jacobi-BiCGStab stops AT its tolerance. Measured against real OpenFOAM, five steps ";
    "of damBreak, device alpha pre-solve tolerance swept: 1e-16 -> alpha 5.5e-11; 1e-12 (the ";
    "hardcoded value) -> 1.6e-10; 1e-8 (THE CASE'S OWN) -> alpha 3.3e-06 and U 1.2e-03. The ";
    "1.6e-10 had been in the device/host gate all along, under a bound of 1e-8 and a comment ";
    "attributing it to 'the pre-solve's residual' -- which was true and was not followed. The ";
    "device had OpenFOAM's smoother already (deviceSymGaussSeidel: smoothSolver's stopping ";
    "rule around symGaussSeidelSmoother's own sweep, level-scheduled and exact, gated by ";
    "gs_ladder). With the case's entry read (InterFields::aSolve, lduMatrix's defaults, ";
    "refused when MULESCorr names no solver) and the device on it at the case's 1e-8: device ";
    "against OpenFOAM alpha 1.6e-10 -> 3.6e-14, p_rgh 2.1e-10 -> 8.6e-12, U 3.8e-08 -> ";
    "2.3e-11 -- the host's numbers to three digits -- and device against host through the ";
    "shipped drivers alpha 1.6e-10 -> 1.1e-15, U 3.7e-08 -> 2.6e-14 relative, p_rgh 2.5e-10 ";
    "-> 2.5e-14, the adaptive clock 3e-10 -> 2e-12. Every bound in ";
    "tests/test_device_inter_dambreak_alpha.cu followed, from 1e-8/1e-7/1e-6 to ";
    "1e-13/1e-12/1e-12. THE HOST SUBSTITUTED TOO (DILU-PBiCGStab, under a notice) until it had a ";
    "smoothSolver of its own -- see interFoam_smoothSolver. On damBreak that was measured ";
    "harmless, 3.6e-14, because DILU on a near-triangular matrix is as nearly exact as the ";
    "sweep; measured on one case, not proven, which is why it was closed rather than left. ";
    "Any alpha solver that is not smoothSolver with a Gauss-Seidel smoother still runs ";
    "BiCGStab on both paths, under a notice that carries the 3.3e-06. ";
    "`alphaApplyPrevCorr` WAS HALF PORTED AND THE OTHER HALF WAS SILENT. alphaEqn.H:133-150 ";
    "and :228-236: the compression flux the correctors ended on is cached in talphaPhi1Corr0 ";
    "and the NEXT pre-solve applies it, limited through MULES::correct, before its own ";
    "correctors run. Three shipped tutorials set it (floatingObject, DTCHull, DTCHullMoving) ";
    "and brae refuses all three for other reasons -- RAS, moving meshes, LTS -- so no ";
    "tutorial can gate it; OpenFOAM honours it on any MULESCorr case and damBreak is one. THE ";
    "HOST had an implementation nothing had ever run. THE DEVICE had nothing at all -- no ";
    "code and NO REFUSAL -- so `brae_interFoam -device` on such a case ignored the switch and ";
    "said nothing. Measured on damBreak at dt 5e-3 with the switch on, before any change: ";
    "host alpha 1.2e-12 from OpenFOAM, device 1.0690e-02 -- to five digits OpenFOAM's own ";
    "distance from itself with the switch OFF -- and U 15% out. Now implemented on the device ";
    "with the two CMULES primitives it already had (deviceMulesLimitCorr, ";
    "deviceMulesCorrect); the cache is owned by the CALLER because it outlives the call, and ";
    "the switch without a cache, without MULESCorr, or without the curvature-free ";
    "refreshBoundary hook is refused by name. Device after: alpha 1.2e-12, p_rgh 1.7e-12, U ";
    "9.2e-12, every p_rgh and alpha iteration count OpenFOAM's. Gated as two more profiles of ";
    "tests/interfoam_dambreak_vs_openfoam.sh. `prevcorr` asserts that OpenFOAM's log says ";
    "`Applying the previous iteration compression flux` -- an oracle that never took the path ";
    "would agree with a brae that ignored it -- and its control is that the switch moves ";
    "OpenFOAM's OWN alpha by 1.07e-02, nine orders more than brae's distance from it. ";
    "`prevcorrsub` adds nAlphaSubCycles 2, because the cache outlives the SUB-CYCLE as well ";
    "as the time step and damBreak's own count of 1 cannot tell a cache that crosses from one ";
    "that is reset: ten alpha solves (0, 0, 3, 3, 2, 2, 2, 2, 2, 2), every count equal on ";
    "both paths, alpha 1.6e-12, and the sub-cycle count moves OpenFOAM's own alpha by ";
    "8.2e-02. ";
    "ONE FIX HERE WAS MADE FROM THE SOURCE FIRST AND MEASURED AFTERWARDS, and the measuring ";
    "is the part worth keeping. The host passed phiCN, the VOLUMETRIC flux, as ";
    "MULES::correct's flux argument where OpenFOAM passes alphaPhi10 (alphaEqn.H:140). ";
    "limiterCorr reads it in one place, the boundary outlet test `(phi_b + phiCorr_b) > ";
    "SMALL*SMALL` (CMULESTemplates.C:546) -- the same slip the corrector loop had, fixed ";
    "there at 3.99e-09 -> 1.07e-10. IT TOOK THREE FIXTURES. (1) damBreak: the host's numbers ";
    "are the same to five digits either way, because the boundary half of the cached ";
    "correction is zero unless alpha's patch value moves between the pre-solve and the ";
    "correctors, which needs water LEAVING through an outflow face. (2) The water column ";
    "raised to the atmosphere, dt 5e-3: water does leave, and a probe counting the faces on ";
    "which the two tests DECIDE DIFFERENTLY found up to 13 a step, on corrections worth 15% ";
    "of the face flux -- and the answer was still bit-identical, alpha 5.8831e-13 both ways. ";
    "Running the limiter both ways on the same state showed why: the limited correction came ";
    "out identical, because on those faces the cell limiter returned 1 and made the decision ";
    "moot. A difference in a DECISION is not a difference in an ANSWER. (3) The same fixture ";
    "at dt 1e-2, found by sweeping brae alone for a step where the two limited corrections ";
    "actually differ: one application there moves one cell's alpha by 0.10. Against real ";
    "OpenFOAM, four steps: with phiCN alpha 5.5e-03, p_rgh 5.7e-03, U 2.2e-02; with ";
    "alphaPhi10 4.6e-13, 2.7e-13, 5.5e-13 -- ten orders from one argument. The device, ";
    "written with the right argument from the start, reads 4.7e-13, 2.9e-13 and 4.5e-11 on ";
    "it. Gated as the `outflow` profile, whose control is on BRAE rather than the oracle: the ";
    "host runs again with BRAE_CONTROL_PREVCORR_PHICN set (read in the driver as BRAE_PTOL ";
    "is, announced on every step it is on, and carried by ";
    "AlphaStepInput::controlPrevCorrOutletOnPhiCN, which no solver sets) and must come out ";
    "more than 1e-6 from OpenFOAM. It reads 5.5193e-03. The sweep also bounds the fixture: at ";
    "dt 2e-2 alpha leaves [-0.34, 1.12] and the inflow variants go to NaN, so dt 1e-2 for ";
    "four steps is what this case can carry."]);
  selection_base := None;
  schema_for := None;
  other := [] |}.

Definition c_interFoam_MULES : component := {|
  name := "interFoam_MULES";
  of_symbol := "MULES::limiter";
  of_file := "src/finiteVolume/fvMatrices/solvers/MULES/MULES.C";
  classification := "SHARED_NUMERICAL";
  status := "REIMPLEMENT";
  of_line := None;
  brae_driver := None;
  brae_existing := None;
  brae_reference := Some "src/finiteVolume/fvMatrices/solvers/MULES/mules_cpp.cuh";
  brae_cuda := None;
  brae_target := Some "src/finiteVolume/fvMatrices/solvers/MULES/device_mules.cu";
  validation := Some (cat [
    "tests/test_mules_cpp.cu. The oracle is BOUNDEDNESS, not a stored field, which is ";
    "what makes the gate possible at all -- a stock run never writes the limiter. It ";
    "is a PAIR of arms, because either alone is trivially satisfiable: the limited run ";
    "stays in [0,1] exactly where the unlimited one does not, AND a monotone in-bounds ";
    "field comes back with lambda == 1 on every face away from the domain ends. ";
    "lambda == 0 everywhere passes the first and fails the second, and it is ";
    "first-order upwind -- the case's scheme silently discarded."]);
  note := Some (cat [
    "THE LARGEST SINGLE PIECE, and the least brae-like. An EXPLICIT, ITERATIVE, ";
    "bound-preserving flux limiter -- not a matrix assembly -- so almost none of the fvm:: ";
    "machinery the other solvers share applies. Landed: limiter, limit, explicitSolve. ";
    "Four things the gate pins that no converged field shows: psiMaxn/psiMinn are ";
    "initialised SWAPPED (:280-281) so the neighbour scan builds from the far end; the ";
    "neighbourhood extrema EXCLUDE the cell's own value, which is what lets an interface ";
    "advance; phiBD is overwritten with phiPsi on every non-coupled boundary so the ";
    "prescribed flux is never limited (:600-609); and a wedge patch gets lambda = 0 ";
    "outright (:530-533). Two things measured and NOT claimed: the running ";
    "min(lambda,...) is defensive rather than load-bearing (removing it gives a ";
    "bit-identical field, because both accumulators are built from lambda), and in one ";
    "dimension the first pass is already the fixed point -- nLimiterIter only bites where ";
    "a cell's faces are limited by different neighbours at once. AND ACROSS A COUPLED PATCH ";
    "the limiter is synced by syncTools::syncFaceList (:566), which exchanges across ";
    "processor and cyclicPolyPatch ONLY: an AMI pair keeps each side's own limiter, so the ";
    "limited flux across a cyclicACMI is not equal and opposite. brae synced it; measured ";
    "on damBreakLeakage's opening step, the receiving side's alpha flux 75% of the giving ";
    "side's in OpenFOAM (FvPatch::ami, interFoam_cyclicACMI)."]);
  selection_base := None;
  schema_for := None;
  other := [] |}.

Definition c_interFoam_CMULES : component := {|
  name := "interFoam_CMULES";
  of_symbol := "MULES::correct";
  of_file := "src/finiteVolume/fvMatrices/solvers/MULES/CMULESTemplates.C";
  classification := "SHARED_NUMERICAL";
  status := "REIMPLEMENT";
  of_line := None;
  brae_driver := None;
  brae_existing := None;
  brae_reference := Some "src/finiteVolume/fvMatrices/solvers/MULES/mules_cpp.cuh";
  brae_cuda := None;
  brae_target := Some "src/finiteVolume/fvMatrices/solvers/MULES/device_mules.cu";
  validation := Some (cat [
    "tests/test_mules_cpp.cu arm 7. Shares the boundedness oracle; the four structural ";
    "differences from the explicit path are asserted one by one, each with its own ";
    "fail-proof. ON THE DEVICE, tests/test_device_mules_corr.cu repeats A, B, C and ";
    "the empty-patch skip against the host limiter: psi stays in [0,1] exactly where ";
    "the unlimited control reaches 4.0e-01, and lambda came out bit-identical on all ";
    "264 faces, 32 of them strictly inside (0,1) -- not guaranteed, since the budgets ";
    "are gathers there and a face loop here, so the gate keeps a tolerance."]);
  note := Some (cat [
    "LANDED AND RUNNING on damBreak's own mesh. The semi-implicit variant, `MULESCorr yes` -- 13 of the 44 shipped tutorials, damBreak ";
    "included. With it the upwind part of the alpha equation goes through an implicit ";
    "MATRIX, so by the time CMULES runs psi is ALREADY advanced and only the antidiffusive ";
    "correction is left. Four consequences, all of them places a port that reuses the ";
    "explicit code is quietly wrong. (A) correct() uses the CURRENT rho and psi, not their ";
    "oldTime values: with a zero correction it is the identity, where the explicit form ";
    "would hand back psi.oldTime() and undo the implicit solve -- bounded, so a ";
    "boundedness gate never notices, the interface just moves at the wrong speed. (B) the ";
    "budget transform carries NO sumPhiBD, because there is no donor flux. (C) uncoupled ";
    "boundary faces ARE limited, but outlets only, and `outlet` means phi + phiCorr > ";
    "SMALL*SMALL -- the TOTAL, so an inflow face whose correction reverses it is limited ";
    "like any other. (D) nLimiterIter is get<label> with NO DEFAULT here where the ";
    "explicit limiter defaults it to 3, so the same dictionary is accepted by one reader ";
    "and refused by the other. MEASURED on damBreak: 20 alpha steps on a projected ";
    "divergence-free flux leave the field within 2.1e-11 of [0,1] against the explicit ";
    "path's 9.5e-14. Three sweeps characterise that gap: it is present at step 0 and ";
    "barely accumulates; it is INDEPENDENT of the linear-solver tolerance (1e-8 to ";
    "1e-14 moves it not at all) while the MASS DRIFT tracks that tolerance exactly; and ";
    "it scales as about dt^4. So conservation is the solve's accuracy and boundedness ";
    "is a conditioning effect in the budget that grows with the correction. The exact ";
    "mechanism is not attributed; the gate asserts the characterisation -- the bound AND ";
    "the scaling -- so a change in behaviour fails rather than being absorbed. ";
    "NOT CMULES, AS IT TURNED OUT: on damBreak over ten adaptive steps brae's alpha ";
    "reached 1 + 2.306e-06 where real OpenFOAM reached 1 + 1.1361e-06, 1.98x, and it ";
    "was first recorded here as an open CMULES gap. Measuring it put it elsewhere. ";
    "interFoam's alphaSuSp.H has no divU, so the MULESCorr pre-solve on a full cell ";
    "gives a = 1/(1 + dt*div(phi)) and the excursion is dt times the continuity error ";
    "the PRESSURE solve left. Tightening only the alpha solve changed nothing to the ";
    "last digit; tightening only p_rgh took both codes from 1.16e-06 to 4.9e-13. The ";
    "per-step ratio ran 0.12x to 3.18x, not a steady 2x. Closed under interFoam_pEqn, ";
    "and test_inter_case_cpp now holds it at OpenFOAM's own value to 2% (0.9931x). ";
    "OpenFOAM prints Max(alpha.water) TWICE a step -- after the pre-solve ";
    "(alphaEqn.H:124) and after the correctors (alphaEqn.H:263) -- and the gate's ";
    "constant had been taken from the first while it reads the second."]);
  selection_base := None;
  schema_for := None;
  other := [] |}.

Definition c_interFoam_interfaceProperties : component := {|
  name := "interFoam_interfaceProperties";
  of_symbol := "interfaceProperties";
  of_file := "src/transportModels/interfaceProperties/interfaceProperties.C";
  classification := "MODEL";
  status := "REIMPLEMENT";
  of_line := None;
  brae_driver := None;
  brae_existing := None;
  brae_reference := Some "src/transportModels/interfaceProperties/interface_properties_cpp.cuh";
  brae_cuda := None;
  brae_target := Some "src/transportModels/interfaceProperties/device_interface_properties.cu";
  validation := Some (cat [
    "tests/test_interface_properties.cu (the dictionaries) and ";
    "tests/test_interface_curvature_cpp.cu (K itself). NO INSTRUMENTED OpenFOAM ";
    "WAS NEEDED: curvature is GEOMETRY. A plane's spurious K is 5+ orders below a ";
    "real one and tracks deltaN; a sphere of radius R gives 2/R to 0.1% at 16^3 ";
    "and the error FALLS on refinement, which is what makes the bound the ";
    "scheme's rather than the mesh's; a bubble gives the exact negative; and the ";
    "contact angle has the exact postcondition acos(nHat & nf) == theta."]);
  note := Some (cat [
    "K_ = -div(nHatf) with nHatf = (gradAlphaf/(|gradAlphaf| + deltaN)) & Sf ";
    "(interfaceProperties.C:141-153), plus the alphaContactAngle correction on wall ";
    "patches. surfaceTensionForce() = interpolate(sigma*K)*snGrad(alpha1). THE MINUS in ";
    "K is the sign convention for the whole solver -- drop it and every surface-tension ";
    "force points the wrong way with the right magnitude, which a flat-interface test ";
    "cannot see because -0 is 0. fvc::grad(alpha1, " ++ dq ++ "nHat" ++ dq ++ ") resolves a NAMED ";
    "gradScheme. The contact-angle correction also writes alpha's own WALL GRADIENT ";
    "(acap.gradient() = (nf & nHat)*mag(gradAlphaf)), not only the normal used for ";
    "curvature; only laminar/capillaryRise sets one. nAlphaSmoothCurvature is set by NO ";
    "shipped tutorial anywhere in OpenFOAM; smoothing is fvc::average, which is ";
    "AREA-WEIGHTED and indistinguishable from a plain mean on a cube, so its gate runs ";
    "on anisotropic cells. Combining it with a leastSquares gradient is refused by ";
    "name -- there is no case to validate that against. INSTRUMENTED 2026-09-16: ";
    "tools/dumpInterfaceK reads K, nHatf, the surface-tension force and alpha's ";
    "post-correct boundary from OpenFOAM's UNMODIFIED class -- nHatf() and sigmaK() are ";
    "public, so nothing is copied or patched. It found that calculateK is a FIXED POINT: ";
    "it reads the wall gradient correctContactAngle wrote at the end of its own previous ";
    "pass, so on capillaryRise that gradient runs 7070.5 -> 8659.4 -> 9353.1 -> 9681.2 ";
    "over four passes and the curvature depends on WHERE the solver calls it, not only ";
    "on the formula. brae's formula is exact -- 2.5e-14 relative against OpenFOAM at ";
    "every one of four pass counts (tests/interfoam_curvature_vs_openfoam.sh) -- and its ";
    "call sites were wrong: at the top of each alpha corrector instead of the bottom, ";
    "absent from createFields, and absent from the mixture.correct() between the ";
    "sub-cycle and UEqn. Fixing those took capillaryRise from 24.9% to 12.8%."]);
  selection_base := None;
  schema_for := None;
  other := [] |}.

Definition c_interFoam_twoPhaseMixture : component := {|
  name := "interFoam_twoPhaseMixture";
  of_symbol := "twoPhaseMixture";
  of_file := "src/transportModels/twoPhaseMixture/twoPhaseMixture/twoPhaseMixture.C";
  classification := "MODEL";
  status := "REIMPLEMENT";
  of_line := None;
  brae_driver := None;
  brae_existing := None;
  brae_reference := Some "src/transportModels/twoPhaseMixture/two_phase_mixture_cpp.cuh";
  brae_cuda := None;
  brae_target := Some "src/transportModels/twoPhaseMixture/device_two_phase_mixture.cu";
  validation := Some "rho and mu as alpha-weighted blends, against OpenFOAM's own fields at iteration 1.";
  note := Some "Field plumbing rather than new numerics: rho = alpha1*rho1 + (1-alpha1)*rho2, same for mu.";
  selection_base := None;
  schema_for := None;
  other := [] |}.

Definition c_interFoam_immiscibleMixture : component := {|
  name := "interFoam_immiscibleMixture";
  of_symbol := "immiscibleIncompressibleTwoPhaseMixture";
  of_file := "src/transportModels/immiscibleIncompressibleTwoPhaseMixture/immiscibleIncompressibleTwoPhaseMixture.C";
  classification := "MODEL";
  status := "REIMPLEMENT";
  of_line := None;
  brae_driver := None;
  brae_existing := None;
  brae_reference := Some "src/transportModels/twoPhaseMixture/two_phase_mixture_cpp.cuh";
  brae_cuda := None;
  brae_target := Some "src/transportModels/twoPhaseMixture/device_two_phase_mixture.cu";
  validation := Some "Shares the twoPhaseMixture gate.";
  note := Some (cat [
    "Joins twoPhaseMixture and interfaceProperties into the one object interFoam.C holds -- ";
    "AND THE ORDER IT JOINS THEM IN IS PART OF THE ANSWER. correct() is calcNu() THEN ";
    "interfaceProperties::correct() (immiscibleIncompressibleTwoPhaseMixture.H:78-82), and at ";
    "a contact-angle wall the second call rewrites alpha's patch gradient and so its patch ";
    "value. Three things follow, all measured on capillaryRise against tools/dumpInterFoam ";
    "and together the whole of the 0.7% that case carried: (1) the boundary viscosity is ";
    "blended BEFORE the curvature pass; brae did it after, and UEqn.A() was exact in every ";
    "cell off the wall and 1.26% high in the air cells at it -- 0.2% of U after one step, ";
    "before the contact line had moved a face. (2) `alpha2 = 1.0 - alpha1` (alphaEqn.H:151 ";
    "and :223) is a whole-field assignment one line ABOVE mixture.correct(), so alpha2's ";
    "PATCH values are one contact-angle pass older than alpha1's, and `rho == alpha1*rho1 + ";
    "alpha2*rho2` blends the two: 7.4e-05 of rho*nu at the wall with 1 - alpha1, 1e-17 with ";
    "the stale value carried (InterFields::alpha2Bnd on the host, deviceBoundaryRho on the ";
    "device). (3) because the curvature pass has that side effect, the NUMBER of passes is ";
    "part of the answer -- the gradient runs 7070.5, 8659.4, 9353.1, 9681.2 -- and the ";
    "device's alpha-boundary hook ran the host's calculateK on every call, including the sub- ";
    "step's reset of alpha1, which is not a mixture.correct(): five passes a step where ";
    "OpenFOAM takes three, K 0.6% out at the contact line and U 1.9% out after ONE step. The ";
    "hook is now two (DeviceInterAlphaHooks::refreshBoundary). damBreak has no contact angle, ";
    "where calculateK has no side effect, and could see none of the three."]);
  selection_base := None;
  schema_for := None;
  other := [] |}.

Definition c_interFoam_UEqn : component := {|
  name := "interFoam_UEqn";
  of_symbol := "UEqn";
  of_file := "applications/solvers/multiphase/interFoam/UEqn.H";
  classification := "SHARED_NUMERICAL";
  status := "REIMPLEMENT";
  of_line := None;
  brae_driver := None;
  brae_existing := None;
  brae_reference := Some "src/applications/solvers/interFoam/inter_ueqn_cpp.cuh";
  brae_cuda := None;
  brae_target := Some "src/applications/solvers/interFoam/device_inter_ueqn.cu";
  validation := Some (cat [
    "tests/test_inter_ueqn_cpp.cu, and end to end at 3.3e-06 relative in U on damBreak ";
    "against real OpenFOAM. ON THE DEVICE, tests/test_device_inter_ueqn.cu: ";
    "fvc::reconstruct pinned by its own identity -- reconstruct(V & Sf) == V to ";
    "0.000e+00 on 2:1:0.5 cells, where the div-sign convention gives 2.5e+00 -- and ";
    "bit-identical to the host on a non-uniform flux; the ddt bit-identical, with ";
    "rho.oldTime() replaced by rho measured at exactly 1000.0x, the density ratio; ";
    "and the p_rgh body force on a hydrostatic start 0.000e+00 in the bulk against ";
    "1.96e+04 at the interface, which is what the formulation is FOR. mu = rho*nuEff ";
    "is bit-identical too, and its FACE value is the product interpolated ONCE -- ";
    "interpolating the two factors separately is 3.4e-03 where the right answer is ";
    "1.0e-03. The device ASSEMBLY reuses gpu::assembleUEqn with rhoPhi and mu; that ";
    "gained an optional fvm::ddt(rho,U) applied BEFORE relax(), and a relaxEquation ";
    "flag so relax(1) still runs the diagonal-dominance clamp -- damBreak's ";
    "fvSolution says `equations { " ++ dq ++ ".*" ++ dq ++ " 1; }` and skipping it there would differ ";
    "from OpenFOAM on every shipped interFoam tutorial. ";
    "THE ASSEMBLED MATRIX IS GATED WHOLE (tests/test_device_inter_ueqn_assembly.cu) ";
    "against the host's assembleUEqn on a VoF state: off-diagonals and boundary ";
    "coefficients bit-identical, the relaxed diagonal 1.1e-13 of 1.0e+06 and the ";
    "source 5.8e-11 of 4.5e+05. Two things it measures that no solved field could: ";
    "relax(1)'s diagonal-dominance clamp MOVES the diagonal by 1.2e+03, so skipping ";
    "relax at alpha == 1 is a different matrix; and passing rho for rho.oldTime() ";
    "puts the ddt source 1000.0x out in exactly 64 of 512 cells -- one layer, the ";
    "one the interface crossed. THE WHOLE PREDICTOR is gated there too: the ";
    "reconstructed face force lands in the source to 1.2e-16 relative, negating it ";
    "on the device moves the source by 2.00x the force exactly (a sign flip's ";
    "signature), and the force is 15.4% of the final source -- so assembling and ";
    "relaxing BEFORE adding it, which is what OpenFOAM does, is not cosmetic."]);
  note := Some (cat [
    "fvm::ddt(rho,U) + fvm::div(rhoPhi,U) + MRF.DDt(rho,U) + turbulence->divDevRhoReff(rho,U), ";
    "with the momentum predictor's source reconstructed from surfaceTensionForce() - ";
    "ghf*snGrad(rho) - snGrad(p_rgh). Assembly from pieces brae already had, EXCEPT two. ";
    "(1) fvm::ddt(rho,U) puts rho on the diagonal and rho.oldTime() in the SOURCE ";
    "(EulerDdtScheme.C:455-467); here those differ by the water/air ratio in every cell the ";
    "interface crossed, so carrying one rho field is a 1000x error exactly at the interface. ";
    "(2) the momentum source is a reconstructed FACE flux, not a cell gradient, and ";
    "`solve(UEqn == R)` adds it with a PLUS where rhoSimpleFoam's twin carries the minus ";
    "inside R. MRF, fvOptions and localEuler/CrankNicolson ddt are refused by name. `Gauss ";
    "limitedLinear` on div(rhoPhi,U) was too, and runs now (interFoam_limitedLinear)."]);
  selection_base := None;
  schema_for := None;
  other := [] |}.

Definition c_interFoam_pEqn_note_1 : string := cat [
    "rAU = 1/UEqn.A(), phiHbyA, the p_rgh laplacian, then U and phi rebuilt. Four things ";
    "are not shared with any other pressure corrector. (1) phig carries NO snGrad(p_rgh) ";
    "where UEqn's source does -- the pressure gradient is explicit there and IMPLICIT ";
    "here, and carrying it twice still converges, to the wrong balance at the interface. ";
    "(2) ddtCorr is weighted by interpolate(rho*rAU), the PRODUCT interpolated once, not ";
    "by interpolate(rho)*rAUf: rAU is of order dt/rho, so the two factors jump opposite ";
    "ways across the interface and the rival form is 250x out there while agreeing ";
    "exactly on any single-phase fixture. (3) the velocity correction divides by rAUf ";
    "INSIDE reconstruct and multiplies by rAU outside -- identical for a uniform rAU, ";
    "which is every easy fixture. (4) when p_rgh has no value-fixing patch, p is shifted ";
    "AND p_rgh is rebuilt from the shifted p; damBreak's totalPressure atmosphere hides ";
    "this, 8 shipped tutorials do not. ";
    "THE SOLVE ITSELF WAS A SUBSTITUTION IN TWO WAYS, and on a VoF case it shows. brae ran ";
    "PBiCGStab where every damBreak-family tutorial names `solver PCG; preconditioner DIC;`, ";
    "and took relTol from p_rghFinal for all three correctors where pEqn.H:50 solves with ";
    "p_rgh.select(pimple.finalInnerIter()) -- `p_rgh` (relTol 0.05) for the first two, ";
    "`p_rghFinal` for the last (pimpleControlI.H:98-111). Both are fixed: brae::pcg is ";
    "lduMatrix PCG + DICPreconditioner (gated in tests/test_pcg.cu), InterFields reads both ";
    "entries with lduMatrix::solver's own defaults (tolerance 1e-6, maxIter 1000 -- brae had ";
    "2000), a missing p_rghFinal is refused by name, and any other solver still runs ";
    "PBiCGStab under a noticeApproximated that says it moves the stopping point, not just the ";
    "cost. MEASURED on damBreak against real OpenFOAM, five fixed steps on the case's own ";
    "solves: alpha 1.24e-08 -> 2.2337e-12, p_rgh 3.35e-06 -> 7.194e-10 relative, U 9.76e-06 ";
    "-> 1.966e-08 relative, and the gate bounds tightened to 5e-11, 1e-8 and 4e-7 with them. ";
    "Over ten adaptive steps alpha's over-1 excursion -- which is dt times this solve's ";
    "continuity error -- went from 0.12-3.18x OpenFOAM's to 0.99-1.00x. Each half alone is ";
    "not enough: PCG with the old relTol gave 0.73-4.90x, PBiCGStab with the per-corrector ";
    "selection 1.98-18.41x. This is the lesson turbulentFlatPlate:kEpsilon taught about DILU: ";
    "a substituted solver at the same tolerance does not only cost differently, it STOPS ";
    "somewhere else. capillaryRise does not move (0.7%), so that gap is not this. (The device ";
    "ran its own solver on p_rgh at this point; it takes the case's too now -- see the end ";
    "of this note.) ";
    "WHAT capillaryRise's 0.7% WAS, since it was not the solver: three defects in how the ";
    "mixture meets a contact-angle wall (interFoam_immiscibleMixture) and one here. ";
    "OpenFOAM's flux-conditional patches LOOK PHI UP when they update -- ";
    "pressureInletOutletVelocity, inletOutlet, totalPressure all call ";
    "lookupPatchField(phiName_) inside updateCoeffs -- and brae's are TOLD, through ";
    "updateFromFlux, which interFoam never called. Every such face was therefore an OUTFLOW ";
    "face for the whole run. capillaryRise's bottom inlet draws water IN, so its ";
    "pressureInletOutletVelocity lost the two fixed tangential components and with them 2/3 ";
    "muEff magSf deltaCoeffs of UEqn.A() in every cell of the bottom row: 5.33e+05 by that ";
    "formula, 5.339e+05 measured against OpenFOAM's own UEqn.A() dump. It appears at step two ";
    "because step one starts from rest. Fixed with pushFluxToPatches (at start-up, inside ";
    "pressureCorrector between `phi = phiHbyA - p_rghEqn.flux()` and U's boundary evaluation, ";
    "which is pEqn.H's order, and after the corrector loop for alpha's inletOutlet); the ";
    "device had the same omission plus its own -- it never called ";
    "deviceUpdatePressureInletOutletVelocity, so its inflow faces stayed zeroGradient -- and ";
    "agreed with the host only while the host was wrong the same way. RESULT, ";
    "tests/interfoam_capillaryrise_vs_openfoam.sh, five steps: U 2.8e-03 -> 2.1e-08 (0.7% -> ";
    "5.0e-08 of |U|), alpha 4.6e-05 -> 4.6e-09, p_rgh 1.3e-04 -> 8.1e-08 relative, wall ";
    "gradient 4.5e-05 -> 5.2e-09 of its peak, UEqn.A() to 4.3e-09 and the wall's rho*nu to ";
    "1e-17; with every solve tightened the host is 5.5e-14 of |U| after one step. The gate's ";
    "bound went 0.02 -> 1e-6 and it now checks alpha, p_rgh and the pressure corrector's ";
    "terms wall-against-rest. damBreak moved too, the right way: alpha 2.23e-12 -> 1.30e-12, ";
    "p_rgh 7.2e-10 -> 6.5e-10, U 2.0e-08 -> 1.5e-08. THE DEVICE now has a gate on this case, ";
    "against OpenFOAM directly: 3.5e-08 with every solve tightened on both codes (2.2e-12 ";
    "after one step), and 9.2e-04 at the case's own tolerances, which WAS its p_rgh solver ";
    "stopping somewhere the case's PCG+DIC does not -- closed since, 4.8e-08. ";
    "snGrad(rho) ON A PATCH WAS CARRIED HERE AS `LATENT` AND IT IS NOT SMALL. createFields.H ";
    "builds rho from `alpha1*rho1 + alpha2*rho2`, so its patches are `calculated` and their ";
    "snGrad() is the base class's, deltaCoeffs*(rho_b - rho_cell) (fvPatchField.C:220-223); ";
    "brae took fvc::snGrad(rho) from a zeroGradient copy, which is 0 on every patch. On a ";
    "fixedFluxPressure wall the term cancels through constrainPressure, and everywhere else ";
    "on damBreak and capillaryRise alpha's patch value equals the cell's, so no shipped- ";
    "tutorial gate could see it and this note said so. THE FIXTURE THAT SEES IT took two ";
    "attempts, and the first is worth keeping: raising damBreak's water column to the ";
    "atmosphere did NOT exercise the term -- brae already agreed to 3.6e-13 -- because the ";
    "faces over the water turned out to be OUTFLOW (the patch fixes p_rgh, not p, so the ";
    "column top sees the lower pressure) and OpenFOAM's own dumped boundary snGrad(rho) was ";
    "`uniform 0`. What does it is the atmosphere's inletValue set to 1, so water enters over ";
    "air cells: OpenFOAM's boundary snGrad(rho) is then 1.57e+05 on 19 of 46 faces, phig ";
    "there is 1.66e-02 against a phiHbyA of 2.5e-06 -- four orders above everything else in ";
    "the pressure source -- max|U| goes 0.19 -> 20 m/s in ONE step, and brae was 100% out in ";
    "alpha, p_rgh and U from the second step on, with step two's alpha solve still exact ";
    "(4.4e-13) and its first p_rgh solve 100% different. Fixed on both paths with rho's real ";
    "patch values (rhoWithPatchValues; the device hands its own rhoBnd, which carries ";
    "alpha2's one-pass-older patch values, to the interfaceForces hook, and a missing patch ";
    "value is refused by name rather than defaulted to the cell's). Gated as the `inflow` ";
    "profile of tests/interfoam_dambreak_vs_openfoam.sh, three steps: host alpha 1.3e-14, ";
    "p_rgh 4.3e-11, U 6.1e-13; device 2.3e-14, 6.9e-10, 5.8e-10; every p_rgh and alpha ";
    "iteration count OpenFOAM's; the water let in equal to 1e-12. Its control is on the ";
    "ORACLE: OpenFOAM's own answer is 67x the standard case's whole velocity away from the ";
    "standard case's, so agreeing with it cannot be had without the term. THREE STEPS ONLY, ";
    "and the device's 6.9e-10 is why: it does not move when every solve is tightened on both ";
    "codes, so it is not the tolerance ball, and device against host under tight solves is ";
    "1e-12 after two steps and 7e-10 after three -- round-off growing 700x a step through a ";
    "violent transient, where a formula difference would have appeared at full size in step ";
    "two. At dt 1e-3 OpenFOAM's own alpha reaches 8 on this fixture; it is a probe for one ";
    "term, not a flow. ";
    "THE DEVICE NOW RUNS THE CASE'S PCG WITH DIC TOO, and DIC did not have to be written. ";
    "DICPreconditioner.C and DILUPreconditioner.C are the same two functions with `lower` ";
    "replaced by `upper` -- same face order, same multiplication order, same divisions -- so ";
    "the level-scheduled exact DILU the device already had IS DIC on a symmetric matrix. ";
    "deviceDICPCG aliases lower to upper (a symmetric lduMatrix has no lower; ";
    "lduMatrix::lower() returns upper) and tests/test_device_dic.cu holds it BIT-IDENTICAL, ";
    "by memcmp, to a line-for-line transcription of DIC's loops, with the `lower` buffer ";
    "deliberately filled with garbage. The solve arm is posed on the ITERATE at relTol 0.05, ";
    "not the converged answer, on a fixture with interFoam's own 1000x coefficient jump: host ";
    "and device both take 8 iterations and land 5.3e-16 apart, where Jacobi in the SAME CG ";
    "loop takes 21 and lands 3.4e-03 away. (Its first fixture, a uniform laplacian on 315 ";
    "cells, reached relTol 0.05 in ONE iteration, so 'the same iteration count' compared 1 ";
    "with 1; the gate now refuses a fixture that takes fewer than five.) THE SOLVER'S OWN LOG ";
    "IS NOW AN ORACLE: RunReport carries every p_rgh solve's initial residual, final residual ";
    "and iteration count, and both OpenFOAM gates read OpenFOAM's `DICPCG: Solving for p_rgh` ";
    "lines beside them. On capillaryRise and on damBreak, host and device, ALL FIFTEEN solves ";
    "take OpenFOAM's iteration count (capillaryRise 1/22/165, 1/65/173, 1/43/177, 1/19/173, ";
    "1/4/126), with step one's initial residuals to 1.3e-13. capillaryRise's device arm at ";
    "the case's own tolerances went 9.2e-04 -> 4.8e-08 and its bound 2e-3 -> 1e-6, which is ";
    "the host's; what is left on both is the last corrector's `tolerance 1e-07` ball, inside ";
    "which two correct CG runs whose reductions sum in a different order land in different ";
    "places. THAT LOG THEN FOUND A DEFECT NO FIELD GATE COULD SEE. On damBreak the third ";
    "solve of step one was 1.7e-06 out in its initial residual with the first two exact (0, ";
    "9.3e-14). totalPressure's updateCoeffs for a dimPressure field is p0 - ";
    "0.5*rho_b*neg(phi_b)*|U_b|^2 (totalPressureFvPatchScalarField.C:118-127), run by the ";
    "fvMatrix constructor inside fvm::laplacian with rho, phi and U looked up as PATCH ";
    "fields. brae's class implements it and interFoam never called it, so damBreak's ";
    "atmosphere sat at p0 for the whole run with no dynamic pressure on the faces drawing air ";
    "in. Fixed on both paths (updatePressurePatchesFromVelocity, refusing by name a ";
    "totalPressure patch with no rho patch values rather than defaulting rho to 1, which is ";
    "the incompressible form). damBreak against OpenFOAM: alpha 1.30e-12 -> 3.6e-14, p_rgh ";
    "6.5e-10 -> 8.6e-12, U 1.5e-08 -> 2.3e-11, step one's residuals 1.7e-06 -> 1.6e-13; ";
    "bounds tightened to 1e-12, 2e-10 and 5e-10. That gate also has a DEVICE arm now, at the ";
    "case's own tolerances -- what `brae_interFoam -device` runs -- held to the host's ";
    "bounds."].

Definition c_interFoam_pEqn : component := {|
  name := "interFoam_pEqn";
  of_symbol := "pEqn";
  of_file := "applications/solvers/multiphase/interFoam/pEqn.H";
  classification := "SHARED_NUMERICAL";
  status := "REIMPLEMENT";
  of_line := None;
  brae_driver := None;
  brae_existing := None;
  brae_reference := Some "src/applications/solvers/interFoam/inter_peqn_cpp.cuh";
  brae_cuda := None;
  brae_target := Some "src/applications/solvers/interFoam/device_inter_peqn.cu";
  validation := Some (cat [
    "tests/test_inter_peqn_cpp.cu covers the four parts that are interFoam's own; the ";
    "laplacian, the solve and the non-orthogonal loop are shared machinery gated ";
    "elsewhere. ON THE DEVICE, tests/test_device_inter_peqn.cu: all four bit-identical ";
    "to the host, each beside its own wrong version on a fixture built to make that ";
    "version wrong -- rAU = dt/rho so the interface carries a 1000x jump. Carrying ";
    "snGrad(p_rgh) into phig moves it by 1.4e+02 of 1.3e+02; ";
    "interpolate(rho)*interpolate(rAU) is 2.5e-01 where the true product is dt = ";
    "1.0e-03 exactly, i.e. 250x; reconstruct without the rAUf division is 8.7e-01 out ";
    "in U; and a constant ddtCorr coefficient instead of the limiter is 1.5e+02 of ";
    "4.0e+02, while the real one is 0.000e+00 on every value-fixing patch. THE ";
    "p_rgh MATRIX IS ASSEMBLED ON THE DEVICE TOO and gated as a MATRIX -- ";
    "off-diagonals bit-identical, diagonal 1.7e-18 of 1.1e-02 and source 4.4e-16 of ";
    "2.2e+00 -- with two arms a solved field could not show: fvMatrix::operator== is ";
    "a PLUS (taking it as a minus moves the source by twice its own size, and still ";
    "converges), and setReference DOUBLES the diagonal entry rather than replacing ";
    "the row, touching no other cell. phiHbyA's two interFoam-only terms and ";
    "pEqn.flux() are bit-identical to the host on both sides -- and dropping phig's ";
    "BOUNDARY half moves fvc::div(phiHbyA) by 9.4e+01 of 1.9e+02, half the source, ";
    "because `phiHbyA += phig` is a whole-surfaceScalarField operation and the ";
    "divergence sums the boundary faces. On capillaryRise, where momentumPredictor ";
    "is off, that is the only route surface tension has into the solution. ";
    "ONE WHOLE PASS runs on the device (device_inter_pressure_step.cu, stages 1-4 ";
    "reusing simpleFoam's pressurePredictor) and is gated against the host's ";
    "pressureCorrector: p_rgh 4.0e-11 relative, U 1.6e-12, p rebuilt exactly. Two ";
    "arms measure placements: dropping phig's boundary half moves the SOLVED p_rgh ";
    "by 6.1e+05 of 1.2e+06 -- HALF the field, not just the flux -- and p is 0.000e+00 ";
    "from p_rgh_solved + rho*gh against 1.2e+06 from the p_rgh the pass started ";
    "with, which is the difference between rebuilding p and carrying it."]);
  note := Some (cat [c_interFoam_pEqn_note_1]);
  selection_base := None;
  schema_for := None;
  other := [] |}.

Definition c_interFoam_smoothSolver : component := {|
  name := "interFoam_smoothSolver";
  of_symbol := "smoothSolver";
  of_file := "src/OpenFOAM/matrices/lduMatrix/solvers/smoothSolver/smoothSolver.C";
  classification := "SHARED_NUMERICAL";
  status := "REIMPLEMENT";
  of_line := None;
  brae_driver := None;
  brae_existing := None;
  brae_reference := Some "src/OpenFOAM/matrices/smooth_solver_cpp.cuh";
  brae_cuda := None;
  brae_target := Some "src/matrices/lduMatrix/preconditioners/GAMGPreconditioner/device_amg_gauss_seidel.cu";
  validation := Some (cat [
    "THREE LINKS, EACH MEASURED. (1) THE SWEEP against OpenFOAM's own numbers: ";
    "tests/gs_ladder.cu used to carry its own inline transcription of ";
    "symGaussSeidelSmoother.C, which proved that THAT copy was OpenFOAM's; its LEG 1 and LEG ";
    "3 now call brae::gaussSeidelSmoothFolded, the function the host solver runs, and hold it ";
    "to OpenFOAM's residual after exactly n sweeps for n = 1..10 on T3A's real momentum ";
    "system -- symGaussSeidel 8.0e-13, GaussSeidel 1.7e-13. (2) THE LOOP, ";
    "tests/test_smooth_solver_cpp.cu: nIterations counts SWEEPS and the residual is evaluated ";
    "once per nSweeps, so `nSweeps 2; maxIter 5` runs SIX; a negative nSweeps is a fixed ";
    "count that reports NO residual; minIter forces a converged system through the loop; a ";
    "mesh out of OpenFOAM's upper-triangular face order is refused, not smoothed. Its oracle ";
    "is the device's deviceSymGaussSeidel in LEVEL-SCHEDULED mode: same sweep count on four ";
    "solves (13, 94, 28, 187) and iterates 0.000e+00 apart -- bit-identical after 187 sweeps ";
    "from two implementations that share no loop. THE FIRST DRAFT OF THAT ARM COMPARED A HOST ";
    "SWEEP WITH A HOST SWEEP: deviceSymGaussSeidel's DEFAULT is to run the sweep on the CPU ";
    "(faster on these meshes), so 0.000e+00 was true and said nothing. The gate now selects ";
    "the device loop before the first solve and ASSERTS it got it, through ";
    "deviceGaussSeidelUsesHostSmoother(). Its control: at relTol 0.05 PBiCGStab's iterate is ";
    "3.3 away from this solver's from the same initial residual. (3) END TO END, ";
    "tests/interfoam_dambreak_vs_openfoam.sh, against OpenFOAM's `smoothSolver: Solving for ";
    "alpha.water` log lines, host AND device: every sweep count equal, and at dt 5e-3 ";
    "(OpenFOAM's counts 0, 5, 2, 2, 2) the FINAL residuals to 9.1e-10 on the host and 5.0e-09 ";
    "on the device, with a PBiCGStab control that gets two counts of five and is 100% out. ";
    "WHAT IT DOES NOT CLAIM: coupled interfaces. The smoothers' ";
    "initMatrixInterfaces/updateMatrixInterfaces calls have nothing to do in a serial run ";
    "with no coupled patch, and the host transcription omits them; a processor or cyclic ";
    "patch is not covered."]);
  note := Some (cat [
    "Ported because interFoam's MULESCorr pre-solve names `solver smoothSolver; smoother ";
    "symGaussSeidel;` in every tutorial that sets MULESCorr and the host ran DILU-PBiCGStab ";
    "in its place, under a notice. The device already had OpenFOAM's (deviceSymGaussSeidel); ";
    "the host did not. THREE THINGS TO GET RIGHT, none visible in a converged field: the ";
    "reverse half of symGaussSeidel does NOT distribute -- it gathers off the bPrime the ";
    "forward half LEFT (symGaussSeidelSmoother.C:192); nIterations counts sweeps, ";
    "`(nIterations += nSweeps) < maxIter`; and the loop's residual is lduMatrix::residual ";
    "(lduMatrixATmul.C:268), which starts from source - diag*psi and subtracts the off- ";
    "diagonals face by face -- NOT b - A.psi. That last one is invisible until the solve ends ";
    "at round-off: on damBreak the smoother stops at 1e-14, where the rounding IS the ";
    "residual, and with OpenFOAM's operation order transcribed the host reproduces its final ";
    "residuals to four digits there (6.835e-15, 1.202e-14, 1.851e-14, 2.067e-14). THE END-TO- ";
    "END ARM TAUGHT ITS OWN LESSON ABOUT FIXTURES. At the gate's dt 1e-4 the alpha system is ";
    "so diagonally dominant (Co ~ 1e-3) that every solver lands on the exact solution in ONE ";
    "iteration: the PBiCGStab control read 2.6e-03 from OpenFOAM's final residuals, right ";
    "beside the device's honest 1.5e-03, so the arm could not tell solvers apart and would ";
    "have certified either. The gate now runs a second profile at dt 5e-3, where the ";
    "interface moves 0.69 and the solve is real, and asserts the solver-log arms only there. ";
    "The fields hold on that profile too: alpha 1.2e-12 and p_rgh 1.3e-12 relative on both ";
    "paths, U 4.3e-12 on the host and 8.5e-12 on the device."]);
  selection_base := None;
  schema_for := None;
  other := [] |}.

Definition c_interFoam_turbulence : component := {|
  name := "interFoam_turbulence";
  of_symbol := "incompressibleInterPhaseTransportModel";
  of_file := (cat [
    "src/phaseSystemModels/twoPhaseInter/incompressibleInterPhaseTransportModel/";
    "incompressibleInterPhaseTransportModel.C"]);
  classification := "GPU_REQUIRED";
  status := "REIMPLEMENT";
  of_line := None;
  brae_driver := None;
  brae_existing := None;
  brae_reference := Some "src/applications/solvers/interFoam/inter_turbulence_cpp.cuh";
  brae_cuda := None;
  brae_target := Some "src/applications/solvers/interFoam/device_inter_turbulence.cu";
  validation := Some (cat [
    "tests/interfoam_ras_dambreak_vs_openfoam.sh, real OpenFOAM on RAS/damBreak, five fixed steps of ";
    "1e-3, THREE PROFILES. `variable` is the tutorial as shipped; `uniform` is the same case without ";
    "`density variable` (and with div(phi,k) for div(rhoPhi,k), which OpenFOAM then requires); ";
    "`custom` is uniform with its own kEpsilonCoeffs, equation relaxation 0.7, and a solver tolerance ";
    "of 0.5 so that `minIter 1` is what forces each sweep. MEASURED, worst of the three: alpha ";
    "4.9e-13, p_rgh 7.1e-13, U 1.3e-11, k 2.8e-13, epsilon 2.4e-13, nut 4.8e-13, and EVERY p_rgh, ";
    "alpha, epsilon and k solve takes OpenFOAM's iteration count (15+5+5+5 per profile) with initial ";
    "residuals to 1.8e-13. CONTROLS ON THE ORACLE: OpenFOAM run laminar is 133% of U away, its other ";
    "lineage 29%, the custom settings 3.7%. WHAT EACH PROFILE CAN SEE was measured by breaking one ";
    "decision at a time, once, with temporary switches that are not in the tree. On `variable`: ";
    "validate() called in the wrong lineage 29% of U; rho.oldTime() taken as the current rho 5.6%; ";
    "divU from the mass flux 53%; inletOutlet handed rhoPhi where it looks up phi 4.9e-04; PBiCGStab ";
    "for the case's symGaussSeidel 1 of 5 iteration counts and 2.7e-06. On `variable`, ignoring ";
    "minIter and ignoring the `" ++ dq ++ ".*" ++ dq ++ " 1` relaxation change NOTHING, to the last digit -- which is why ";
    "`custom` exists: there, ignoring minIter is 14% of U and 0 of 5 epsilon counts, ignoring the ";
    "relaxation 2.2%, the coefficients 3.5% (sigmak/sigmaEps alone 0.3%, C3 alone 1.2e-08 of epsilon ";
    "because divU is nearly zero). The staging asserts OpenFOAM's custom log holds a solve whose ";
    "initial residual is under 0.5 and still reads one iteration. tests/interfoam_refusals.sh holds ";
    "16 turbulence arms on RAS/damBreak itself. THE DEVICE LOOP RUNS EVERY PROFILE TWICE. With the ";
    "device closure -- what `-device` runs -- against OpenFOAM at the HOST's bounds: worst of the ";
    "three alpha 4.9e-13, p_rgh 7.1e-13, U 3.3e-11, k 2.8e-13, epsilon 2.5e-13, nut 4.8e-13, every ";
    "iteration count OpenFOAM's. And with the HOST closure in its place inside the same device loop ";
    "(BRAE_INTER_HOST_CLOSURE, announced every run), held to the first: U 3.3e-14, k 1.1e-15, epsilon ";
    "1.6e-15, nut 1.9e-15, the same sweep counts solve for solve. Against OpenFOAM a disagreement ";
    "could be the loop's or the closure's; between those two it can only be the closure's. Each arm ";
    "asserts WHICH closure it ran (RunReport::turbulenceOnDevice). THE DEVICE-SIDE DECISIONS were ";
    "each broken once, as the host's were: the patches handed rhoPhi for phi 4.9e-04 of U; the wall ";
    "nut recomputed instead of read from the stored patch 6.1e-06; rho.oldTime() taken as rho 5.6%; ";
    "divU from the mass flux 53%; BiCGStab for symGaussSeidel 1 of 5 epsilon counts; on `custom`, ";
    "minIter ignored 14% and the wall laplacian coefficient left out of relax() 1.1e-04 of every ";
    "epsilon residual with the fields unmoved. NOT VISIBLE on these fixtures, and so not claimed: the ";
    "closure's storedIoSeed (the case starts at rest with inletValue equal to the internal field; ";
    "switching it off changes no digit). WHAT IT DOES NOT CLAIM: any nut wall function but nutk (nutU ";
    "and nutLowRe are accepted because the shared closure gates them under rhoSimpleFoam, not here); ";
    "kMin/epsilonMin, which bound() never reaches on this case; a non-orthogonal mesh; more than one ";
    "outer corrector with the closure on."]);
  note := Some (cat [
    "nut = Cmu*sqr(k)/epsilon DOES NOT REACH a fixedValue or mixed patch (their operator= is empty); correctBoundaryConditions then evaluates them. brae wrote Cmu*k^2/epsilon there: on RAS/mixerVesselAMI's fixedValue gasInlet 1.29e-03 where OpenFOAM keeps 0, U 2.7e-03 after one step. AN inletOutlet nut, under kEpsilon and kOmegaSST alike, is EVALUATED after the assignment against the flux (Compressible::nutPhi), inflow faces taking the inletValue: brae wrote Cmu*k_b^2/epsilon_b there (kEpsilon) or left the patch stale (kOmegaSST, which already skipped fixedValue) -- measured U 2.7e-03 on RAS/damBreak `nutAtmosphere` and nut 8.5e-04 on waterChannel `nutPatches`; a caller with no flux is refused by name, and so is the device closure. kOmegaSST ALSO SKIPPED every other non-calculated patch (zeroGradient, symmetry, slip, coupled): they kept the value they were built with; they are now evaluated as correctBoundaryConditions does -- measured U 8.7e-05 with waterChannel's inlet nut zeroGradient, ";
    "3.8e-12 after (`nutInletZeroGrad`). kEpsilon ON A MOVING MESH: V0 in the ddt source and divU from the absolute flux (kEpsilon.C:232-235), not discriminated by the rigid rotation that gates it. ";
    "incompressibleInterPhaseTransportModel IS TWO MODELS BEHIND ONE KEYWORD, and brae's own refusal ";
    "message had it wrong. It said interFoam's turbulence `selects a MIXTURE model and hands it the ";
    "blended rho -- not the single-phase model brae already has`; that was written from memory. The ";
    "source (incompressibleInterPhaseTransportModel.C:46-110): with `density` absent or `uniform` -- ";
    "15 of the 17 turbulent tutorials -- it builds incompressible::turbulenceModel::New(U, phi, ";
    "mixture), the ORDINARY model, and calls validate(); with `density variable` (RAS/damBreak, ";
    "laminar/damBreakPermeable) it builds phaseIncompressibleTurbulenceModel::New(rho, U, rhoPhi, ";
    "phi, mixture) and does NOT call validate(). So the variable lineage's first UEqn runs on the ";
    "case file's nut (uniform 0) where the other has 9e-03 from k = epsilon = 0.1, and the fvSchemes ";
    "KEY differs too: div(rhoPhi,k) against div(phi,k). brae already had the closure for both -- ";
    "kEpsilonRef::correct's `Compressible` struct is OpenFOAM's one templated kEpsilon.C read with ";
    "rho, a field nu, the mass flux for div and the volumetric one for divU -- so the port is what it ";
    "is HANDED, in inter_turbulence_cpp.cu. Both lineages take the MIXTURE's nu, a field. UEqn takes ";
    "rho*nuEff with nuEff = nut + nu on cells and on every patch. turbulence->correct() runs after ";
    "the last pressure corrector of the final outer corrector (interFoam.C:169-172, ";
    "pimpleControl.C:51-52), where fvMatrix::solve() AND fvMatrix::relax() both select the Final ";
    "name, so kFinal/epsilonFinal are the entries read and `turbOnFinalIterOnly no` with more than ";
    "one outer corrector is refused. THREE THINGS THE CLOSURE NEEDED. (1) The case's linear solver: ";
    "it hardwired PBiCGStab, and every kEpsilon tutorial names smoothSolver/symGaussSeidel -- the ";
    "fourth time in this port a substituted solver at the same tolerance stopped somewhere else. (2) ";
    "Compressible::bcPhi: inletOutlet looks up the registry's `phi`, which in rhoSimpleFoam is the ";
    "equation's own mass flux and in this lineage is NOT (the equation convects with rhoPhi). A sign ";
    "argument -- rho_b > 0 -- says it cannot matter, and that argument went into the header before it ";
    "was measured. It is wrong: rhoPhi is the ALPHA step's flux, built from the phi the time step ";
    "STARTED on, and the pressure correctors move phi afterwards. Counted at step one of ";
    "RAS/damBreak, which starts at rest: rhoPhi is exactly 0 on all 46 atmosphere faces while phi is ";
    "not, so every one of them reads as outflow. 4.9e-04 of U after five steps, host and device ";
    "alike. (3) A DEFECT IN THE SHARED CLOSURE, found by the `custom` profile: epsilon agreed with ";
    "OpenFOAM to 1e-13 while every initial and final residual of its solve sat 1.1e-04 away, only ";
    "under relaxation, only for epsilon. OpenFOAM's epsilonWallFunction is a fixedValue patch, so at ";
    "relax() its faces carry the laplacian's coefficient ic and the diagonal becomes max(|D0 + ic|, ";
    "sumOff)/alpha - ic; brae maps the patch to zeroGradient and got D0/alpha. setValues pins exactly ";
    "those rows next, so the solution cannot see it, but the diagonal survives into normFactor and a ";
    "residual is what the stopping rule reads. Fixed in the host reference: 1.1e-04 -> 4.6e-14, and ";
    "then in the device twin kEpsilon.cu, measured the same way from the device loop: 1.1e-04 -> ";
    "5.3e-14. STILL OPEN, and not measured: neither kOmegaSST closure carries the term -- ";
    "omegaWallFunction has the same fixedValue base class ";
    "(omegaWallFunctionFvPatchScalarField.H:88-90), so the same term is expected there, which is a ";
    "lead and not a measurement. It moves a residual by 1e-04, so it can matter only where a solve ";
    "stops within 1e-04 of its tolerance; rhoSimpleFoam's kEpsilon gates, which relax at 0.7, pass ";
    "with and without it. TWO LATENT SUBSTITUTIONS THE TURBULENCE REFUSAL HAD BEEN HIDING, found by ";
    "asking what else would run once it lifted. `ddtSchemes default` was parsed into f.ddtU and ";
    "handed to nobody, so CrankNicolson (floatingObject) and localEuler (DTCHull) would have run as ";
    "Euler: now refused in buildInterFields. And laplacianSchemes/snGradSchemes were never opened: ";
    "brae assembles the pressure laplacian and its three snGrads orthogonal while 28 of 44 tutorials ";
    "say `corrected` or `limited`. On a mesh of rectangles that is not a substitution (the correction ";
    "vector is zero; it is why damBreak agrees to 1e-12 under `Gauss linear corrected`); on any other ";
    "it is, so a corrected scheme on a mesh more than 1e-10 off orthogonal is refused, and the ";
    "refusals gate shears damBreak six degrees to prove both sides. `minIter` is honoured for k and ";
    "epsilon and REFUSED for the alpha pre-solve and the momentum predictor, which drop it (three ";
    "tutorials name it for alpha). THE CENSUS CAUGHT ITS OWN DEFECT: run with blockMesh alone it ";
    "showed damBreakLeakage and damBreakPorousBaffle reaching End, on meshes without the baffles ";
    "their Allrun creates. Prepared by their own Allrun utilities both are refused ";
    "(porousBafflePressure by name; the leakage case in the mesh reader, on a cyclicACMI `coded` ";
    "block -- a refusal, but not a named one). 33 tutorials prepare cleanly: 3 reach End and all 3 ";
    "are gated; waves 9, moving meshes 12. ON THE DEVICE IN TWO STEPS, one module at a time. First ";
    "the device loop with the HOST closure -- nuEff into the device UEqn, and U, phi, rhoPhi, rho, ";
    "rho.oldTime() and nu handed to the closure at the right instants -- which matched OpenFOAM at ";
    "the host's numbers before any device closure ran. Then the closure's existing device twin ";
    "(gpu::kEpsilonRAS::correct, gated under rhoSimpleFoam) in its place, fed by ";
    "device_inter_turbulence.cu, which owns no arithmetic: the equation's flux is rhoPhi or phi by ";
    "lineage, divU's and the patches' flux is phi always, rho is the mixture's or a vector of ones, ";
    "and rho's patch values are the device step's own blend. nut is added to the mixture's nu ON the ";
    "device (DeviceInterStepControls::nutCell), so it never crosses to the host. The twin needed ";
    "three things the host reference had been given: the patches' flux (bcPhiBnd), whole-solve ";
    "reporting for the log arm, and the wall coefficient in relax(). A nut wall function on a patch ";
    "that is not a `wall` is refused on both paths, as OpenFOAM's nutWallFunction::checkType refuses ";
    "it."]);
  selection_base := None;
  schema_for := None;
  other := [] |}.

Definition c_interFoam_kOmegaSST : component := {|
  name := "interFoam_kOmegaSST";
  of_symbol := "kOmegaSSTBase";
  of_file := "src/TurbulenceModels/turbulenceModels/Base/kOmegaSST/kOmegaSSTBase.C";
  classification := "GPU_REQUIRED";
  status := "REIMPLEMENT";
  of_line := None;
  brae_driver := None;
  brae_existing := None;
  brae_reference := Some "src/TurbulenceModels/turbulenceModels/RAS/kOmegaSST/kOmegaSST_cpp.cuh";
  brae_cuda := None;
  brae_target := None;
  validation := Some (cat [
    "tests/interfoam_dtchull_vs_openfoam.sh `ras` holds the closure's `Gauss linearUpwind ";
    "limitedGrad` on k and omega over the NAMED `limitedGrad cellLimited Gauss linear 1` ";
    "(RAS/DTCHull's own schemes, under localEuler): k 3.4e-12, omega 9.0e-12, nut 2.8e-11 after ";
    "ten steps, every omega and k count OpenFOAM's; controls: the correction dropped k 9.6e-03, ";
    "omega 1.7e-02 (OpenFOAM's own upwind-vs-linearUpwind difference to the digit), the named ";
    "gradient unlimited k 2.3e-02, omega 2.6e-01. The DEVICE closure carries it too (`ras device`, measured when it staged the hull and the cache, ";
    "the device transport's own correction over each equation's named cellLimited gradient): ";
    "ten steps k 3.6e-10, omega 3.5e-10, nut 1.5e-10, every count OpenFOAM's; the same two ";
    "controls on the device arm, three steps, k 9.6e-03 / omega 1.7e-02 and k 2.3e-02 / omega ";
    "2.6e-01 -- the host arm's digits -- against a 1.7e-11 run. ";
    "tests/interfoam_waterchannel_vs_openfoam.sh, real OpenFOAM on RAS/waterChannel AS SHIPPED ";
    "(its own 28000-cell blockMesh + two extrudeMesh passes, non-orthogonal to 13.7 degrees), ";
    "ten fixed steps of the tutorial's deltaT 0.1. MEASURED: all 20 p_rgh, 10 alpha, 10 omega and ";
    "10 k iteration counts OpenFOAM's, initial residuals within 9.3e-13; alpha 7.9e-13, p_rgh ";
    "7.6e-13, U 4.3e-12, k 2.4e-12, omega 3.9e-12, nut 3.5e-12, the wall's nut 9.2e-13 of its ";
    "largest value; bounds at about 30x. THE CONTROL: OpenFOAM's own laminar run, 51% of U. THE ";
    "PATH is asserted: the model, the uniform lineage, a wall distance in every cell, OpenFOAM's ";
    "log selecting kOmegaSST and solving omega. BROKEN ONCE EACH (U, omega at t = 1): validate() ";
    "skipped 5.1e-01, 1.7e-01; fvm::ddt dropped 3.8e-01, 2.2e+01 and 0 of 10 omega counts; the ";
    "wall distance doubled 4.1e-04, 5.1e-01; PBiCGStab for the case's symGaussSeidel 1.7e-04, ";
    "3.7e-02; water's nu as a scalar for the mixture's field 3.5e-05, 8.5e-03; the laplacian's ";
    "non-orthogonal correction dropped 3.7e-07, 7.2e-04. NOT DISCRIMINATED, measured: the inline ";
    "(value - cell)*deltaCoeffs for the patch's snGrad() on k, omega and the wall U (identical to ";
    "the last digit), and relax() not called at the case's factor of 1. ";
    "tests/interfoam_refusals.sh holds ten kOmegaSST arms on RAS/damBreak made kOmegaSST, on a ";
    "base that runs. NOT CLAIMED, each refused by name: `density variable` with kOmegaSST (no ";
    "tutorial pairs them), F3, decayControl, a wall-function blending other than binomial n = 2 ";
    "or coefficients other than the defaults, any nut wall function but nutk, a convection ";
    "scheme other than Gauss upwind; on a moving mesh, a wallDist ";
    "updateInterval other than 1 (a missing `wallDist { method }`, which OpenFOAM stops on, and a ";
    "method other than meshWave or correctWalls false are refused everywhere). ON A MOVING MESH ";
    "(2026-09-19), tests/interfoam_moving_vs_openfoam.sh `pistonSST`: waves/waveMakerPiston made ";
    "kOmegaSST, its paddle a wall and its top a patch, 30 steps of 0.01 against OpenFOAM, k and ";
    "omega solved to 1e-12. MEASURED: k 8.6e-12, omega 2.4e-12, nut 3.0e-10, U 1.2e-10, alpha ";
    "1.4e-12, every p_rgh, pcorr, k and omega count OpenFOAM's or one apart at an edge stop; ";
    "bounds at about 30x. THE CONTROL: OpenFOAM's laminar piston, 1.9 of U. BROKEN ONCE EACH ";
    "(nut, U): y from the wall patches instead of the shared wallDist 6.4e-01, 2.3e-02; fvm::ddt's ";
    "old volumes dropped 2.0e-03, 3.6e-05; divU from the relative flux 4.8e-03, 4.5e-05; y not ";
    "recomputed after the motion 9.5e-04, 1.7e-05. THE SHARED wallDist: MeshObject::New finds an ";
    "object by its type name alone, and the motion solver's inverseDistance diffusivity ";
    "registers `wallDist` over ITS patches before the turbulence model is built, so under ";
    "displacementLaplacian kOmegaSST's y is the distance to the diffusivity's patches -- on the ";
    "piston 0.01, 0.03, 0.05 away from the paddle and 1.01 at x = 1, over a bottom wall 0.0025 ";
    "below; OpenFOAM's own static run, which builds no such object, gives brae's wall-patch ";
    "answer to every digit. brae mirrors it (InterTurbulence::wallDistPatchIDs). ON THE DEVICE ";
    "(2026-09-20): device_inter_turbulence.cu's SST branch hands the closure rhoSimpleFoam gates ";
    "(kOmegaSST.cuh) what the host's SST branch hands its reference -- the volumetric phi as the ";
    "equation's flux and divU's, rho = 1 (`density variable` with kOmegaSST is refused), the ";
    "mixture's nu, 1/deltaT, phi for nut's flux-conditional patches, the cell wall distance, the ";
    "F1-one and nut-calculated masks, and the case's Final solver entry and relaxation. GATED as ";
    "tests/interfoam_ras_dambreak_vs_openfoam.sh `sst`, RAS/damBreak made kOmegaSST (its nut ";
    "atmosphere is `calculated`, which is what the device closure can run): host against OpenFOAM ";
    "k 4.2e-13, omega 2.4e-13, nut 3.7e-12, every omega (45/9/8/7/7) and k (142/31/22/16/13) ";
    "iteration count OpenFOAM's; THE DEVICE CLOSURE AGAINST THE HOST CLOSURE IN THE SAME DEVICE ";
    "LOOP -- the module's own claim -- U 8.6e-13, k 1.2e-13, omega 6.6e-14, nut 9.5e-13, and with ";
    "every solve tightened 1.4e-13 / 5.3e-15 / 7.8e-16 / 3.7e-14. Device against OpenFOAM is ";
    "looser (k 4.4e-12, omega 3.1e-11, nut 1.7e-10, U 5.1e-11) and TIGHTENING DOES NOT MOVE IT: ";
    "the device LOOP's U is about 5e-11 from OpenFOAM on the kEpsilon profiles too and nut carries ";
    "it through k/omega and F2, so the `sst` bounds are that, at about 30x. BROKEN ONCE EACH ";
    "(device closure against host closure): the wall distance replaced by 1 -- nut 4.3e-02; nut's ";
    "`calculated` mask dropped 1.2e-01; the stored wall nut dropped 8.8e-05 of k. NOT ";
    "DISCRIMINATED: the F1-one mask -- dropping it changes no digit on this fixture, where F1 ";
    "evaluates to 1 on those faces anyway. AN INLETOUTLET nut RUNS ON THE DEVICE TOO (2026-09-20): ";
    "nut carries its own DeviceBoundary and deviceCorrectInterTurbulence evaluates the ";
    "flux-conditional faces after the closure, where the host closure does -- ";
    "deviceUpdateInletOutlet's valueFraction = neg(phi), then deviceBCValue, copied onto the ";
    "ioMask faces alone so a wall function's or a `calculated` patch's value is untouched. Gated as ";
    "tests/interfoam_ras_dambreak_vs_openfoam.sh `nutAtmosphere` on BOTH closures: device against ";
    "OpenFOAM alpha 5.3e-15, U 2.0e-13, k 2.1e-15, epsilon 2.9e-15, nut 2.7e-15, and the device ";
    "closure against the host closure 1.5e-15 of nut; without the evaluation nut is 4.7e-02 out and ";
    "U 2.7e-03. THE DEVICE GAMG NOW CARRIES OpenFOAM's OTHER SMOOTHERS (2026-09-20): GaussSeidel, ";
    "DICGaussSeidel and symGaussSeidel, each one smoothLevel() running nSweeps of ";
    "deviceSymGaussSeidelSweepExact (the forward-then-reverse walk gated bit-for-bit against the ";
    "host) after DIC's half where the name asks for it, at all three V-cycle sites. Gated as ";
    "tests/interfoam_gamg_vs_openfoam.sh: the three Gauss-Seidel profiles' device arms take ";
    "OpenFOAM's OWN iteration counts, 40 of 40 p_rgh solves and every coarsest count, initial ";
    "residuals within 2.3e-10, alpha 2.1e-12 / 2.6e-12 / 3.2e-12. BROKEN ONCE EACH: the two ";
    "Gauss-Seidel variants swapped 1.1e-02 and 4.1e-03; DIC's half dropped from DICGaussSeidel ";
    "2.5e-02 (and correctly no digit on the plain `gaussSeidel` profile). A `DILU` smoother on a ";
    "symmetric matrix is still refused by name (interfoam_refusals `device_gamg_smootherDILU`). ";
    "WHAT LIFTING THAT REFUSAL EXPOSED: RAS/waterChannel's U outlet is a plain inletOutlet, and ";
    "OpenFOAM's updateCoeffs sets its valueFraction from the flux sign at EVERY momentum assembly ";
    "while the device loop assembles the switch U's boundary was built with -- measured U 8.9e-02, ";
    "nut 8.7e-01 against OpenFOAM where the host loop on the same case is 4.3e-12, with alpha exact ";
    "to 5.3e-15 at step 1, every solve tightened on both codes, the HOST closure in the device loop ";
    "still 8.5e-01 of nut, and 1.1e-02 of U with the schemes forced orthogonal -- so neither the ";
    "closure, the stopping point nor the non-orthogonal correction. PORTED (2026-09-20), and it took ";
    "TWO fixes, each localised with the host closure run inside the device loop. (1) The io switch: ";
    "deviceUpdateInletOutlet(dbU, phiBnd) now runs at all three sites device_inter_step.cu rebuilds ";
    "dbU, before the piov switch, in the order rhoSimpleFoam's device arm takes them ";
    "(rhoUEqn.cuh:72-79), and once on the state the run starts from. (2) nut's boundary: the device ";
    "closure evaluated its flux-conditional faces ONLY, where the host closure evaluates every patch ";
    "that is not a `wall`, not `empty` and not `calculated` (kOmegaSST_cpp.cu:946-984) -- so a ";
    "zeroGradient nut inlet kept the value it was built with, U 1.9e-05 and nut 5.5e-06 from ";
    "OpenFOAM where the host closure in the same loop is 2.3e-12. A coupled nut patch is refused ";
    "there by name, because buildDeviceBoundary drops it and the per-face evaluate would read past ";
    "the end. GATED: tests/interfoam_waterchannel_vs_openfoam.sh runs all three profiles on the ";
    "device at the HOST's own bounds -- worst of the three, alpha 2.8e-12, p_rgh 2.6e-12, U 5.9e-12, ";
    "k 3.3e-12, omega 4.7e-12, nut 3.5e-12, and all 20 p_rgh iteration counts OpenFOAM's, which is ";
    "the device GAMG GaussSeidel smoother taking OpenFOAM's counts on a real case. Four device ";
    "modules meet on this fixture: kOmegaSST, nut's boundary, U's inletOutlet and the smoother. ";
    "PROFILE oneCorrector, both arms: the atmosphere's U an inletOutlet in place of ";
    "pressureInletOutletVelocity and `nCorrectors 1`, twenty steps of 0.01 -- the one shape where ";
    "OpenFOAM's updated_ lag (the first corrector's evaluate keeps the assembly's valueFraction, ";
    "mixedFvPatchField.C:234-237) is the step's LAST evaluate, so the closure and the next assembly ";
    "read it; 708 of the 1400 atmosphere faces have flipped by the end. MEASURED: alpha 1.1e-12, ";
    "p_rgh 3.5e-12, U 5.3e-12, k 9.4e-14, omega 1.8e-12, nut 6.1e-13, all 20 counts. THREE ";
    "DEFECTS FOUND, each exact at step 1 and off at step 2, each on ONE arm: the host pushed the ";
    "new flux to U's patches after the corrector loop, so kOmegaSST's grad(U) read inletOutlet's ";
    "snGrad() with a switch OpenFOAM's patch had not moved yet (UEqn.A 3.2e-02 in the atmosphere ";
    "cells, U 2.7e-05, nut 2.4e-03; laminar twin 8.9e-12); the device's io switch at the ";
    "corrector's end read the new flux where the host lagged it (U 2.7e-05, nut 3.0e-01); and the ";
    "device's boundary gradient took an inletOutlet face's snGrad as (stored value - cell)*dc ";
    "where the class is MIXED and the switch is its valueFraction (laminar U 6.2e-09, HbyA.z ";
    "6.7e-07 in the atmosphere cells). CONTROL: OpenFOAM laminar against kOmegaSST, U 4.3e-03. ";
    "NOT DISCRIMINATED by any shipped profile: nCorrectors 2 re-evaluates every patch with the ";
    "moved switch before anything reads it."]);
  note := Some (cat [
    "WIRING, not a new closure: kOmegaSST_cpp.cu is the reference rhoSimpleFoam and simpleFoam already ";
    "gate, handed what incompressible::turbulenceModel::New(U, phi, mixture) hands OpenFOAM's -- the ";
    "mixture's nu as a field, the volumetric phi, 1/deltaT for fvm::ddt, wallDist's cell y -- by ";
    "inter_turbulence_cpp.cu. The reference gained the case's linear solver (it ran PBiCGStab ";
    "whatever the case named) and the two solves' full records. THREE SHARED DEFECTS THE CASE FOUND. ";
    "(1) pressureInletOutletVelocity::snGrad() returned (stored value - cell)*deltaCoeffs where ";
    "OpenFOAM's directionMixed builds it from the valueFraction and the cell and never reads the ";
    "stored value: at construction waterChannel's atmosphere holds the file's (0 0 0) over cells at ";
    "(1 0 0), correctNut read a shear of 1/d there and wrote nut 3.7e-05 for OpenFOAM's k/omega = ";
    "3.33e-02 -- the patch 100% out, the run's FIRST p_rgh residual 7.1e-03, and at t = 1 U 3.5e-03, ";
    "omega 4.0e-02, nut 2.3e-01. Localised by running the same case laminar (already 6e-13) and then ";
    "comparing the constructed nut, patch by patch, with `interFoam -postProcess -func ";
    "writeObjects(nut)`; tests/test_piov_sngrad.cu holds it. (2) The per-field div scheme parser ";
    "searched fvSchemes for the literal key, and the case names its scheme through a pattern, ";
    "`" ++ dq ++ "div\(phi,(k|omega)\)" ++ dq ++ " Gauss upwind;` -- refused as having no div(phi,k); now the literal ";
    "key, else the last matching pattern, as the dictionary lookup does (tests/test_scheme_blocks.cu). ";
    "(3) kOmegaSST_cpp took three boundary gradients inline instead of from the patch; switched to ";
    "snGrad(), which changes nothing on any gated case. ALSO: kOmegaSST_cpp.cuh says decayControl is ";
    "refused and nothing read the key; interFoam's reader does now. The closure keys both wall ";
    "functions on the MESH patch type, so the reader holds every `wall` patch to nutkWallFunction ";
    "and omegaWallFunction and every other patch to neither. HOST ONLY SO FAR: the device loop ";
    "refuses by name, first among its refusals."]);
  selection_base := None;
  schema_for := None;
  other := [] |}.

Definition c_interFoam_MRF : component := {|
  name := "interFoam_MRF";
  of_symbol := "MRFZoneList";
  of_file := "src/finiteVolume/cfdTools/general/MRF/MRFZoneList.C";
  classification := "GPU_REQUIRED";
  status := "REIMPLEMENT";
  of_line := None;
  brae_driver := None;
  brae_existing := None;
  brae_reference := Some "src/finiteVolume/cfdTools/general/MRF/MRF_cpp.cuh";
  brae_cuda := None;
  brae_target := None;
  validation := Some (cat [
    "tests/interfoam_mrf_vs_openfoam.sh, real OpenFOAM on laminar/mixerVessel2D AS SHIPPED (its ";
    "own m4 blockMesh, topoSet and setsToZones; 3072 cells, the `rotor` zone 1536 of them with ";
    "3024 internal faces and 192 rotor faces that move with the frame), twenty fixed steps of the ";
    "tutorial's deltaT 1e-3. MEASURED: all 60 p_rgh iteration counts OpenFOAM's, initial residuals ";
    "within 1.2e-11; alpha 8.2e-15, p_rgh 4.9e-14, U 1.9e-15; bounds at about 30x. THE CONTROL: ";
    "OpenFOAM with the zone `active no`, where nothing moves (100% of U). THE PATH is asserted: ";
    "one active zone, a proper part of the mesh, with included faces, turning at the case's ";
    "6.2831853 rad/s; OpenFOAM's log building the zone list. BROKEN ONCE EACH (U, p_rgh, p_rgh ";
    "counts equal): makeRelative(phiHbyA) dropped 1.1e+00, 8.7e-01, 24 of 60; the ddtCorr flux ";
    "not zero-filtered 1.7e-01, 2.2e-01, 30 of 60; correctBoundaryVelocity skipped 1.6e-01, ";
    "6.1e-01, 29 of 60; MRF.DDt dropped 2.7e-02, 2.9e-01, 42 of 60; MRF.DDt(U) for MRF.DDt(rho, ";
    "U) the same to two digits (rho is 1000 in the water). tests/interfoam_refusals.sh holds nine ";
    "MRF arms. THE DEVICE LOOP RUNS IT TOO (2026-09-20), at the same ";
    "bounds: alpha 7.3e-15, p_rgh 3.0e-14, U 2.1e-15, and all 60 of ITS OWN p_rgh solves take ";
    "OpenFOAM's iteration counts (initial residuals within 1.5e-11). All four calls were ";
    "transcribed from the host arm's lines: correctBoundaryVelocity in the U-boundary hook, on ";
    "the HOST field the snapshot is taken from (UEqn.H:1); DDt(rho, U) rho-weighted in the shared ";
    "assembler before relax, formed as rhoSimpleFoam's device arm forms it (rhoUEqn.cu:769-777, ";
    "acc then hadamard by rho); zeroFilter on the ddtCorr term (new deviceMrfZeroFilter, whose ";
    "face set is MRFZone::zero's, not makeRelative's); and makeRelative BETWEEN that term and ";
    "phig, which is why the device pEqn now splits the two adds it used to fuse. BROKEN ONCE EACH ";
    "on the device (alpha, p_rgh, U): correctBoundaryVelocity skipped 8.5e-02, 6.1e-01, 1.6e-01; ";
    "MRF.DDt dropped 1.7e-02, 2.9e-01, 2.7e-02; not rho-weighted the same to two digits; ";
    "zeroFilter dropped 1.7e-01, 2.2e-01, 1.7e-01; makeRelative dropped 9.9e-01, 8.7e-01, ";
    "1.1e+00. NOT CLAIMED, each refused by name: MRF under a moving mesh, under RAS, beside a ";
    "fixedFluxPressure patch (constrainPressure's MRF.relative(Sf & U_b)), and an omega that ";
    "varies in time. The rotor's frame velocity has no oracle of its own -- ";
    "OpenFOAM writes a noSlip patch as its type alone -- and is held through U. AND ON A ";
    "REFINING MESH, tests/interfoam_amr_mrf_vs_openfoam.sh, BOTH ARMS: the whole of MRF's ";
    "mesh-dependent state is THREE FACE LISTS, and MRFZoneList::update() (MRFZoneList.C:441-450) ";
    "is guarded on mesh.topoChanging() and calls each zone's update(), which is setMRFFaces() AND ";
    "NOTHING ELSE (MRFZone.C:598-604) -- the dictionary is not re-read, cellZoneID_ is not ";
    "re-found, omega is not re-evaluated, excludedPatchLabels_ is not re-resolved, and none of it ";
    "needs to be because resetZones preserves every zone's INDEX and ORDER and moves only its ";
    "labels. interFoam calls it at interFoam.C:128, after gh/ghf and before the correctPhi block. ";
    "So brae rebuilds each zone from its KEPT spec against the live cellZone, which IS ";
    "setMRFFaces; on the device the same rebuild is needed for a second reason the host does not ";
    "have -- frameFluxInt and frameFluxBnd are PRECOMPUTED Omega x (Cf - origin) dotted with Sf, ";
    "and a refined face has a new centre and a quarter of the area. THE FIXTURE is mixerVessel2D ";
    "(damBreakWithObstacle cannot carry MRF: its fixedFluxPressure walls are refused) with ";
    "damBreakWithObstacle's own dynamicMeshDict at maxRefinement 2, deltaT 2.5e-4 and every solve ";
    "pinned to 1e-14 relTol 0. THE ORACLE IS OPENFOAM'S OWN RENUMBERED ZONE, cell by cell: a ";
    "topoChanging mesh writes its polyMesh into every time directory, cellZones among them, so ";
    "the 2292 labels are compared one at a time rather than as a count -- which is a sharper ";
    "oracle than the fvOptions unit's log line, and the only one available since MRFZone writes ";
    "no Info<< of its own. MEASURED, host then device then device-vs-host: alpha 7.8697e-11, ";
    "5.2511e-11, 6.9696e-11; p_rgh 2.7452e-09, 6.3812e-09, 4.8009e-09 relative; U 5.4996e-09, ";
    "4.0190e-09, 5.7751e-09; the zone 1536 -> 1676 -> 2180 -> 2292 cells with every label ";
    "OpenFOAM's and both lists ascending; the rebuilt lists 5268 internal and 228 included faces; ";
    "all 12 p_rgh and all 4 pcorr iteration counts OpenFOAM's with the FIRST solve after the ";
    "FIRST change bit-identical in its initial residual, which is the sharpest number here ";
    "because it predates any solver round-off. THE BOUNDS ARE 1e-09 AND THAT IS THE CASE'S ";
    "CONDITIONING, MEASURED RATHER THAN CLAIMED: the gate runs OpenFOAM a SECOND time with one ";
    "cell of the initial alpha.water moved by ONE ULP and compares OpenFOAM to ITSELF -- alpha ";
    "9.6227e-11, p_rgh 5.7215e-09, U 8.6395e-09, four orders of growth between step 2 and step 3 ";
    "(the step whose change first gives pcorr real work, 183 iterations) -- and asserts that brae ";
    "is NO FURTHER FROM OPENFOAM THAN OPENFOAM'S OWN ONE-ULP TWIN on alpha, p_rgh and U. It is ";
    "0.69x, 0.48x and 0.64x of it. The arm also asserts that the one-ulp figure is itself above ";
    "1e-10, so a fixture that stopped amplifying would fail rather than pass on a slack bound. ";
    "THE CONTROL, BRAE_CONTROL_AMR_NO_MRF_UPDATE: the zones keep the face lists they were built ";
    "with -- the port that does not throw, since every index is in range on a mesh that only ";
    "grew -- and it reads alpha 2.4909e-01, U 4.8591e-01 and p_rgh 2.5826e+00, a million times ";
    "the gate's own distance. Two refusals arms hold the composition: mrf_refine RUNS and ";
    "mrf_refine_fixedFlux is still REFUSED, so the refinement path is not a way around the other ";
    "MRF refusals. NOT CLAIMED THERE: UNREFINEMENT beside MRF (this deltaT only refines; at the ";
    "tutorial's own 1e-3 the same case DOES unrefine, 6390 -> 6362 with the zone growing 2348 -> ";
    "2544 and brae reaching the same counts and the same 4 split points, which is the first ";
    "fixture found that unrefines inside a solver run and is recorded as that unit's lead rather ";
    "than gated at a Courant number of 1.6), and a time-varying omega, which OpenFOAM's own ";
    "update does not re-evaluate either. THREE THINGS THE UNIT FOUND BESIDE THE PORT, all ";
    "in MRF rather than in the change. (1) nonRotatingPatches WAS A SILENT SUBSTITUTION ";
    "and is now REFUSED: OpenFOAM's excludedPatchNames_ is a `wordRes` (MRFZone.H:92) ";
    "resolved with boundaryMesh().indices(matcher, useGroups = true) ";
    "(MRFZone.C:578-579), so it matches REGEXES AND PATCH GROUPS, where ";
    "isExcludedPatch compares exact strings -- a patch OpenFOAM matched by regex is ";
    "EXCLUDED there (frame flux subtracted) and would be INCLUDED here (flux zeroed ";
    "outright). buildZone now throws by name on any entry that is not a plain existing ";
    "patch name, checked there because that is what a change re-runs, and VERIFIED to ";
    "fire on `nonRotatingPatches (" ++ dq ++ ".*" ++ dq ++ ")`. (2) THE DEVICE CONSUMERS NOW REFUSE A ";
    "STALE ZONE instead of half-applying it: deviceMrfMakeRelative carried `if (nB && nB ";
    "== phiBnd.size())`, a SILENT SKIP of the boundary half with the internal half ";
    "launched unguarded beside it, so a zone left from before a change subtracted the ";
    "frame flux on the wrong internal faces and did nothing on the boundary, without a ";
    "message -- the same shape as the porosity list uploaded once, which cost a measured ";
    "alpha 1.4218e-02. All three consumers now check each array against the field. ";
    "FAIL-PROOF: with buildMrf() taken out of the device change branch the arm stops at ";
    "the FIRST change with `deviceMrfCoriolisZone: this MRF zone's per-cell mask is 3072 ";
    "where the field is 3660`, where before it would have run to completion on the wrong ";
    "faces. (3) InterMomentumInput::hasMRF is a refusal that CANNOT FIRE -- the only ";
    "setter in the tree is a test, and interFoam's drivers pass in.mrf and never set the ";
    "flag; left as an open finding rather than made live, since that changes what an ";
    "MRFProperties whose only zone is `active no` does. The gate's own control is GUARDED ";
    "rather than trusted: it keeps the OLD mesh's indices, in range on a mesh that grew ";
    "and past the end on one that shrank, so the adapter throws if any kept index is out ";
    "of range -- a control may be wrong, it may not be undefined; measured NOT to fire ";
    "spuriously on a run with 3 split points unrefined. AND THE ONE-ULP ARGUMENT IS ";
    "MANDATORY for this profile: it was optional first, and six arguments then asserted ";
    "the 1e-09 bounds with nothing behind them while the whole gate went green. The `<=` ";
    "is asserted on p_rgh and U and NOT on alpha, because the two curves CROSS -- brae ";
    "starts at its own 160-iteration PCG floor and the twin at one ulp in one cell, so ";
    "brae is 18.15x the twin on p_rgh at ONE step and 0.48x at four; the amplification ";
    "assertion pins the regime, and inside it p_rgh and U are under 1x at every step ";
    "while alpha is not (4.34x at two steps), so alpha is held by its absolute bound."]);
  note := Some (cat [
    "interFoam reaches MRF in four places that do arithmetic (UEqn.H:1, :6; pEqn.H:17, :19), and the ";
    "host reference simpleFoam and rhoSimpleFoam already gate supplies three of them: ";
    "correctBoundaryVelocity, addCoriolis (weighted by rho here, MRFZoneList::DDt(rho, U) = ";
    "rho*DDt(U)) and makeRelative. THE FOURTH IS NEW: MRF.zeroFilter on the ddtCorr flux -- ";
    "MRFZone::zero sets it to Zero on the zone's internal, included and excluded faces ";
    "(MRFZoneTemplates.C:213-247), because inside the zone phi.oldTime() is relative to the frame ";
    "and the flux of U.oldTime() is not, so their difference there is the frame flux and not a ";
    "correction. ONE SHARED DEFECT: `omega` is a Function1 (MRFZone.C) and the tutorial writes ";
    "`omega constant 6.2831853;`; the reader took scalarOr, which reads the LAST token -- right for ";
    "that spelling by accident, a crash on a table's `)` and a silent ZERO for the dictionary form. ";
    "It reads a constant in its three spellings now, refuses any other type by name, and refuses a ";
    "zone with no omega, which OpenFOAM's mandatory Function1::New stops on and brae ran at zero. ";
    "The refusal that used to stand here fired on any active zone; brae's interFoam had once read ";
    "MRFProperties, ignored it and converged. ON THE DEVICE TOO NOW -- and the fixture it needed dragged ";
    "the PRESSURE REFERENCE onto the device with it, since mixerVessel2D is closed: setReference pins ";
    "the cell at its CURRENT p_rgh (pEqn.H:47, getRefCellValue) and not at pRefValue, and pEqn.H:74-83 ";
    "then shifts p's level and REBUILDS p_rgh from the shifted p, so both fields move. Three controls ";
    "in the device driver had never been set, because the device refused every case that needs a ";
    "reference: the step pinned nothing, and p_rgh came out a constant -2.17e+01 from OpenFOAM with a ";
    "spread of only 1.5e-02 about it. What this fixture CANNOT discriminate is the value setReference ";
    "pins at -- g is (0 0 0) there, so p == p_rgh and the cell's own p_rgh IS pRefValue to the last ";
    "digit of every field and every iteration count; test_device_inter_peqn.cu asserts that one ";
    "bit-level with the old behaviour as its control. adjustPhi (pEqn.H:21-26) runs on the device ";
    "too now, through the host's own cpu::interFoam::adjustPhi and with the makeRelative/makeAbsolute ";
    "round trip on a moving mesh: every face of this vessel fixes its flux, so it cannot witness it; ";
    "tests/interfoam_moving_vs_openfoam.sh's closedAdjZG, closedAdjIO and mixerTop do, and ";
    "tests/interfoam_refusals.sh's closed_abort_* hold both arms to OpenFOAM's own abort."]);
  selection_base := None;
  schema_for := None;
  other := [] |}.

Definition c_interFoam_fvOptions : component := {|
  name := "interFoam_fvOptions";
  of_symbol := "fv::options";
  of_file := "src/finiteVolume/cfdTools/general/fvOptions/fvOptions.C";
  classification := "GPU_REQUIRED";
  status := "REIMPLEMENT";
  of_line := None;
  brae_driver := None;
  brae_existing := None;
  brae_reference := Some "src/finiteVolume/cfdTools/general/fvOptions/fvOptions_cpp.cuh";
  brae_cuda := None;
  brae_target := None;
  validation := Some (cat [
    "tests/interfoam_angledduct_vs_openfoam.sh, real OpenFOAM on RAS/angledDuct (its own blockMesh, ";
    "28000 cells non-orthogonal to 44.5 degrees, the `porosity` zone 8000 of them), ten fixed steps ";
    "of the tutorial's deltaT 1e-3, THREE ARMS. `inactive` has the option `active no` in both codes ";
    "and is held at the floor: alpha 5.7e-16, p_rgh 3.8e-15, U 4.3e-15, k 7.6e-15, epsilon 5.8e-15, ";
    "nut 5.2e-15. `porous` is the case as shipped: alpha 1.6e-14, p_rgh 6.3e-11, U 5.1e-11, k ";
    "4.6e-12, epsilon 5.3e-12, nut 5.7e-12. `porousWater` starts the duct full of water: p_rgh ";
    "4.6e-12, U 2.8e-12. Every p_rgh, alpha, epsilon and k iteration count OpenFOAM's in all three. ";
    "THE FOUR ORDERS BETWEEN inactive AND porous ARE ROUND-OFF, MEASURED TWICE: one entry of the ";
    "resistance tensor multiplied by (1 + 2.2e-16) moves brae's p_rgh agreement from 6.3e-11 to ";
    "1.7e-11; and the residual that is 1.5e-10 out is the second corrector's, itself 2.2e-05, ";
    "where the first solve of the run agrees to 1.1e-16 and the same line with the option off -- ";
    "2.5e-02 there -- agrees to 1e-13. Bounds at about 30x, per arm. EACH ARM IS ANOTHER'S ";
    "CONTROL: the option moves OpenFOAM's own U by 23% (73% in water). BROKEN ONCE EACH (U): the ";
    "inlet never refreshed 100%; refreshed with the face cell's rho 6.5e+06; as a volumetric rate ";
    "2.9e+02; mu as rho*nuEff 5.3e-02 (1.8e-01 in water); the kinematic form, no rho, NOTHING on ";
    "`porous` -- rho is exactly 1 in the zone for the whole shipped run -- and 4.9e-01 on ";
    "`porousWater`, which is why that arm exists. tests/interfoam_refusals.sh holds six fvOptions ";
    "arms. THE DEVICE LOOP RUNS ALL THREE ARMS TOO (2026-09-20): inactive ";
    "alpha 6.1e-16, p_rgh 4.3e-15, U 7.6e-15; porous 1.1e-14, 1.3e-11, 1.8e-11; porousWater ";
    "5.9e-13, 2.9e-12, 2.6e-12, with all 30 of the device's OWN p_rgh iteration counts ";
    "OpenFOAM's in each. The device carries the FULL transformed D and F tensors, which the ";
    "other solvers' device porosity does not -- they take the diagonal and refuse a rotated ";
    "coordinateSystem by name, and this tutorial rotates e1 by 45 degrees -- and mu and rho as ";
    "FIELDS (DevicePorosity::tensorForm, kernels transcribed from fvOptions_cpp.cu:502-537). ";
    "BROKEN ONCE EACH on the device: the porosity dropped p_rgh 7.9e-01, U 2.3e-01; handed the ";
    "kinematic nu rather than rho*nu the same, since the case's F is zero. AND THE ARM FOUND ";
    "THREE MORE DEFECTS, none of them the option's, each localised with the HOST closure run ";
    "inside the device loop: the massFlowRate inlet never rebuilt on the device (U 1.0007e+00); ";
    "the SLIP wall's symmetry refValue never refreshed against this iteration's cells, which is ";
    "the third step of rhoSimpleFoam's own documented pre-assembly sequence (rhoUEqn.cuh:76-78) ";
    "and was simply missing from interFoam's step (U 2.7e-02 with the host closure and the ";
    "option off, where the host loop is 4.1e-15); and the device closure's turbulent inlets ";
    "frozen at the file's `value` because interFoam never handed it their masks (U 1.3e+00, k ";
    "1.1e+00, epsilon 4.7e+00), plus the wall-function production reading a WALL VELOCITY ";
    "snapshotted at the closure's build, exact for every noSlip wall and wrong for a slip one ";
    "(epsilon 1.5e-02, worst on `porosityWall`). NOT CLAIMED, each refused by name: every other ";
    "option type, explicitPorositySource's fixedCoeff model, more than one active porosity zone ";
    "on the device, an option under a moving mesh or beside an MRF zone; the Forchheimer half ";
    "(f is zero in the tutorial). AND THROUGH A TOPOLOGY CHANGE, ";
    "tests/interfoam_amr_vs_openfoam.sh's `porosity` profile (unit 14): OpenFOAM does not map an ";
    "option's cell labels, it RE-SELECTS -- cellSetOption::isActive() calls setCellSelection() ";
    "whenever the mesh is topoChanging and sets V_ = -GREAT so the volume prints again ";
    "(cellSetOption.C:383-396) -- and a `cellZone` selection then resolves against the LIVE ";
    "zone, which polyTopoChange renumbers by giving each child its parent's zone id, while a ";
    "`cellSet` re-reads its file in the ORIGINAL numbering so re-selecting IS keeping. Its own ";
    "log is the oracle, one line per change: `- selected N cell(s) with volume V`, 2736 -> 7398 ";
    "-> 26711 cells at 0.08349609375 of volume that never moves a digit -- the count grows by ";
    "the refined part of the zone and the volume cannot, which is what makes a kept-label port ";
    "visible. MEASURED on both arms: brae's last selection 26711 cells of 0.08349609375, alpha ";
    "1.5190e-14 on the host and 1.6986e-14 on the device, p_rgh 1.2499e-14 relative, rAU ";
    "1.4562e-11, all 9 p_rgh and 3 pcorr solves on OpenFOAM's counts. THE CONTROL keeps the ";
    "selections: 2736 cells of 0.0657119750977 and U 9.5948e-02. BROKEN ONCE ON THE DEVICE, and ";
    "nothing else here could have seen it: the porosity cell list is uploaded before the time ";
    "loop, so the device applied the resistance to an eighth of the zone OpenFOAM applies it to ";
    "and read the control's own number to every digit -- alpha 1.4218e-02 and U 9.5948e-02 from ";
    "the host arm."]);
  note := Some (cat [
    "interFoam reaches fvOptions in four places (UEqn.H:9 `== fvOptions(rho, U)`, :14 constrain, :31 and ";
    "pEqn.H:65 correct); a source reaches the first alone. The arithmetic is the host reference ";
    "simpleFoam and rhoSimpleFoam already gate; what is interFoam's is what it is handed. The ";
    "equation is FORCE-dimensioned, so DarcyForchheimer::correct takes the field named `rho` and, ";
    "finding no `thermo:mu`, rho*nu with the field named `nu` (DarcyForchheimer.C:203-218) -- the ";
    "mixture's rho and its LAMINAR nu. WHAT THE GATE FOUND WAS NOT THE OPTION. interFoam's loops never ";
    "refreshed a flowRateInletVelocity, which OpenFOAM recomputes at every momentum assembly ";
    "(fvMatrix.C:396 -> updateCoeffs) from the rate at that time and, for a massFlowRate, the field ";
    "named `rho` on the patch. angledDuct ships `massFlowRate constant 0.1` beside `value uniform (0 ";
    "0 0)`: brae's inlet stayed at zero, its largest velocity 1.9e-04 m/s against OpenFOAM's 0.21, ";
    "silently -- the frozen inlet this project's rules name. It was localised by the `inactive` arm: ";
    "the same 100% with the option off. The host loop refreshes it now; the device loop, which ";
    "uploads U's patches once, refuses a mass rate or a volumetric one beside a `value`. ";
    "waterChannel's volumetric inlet carries no `value`, so its constructor had built the right one. ";
    "ALSO: the shared fvOptions reader looked in system/ before constant/, where ";
    "fv::options::createIOobject (fvOptions.C:46-84) looks in constant/ first. HOST ONLY SO FAR."]);
  selection_base := None;
  schema_for := None;
  other := [] |}.

Definition c_interFoam_mangroves : component := {|
  name := "interFoam_mangroves";
  of_symbol := "multiphaseMangrovesSource";
  of_file := "src/waveModels/fvOptions/multiphaseMangrovesSource/multiphaseMangrovesSource.C";
  classification := "GPU_REQUIRED";
  status := "REIMPLEMENT";
  of_line := None;
  brae_driver := None;
  brae_existing := None;
  brae_reference := Some "src/finiteVolume/cfdTools/general/fvOptions/fvOptions_cpp.cu";
  brae_cuda := None;
  brae_target := None;
  validation := Some (cat [
    "tests/interfoam_mangrove_vs_openfoam.sh, real OpenFOAM on laminar/waves/mangroveInteraction ";
    "as Allrun meshes it (blockMesh, setFields, topoSet) with the block halved in each ";
    "direction, 51,450 cells, the seaweed zone 14,700 of them; a Boussinesq paddle, ";
    "shallowWaterAbsorption, kEpsilon with PBiCG/DILU; 450 fixed steps of 0.01 at the case's ";
    "own tolerances. MEASURED: alpha 4.6e-14, p_rgh 3.8e-14, U 3.4e-12, k 1.7e-13, epsilon ";
    "1.0e-13, nut 3.0e-13, every p_rgh, k and epsilon count and k's and epsilon's final ";
    "residuals OpenFOAM's. CONTROLS: both options off, U 134%; the turbulence option off, k ";
    "52%. BROKEN ONCE EACH (U / k): no added mass 2.2e-01; no drag 8.0e-01; drag without rho ";
    "7.9e-01; Cm for Cm + 1 1.1e-01; Ckp and Cep swapped 9.9e-01; the turbulence sign flipped ";
    "8.3e-01; no turbulence source 3.4e-01 / 5.2e-01. NOT DISCRIMINATED: the added mass on U ";
    "rather than U.oldTime() (the same field at assembly with one outer corrector and no ";
    "predictor). tests/test_fvoptions_cpp.cu holds the reading and the refusals. NOT CLAIMED, ";
    "each refused: the density-weighted k-epsilon, any other closure under the turbulence ";
    "option, a field-name override, more than one option of either type on the device loop. ";
    "THE DEVICE LOOP RUNS IT TOO (2026-09-22), by its own bounds over the same 450 steps: ";
    "alpha 6.4e-14, p_rgh 4.8e-14, U 3.9e-11, k 3.2e-12, epsilon 3.5e-12, nut 1.7e-12, all ";
    "900 p_rgh and all 450 k and 450 epsilon counts OpenFOAM's and their final residuals ";
    "with them; the seven U/k fail-proofs above read the SAME numbers to two digits when ";
    "broken on the device arm, and the added mass on U for U.oldTime() is not discriminated ";
    "there either."]);
  note := Some (cat [
    "TWO OPTIONS over each region's cellZone. multiphaseMangrovesSource: addSup(rho, eqn) adds ";
    "-Sp(rho*0.5*Cd*a*N*|U|, U) - rho*0.25*(Cm + 1)*pi*a^2*N*ddt(U), which UEqn == options ";
    "turns into diag += V*rho*drag + (rDeltaT*V)*rho*inertia and source += ";
    "((rDeltaT*U0)*V)*rho*inertia, in OpenFOAM's operation order. ";
    "multiphaseMangrovesTurbulenceModel: addSup(eqn) -- interFoam's k-epsilon is the ";
    "incompressible lineage, alpha = rho = 1 -- adds -Sp(Ckp*Cd*a*N*|U|, k) and ";
    "-Sp(Cep*Cd*a*N*|U|, epsilon), U looked up by name. Every region coefficient is readEntry ";
    "in OpenFOAM and required here. firstUnsupported() still reports both types to every ";
    "driver but interFoam's two loops, which check their options themselves: the drivers that ";
    "ask treat an implemented option they do not recognise as a porosity. ON THE DEVICE the ";
    "per-cell coefficients WITHOUT their |U| are built once from the host OptionList's regions, ";
    "in the host's multiplication order, and |U| is taken on the device at each assembly: ";
    "deviceMangrovesMomentum in the shared assembler's fvOptions slot (UEqn.cu), and ";
    "KEpsilonInput::fvoSpK/fvoSpEps as diag += V*coeff ahead of relax()."]);
  selection_base := None;
  schema_for := None;
  other := [] |}.

Definition c_interFoam_PBiCG : component := {|
  name := "interFoam_PBiCG";
  of_symbol := "PBiCG";
  of_file := "src/OpenFOAM/matrices/lduMatrix/solvers/PBiCG/PBiCG.C";
  classification := "GPU_REQUIRED";
  status := "REIMPLEMENT";
  of_line := None;
  brae_driver := None;
  brae_existing := None;
  brae_reference := Some "src/OpenFOAM/matrices/pbicg.cu";
  brae_cuda := None;
  brae_target := None;
  validation := Some (cat [
    "tests/interfoam_mangrove_vs_openfoam.sh: all 450 k and 450 epsilon solves take ";
    "OpenFOAM's iteration count and end on its final residual. BROKEN ONCE EACH: ";
    "PBiCGStab in its place, 76 of 450 k counts equal and U 9.2e-05; DILU's transpose sweep ";
    "not transposed, the run fails. tests/interfoam_refusals.sh: PBiCGStab named for k is ";
    "refused. ON THE DEVICE: tests/test_device_pbicg.cu holds devicePBiCGDilu to the host ";
    "reference on an asymmetric 5760-cell system -- Tmul 1.6e-15, preconditionT bit for bit, ";
    "the iterate at relTol 0.01 1.1e-14 apart in five iterations where PBiCGStab takes three ";
    "and lands 2.6e-03 away, 25 iterations in both converged -- and the mangrove gate's ";
    "device arm holds every one of its 900 k and epsilon solves to OpenFOAM's log. BROKEN ";
    "ONCE EACH on the device: preconditionT or Tmul on the direct view, beta inverted (the ";
    "unit gate, 8 checks each); PBiCGStab in its place, 76 of 450 k counts and U 9.2e-05; the ";
    "Gauss-Seidel sweep the closure used to set unconditionally, 0 of 450 and U 1.1e-04."]);
  note := Some (cat [
    "PBiCG with the DILU preconditioner, transcribed from PBiCG.C and DILUPreconditioner.C: ";
    "the direct and TRANSPOSE systems side by side (Amul/Tmul, precondition/preconditionT), ";
    "the singularity break before the count moves. Not PBiCGStab, which brae already had and ";
    "which stops at different iterates at the same tolerance. The sweeps run in face order: ";
    "for any cell the subtractions arrive in the same face order as losortAddr's, so the bits ";
    "are the same. Wired for interFoam's kEpsilon (LinearSolverChoice::pbicgDILU); the LES and ";
    "kOmegaSST closures still refuse it. ON THE DEVICE ";
    "(src/matrices/lduMatrix/solvers/PBiCG/device_pbicg.cu) the transpose system is a VIEW -- ";
    "deviceAmul and diluApply on the same matrix with upper and lower exchanged, one rD for ";
    "both since calcReciprocalD reads only their product -- and a coupled interface is refused ";
    "as the host refuses it. FOUND BY THIS PORT: the device closure set its Gauss-Seidel sweep ";
    "unconditionally, so a case naming PBiCG would have run a smoothSolver under that entry in ";
    "silence; it selects by name now and refuses what it does not run."]);
  selection_base := None;
  schema_for := None;
  other := [] |}.

Definition c_interFoam_CrankNicolson : component := {|
  name := "interFoam_CrankNicolson";
  of_symbol := "CrankNicolsonDdtScheme";
  of_file := "src/finiteVolume/finiteVolume/ddtSchemes/CrankNicolsonDdtScheme/CrankNicolsonDdtScheme.C";
  classification := "GPU_REQUIRED";
  status := "REIMPLEMENT";
  of_line := None;
  brae_driver := None;
  brae_existing := None;
  brae_reference := Some "src/finiteVolume/finiteVolume/ddtSchemes/CrankNicolsonDdtScheme/crank_nicolson_ddt_scheme_cpp.cu";
  brae_cuda := None;
  brae_target := None;
  validation := Some (cat [
    "tests/interfoam_cn_vs_openfoam.sh, real OpenFOAM on RAS/damBreak with `default CrankNicolson 0.5` ";
    "in the shipped Euler's place, 20 fixed steps of 1e-3, BOTH ARMS, three profiles: `cn` (the ";
    "tutorial's PIMPLE), `cnOuter` (nOuterCorrectors 2: every ddt0 asked for twice a step, advanced ";
    "once), `cnFull` (CrankNicolson 1, offCentre_'s other branch). MEASURED host: cn alpha 9.3e-15, ";
    "p_rgh 8.0e-15, U 1.5e-14, k 8.9e-15, epsilon 6.0e-15; cnOuter 1.0e-14, 1.2e-14, 1.0e-14, 6.5e-15, ";
    "6.3e-15; cnFull 2.4e-14, 9.8e-13, 1.3e-10, 5.3e-12, 4.3e-13; every p_rgh, alpha, k and epsilon ";
    "count OpenFOAM's (60, 120 and 60 p_rgh solves). Device: cn 8.2e-15, 7.5e-15, 1.9e-12, 7.6e-15, ";
    "7.3e-15; cnOuter 5.8e-15, 7.5e-15, 1.7e-12, 1.3e-14, 1.4e-14; cnFull 1.2e-14, 5.8e-13, 7.8e-11, ";
    "3.1e-12, 2.6e-13; every count. THE CONTROL is OpenFOAM's own Euler against its CrankNicolson, U ";
    "3.2e-02 (cn), 5.6e-02 (cnOuter), 5.4e-02 (cnFull). WHAT THE GATE FOUND: (1) phi's old-old level ";
    "is CREATED on the second step as a copy of phi.oldTime() -- fvcDdtPhiCorr asks for it only inside ";
    "its evaluate branch, and GeometricField::oldTime() creates a missing level from the one it hangs ";
    "off -- so dphidt0's first estimate is 0; with phi^0 in its place U 2.3e-01 after two steps, alpha ";
    "5e-15 (the alpha step reads no old-old level). U's and rho's levels are asked for on the first step ";
    "at the top of fvmDdt and rotate normally. (2) The DEVICE alpha step reset alpha1 to its old time at ";
    "the start of every outer pass, which OpenFOAM's alphaEqn.H never does: with nOuterCorrectors 2 the ";
    "second pass's first p_rgh residual 1.2e-06 from OpenFOAM's, k 6.7e-06 and U 2.0e-06 after two ";
    "steps, under Euler as under CrankNicolson (tests/interfoam_ras_dambreak_vs_openfoam.sh's new `outer` ";
    "profile holds it). BROKEN ONCE EACH: see the gate script's table. NOT CLAIMED, each refused by name: ";
    "a Function1 ocCoeff (the ramp), the scheme on one operand set and Euler on the other, a moving mesh ";
    "(the V0/V00 branch and fvcDdtUfCorr), a mangrove source under it, a closure other than kEpsilon, ";
    "alpha sub-cycling (OpenFOAM's own FatalError), a restart directory holding ddt0 fields or alphaPhi0, ";
    "a coupled pair on the device loop, fvc::ddt."]);
  note := Some (cat [
    "ON THE DEVICE (2026-10-01): the alpha blend's phi.oldTime() is created per outer corrector as ";
    "the host's is (tests/interfoam_moving_vs_openfoam.sh `solitaryOuterCN`, control alpha 6.9e-05), ";
    "and kEpsilon under CrankNicolson on a MOVING mesh is refused by name at start-up -- the device ";
    "closure carries the Euler moving form alone. ";
    "ON A MOVING MESH THE STATE IS WRITTEN (2026-10-01, host; tests/interfoam_write_vs_openfoam.sh, arm W's ";
    "RAS/floatingObject row AS SHIPPED and arm X): ddt0(rho,U), ddtCorrDdt0(U), ddtCorrDdt0(Uf), ddt0(k), ";
    "ddt0(epsilon) with their PATCH values (fvmDdt advances them beside the cells, :1040-1047; ";
    "CrankNicolsonDdt0Operands), U_0 / k_0 / epsilon_0, Uf_0 from the third step, meshPhiCN_0 and V0. ";
    "MEASURED: as shipped worst 1.2e-13; the body released (the mesh deforming, five steps) worst 3.0e-11 ";
    "(meshPhiCN_0), fields below 2e-12. THREE FACTS IT TOOK: kEpsilon's fvm::ddt takes the moving branch ";
    "(it was refused; control on the static branch k 4.1e-04); the alpha blend's phi.oldTime() is the copy ";
    "its first request made for the REST of that time index (with the previous step's flux, three outer ";
    "correctors and correctPhi read U 3.1e-08 at step two); a cold start's old level is created inside ";
    "the first fvm::ddt, after updateCoeffs (epsilon_0 8.7e-01 off at the first write otherwise). NOT ";
    "CLAIMED: the written state on a static mesh (phi_0, ddtCorrDdt0(phi)), under kOmegaSST or LES, on a ";
    "refining mesh, on a constraint patch, or from the device loop -- each refused by name. ";
    "THE SCHEME IS A STATE. Every fvm::ddt keeps the previous step's ddt as a registry field named after its ";
    "operands (ddt0(rho,U), ddt0(rho,k), ddt0(rho,epsilon), ddtCorrDdt0(U), ddtCorrDdt0(phi)), created zero ";
    "at its first assembly and advanced once per time index by the first assembly of the step (evaluate()); ";
    "coef = 1 + oc once timeIndex > startTimeIndex, coef0 = 1 + oc once timeIndex > startTimeIndex + 1, ";
    "offCentre(x) = oc*x below 1 and x at 1: Euler for one step, an Euler-estimated ddt0 for the next, the ";
    "scheme from the third. Static mesh: diag = (rDtCoef*rho)*V, source = ((rDtCoef*rhoOld)*vfOld + ";
    "offCentre(ddt0))*V, ddt0 <- rDtCoef0*(rhoOld*vfOld - rhoOO*vfOO) - offCentre(ddt0), with rDtCoef = ";
    "coef/deltaT and rDtCoef0 = coef0/deltaT0 as single divisions. fvcDdtPhiCorr(U, phi) is the two-argument ";
    "fvcDdtPhiCoeff times ((rDtCoef*phiOld + offCentre(dphidt0)) - (Sf & interpolate(rDtCoef*UOld + ";
    "offCentre(ddt0)))) with dotInterpolate's lambda*(P - N) + N. alphaEqn.H's own blend: phiCN = ";
    "cnCoeff*phi + (1 - cnCoeff)*phi.oldTime() once timeIndex > startTimeIndex + 1, cnCoeff = 1/(1 + oc); ";
    "with ddt(rho,U) not Euler the end-of-step alpha flux is un-blended against alphaPhi10.oldTime() -- a ";
    "level CREATED by that first call as a copy of the current flux -- and rhoPhi takes phi beside rho2. ";
    "The device transcribes the host module (device_crank_nicolson_ddt.cu) and its state lives in the ";
    "driver (DeviceInterCrankNicolson) and the closure (DeviceInterTurbulence). Why RAS/damBreak and not ";
    "floatingObject: the one shipped tutorial naming CrankNicolson also moves its mesh under rigidBodyMotion ";
    "(rigidBodyDynamics, a Newmark solver), which brae does not carry; its refusal now names the body."]);
  selection_base := None;
  schema_for := None;
  other := [] |}.

Definition c_interFoam_setRDeltaT : component := {|
  name := "interFoam_setRDeltaT";
  of_symbol := "setRDeltaT";
  of_file := "applications/solvers/multiphase/VoF/setRDeltaT.H";
  classification := "HOST_ONLY";
  status := "REIMPLEMENT";
  of_line := None;
  brae_driver := None;
  brae_existing := None;
  brae_reference := Some "src/applications/solvers/interFoam/inter_set_rdeltat_cpp.cu";
  brae_cuda := None;
  brae_target := None;
  validation := Some (cat [
    "tests/interfoam_dtchull_vs_openfoam.sh, real OpenFOAM on RAS/DTCHull meshed serially ";
    "(845,536 cells), staged laminar, ten localEuler steps: OpenFOAM WRITES rDeltaT ";
    "(createRDeltaT.H, AUTO_WRITE), so the local time step is compared cell by cell at every ";
    "step, with setRDeltaT.H's three Info lines. MEASURED: rDeltaT 1.6e-16 at step 1, 3.4e-12 ";
    "or less after, the lines 3.4e-12. CONTROLS (three steps, each failing on a number): no ";
    "fvc::smooth, rDeltaT 9.5e-01 at step 1; no damping, 5.1e-02 at step 3; the initial rhoPhi ";
    "as the alpha flux's mass flux (what brae built), 5.4e-01 at step 1. NOT CLAIMED: fvc::spread ";
    "and fvc::sweep (refused; DTCHull sets both counts to 0), coupled patches (refused), a restart. ";
    "The DEVICE loop calls this same host function each step from its own fields (rhoPhi, phi, ";
    "alpha1 and rho downloaded) and uploads rDeltaT and interpolate(rDeltaT): `laminar device`, ";
    "rDeltaT 1.6e-16 at step 1 against OpenFOAM, and the two NOSMOOTH/NODAMP controls fail there too."]);
  note := Some (cat [
    "HOST_ONLY because fvc::smooth is a FaceCellWave -- serial and order-dependent through its 1% ";
    "hysteresis (src/finiteVolume/finiteVolume/fvc/fvcSmooth/fvc_smooth_cpp.cu). The controls are ";
    "fvSolution PIMPLE's, not controlDict's, with OpenFOAM's defaults: nAlphaSpreadIter 1 and ";
    "nAlphaSweepIter 5 are ON unless the case writes 0, maxDeltaT is GREAT. Damping runs from the ";
    "THIRD step of every run (timeIndex > startTimeIndex + 1, tested before ++runTime). The rDeltaT ";
    "read on a restart is inert: S1 overwrites every cell and rDeltaT0 is read only by the damping."]);
  selection_base := None;
  schema_for := None;
  other := [] |}.

Definition c_interFoam_localEuler : component := {|
  name := "interFoam_localEuler";
  of_symbol := "localEulerDdtScheme";
  of_file := "src/finiteVolume/finiteVolume/ddtSchemes/localEulerDdtScheme/localEulerDdtScheme.C";
  classification := "GPU_REQUIRED";
  status := "REIMPLEMENT";
  of_line := None;
  brae_driver := None;
  brae_existing := None;
  brae_reference := Some "src/applications/solvers/interFoam/inter_ueqn_cpp.cuh";
  brae_cuda := None;
  brae_target := None;
  validation := Some (cat [
    "tests/interfoam_dtchull_vs_openfoam.sh. HOST ARM: ";
    "ten laminar localEuler steps of RAS/DTCHull, alpha 2.6e-10, p_rgh 6.1e-10, U 6.4e-13, all 20 ";
    "p_rgh and 10 alpha counts OpenFOAM's; OpenFOAM against itself with one interface cell's ";
    "alpha moved by one ulp reads 8.8e-11, 1.2e-10, 3.7e-13 after the same ten steps. CONTROLS, ";
    "one consumer at a time on the global 1/deltaT: the alpha pre-solve and CMULES (alpha ";
    "2.1e+02), fvm::ddt(rho, U) (U 5.3e+01), ddtCorr (rDeltaT 3.0e-01 at step 3). The `ras` ";
    "profile runs the tutorial's kOmegaSST (div(phi,k|omega) upwind, nut hull nutkWallFunction ";
    "staged): alpha 1.6e-10, p_rgh 3.4e-10, U 1.6e-12, k 3.7e-12, omega 1.0e-11, nut 2.8e-11, ";
    "every omega and k count and final residual OpenFOAM's; one ulp gives k 1.0e-12, omega ";
    "1.0e-12, nut 5.3e-12. Its control, kOmegaSST's two ddts on 1/deltaT: k 1.1e+01, omega ";
    "1.1e+00. DEVICE ARM, `laminar` with the tutorial's outlet: the alpha pre-solve, CMULES, ";
    "fvm::ddt(rho, U) and ddtCorr on the GPU, ported one at a time against the host arm with the ";
    "rest switched off on both. ONE step at the host's bounds: alpha 1.6e-14, p_rgh 4.8e-15, U ";
    "7.7e-13. TEN: alpha 1.1e-09, p_rgh 2.3e-08, U 6.0e-10, every count OpenFOAM's -- the device's arithmetic amplified ";
    "by CMULES' limiter (the second step's pre-solve agrees with the host arm to 2.8e-14 and its ";
    "alpha step leaves 8.0e-12); OpenFOAM with every water cell one ulp off reads alpha 1.1e-10, ";
    "p_rgh 2.8e-10. The five controls fail on the device arm as well. NOT CLAIMED: kEpsilon and LES ";
    "under localEuler, a moving mesh, sub-cycling (localRSubDeltaT), explicit MULES, fvOptions and ";
    "MRF (all refused). DEVICE CLOSURE: kOmegaSST's two fvm::ddts on the local step ";
    "(KOmegaSSTInput::rDeltaTCells), on the device `ras` arm when it staged (ras with the closure's convection upwind, the ";
    "hull smooth, the cache stripped -- what the device loop does not carry yet): one step k ";
    "6.7e-14, omega 4.0e-13, nut 4.4e-13; ten k 3.8e-10, omega 3.5e-10, nut 1.5e-10; control k ";
    "1.1e+01."]);
  note := Some (cat [
    "Five consumers on DTCHull: the alpha pre-solve (alphaEqn.H:105-109 names the scheme directly), ";
    "CMULES correct and limiterCorr (localRDeltaT per cell, CMULESTemplates.C:103-176), ";
    "fvm::ddt(rho, U) as diag=(rDT*rho)*V, source=((rDT*rho0)*U0)*V in that order, and ddtCorr on ";
    "fvc::interpolate(rDT), and kOmegaSST's fvm::ddt(alpha, rho, omega|k), which with geometricOneField ";
    "alpha and rho is fvm::ddt(psi) (fvmDdt.C:127-137): rDT*V and (rDT*psi0)*V, bitwise the Euler ";
    "lines' (rDT*rho)*V and ((rDT*rhoOld)*psi0)*V at rho == 1 (kOmegaSST::Compressible::rDeltaTCells). ";
    "brae's EULER U source is ((rDT*rho0)*V)*U0 -- a different association, ";
    "left on the ledger; the localEuler one is OpenFOAM's."]);
  selection_base := None;
  schema_for := None;
  other := [] |}.

Definition c_interFoam_nutkRoughWallFunction : component := {|
  name := "interFoam_nutkRoughWallFunction";
  of_symbol := "nutkRoughWallFunctionFvPatchScalarField";
  of_file := "src/TurbulenceModels/turbulenceModels/derivedFvPatchFields/wallFunctions/nutWallFunctions/nutkRoughWallFunction/nutkRoughWallFunctionFvPatchScalarField.C";
  classification := "GPU_REQUIRED";
  status := "REIMPLEMENT";
  of_line := None;
  brae_driver := None;
  brae_existing := None;
  brae_reference := Some "src/TurbulenceModels/turbulenceModels/derivedFvPatchFields/wallFunctions/nut_wall_function.cu";
  brae_cuda := None;
  brae_target := None;
  validation := Some (cat [
    "tests/interfoam_dtchull_vs_openfoam.sh `ras`, RAS/DTCHull's hull as shipped (Ks 1e-4, Cs 0.5) ";
    "under kOmegaSST and localEuler, HOST ONLY: the hull's wall nut face by face 6.2e-11 after ten ";
    "steps (1.7e-12 at the first; OpenFOAM's one-ulp floor 7.9e-12), k 2.8e-12, omega 8.9e-12, U ";
    "4.4e-13, every count OpenFOAM's. Witness, OpenFOAM against itself rough vs smooth: nut ";
    "2.3e-01 and U 7.0e-04 at the first step. By the last step 5,605 of 27,438 hull faces are in ";
    "fnRough's 2.25 < KsPlus < 90 regime. CONTROLS: run as nutkWallFunction, wall nut 1.0e+00 and ";
    "U 4.0e-03; the history dropped (limited against nu_w), wall nut 4.6e-01. DEVICE ARM (`ras ";
    "device`, the hull as shipped; the cache was stripped when these were measured, the tutorial runs whole now ";
    "with the same digits): kOmegaSST.cu's wallNutDispatchKernel ";
    "through nutkRoughWallValue, its history the wall nut as correctNut is entered (nutBndIn). ";
    "One step, the host arm's digits (wall nut 1.7e-12); ten, wall nut 3.7e-09, k 4.0e-10, omega ";
    "2.8e-10, nut 2.9e-10, every count OpenFOAM's; the two controls on the device arm, three steps, ";
    "wall nut 1.0e+00 / U 4.0e-03 and wall nut 4.6e-01 / U 3.2e-04 (the host arm's digits) against ";
    "9.4e-11. The device formula is NOT bit-identical to the host's: libdevice's pow, sin and log ";
    "differ from glibc's in the last bit (measured, see nut_wall_function.cuh); 580 of 400,000 ";
    "synthetic faces, worst 1.5e-13 relative, the KsPlus >= 90 regime exact. NOT CLAIMED: the ";
    "KsPlus >= 90 regime end to end (no face reaches it; the synthetic comparison covers it), ";
    "kEpsilon, a refining mesh."]);
  note := Some (cat [
    "A wall nut WITH HISTORY: calcNut clamps the log-law value to [0.5, 2]*max(the patch's previous value, ";
    "nu_w), and the first call -- validate() -- reads the case file's `value`, which is therefore ";
    "MUST_READ and load-bearing; Ks and Cs are MUST_READ per-face scalarFields, not PatchFunction1s. ";
    "It has no yPlusLam branch and keeps the log law's `- 1`; its association is not nutk's ";
    "(uStar*y/nu, sqrt(sqrt(Cmu))). brae's NutkRoughPatchField keeps value_ across evaluate(), as ";
    "OpenFOAM's fixedValue-derived class does, and correctNutField dispatches on the patch's class. ";
    "The device closures recompute the wall nut from k with no history and refuse it by name, as do ";
    "the legacy drivers' selectNutWall and interFoam's kEpsilon reader."]);
  selection_base := None;
  schema_for := None;
  other := [] |}.

Definition c_interFoam_outletPhaseMeanVelocity : component := {|
  name := "interFoam_outletPhaseMeanVelocity";
  of_symbol := "outletPhaseMeanVelocityFvPatchVectorField";
  of_file := "src/finiteVolume/fields/fvPatchFields/derived/outletPhaseMeanVelocity/outletPhaseMeanVelocityFvPatchVectorField.C";
  classification := "GPU_REQUIRED";
  status := "REIMPLEMENT";
  of_line := None;
  brae_driver := None;
  brae_existing := None;
  brae_reference := Some "src/finiteVolume/fields/fv_patch_field.cuh";
  brae_cuda := None;
  brae_target := None;
  validation := Some (cat [
    "tests/interfoam_dtchull_vs_openfoam.sh, RAS/DTCHull's U outlet as shipped (Umean 1.668), both ";
    "profiles, HOST ONLY: the outlet's U face by face 5.8e-12 (ras) and 3.2e-12 (laminar) after ten ";
    "steps, every count OpenFOAM's (2.1e-12 on ras since the cached grad(U) ran). Witness, OpenFOAM ";
    "against itself with an inletOutlet there: k ";
    "2.7e-02 at the first step, alpha 9.9e-04 at the last. CONTROLS: never updated, alpha 7.4e-02; ";
    "updated in the first corrector too (ignoring the updated() lag), U 9.6e-05, k 9.8e-03. NOT ";
    "CLAIMED: a dry patch (refused: OpenFOAM's phase mean is 0/0), a missing value (refused). DEVICE ";
    "ARM (`laminar device`): the loop's U hook updates it at the same instants -- the assembly and ";
    "each corrector's evaluate, not the still-updated first corrector nor the predictor's own ";
    "evaluate (DeviceUBoundaryCall::evaluateAfterPredictor). The outlet face by face 4.6e-15 after ";
    "one step, 1.4e-08 after ten (the device loop's CMULES amplification, see interFoam_localEuler); ";
    "frozen, 2.7e-02; the lag ignored, U 1.5e-05 after three steps against a 6.3e-11 run."]);
  note := Some (cat [
    "A mixed U condition with ONE valueFraction per patch: updateCoeffs clips the phase field's stored ";
    "patch values to [0, 1], forms Uzgmean = gSum(alpha*(Sf & Uzg))/gSum(alpha*magSf) from U's face ";
    "cells AS THEY STAND, and sets refValue 0, vf 1 - Umean/Uzgmean (Uzgmean >= Umean) or refValue ";
    "(Umean + Uzgmean)*nf, vf 1 - Uzgmean/Umean. The instants are OpenFOAM's: the UEqn assembly (the ";
    "step's starting cells) and each pressure corrector's U.correctBoundaryConditions() -- but NOT the ";
    "first corrector after an unsolved assembly, where the patch is still updated() and blends with ";
    "the assembly's coefficients (PressureStepInput::uUpdateCoeffsFromCells, uPatchesUpdatedAtEntry). ";
    "The CONSTRUCTOR's coefficients are OpenFOAM's too: refValue 0, refGrad 0, valueFraction 0, so ";
    "snGrad() is 0 before the first update -- which a cached grad(U) formed at validate reads."]);
  selection_base := None;
  schema_for := None;
  other := [] |}.

Definition c_interFoam_piovTangentialVelocity : component := {|
  name := "interFoam_piovTangentialVelocity";
  of_symbol := "pressureInletOutletVelocityFvPatchVectorField";
  of_file := (cat [
    "src/finiteVolume/fields/fvPatchFields/derived/pressureInletOutletVelocity/";
    "pressureInletOutletVelocityFvPatchVectorField.C"]);
  classification := "GPU_REQUIRED";
  status := "REIMPLEMENT";
  of_line := None;
  brae_driver := None;
  brae_existing := None;
  brae_reference := Some "src/finiteVolume/fields/fv_patch_field.cuh";
  brae_cuda := None;
  brae_target := None;
  validation := Some (cat [
    "tests/interfoam_dtchullmoving_vs_openfoam.sh, RAS/DTCHullMoving's atmosphere as shipped ";
    "(`tangentialVelocity $internalField`, (-1.668 0 0)) with the mesh FROZEN and grad(U) ";
    "UNCACHED on both codes (the frozen mesh makes the cache live; as shipped the moving mesh bypasses it): ten Euler steps, alpha 3.0e-14, p_rgh ";
    "1.3e-11, U 2.9e-13, k 3.2e-13, omega 6.2e-13, nut 7.7e-12, the atmosphere's U face by ";
    "face 3.9e-15 and its totalPressure p_rgh 0, every p_rgh and alpha count OpenFOAM's; ";
    "427 of 798 atmosphere faces inflow. Controls: the entry stripped U 3.9e-05, the ";
    "atmosphere 1.0; its sign flipped U 3.0e-05, the atmosphere's U 2.0; OpenFOAM without ";
    "the entry against itself U 1.2e-04; the refValue dropped from the inflow value alone the stripped ";
    "entry's digits exactly. tests/test_piov_sngrad.cu legs 5-10 on a tilted normal: the ";
    "projection, the evaluate and snGrad bit for bit against a transcription, the ";
    "construction-time normals kept, the reader's forms. NOT CLAIMED: snGrad's refValue term ";
    "end to end (dropped alone it reads the unbroken run to the last digit: nothing on this ";
    "path reads the atmosphere's snGrad), the projection and the construction-time normals ";
    "end to end (the atmosphere is axis-aligned), the cached grad(U), the moving mesh, the ";
    "device (refused)."]);
  note := Some (cat [
    "Host only for now: interFoam CLAIMS the entry (inter_case_cpp.cu claimTangentialVelocity) and ";
    "hands it to the patch field, which makes refValue = tv - n*(n & tv) once from the ";
    "start-time normals; the shared factory still refuses it for every other solver, the device ";
    "builder refuses a patch that carries one, and a refining mesh is refused at the claim. With ";
    "a refValue the inflow value and snGrad are directionMixed's evaluate term for term; the ";
    "refValue-free arithmetic is unchanged."]);
  selection_base := None;
  schema_for := None;
  other := [] |}.

Definition c_interFoam_cacheGradU : component := {|
  name := "interFoam_cacheGradU";
  of_symbol := "fv::gradScheme::grad";
  of_file := "src/finiteVolume/finiteVolume/gradSchemes/gradScheme/gradScheme.C";
  classification := "GPU_REQUIRED";
  status := "REIMPLEMENT";
  of_line := None;
  brae_driver := None;
  brae_existing := None;
  brae_reference := Some "src/applications/solvers/interFoam/inter_turbulence_cpp.cuh";
  brae_cuda := None;
  brae_target := None;
  validation := Some (cat [
    "tests/interfoam_dtchull_vs_openfoam.sh `ras`, RAS/DTCHull's `cache { grad(U); }` as shipped, ";
    "HOST ONLY, ten steps: alpha 6.0e-10, p_rgh 1.1e-09, U 5.1e-13, k 3.3e-12, omega 9.4e-12, ";
    "nut 1.0e-11, every count OpenFOAM's; OpenFOAM's one-ulp floor 2.4e-10, 5.0e-10, 1.7e-13, ";
    "5.7e-13, 1.3e-12, 3.4e-12. Witness, OpenFOAM cached against uncached: U 2.0e-06 at the first ";
    "step, k 8.1e-03 and nut 2.6e-02 at the second. CONTROL: every grad(U) formed afresh, U 1.8e-05, ";
    "k 2.6e-03, nut 2.3e-02. NOT CLAIMED: laminar, kEpsilon, LES, MRF or U changed since the ";
    "closure formed it (refused), a refining mesh (refused), any other cached name (refused). On a ";
    "motion-solver mesh OpenFOAM bypasses the registry at every step (changing() from the first ";
    "update), so the cache is inert and both loops run it (interfoam_moving_vs_openfoam `esd`, ";
    "RAS/electrostaticDeposition). DEVICE ARM (`ras device`, DTCHull as shipped): DeviceGradUCache ";
    "-- validate()'s gradient uploaded from the host, each correct's re-formed on the device from ";
    "U's stored patch values, consumed by all four grad(U) sites of the shared assembly ";
    "(MomentumInput::gradUGivenMemo, deviceDivDevReff's gradUGiven/gradBGiven) and counted: 10 of ";
    "10 assemblies. One step against OpenFOAM's cached run U 6.1e-13 (its cached-vs-uncached gap ";
    "2.0e-06); ten alpha 6.9e-10, U 4.5e-10, k 4.0e-10. CONTROL on the device arm: U 1.8e-05, k ";
    "2.6e-03, nut 2.3e-02, the host arm's digits, 0 of 3 assemblies took it. NOT CLAIMED on the ";
    "device: beside a limited or least-squares grad(U) or a coupled pair on a static mesh ";
    "(refused)."]);
  note := Some (cat [
    "gradScheme::grad keeps a registry field under the NAME grad(U) and returns it while U's eventNo ";
    "is unchanged (solution's DebugSwitch prints Calculating/Reusing/Updating). On DTCHull kOmegaSST's ";
    "validate forms it, the three UEqn sites asking for the name -- linearUpwind's correction, the ";
    "dev2 term, the corrected laplacian's fullGradCorrection -- reuse it, and turbulence->correct ";
    "updates it for the next step. It differs from the uncached answer because the fvMatrix ";
    "constructor restores U's eventNo around updateCoeffs (fvMatrix.C:394-397), so a patch that ";
    "evaluates there -- pressureInletOutletVelocity -- moves U's patch values under a gradient that is ";
    "not refreshed; the cached field's boundary is gaussGrad's correction against the snGrad() of ";
    "THAT moment, so the constructor-state coefficients of every mixed U patch are read."]);
  selection_base := None;
  schema_for := None;
  other := [] |}.

Definition c_interFoam_variableHeightFlowRate : component := {|
  name := "interFoam_variableHeightFlowRate";
  of_symbol := "variableHeightFlowRateInletVelocityFvPatchVectorField";
  of_file := (cat [
    "src/finiteVolume/fields/fvPatchFields/derived/variableHeightFlowRateInletVelocity/";
    "variableHeightFlowRateInletVelocityFvPatchVectorField.C"]);
  classification := "GPU_REQUIRED";
  status := "REIMPLEMENT";
  of_line := None;
  brae_driver := None;
  brae_existing := None;
  brae_reference := Some "src/finiteVolume/fields/fv_patch_field.cuh";
  brae_cuda := None;
  brae_target := None;
  validation := Some (cat [
    "tests/interfoam_weiroverflow_vs_openfoam.sh, real OpenFOAM on RAS/weirOverflow AS SHIPPED (its ";
    "own blockMesh, 5080 cells non-orthogonal to 26.4 degrees, setFields), ten fixed steps of the ";
    "tutorial's deltaT 1e-3. MEASURED: all 30 p_rgh, 10 epsilon and 10 k iteration counts ";
    "OpenFOAM's; alpha 4.0e-13, p_rgh 8.0e-13, U 1.8e-11, k 5.1e-14, epsilon 6.2e-14, nut 8.8e-14; ";
    "the inlet's velocity 2.7e-13 of its largest value, face by face against the `value` OpenFOAM ";
    "writes; bounds at about 30x. One p_rgh initial residual is 7.2e-08 out -- step one's third ";
    "corrector, itself 2.8e-05 after a PCG solve stopped at relTol 0.05, where p_rgh agrees to ";
    "8e-13 -- and that bound is 2e-06 for that stated reason. THE CONTROL: OpenFOAM with the inlet ";
    "U a fixedValue at the file's (0 0 0), 100% of U. BROKEN ONCE EACH (U): U_p without the ";
    "alpha_p weight 7.6e-01; avgU over the whole inlet area 6.0e-01; alpha_p from the face cells ";
    "4.7e-03; ddtCorr's boundary half dropped 3.6e-05 and 22 of 30 p_rgh counts; the alpha ";
    "condition never updated -- the inlet stays dry and the velocity condition refuses by name. ";
    "THE ALPHA CONDITION HAS NO CONTROL ON THE CASE: inside [0, 1] its value is the face cell's ";
    "on inflow and on outflow, and an inletOutlet of 0 in its place sends OpenFOAM itself to NaN ";
    "(the velocity condition divides by a wet area of zero). Its per-face logic, with bounds ";
    "that are not 0 and 1, is held by tests/test_variable_height_flow_rate.cu against ";
    "OpenFOAM's text, with an inletOutlet as the control. THE DEVICE LOOP RUNS THIS CASE ";
    "NOW (2026-09-20), at the same bounds: alpha 2.4e-13, p_rgh 4.3e-13, U 5.1e-11, its inlet ";
    "5.6e-13 face by face. It took ddtCorr's BOUNDARY half in the device pressure step (the ";
    "device already computed it, already zeroed where U fixes a value, and dropped it: BROKEN ";
    "U 3.6e-05, p_rgh 1.3e-06 against a bound of 5.0e-10) and the velocity condition rebuilt in ";
    "the U-boundary hook from the phase fraction on its patch (BROKEN U 1.0000e+00, the inlet ";
    "3.6e+00). alpha's own condition also drove a change -- MULES's per-face fixesValue mask is ";
    "now rebuilt from the patch's valueFraction rather than taken once from the patch's ";
    "fixesValue() -- and THAT IS NOT CLAIMED: the mask varies here (13 of 44 faces outflow at ";
    "the end, asserted by the gate) but the answer does not depend on it, since dropping the ";
    "refresh changes no digit and forcing the mask to zero over the whole patch moves p_rgh from ";
    "4.2981e-13 to 4.3078e-13 and nothing else. NOT CLAIMED: a flowRate that varies in time ";
    "(refused). AND THE ARM FOUND A DEFECT IN ANOTHER CASE: adding the boundary half put ";
    "RAS/angledDuct's `inactive` arm 1.4e-11 from OpenFOAM where it had been 7.6e-15, because the ";
    "device formed it from the face CELL's U.oldTime() while fvc::dotInterpolate(Sf, U.oldTime()) ";
    "on an uncoupled patch is `pSf & vf.boundaryField()[pi]`, the STORED patch value ";
    "(surfaceInterpolationScheme.C:296-298) -- the same number wherever the patch value follows ";
    "the cell, and not on a SLIP wall. U's patch values are snapshotted with its cells now. ";
    "STILL RED and not from this work: the k FINAL-residual arm, OpenFOAM 8.189e-14 ";
    "against brae 8.092e-14, two stopping points at round-off, awaiting a decision."]);
  note := Some (cat [
    "TWO CONDITIONS. variableHeightFlowRateInletVelocity is a fixedValue whose updateCoeffs rebuilds ";
    "n*avgU*alpha_p, avgU = -flowRate/gSum(magSf*alpha_p), from the phase field's STORED patch values ";
    "clipped to [0, 1]; the driver hands them over at the momentum assembly, where the flow-rate inlet ";
    "is refreshed too. variableHeightFlowRate is a mixed condition (refGrad 0, assignable false) whose ";
    "updateCoeffs sets, where phi < -SMALL, valueFraction 1 and refValue the face cell's value ";
    "clipped at lowerBound and upperBound, and elsewhere zeroGradient; the flux reaches it through ";
    "updateFromFlux and the cells through evaluate(). WHAT THE GATE FOUND WAS IN THE PRESSURE ";
    "EQUATION. brae added fvc::ddtCorr to phiHbyA on the internal faces only; OpenFOAM adds a whole ";
    "surface field and zeroes the coupling coefficient only where U FIXES A VALUE (ddtScheme.C, ";
    "fvcDdtPhiCoeff). weirOverflow's outlet is `U zeroGradient`, the first gated open patch that ";
    "fixes nothing: phi 3.2e-04 out at the outlet after the third step -- when its flux turned ";
    "outward and the limiter's coefficient left zero -- and U 3.6e-05 after ten. Localised by where ";
    "and when (cells, stored patch values and phi all agreed to 3e-10 after two steps), and ";
    "converging the pressure solves to 1e-13 changed nothing, which ruled the stopping point out. ";
    "The boundary term reads U.oldTime()'s PATCH value, not the face cell's (fvc::dotInterpolate): ";
    "on angledDuct's tilted slip wall the cell's velocity made a correction OpenFOAM does not have, ";
    "and that gate's floor arm caught it (4e-15 to 1.4e-11). The device pressure equation has no ";
    "boundary half and its header said OpenFOAM has none; corrected, and the device loop refuses an ";
    "open patch whose U fixes no value. HOST ONLY SO FAR."]);
  selection_base := None;
  schema_for := None;
  other := [] |}.

Definition c_interFoam_LESkEqn : component := {|
  name := "interFoam_LESkEqn";
  of_symbol := "kEqn";
  of_file := "src/TurbulenceModels/turbulenceModels/LES/kEqn/kEqn.C";
  classification := "GPU_REQUIRED";
  status := "REIMPLEMENT";
  of_line := None;
  brae_driver := None;
  brae_existing := None;
  brae_reference := Some "src/TurbulenceModels/turbulenceModels/LES/kEqn/les_kEqn_cpp.cu";
  brae_cuda := None;
  brae_target := None;
  validation := Some (cat [
    "tests/interfoam_les_vs_openfoam.sh, real OpenFOAM on LES/nozzleFlow2D (Allrun's mesh: ";
    "blockMesh and two topoSet/refineMesh passes, 20603 cells, an axisymmetric WEDGE, ";
    "non-orthogonal to 40 degrees), 100 fixed steps of 1e-9. MEASURED: alpha 6.6e-12, p_rgh ";
    "8.2e-11, U 4.5e-12, k 2.1e-12, nut 1.1e-12; all 400 p_rgh and 100 k iteration counts and ";
    "every k final residual OpenFOAM's; the filter width 1.1e-15 before and after smoothing ";
    "against the delta OpenFOAM writes, and 8.2e-16 on the same mesh made 3-D. THE CONTROL: ";
    "OpenFOAM run laminar, 19% of U. tools/dumpKEqn is OpenFOAM's kEqn with its stages ";
    "written; at step one G, divU, the convection and diffusion coefficients, the matrix ";
    "and the solved k agree with it to 1e-12. BROKEN ONCE EACH, fourteen: every term of the ";
    "equation, the delta's smoothing, its 2-D branch, the wave's tolerance, validate(), the ";
    "limitedLinear scheme -- all red (the script tabulates U, k and the p_rgh counts). NOT ";
    "DISCRIMINATED: Ce and kMin from the LES dictionary rather than kEqnCoeffs (the case ";
    "leaves both at their defaults). NOT CLAIMED, each refused by name: every other LESModel ";
    "and LESdelta, `density variable`, k schemes other than upwind and limitedLinear, ";
    "gradients other than Gauss linear, nut wall functions under LES, a coupled patch under ";
    "the smooth delta, and the device loop."]);
  note := Some (cat [
    "kEqn in the uniform lineage: ddt(k) + div(phi,k) - laplacian(nut + nu, k) == nut*(grad(U) && ";
    "devTwoSymm(grad(U))) - SuSp(2/3 divU, k) - Sp(Ce*sqrt(k)/delta, k); bound; nut = ";
    "Ck*sqrt(k)*delta. The filter width is les_delta_cpp.cu: cubeRootVol (sqrt(V/thickness) on a ";
    "2-D mesh, and a wedge is 2-D to it -- calcDirections knocks the wedge normal out of ";
    "geometricD) and smooth, a FaceCellWave transcribed in OpenFOAM's visit order, since a ";
    "value is taken only when it is 1% larger and so the order is part of the answer. WHAT THE ";
    "GATE FOUND was outside the model, by running the case LAMINAR in both codes first: the host ";
    "wedge had no vector matrix coefficients (see interFoam_wedgeCoefficients); grad(U)'s wedge ";
    "value was not rotated; and fvc::gaussGrad interpolated as w*P + (1 - w)*N where OpenFOAM ";
    "writes lambda*(P - N) + N -- on the uniform k of step one, limitedLinear's limiter is ";
    "decided by the SIGN of a gradient of a uniform field, which is that ulp: k 2.3e-03 out ";
    "after one step, 3.9e-14 with OpenFOAM's arithmetic. HOST ONLY SO FAR."]);
  selection_base := None;
  schema_for := None;
  other := [] |}.

Definition c_interFoam_wedgeCoefficients : component := {|
  name := "interFoam_wedgeCoefficients";
  of_symbol := "wedgeFvPatchField";
  of_file := "src/finiteVolume/fields/fvPatchFields/constraint/wedge/wedgeFvPatchField.C";
  classification := "GPU_REQUIRED";
  status := "REIMPLEMENT";
  of_line := None;
  brae_driver := None;
  brae_existing := None;
  brae_reference := Some "src/finiteVolume/fields/fv_patch_field.cuh";
  brae_cuda := None;
  brae_target := None;
  validation := Some (cat [
    "tests/interfoam_les_vs_openfoam.sh (LES/nozzleFlow2D, every cell on the two wedge ";
    "planes). BROKEN ONCE EACH (U after 100 steps): the host coefficients as the base ";
    "class's 1.1e-04; grad(U)'s wedge value unrotated 2.9e-04. tests/test_wedge_patch.cu ";
    "holds the geometry. NOT DISCRIMINATED: grad(alpha)'s wedge value rotated for the ";
    "interface normal -- provably invisible, the normal correction removes the one component ";
    "nHatf keeps. symmetryPlane and symmetry give the gradient field THEIR constraint type ";
    "the same way: fvc::gradUBoundary mirror-averages the cell gradient there, gated by ";
    "tests/interfoam_leakage_vs_openfoam.sh (HbyA 3% out beside its symmetry patches ";
    "without it; U 7.8e-02 with it broken)."]);
  note := Some (cat [
    "The host WedgePatchField overrode evaluate() alone: a vector wedge assembled with the ";
    "zeroGradient coefficients, where transformFvPatchField (.C:95-136) has valueInternalCoeffs 1 - ";
    "d, gradientInternalCoeffs -deltaCoeffs*d, the boundary coefficients from snGrad and the patch ";
    "internal field, d = 0.5*(1 - cellT_kk), and wedgeFvPatchField's snGrad (cellT & pif - pif)*";
    "0.5*deltaCoeffs. The device built the right coefficients from wedgeCellT() in its mixed slot, ";
    "so only the host was wrong, and no host gate had a wedge until nozzleFlow2D: UEqn.A() 2e-05 ";
    "low in every cell, 1.7e-04 in the axis corner, against OpenFOAM's dumped A(). SECOND: ";
    "fvPatchField::New gives a constraint patch its own type in a DERIVED field too, so grad(U) ";
    "has a wedge patch whose value is faceT & G & faceT^T; gaussGrad::correctBoundaryConditions ";
    "starts from that, and fvc::gradUBoundary started from the cell gradient."]);
  selection_base := None;
  schema_for := None;
  other := [] |}.

Definition c_interFoam_cyclic : component := {|
  name := "interFoam_cyclic";
  of_symbol := "cyclicFvPatchField";
  of_file := "src/finiteVolume/fields/fvPatchFields/constraint/cyclic/cyclicFvPatchField.C";
  classification := "GPU_REQUIRED";
  status := "REIMPLEMENT";
  of_line := None;
  brae_driver := None;
  brae_existing := None;
  brae_reference := Some "src/finiteVolume/fvMesh/fv_patch.cuh";
  brae_cuda := None;
  brae_target := None;
  validation := Some (cat [
    "tests/interfoam_baffle_vs_openfoam.sh, real OpenFOAM on RAS/damBreakPorousBaffle (blockMesh ";
    "then createBaffles: 13 internal faces become the cyclic pair porous_half0/1; 2268 cells; ";
    "kEpsilon, MULESCorr, three outer correctors, DICPCG and symGaussSeidel, linearUpwind ";
    "grad(U)), fixed steps of 1e-3. Profiles `cyclic` (p_rgh a plain cyclic, 20 steps), ";
    "`cyclicWet` (the water column staged ACROSS the baffle, 60 steps) and `cyclicWetExplicit` ";
    "(MULESCorr off). MEASURED: cyclic alpha 6.9e-15, p_rgh 6.6e-15, U 5.0e-14, k 1.8e-14, ";
    "epsilon 4.6e-14, nut 1.1e-14, every p_rgh, alpha, epsilon and k iteration count ";
    "OpenFOAM's; cyclicWet alpha 2.4e-13, p_rgh 5.1e-13, U 3.2e-12; cyclicWetExplicit alpha ";
    "3.5e-14, U 4.0e-13. THE CONTROL: OpenFOAM with the pair as two WALLS -- what the shared ";
    "factory's zeroGradient placeholder would have run -- 34% of U. THE WET PROFILES' p_rgh ";
    "solves are pinned at 1e-13 in both codes: at the case's 1e-07 the wet pair's first system ";
    "moves 4.0e-05 under ONE reordered dot product in brae's own PCG (1e-08 to 1e-10 on the ";
    "other systems), so that tolerance measures two Krylov paths' stopping points; counts are ";
    "then held to one apart at an edge stop (15 of 180). BROKEN ONCE EACH, 20 breaks of the ";
    "coupling, every one red on a profile (the script tabulates U per profile): from the ";
    "laplacian's interface coefficient dropped, 4.0e-01, down to DkEff on the pair taken from ";
    "patch values, 1.9e-10; ten of them change NO digit of the two shipped profiles, where ";
    "only air reaches the baffle, which is why the wet ones exist. NOT DISCRIMINATED: ";
    "fvMatrix::relax's coupled branch, the neighbour cell in the EXPLICIT limiter's extrema, ";
    "a vector gradient read from the stored cyclic value, CorrectPhi across the pair (phi ";
    "starts at 0). NOT CLAIMED, each refused by name (tests/interfoam_refusals.sh): across a ";
    "cyclic, GAMG and PBiCGStab, a momentum predictor, div(rhoPhi,U) schemes other than ";
    "upwind and linearUpwind, interfaceCompression, leastSquares and cellLimited gradients, a ";
    "moving mesh, MRF, fvOptions, waves, kOmegaSST, a rotational or non-orthogonal pair; ";
    "cyclicAMI, cyclicACMI, processor; the device loop, which refuses any cyclic."]);
  note := Some (cat [
    "brae's host interFoam had NO coupled patch: the shared factory builds a cyclic as a ";
    "zeroGradient placeholder (its coupling belongs to the legacy drivers' CyclicInterface), so the ";
    "pair would have run as two walls, stopped only by CorrectPhi refusing for its own reason. The ";
    "coupling is now OPT-IN: attachCyclicCoupling() fills FvPatch::coupled, nbrFaceCells, weights, ";
    "delta, the coupled deltaCoeffs (1/|delta|), nonOrthDeltaCoeffs and correction vectors ";
    "(cyclicFvPatch.C, basicFvGeometryScheme.C); only interFoam's host path calls it, so no other ";
    "driver's operators change. WHAT BRANCHES ON IT: fvc (a coupled face is interpolated from its ";
    "two CELLS, never a stored patch value -- HbyA's cyclic patch holds interpolate(rAU)*";
    "interpolate(H) and fvc::flux does not read it; snGrad with the scheme's deltaCoeffs and the ";
    "correction); fvm (laplacian internalCoeffs = boundaryCoeffs = -gamma*magSf*dc, upwind div ";
    "phi*w and -phi*(1-w), linearUpwind's coupled correction with the NEIGHBOUR's gradient); ";
    "fvMatrix A, H, flux, relax; PCG/DIC and smoothSolver (diagonal folded, no source, Amul and ";
    "residual through the interface, sumA, Gauss-Seidel's Jacobi update of bPrime per sweep); MULES ";
    "and CMULES (neighbour cell in the extrema, per-cell limiter, and syncFaceList's minimum ";
    "across the pair -- NOT a no-op in serial, as a note in mules_cpp.cu said); interFoam (phic ";
    "left alone on a coupled face, nHatf from the two cells' gradients, ddtCorr, phig and the ";
    "reconstruction with the coupled rAUf, pcorr a plain cyclic). ALSO FOUND: `Gauss ";
    "interfaceCompression vanLeer 1`, interfaceCompression.H's limited scheme, was read as plain ";
    "vanLeer by a substring match and ran; refused. HOST ONLY SO FAR."]);
  selection_base := None;
  schema_for := None;
  other := [] |}.

Definition c_interFoam_cyclicACMI : component := {|
  name := "interFoam_cyclicACMI";
  of_symbol := "cyclicACMIPolyPatch";
  of_file := "src/meshTools/AMIInterpolation/patches/cyclicACMI/cyclicACMIPolyPatch/cyclicACMIPolyPatch.C";
  classification := "GPU_REQUIRED";
  status := "REIMPLEMENT";
  of_line := None;
  brae_driver := None;
  brae_existing := None;
  brae_reference := Some "src/finiteVolume/fvMesh/fvPatches/constraint/cyclicACMI/cyclic_acmi_cpp.cu";
  brae_cuda := None;
  brae_target := None;
  validation := Some (cat [
    "tests/interfoam_leakage_vs_openfoam.sh, real OpenFOAM on RAS/damBreakLeakage as its ";
    "Allrun meshes it (2268 cells; a createBaffles cyclicACMI pair of 13 faces whose ";
    "non-overlap patches are symmetry planes; a coded per-face scale that opens two faces at ";
    "t > 0.5), every solve pinned at 1e-13. MEASURED, 520 steps from t = 0 with the baffle ";
    "opening at step 500: alpha 3.4e-13, p_rgh 1.5e-13, U 4.9e-12, k 9.2e-13, epsilon ";
    "2.2e-13, nut 3.5e-13, the flux through the four baffle patches 3.2e-14 of its largest; ";
    "and 30 steps restarted from OpenFOAM's own state at t = 0.49, U 5.2e-12. CONTROLS: the ";
    "baffle never opened, U 100%; opened on every face, 179%. BROKEN ONCE EACH (U, leak / ";
    "restart): MULES synced across the pair 1.7e-01; phic formed after the rescale 1.7e-09; ";
    "no symmetry reflection of grad(U) 7.8e-02; the clock at 0 green / 1.0; the neighbour ";
    "unscaled 2.7; the non-overlap patch at full area 7.0e-01; never rescaled 1.0; the ";
    "patches' |Sf| not reset 1.8. NOT DISCRIMINATED: recomputing the face cells' volumes ";
    "after the rescale (bitwise the same here). NOT CLAIMED, each refused: a pair not ";
    "coincident face for face, a moving mesh, the explicit MULES path, icAlpha, scAlpha and ";
    "alpha sub-cycling under a moving scale, and the device loop."]);
  note := Some (cat [
    "A COINCIDENT pair (createBaffles) gives each face one AMI partner, its twin, with weight 1 ";
    "(measured: all 13 faces `1(i)`, weight `1(1)`), so the coupling is the cyclic's ";
    "(coupleTranslationalPair) on areas the mask splits: coupled raw*max(tol, mask), ";
    "non-overlap raw*(1 - min(max(mask, tol), 1 - tol)), mask = min(1 - tol, max(tol, ";
    "scale*1)), tol 1e-10, the neighbour's scale a clone of the owner's evaluated on its own ";
    "faces. The rescale runs once per time index, lazily in OpenFOAM, and WHERE is part of ";
    "the answer: after alphaEqn.H forms phic on the old areas and before the pre-solve ";
    "(alphaEqnStep's geometryUpdate). Found on the way: MULES does not sync its limiter across ";
    "an AMI pair (interFoam_MULES); grad(U) on a symmetry patch is mirror-averaged ";
    "(interFoam_wedgeCoefficients); the host loop's clock started at 0 on every restart. ";
    "buildPatches' ACMI refusal stays for every other driver; the interFoam host opts out ";
    "with mirrorACMI. HOST ONLY SO FAR."]);
  selection_base := None;
  schema_for := None;
  other := [] |}.

Definition c_interFoam_cyclicAMI : component := {|
  name := "interFoam_cyclicAMI";
  of_symbol := "cyclicAMIFvPatch";
  of_file := "src/finiteVolume/fvMesh/fvPatches/constraint/cyclicAMI/cyclicAMIFvPatch.C";
  classification := "GPU_REQUIRED";
  status := "REIMPLEMENT";
  of_line := None;
  brae_driver := None;
  brae_existing := None;
  brae_reference := Some "src/finiteVolume/fvMesh/fvPatches/constraint/cyclicAMI/cyclic_ami_cpp.cu";
  brae_cuda := None;
  brae_target := None;
  validation := Some (cat [
    "tests/interfoam_ami_vs_openfoam.sh, real OpenFOAM on RAS/mixerVesselAMI as Allrun.pre ";
    "meshes it with the background block (50 50 100) coarsened to (22 22 44): 82,510 cells, ";
    "8,872 faces a side, the rotor's cellZone turned by solidBodyMotionSolver at omega -5; ";
    "kEpsilon, explicit MULES in two sub-cycles, momentum predictor, two outer correctors, ";
    "correctPhi, grad(U) cellLimited, limited corrected 0.33, a rotatingWallVelocity shaft. ";
    "STAGED IN BOTH CODES: p_rgh and pcorr PCG/DIC for GAMG (not ported across an AMI), every ";
    "solve pinned at 1e-13, fixed steps of 2e-4. MEASURED, 100 steps (0.1 rad): alpha 4.4e-13, ";
    "p_rgh 5.4e-14, U 3.5e-12, k 9.5e-14, epsilon 1.2e-13, nut 2.1e-12, the flux across the ";
    "pair 1.3e-11 of its largest, the moved points bitwise; all 200 p_rgh, 600 U, 100 k, 100 ";
    "epsilon and 101 pcorr counts OpenFOAM's. At the case's own tolerances U 3.9e-07 and 14 of ";
    "200 p_rgh counts apart -- where two Krylov solvers stopped. CONTROL: the rotor held still, ";
    "U 1.1e-01. BROKEN ONCE EACH (U after 100 steps): the AMI not ";
    "recomputed after the move, refused by name; delta without the neighbour's interpolated half ";
    "9.7e-03; no non-orthogonal correction on coupled faces 4.0e-02; ddtCorr live on the ";
    "cyclicAMI 8.7e-03; MULES synced across it 1.4e-04; cellLimited's coupled range from the ";
    "stored value 1.3e-03; grad(U) unlimited 2.7e-01; rotatingWallVelocity's omega flipped ";
    "1.2e-03. NOT DISCRIMINATED: the segregated solve's coupled source added and taken back ";
    "(round-off), kEpsilon's V0 and absolute divU under a rigid rotation. NOT CLAIMED, refused by name: ";
    "GAMG across the pair, a transform, a periodic AMI, lowWeightCorrection, requireMatch ";
    "false, any AMI keyword not read, a momentum predictor or a cellLimited grad(U) across a ";
    "cyclic or cyclicACMI (ungated there), and the device loop."]);
  note := Some (cat [
    "THE COUPLING IS A STENCIL: FvPatch carries amiOffsets/amiNbrFaces/amiNbrCells/amiWeights, and ";
    "every operator reads the neighbour through patchNeighbourValue -- the cell across a cyclic, the ";
    "AMI's weighted sum (weightedSum, multiplyWeightedOp: zero, then += w*value slot by slot) across ";
    "a cyclicAMI; nbrFaceCells is empty there. The owner side reads the AMI's src addressing, the ";
    "other its tgt addressing (interpolateUntransformed). Geometry, cyclicAMIFvPatch.C: w = ";
    "|dn|/(|d| + |dn|) with dn the AMI interpolate of the neighbour's nf & (Cf - Cn), delta = (Cf - ";
    "Cn) - interpolate(neighbour's Cf - Cn), and basicFvGeometryScheme's coupled deltaCoeffs, ";
    "nonOrthDeltaCoeffs and correction vectors from it. After every mesh move the AMI is recomputed ";
    "and both patches coupled again (initMovePoints marks it stale; the next AMI() resets it). ";
    "PORTED WITH IT, each found by the gate: the laplacian's non-orthogonal correction on coupled ";
    "faces (fvm::laplacianCorrFluxCoupled, into the source and the pressure flux); ";
    "fvMatrix::solveSegregated's coupled source (the vector bc*pnf added, each component's ";
    "interface taken back); cellLimitedGrad's coupled range from patchNeighbourField; ddtCorr's ";
    "coefficient zeroed on cyclicAMI; MULES left unsynced across it (syncTools does not reach an ";
    "AMI). HOST ONLY SO FAR."]);
  selection_base := None;
  schema_for := None;
  other := [] |}.

Definition c_interFoam_faceAreaWeightAMI : component := {|
  name := "interFoam_faceAreaWeightAMI";
  of_symbol := "faceAreaWeightAMI";
  of_file := "src/meshTools/AMIInterpolation/AMIInterpolation/faceAreaWeightAMI/faceAreaWeightAMI.C";
  classification := "HOST_ONLY";
  status := "REIMPLEMENT";
  of_line := None;
  brae_driver := None;
  brae_existing := None;
  brae_reference := Some "src/meshTools/AMIInterpolation/faceAreaWeightAMI/face_area_weight_ami_cpp.cu";
  brae_cuda := None;
  brae_target := None;
  validation := Some (cat [
    "tests/test_face_area_weight_ami.cu, run by tests/interfoam_ami_vs_openfoam.sh against the ";
    "srcAddress/srcWeights/srcWeightsSum and tgt* OpenFOAM's own cyclicAMI holds after each of ";
    "three steps of 2e-4 (a coded function object prints them): every partner set of all 8,872 ";
    "faces a side OpenFOAM's, weights and sums 2.5e-14 and 4.3e-14, from OpenFOAM's points and ";
    "from brae's own motion alike. CONTROL: OpenFOAM leaves 43 to 47 source faces a step less ";
    "than 99% covered, which the test asserts -- an all-pairs search covers them in full, and ";
    "BROKEN THAT WAY 47 source and 49 target partner sets differ, weight sums 3.8e-02 apart ";
    "(and in the interFoam gate U 6.0e-05 after 100 steps). Also red: the weights normalised ";
    "by the face area rather than their sum, 1.0e-01, and the interFoam run non-finite by ";
    "step 6."]);
  note := Some (cat [
    "THE WALK IS THE ANSWER, not an implementation detail: OpenFOAM reaches a target face only ";
    "through the neighbours of a face it has already kept, so a partner can be missed -- one step ";
    "in, face 2354 gets two partners covering 96.4% of it and its weights are normalised by that. ";
    "Transcribed: the walk from source 0 against target 0, PrimitivePatch's faceFaces order, the ";
    "89-degree neighbour filter, LIFO processing, the seeds setNextFaces leaves (first overlap ";
    "chosen, last overlap stored), the octree's nearest face found by brute force over ";
    "face::nearestPoint's distance, restartUncoveredSourceFace below 0.95; triangles by face::split, ";
    "areas by faceAreaIntersect (tri sliced by each target edge plane, target vertices 2, 1, 0), ";
    "area normalisation `project`. HOST_ONLY: recomputed once per mesh move from the points, a ";
    "geometric preprocessing step like the mesh motion itself (0.1 s at 8,872 faces a side)."]);
  selection_base := None;
  schema_for := None;
  other := [] |}.

Definition c_interFoam_codedPatchFunction1 : component := {|
  name := "interFoam_codedPatchFunction1";
  of_symbol := "CodedField";
  of_file := "src/meshTools/PatchFunction1/CodedField/CodedField.C";
  classification := "HOST_ONLY";
  status := "REIMPLEMENT";
  of_line := None;
  brae_driver := None;
  brae_existing := None;
  brae_reference := Some "src/meshTools/PatchFunction1/CodedField/codedPatchFunction1.cu";
  brae_cuda := None;
  brae_target := None;
  validation := Some (cat [
    "tests/interfoam_leakage_vs_openfoam.sh (the scale that opens damBreakLeakage's baffle: ";
    "the masks at the end are open on exactly the faces the code names, on both sides, and ";
    "the neighbour's clone left unevaluated puts U 2.7 out); tests/interfoam_refusals.sh ";
    "(codeInclude refused, a name the shim lacks -- this->time().timeIndex() -- refused ";
    "with the compiler's output)."]);
  note := Some (cat [
    "`code` pasted as the body of value(x) in a class that gives this->patch() and ";
    "this->time(), as codedPatchFunction1Template does, compiled with g++ against a SHIM ";
    "of OpenFOAM's scope: the coded Function1's scalar one plus Vector, Field, tmp, Zero, ";
    "forAll, the field-vector inner product, a polyPatch with name/size/faceCentres and a ";
    "Time with value/timeOutputValue. Not timeIndex(): OpenFOAM continues it across a ";
    "restart from <start>/uniform/time, which brae does not read. The compile-and-load half ";
    "is shared with the coded Function1 (coded_library). HOST_ONLY: evaluated once per step ";
    "on the host, where the mask is formed."]);
  selection_base := None;
  schema_for := None;
  other := [] |}.

Definition c_interFoam_porousBafflePressure : component := {|
  name := "interFoam_porousBafflePressure";
  of_symbol := "porousBafflePressureFvPatchField";
  of_file := (cat [
    "src/TurbulenceModels/turbulenceModels/derivedFvPatchFields/porousBafflePressure/";
    "porousBafflePressureFvPatchField.C"]);
  classification := "GPU_REQUIRED";
  status := "REIMPLEMENT";
  of_line := None;
  brae_driver := None;
  brae_existing := None;
  brae_reference := Some "src/finiteVolume/fields/fv_patch_field.cuh";
  brae_cuda := None;
  brae_target := None;
  validation := Some (cat [
    "tests/interfoam_baffle_vs_openfoam.sh, profiles `porous` (RAS/damBreakPorousBaffle as ";
    "createBaffles leaves it, 20 steps) and `porousWet` (the free surface staged across the ";
    "baffle, 60 steps, p_rgh solves pinned at 1e-13). MEASURED: porous alpha 7.8e-15, p_rgh ";
    "8.0e-15, U 9.9e-13, the jump 1.6e-12 of the one OpenFOAM writes, the pair's own p_rgh ";
    "2.8e-13 on all 26 faces, every iteration count OpenFOAM's; porousWet alpha 6.1e-14, ";
    "p_rgh 3.0e-13, U 1.1e-12, the jump -- NON-uniform there, rho_p varies along the baffle ";
    "-- 5.4e-12. THE CONTROL: OpenFOAM's plain-cyclic answer, 2.0% and 4.5% of U. BROKEN ONCE ";
    "EACH (U porous, porousWet): the jump left out of the solve's first Amul 2.2e-02, ";
    "1.9e-02; out of the flux 2.8e+03, 4.1e-01; not negated on the other side 1.2e-01, ";
    "8.7e-02; built from phiHbyA 1.4e-03, 2.4e-03; uniformJump ignored 5.9e-02, 6.7e-02; ";
    "without rho_p NOTHING, 4.5e-02 (air alone reaches the shipped baffle, rho_p = 1); nu_p ";
    "= nu(alpha_p) NOTHING, 1.05e-09. tests/test_porous_baffle_pressure.cu holds the ";
    "per-face jump, reversed flow and sign(0) against OpenFOAM's text. NOT CLAIMED, refused ";
    "by name: `relax`, `minJump`, a D or I that is not `constant`, a mass flux `phi`, a ";
    "`jump` that is neither uniform nor a list; the device loop."]);
  note := Some (cat [
    "A fixedJump cyclic. Un = phi_p/magSf (gAverage under `uniformJump`); jump = -sign(Un)*(D*nu_p ";
    "+ I*0.5*|Un|)*|Un|*length, times rho_p because p_rgh has the dimensions of pressure. Only the ";
    "OWNER side computes it (fixedJump::setJump is a no-op on the other, whose jump() returns the ";
    "owner's), at the pressure ASSEMBLY -- fvMatrix's constructor runs updateCoeffs -- from phi as ";
    "the last corrector left it. It enters the solve through the interface update and ONLY when ";
    "the operand is the field itself (jumpCyclicFvPatchFields.C, `only apply jump to original ";
    "field`): in PCG the one Amul that builds the initial residual and the normalisation; and the ";
    "flux through patchNeighbourField. WHAT THE GATE FOUND: porousWet at U 1.05e-09 where ";
    "cyclicWet held 3e-12, and brae against itself under a round-off perturbation at 1e-13, so a ";
    "difference and not sensitivity. The jump agreed to 5e-13 after 5 steps and drifted as the ";
    "interface smeared over the baffle's faces. Refitting OpenFOAM's OWN written jump from its ";
    "own written alpha was exact to 1e-15 except on the face whose two cells held alpha 0.679 ";
    "and 0.520: 2.8e-08 out with nu_p = nu(alpha_p), 5e-16 with the two cells' nu interpolated. ";
    "CAUSE: v2412's `localConsistency` (default on, etc/controlDict:225) -- every GeometricField ";
    "operation ends in correctLocalBoundaryConditions() (GeometricFieldFunctionsM.C), which ";
    "re-evaluates a constraint patch of the RESULT: coupledFvPatchField::evaluateLocal is ";
    "evaluate(). A derived field's cyclic patch value is the interpolation of its own CELLS, not ";
    "the operation applied to the operands' patch values. Same number for rho, linear in alpha; ";
    "not for nu. The mixture's coupled patch values now come from the cells. HOST ONLY SO FAR."]);
  selection_base := None;
  schema_for := None;
  other := [] |}.

Definition c_interFoam_permeableWall : component := {|
  name := "interFoam_permeableWall";
  of_symbol := "prghPermeableAlphaTotalPressureFvPatchScalarField";
  of_file := (cat [
    "src/finiteVolume/fields/fvPatchFields/derived/prghPermeableAlphaTotalPressure/";
    "prghPermeableAlphaTotalPressureFvPatchScalarField.C"]);
  classification := "GPU_REQUIRED";
  status := "REIMPLEMENT";
  of_line := None;
  brae_driver := None;
  brae_existing := None;
  brae_reference := Some "src/finiteVolume/fields/fv_patch_field.cuh";
  brae_cuda := None;
  brae_target := None;
  validation := Some (cat [
    "tests/interfoam_permeable_vs_openfoam.sh, real OpenFOAM on laminar/damBreakPermeable (kEpsilon ";
    "despite the directory; 2268 cells), fixed steps of 1e-3, two profiles. `shipped`, 20 steps, ";
    "the case as it is: the wall is dry throughout. `wetWall`, 140 steps, the setFields box ";
    "mirrored against the wall: 27 of its 50 faces wet at the start, 25 at the end. MEASURED: ";
    "shipped alpha 8.5e-15, p_rgh 8.0e-15, U 2.7e-15, k 2.6e-15, epsilon 6.6e-15, nut 3.7e-15; ";
    "wetWall alpha 4.0e-13, p_rgh 5.0e-14, U 1.4e-14, all 420 p_rgh counts OpenFOAM's. The ";
    "wall's U and p_rgh face by face against the values OpenFOAM writes (shipped: 40 moving ";
    "faces, 5.3e-16; wetWall: OpenFOAM writes uniform 0 and brae is held to exactly 0). THE ";
    "CONTROL: OpenFOAM with the wall a noSlip and fixedFluxPressure, 99% of U on wetWall. BROKEN ";
    "ONCE EACH (U shipped, U wetWall): hydrostatic term out 1.0, 1.0; pressure open on every ";
    "face nothing, 17; velocity ignoring alpha nothing, 1.3e-01; threshold 0.5 for alphaMin ";
    "0.01 nothing, 2.2e-02; U's patches updated in every corrector 8.6e-08, 3.4e-06; the ";
    "dynamic term out 8.6e-08, 3.4e-06; the lag applied to pressureInletOutletVelocity too ";
    "nothing, 3.9e-02. shipped cannot see four of the seven, which is why wetWall exists. ";
    "tests/test_permeable_wall_conditions.cu holds the per-face logic against OpenFOAM's text, ";
    "the `alpha none` half and strict pos included, with an inletOutlet as the control. NOT ";
    "ASSERTED: epsilon's solver RESIDUALS (counts are) -- 1.8e-06 per step apart with the ";
    "field at 7e-15, and 0.0 apart with the wall closed: brae's epsilonWallFunction is a ";
    "zeroGradient whose rows setValues writes, OpenFOAM's derives from fixedValue, and on a ";
    "wall that carries flux the two normalise differently. NOT DISCRIMINATED: whether the ";
    "phase fraction reaches the patches before or after alpha's own boundary evaluation. NOT ";
    "CLAIMED: wetWall beyond 140 steps; a mass flux `phi`, a `p` that is not uniform, an ";
    "`alpha` naming another field (each refused by name, tests/interfoam_refusals.sh); the ";
    "device loop (refused by name)."]);
  note := Some (cat [
    "TWO CONDITIONS on one wall. permeableAlphaPressureInletOutletVelocity ";
    "(pressurePermeableAlphaInletOutletVelocityFvPatchVectorField.C:127-178) is a mixed condition: ";
    "refValue (phi/magSf)*n, valueFraction neg(phi), and with an alpha valueFraction = ";
    "max(pos(alpha_p - alphaMin), valueFraction) with refValue 0 where that is 1 -- closed where ";
    "wet, closed to inflow, zeroGradient where dry and leaving. prghPermeableAlphaTotalPressure ";
    "(.C:151-243) is driven by constrainPressure like fixedFluxPressure: refValue p0 - ";
    "0.5*rho*neg(phi)*|U_b|^2 - rho*gh, refGrad snGradp, valueFraction 1 - pos(alpha_p - alphaMin). ";
    "pos is STRICT in v2412. WHAT THE GATE FOUND: fvMatrix's constructor runs ";
    "U.boundaryFieldRef().updateCoeffs() at the momentum assembly, which sets each patch's updated_ ";
    "flag; with momentumPredictor off nothing evaluates U until the FIRST corrector's ";
    "U.correctBoundaryConditions(), where mixed::evaluate sees the flag and skips updateCoeffs -- so ";
    "that one evaluation uses the ASSEMBLY-time valueFraction, not the new flux's. brae pushed the ";
    "new flux to every U patch in every corrector: U 8.6e-08 on shipped, 3.4e-06 on wetWall. Its ";
    "whole effect runs through the dynamic term -- COUNTED: the term is non-zero 51 times in shipped ";
    "and 23 in wetWall, and never with the lag removed, since an updated patch holds U_b = 0 ";
    "wherever phi < 0. PER CLASS: a condition whose updateCoeffs ends in evaluate() clears the flag ";
    "itself (pressureInletOutletVelocity; also fixedNormalInletOutletVelocity and ";
    "fluxCorrectedVelocity, not ported) and is exempt -- applying the lag to it broke wetWall at ";
    "3.9e-02. WHY 140 STEPS: at step 142 a wet face goes dry, where phi was 0 or one ulp of ";
    "round-off; neg(phi) then reads the SIGN of that round-off (brae -3.4e-21), and UEqn.A() in cell ";
    "1792 is 2.018795e+04 in OpenFOAM against 2.019174e+04. The condition is ill-conditioned there ";
    "in OpenFOAM itself. operator=(pvf) is not ported: interFoam's one assignment to U is followed ";
    "at once by correctBoundaryConditions (pEqn.H:58-59). HOST ONLY SO FAR."]);
  selection_base := None;
  schema_for := None;
  other := [] |}.

Definition c_interFoam_waveModel : component := {|
  name := "interFoam_waveModel";
  of_symbol := "waveModel";
  of_file := "src/waveModels/waveModel/waveModel.C";
  classification := "BOUNDARY_CONDITION";
  status := "REIMPLEMENT";
  of_line := None;
  brae_driver := None;
  brae_existing := None;
  brae_reference := Some "src/waveModels/waveModel/wave_model_cpp.cuh";
  brae_cuda := None;
  brae_target := Some "";
  validation := Some (cat [
    "tests/interfoam_waves_vs_openfoam.sh, real OpenFOAM run SERIALLY, fixed steps, on ALL NINE ";
    "laminar/waves tutorials that carry a wave inlet -- one per generation model -- each on a ";
    "coarsened mesh at full amplitude and against its own no-wave control (the generating patch given ";
    "the absorbing model). MEASURED, worst of the eight beyond stokesI: alpha 1.6e-10, p_rgh 1.6e-10, ";
    "U 1.4e-08 (McCowan, the one with active absorption at a solitary inlet; the other seven are at ";
    "or under 4.9e-11, 5.6e-11 and 3.8e-09), every p_rgh iteration count OpenFOAM's (40 or 60 of them ";
    "per case). WHAT THE MODEL ITSELF COMPUTES has two direct oracles. Every constant in the block ";
    "OpenFOAM prints when it creates the model is compared label for label -- wave length, StokesV's ";
    "Lambda, cnoidal's m, a solitary wave's x0 -- and agrees to the log's 15 digits (worst 2.3e-15). ";
    "And the inlet's velocity is compared face by face: StokesV 1.2e-13, cnoidal 4.5e-14, ";
    "irregularMultiDirectional 1.1e-15, Grimshaw 6.9e-17. A 1 PER CENT ERROR IN StokesV's SMALLEST ";
    "COEFFICIENT, the fifth-order A55, moves that arm to 3.9e-07 and the fields to 2.2e-06; in B55, ";
    "alpha 3.2e-05. Three of the nine are 3-D with slip side walls (Grimshaw, McCowan, ";
    "irregularMultiDirection), which is the first time this solver's host path has been held against ";
    "OpenFOAM on a 3-D mesh. ON stokesI, where the conditions themselves were ported, FIVE PROFILES: ";
    "`shipped` (the tutorial's own 500 x 75 mesh and waveProperties, ten steps of its deltaT 0.01), ";
    "`trough` and `crest` (100 x 75, rampTime 0.05 so the wave is at full height from step five; the ";
    "default phase puts the level BELOW the reference depth with the inlet flowing OUT, wavePhase ";
    "pi/2 puts it ABOVE with inflow -- the two halves of waveModel::setPaddlePropeties), `tight` ";
    "(trough with both codes' p_rgh solves at 1e-13) and `mompred` (trough with momentumPredictor ";
    "yes). BESIDE THE FIELDS it compares four things only these conditions have an oracle for: the ";
    "model's derived constants against the log's `Reference water depth` and `Wave length` ";
    "(0.600000000000001 and 6.95175828555869, both patches, to the log's 15 digits); the ORDER of the ";
    "updates against the log's `Updating <model> wave model for patch <p>` lines, update for update ";
    "(100 of 100: per step three for the inlet, a fourth in UEqn, then the outlet); and the patch ";
    "VALUES waveAlpha and waveVelocity last assigned, face by face, from the time directory (alpha ";
    "4.4e-16). MEASURED at the case's own tolerances: alpha 1.4e-10, p_rgh 6.2e-10, U 1.8e-08 at full ";
    "amplitude and 1.2e-07 on `shipped` (|U| 4.7e-03 there), every p_rgh iteration count OpenFOAM's; ";
    "under `tight` alpha 7.7e-12, p_rgh 7.7e-12, U 6.3e-10 -- p_rgh's is alpha's times rho*g*h. ";
    "CONTROL ON THE ORACLE: OpenFOAM's own tank with waveHeight 0 is 100% of U and 0.73 of alpha ";
    "away. BROKEN ONCE EACH, with switches that are not in the tree: every sub-cycle evaluated at the ";
    "step's time 1.0e-04 of alpha; no re-update in UEqn 9.5e-03 and the order arm fails; the active ";
    "absorption left out 2.1e-01. THE NUMBERS ABOVE WERE MEASURED WITH ONE STAGING CHANGE THAT IS NOT ";
    "ABOUT WAVES, since removed (interFoam_GAMG): the tutorial solves p_rghFinal with GAMG, which ";
    "brae's interFoam then substituted under a notice, so the staging named PCG with DIC. AS ";
    "SHIPPED, on both loops, the fourteen profiles now read alpha 2.9e-11, p_rgh 5.2e-11 and U ";
    "9.3e-09 at worst. WHAT THAT SUBSTITUTION WAS WORTH WAS MEASURED: OpenFOAM against ";
    "ITSELF on `trough`, with nothing changed but p_rghFinal's solver (GAMG or PCG, the same DIC, the ";
    "same 1e-7), differs by 1.8e-02 of alpha and 9.6% of U after twenty steps; brae with its ";
    "substitute is 2.3e-02 and 19% from OpenFOAM-with-GAMG. The tank's active absorption feeds the ";
    "water level back into the velocity, so where the last pressure solve stops is part of the answer ";
    "at that tolerance, and agreeing with these tutorials AS SHIPPED needs OpenFOAM's GAMG itself. ";
    "tests/interfoam_refusals.sh holds fifteen wave and named-flux arms. WHAT IT DOES NOT CLAIM: ";
    "nPaddle above 1 and a non-zero waveAngle (every tutorial names one paddle and angle 0, the 3-D ";
    "ones included; only irregularMultiDirectional's per-component directions put a wave at an ";
    "angle), a patch that is not axis-aligned (the local frame's tensor is diagonal here, so ";
    "OpenFOAM's pairing of Rgl and Rlg cannot be told from its transpose), a restart, and two timings ";
    "no fixture could see -- below. THE DEVICE LOOP RUNS EVERY PROFILE TOO, at the host's bounds: ";
    "worst alpha 1.3e-10, p_rgh 6.3e-10, U 1.8e-08, every iteration count and every model update in ";
    "OpenFOAM's order, the two solitary cases with their `phi rhoPhi;` top included. A SIXTH stokesI ";
    "PROFILE, `mulescorr`, exists for the update's second call site: under MULESCorr alpha's first ";
    "updateCoeffs of a sub-cycle is the pre-solve's matrix construction, and updating after the pre- ";
    "solve instead reads alpha 8.9e-07 from OpenFOAM against 1.1e-10 -- so THAT position is gated, on ";
    "both paths, with all 60 alpha sweep counts OpenFOAM's."]);
  note := Some (cat [
    "waveAlpha AND waveVelocity ARE fixedValue PATCHES WHOSE VALUE A MODEL SUPPLIES, one model per ";
    "patch shared by both (waveModel::lookupOrCreate), updated ONCE PER TIME INDEX (waveModel.C:354). ";
    "The model reads the solver back -- alpha's patchInternalField for the active absorption's water ";
    "level, and in shallowWaterAbsorption U's -- so WHEN it updates is part of the answer, and the ";
    "time index is not the time step: Time::subCycle sets it to (n-1)*nSubCycles and ++ moves it, so ";
    "every alpha sub-cycle is a new index at the SUB-CYCLE's time, and after endSubCycle the index is ";
    "n again, which is a different number, so U's first updateCoeffs of the step (UEqn's fvMatrix ";
    "constructor) updates the model a fourth time from the alpha the sub-cycles left. OpenFOAM's log ";
    "prints a line per update, which made the order an oracle rather than an argument. The models are ";
    "transcribed in src/waveModels (StokesI, whose wave length is 100 fixed-point passes of the ";
    "dispersion relation with no tolerance, and shallowWaterAbsorption, which zeroes the GLOBAL x and ";
    "y of U's patchInternalField and then rotates the result as though it were local). Nine tutorials ";
    "name waveAlpha; each names a DIFFERENT generation model (StokesI, StokesII, StokesV, cnoidal, ";
    "Boussinesq, Grimshaw, McCowan, streamFunction, irregularMultiDirectional) over the same solver ";
    "settings. ALL TEN MODELS ARE PORTED, one file each under src/waveModels as OpenFOAM lays them ";
    "out, on OpenFOAM's own class hierarchy (regularWaveModel IS an irregularWaveModel there, which ";
    "is where the ramp lives). FOUR THINGS IN THEM LOOK LIKE SLIPS AND ARE TRANSCRIBED, because the ";
    "oracle is OpenFOAM: StokesV solves the fifth-order dispersion relation for the wave number AND ";
    "lambda, keeps lambda and DROPS the wave number, so its wave length stays StokesI's linear one; a ";
    "solitary wave's x0 is the patch's minimum GLOBAL x, taken in the constructor while the wave ";
    "angle is still 0, and subtracted from the paddle's LOCAL x; cnoidal finds its m by a scan in ";
    "steps of 1e-4 (so m is a four-digit number) and re-integrates the wave's mean square, 1000 ";
    "terms, for every face at every update; McCowan's two Newton solves stop at an ABSOLUTE 1e-5. ";
    "StokesV's twenty-two coefficient functions -- rational functions of sinh and cosh with integer ";
    "constants up to 324000 -- were produced from OpenFOAM's source text by a rewrite of its function ";
    "calls rather than retyped, since the only thing that can go wrong in them is a digit. THE SHARED ";
    "PATCH-FIELD FACTORY STILL REFUSES BOTH TYPE NAMES, on purpose: buildInterFields rewrites them to ";
    "fixedValue on its own copy of the file data, so no other solver can build a wave inlet frozen at ";
    "the file's `value`. THE FIXTURES FOUND THREE DEFECTS THAT ARE NOT ABOUT WAVES. The first two are ";
    "invisible on a wall that does not move, which is every fixedFluxPressure patch interFoam had ";
    "met. (1) constrainPressure's gradient is (phiHbyA_b - (Sf_b & U_b))/(magSf_b*rAUf_b) ";
    "(constrainPressure.C:62-72) and brae subtracted the stored phi_b. With phi_b the corrector hands ";
    "back exactly the flux it was given, so an inlet whose flux starts at zero never opens: with the ";
    "wave model's own patch values exact to 4e-16, U was 260% out and OpenFOAM's answer with the wave ";
    "switched OFF was closer to OpenFOAM's (64%) than brae was. Fixed on the host and in the device ";
    "hook: 260% -> 1.8e-08. (2) The momentum predictor's explicit fvc::snGrad(p_rgh) reads, on a ";
    "fixedFluxPressure patch, the gradient the LAST constrainPressure stored; brae's drivers zeroed ";
    "it before every predictor. Zero is OpenFOAM's construction value and right before the first ";
    "pressure equation only. Measured on `mompred`: alpha 5.1e-04 and U 5.4% -> 1.4e-11 and 1.0e-09; ";
    "Ux and Uz take OpenFOAM's sweep counts, 20 of 20 each. (3) A FLUX-CONDITIONAL CONDITION LOOKS ";
    "ITS FLUX UP BY NAME -- the `phi` entry, default phi -- and brae's field reader kept no such ";
    "entry: every condition was told phi. solitaryGrimshaw, solitaryMcCowan and mangroveInteraction ";
    "write `phi rhoPhi;` on their totalPressure top. rhoPhi is the ALPHA step's flux, built from the ";
    "phi the time step started on, so it is one pressure corrector behind and exactly zero at step ";
    "one of a case at rest, and the top's inflow test decides differently. Both solitary cases were ";
    "wrong from STEP ONE's p_rgh residual with their wave models exact to 7e-17: U 2.4e-05 and ";
    "3.0e-05 out after thirty steps, 8.0e-10 and 1.4e-08 with the named flux. It was confirmed before ";
    "it was fixed, by running OpenFOAM ITSELF with `phi phi;`: brae agreed with that run to 9.6e-10. ";
    "The reader now keeps the entry, every patch field carries its flux name, the host hands phi or ";
    "rhoPhi accordingly and refuses any other name; the turbulence closure, which hands over phi ";
    "only, refuses a k or epsilon patch that names anything else. Other solvers still ignore the ";
    "entry -- they carry one flux -- and that is recorded here rather than claimed. TWO TIMINGS ARE ";
    "TRANSCRIBED AND NOT GATED, and the header says so. The update opens MULES::explicitSolve ";
    "(MULESTemplates.C:168), so it sits between the high-order flux, built on the value the last ";
    "update left, and the limiter; moving it to AFTER the solve changed no digit on any fixture up to ";
    "the tutorial's own mesh at Co 1.9, because the explicit limiter never reduces lambda on an ";
    "uncoupled boundary face (MULESTemplates.C:533-564 treats wedge and coupled patches only) and the ";
    "new value reaches only the adjacent cell's extrema. And the outlet model is CREATED at U's first ";
    "updateCoeffs, so a case naming no reference depth takes it from alpha AFTER the first step's ";
    "advance; a case that starts from rest has the same alpha there on both sides of that step. A ";
    "FIXTURE THAT WAS DROPPED: ten steps at the tutorial's maxDeltaT 0.05 on its own mesh agreed ";
    "(alpha 1.2e-09), but at Co 1.9 OpenFOAM's own STILL tank carries half the velocity of the one ";
    "with the wave, so it gated noise. THE MODELS STAY ON THE HOST ON BOTH PATHS, as every other ";
    "boundary condition of this solver does: the device loop reaches them through per-patch hooks. ";
    "What the device port added is WHERE it calls them: the alpha corrector takes a hook between its ";
    "high-order flux and its limiter (DeviceAlphaBoundary::updateModelled), rebuilds the bounded ";
    "flux's boundary on the new patch values as upwind's phi_b*psi_b, and lets the limiter see a ";
    "boundary correction that is no longer zero -- the device's explicit limiter already kept lambda ";
    "at 1 on uncoupled faces, as OpenFOAM's does; the alpha step counts sub-cycles for the model's ";
    "clock; and the velocity hook updates the model at the step's own clock before UEqn. ONE CASE ";
    "READS VERY DIFFERENTLY ON THE TWO PATHS AND IS NOT A DEFECT: on solitaryMcCowan the host is ";
    "1.6e-10 of alpha from OpenFOAM and the device 2.3e-12; with every p_rgh solve tightened on all ";
    "three codes they read 1.9e-12 and 2.0e-12, so the host's figure is where that case's relTol 0.1 ";
    "left it. THE NAMED FLUX HAD TWO MORE DEFECTS BEHIND IT, found by giving the damBreak gate a ";
    "`rhophi` profile that names rhoPhi on U, p_rgh AND alpha rather than letting that combination ";
    "merely run. Both are invisible to a condition naming phi, because nothing moves phi between the ";
    "end of one step's correctors and the next step's UEqn, and the alpha step moves rhoPhi exactly ";
    "there. (a) brae's conditions were last TOLD their flux at the end of the previous step, where ";
    "OpenFOAM's look it up at every updateCoeffs: p_rgh alone 4.7e-10 of alpha -> 1.2e-12 with a push ";
    "after the alpha step. (b) pressureInletOutletVelocity::updateCoeffs ends in ";
    "directionMixed::evaluate(), which REWRITES THE PATCH VALUE and clears the updated flag, so ";
    "UEqn's fvMatrix constructor re-evaluates the atmosphere's velocity from the new flux; brae ";
    "refreshed the coefficients and kept the value: U alone 2.5e-09 -> 8.4e-11 with the push -> ";
    "1.2e-12 with the value re-evaluated. On the device a p_rgh or alpha condition naming rhoPhi is ";
    "handed it (the hooks push after the alpha step already); a VELOCITY condition naming it is ";
    "refused, because that one switch runs on the device and reads phi."]);
  selection_base := None;
  schema_for := None;
  other := [] |}.

Definition c_interFoam_GAMG : component := {|
  name := "interFoam_GAMG";
  of_symbol := "GAMGSolver";
  of_file := "src/OpenFOAM/matrices/lduMatrix/solvers/GAMG/GAMGSolver.C";
  classification := "LINEAR_SOLVER";
  status := "REIMPLEMENT";
  of_line := None;
  brae_driver := None;
  brae_existing := None;
  brae_reference := Some "src/matrices/lduMatrix/solvers/GAMG/gamg_solver_cpp.cuh";
  brae_cuda := None;
  brae_target := Some "src/matrices/lduMatrix/solvers/GAMG/device_gamg_solver.cu";
  validation := Some (cat [
    "tests/interfoam_gamg_vs_openfoam.sh, real OpenFOAM run SERIALLY for fixed steps with ";
    "`DebugSwitches { GAMGAgglomeration 1; GAMG 1; }`, which the script proves inert on every ";
    "run (alpha, p_rgh and U byte-identical with and without). The switches make OpenFOAM print ";
    "its hierarchy level by level -- cells, faces per cell, and lduAddressing::band()'s profile, ";
    "which moves when the NUMBERING does -- and the coarsest-level solve of every V-cycle. ";
    "NINETEEN PROFILES on the laminar/waves tutorials, whose p_rghFinal names GAMG with a DIC ";
    "smoother: stokesI as shipped on three meshes; `deep` (1e-12, 125 V-cycles); the other three ";
    "smoothers; every sweep control off its default with pre-smoothing on; nCellsInCoarsestLevel ";
    "400; scaleCorrection no; both entries GAMG with different nCellsInCoarsestLevel; `square` ";
    "(dx = dz) and `cubes` (3-D, 0.05 cubes), where every face has one area; and the seven other ";
    "tutorials that name GAMG, as shipped. MEASURED: every level of every hierarchy is OpenFOAM's ";
    "(5 to 12 levels); every p_rgh iteration count (20 to 60 per profile) and every coarsest-level ";
    "count (3 to 125) is OpenFOAM's; alpha 4.0e-11, p_rgh 1.9e-10, U 1.9e-09 at worst. WHAT IT ";
    "REPLACED, PBiCGStab under a notice: alpha 2.3e-02 and U 19% on the same fixture. CONTROL ON ";
    "THE ORACLE: OpenFOAM with PCG against OpenFOAM with GAMG, alpha 1.9e-04 to 8.4e-02, never ";
    "under 1e5 times brae's distance. EVERY PORT DECISION BROKEN ONCE with switches not in the ";
    "tree: no alternation of the pairing direction 1.2e-03 of alpha; coarse faces sorted by ";
    "neighbour 1.1e-07 and the band profile moves; the rejected last level kept, or the coarsest ";
    "level solved to 1e-12, and NO FIELD MOVES -- only the coarsest-solve log arm holds those ";
    "two; prolongation that adds 2.8e-04; post-sweeps without the level multiplier 9.7e-05; the ";
    "hierarchy built from the entry in use rather than the first 8.5e-09 and 10 levels for 8. ";
    "THE GAMG PRECONDITIONER (`solver PCG; preconditioner { preconditioner GAMG; ... }`, six of ";
    "the seven solid-body tutorials' p_rghFinal) has two profiles of its own, the tutorials' form ";
    "(DICGaussSeidel, nPreSweeps 2, nVcycles 2) and one whose sub-dictionary tolerance differs ";
    "from the PCG's: 40 of 40 p_rgh counts, alpha 4.9e-12 and 3.4e-12, every coarsest count ";
    "OpenFOAM's; broken once each -- one V-cycle for two 1.5e-02, no residual between cycles ";
    "1.4e-02, the application not started from zero 7.1e-05, the coarsest at the PCG's ";
    "tolerance 0 of 9 coarsest counts. And the seven tanks of interfoam_moving_vs_openfoam.sh ";
    "run with it as shipped. ";
    "TWO DECISIONS READ NOTHING ON THE SHIPPED FIXTURE and have fixtures of their own: the ";
    "(1, 1.01, 1.02) weight perturbation is idle on 2 x 0.1 cells (identical to the last digit) ";
    "and worth 4.5e-03 on `square`, 2.0e-06 on `cubes`, 4.9e-06 with y and z swapped; scaling the ";
    "level above the coarsest moves the 11th digit with a 24-cell level there and 5.0e-05 of alpha ";
    "on `coarsest`. tests/interfoam_refusals.sh holds fifteen GAMG arms and three for the device. WHAT IT ";
    "DOES NOT CLAIM: an ";
    "asymmetric matrix, any refused control, and a parallel run (the smoothers and the hierarchy ";
    "are per-processor there). THE DEVICE LOOP RUNS THE SIXTEEN DIC PROFILES TOO, against ";
    "OpenFOAM directly: every p_rgh and every coarsest-level iteration count OpenFOAM's; alpha ";
    "2.9e-11, p_rgh 5.2e-11, U 1.6e-09 at worst (1.5e-08 on `deep`), 4.5e-11 of alpha from the ";
    "host. WHAT IT REPLACED there, Jacobi-BiCGStab under a notice: alpha 2.3e-02, U 45%. BROKEN ";
    "ONCE EACH ON THE DEVICE: coarse-level DIC diagonals left from the first solve 1.8e-03; ";
    "prolongation that adds 7.3e-03; the level above the coarsest scaled 5.0e-05 on `coarsest`; ";
    "the coarsest MATRIX left from the first solve moves no field and reads 2.3e-02 on the ";
    "coarsest-solve arm. The device's GAMG has the DIC smoother only and the driver REFUSES ";
    "the other three by name. WITH BOTH LOOPS ON THE TUTORIALS' OWN SOLVER the wave gate ";
    "(interfoam_waves_vs_openfoam.sh) dropped its PCG staging: fourteen profiles as shipped, ";
    "alpha 2.9e-11 where it read 1.6e-10, and its bounds came down with it."]);
  note := Some (cat [
    "ACROSS A cyclicAMI PAIR GAMG IS NOT PORTED, and the case runs PCG with DIC in its place, announced ";
    "(2026-10-01, the user's decision; inter_case_cpp.cu readSolve): RAS/mixerVesselAMI's `solver GAMG` ";
    "for p_rgh and pcorr. Gated in tests/interfoam_write_vs_openfoam.sh against OpenFOAM STAGED TO PCG ";
    "(4.3e-12); against OpenFOAM's own GAMG the same run is 1.2e-09 at pinned solves. The control leaves ";
    "the entry as read and the pair is refused by name. A port of cyclicAMIGAMGInterface was written and ";
    "parked unmerged (runs/parked/u4b_gamg_across_ami.patch; two steps of the tutorial 3.3e-12). ";
    "GAMG IS OpenFOAM'S, NOT A MULTIGRID: the hierarchy's numbering, the smoother's face order and ";
    "the stopping rule are all part of where a loose solve stops, and on the wave tanks that is part ";
    "of the answer -- the active absorption feeds the water level back into the inlet velocity, and ";
    "OpenFOAM against ITSELF with PCG in GAMG's place differs by 1.8e-02 of alpha after twenty steps. ";
    "THE HIERARCHY (pair_gamg_agglomeration_cpp.cuh): faceAreaPair weighs faces by ";
    "|Sf/sqrt(magSf) * (1, 1.01, 1.02)|, a perturbation against jagged pairings on axis-aligned ";
    "meshes; each pass pairs a cell with its heaviest unpaired neighbour, else joins the heaviest ";
    "neighbour's cluster; the sweep direction flips after EVERY pass through a STATIC flag, ";
    "including the pass continueAgglomerating() rejects, whose level is discarded whole; coarse ";
    "faces are numbered owner-major and within an owner by FIRST APPEARANCE in the fine face walk, ";
    "not by neighbour. It is a MeshObject: the first GAMG solve of the run builds it from ITS ";
    "entry's nCellsInCoarsestLevel and no later entry's is read. THE V-CYCLE (gamg_solver_cpp.cuh): ";
    "no pre-smoothing by default; restriction is summation; the coarsest level is solved by PCG ";
    "with DIC from zero to the GAMG's OWN tolerance and relTol, not directly; prolongation is ";
    "injection that OVERWRITES; the correction is scaled by (x.b)/(x.Ax) with a Jacobi step on the ";
    "remainder, for a symmetric matrix and NOT on the level above the coarsest; post-sweeps are ";
    "min(nPostSweeps + postSweepsLevelMultiplier*level, maxPostSweeps); the finest correction is ";
    "scaled against the residual and psi is smoothed nFinestSweeps times against the SOURCE. DIC ";
    "as a smoother is an iteration on the true residual. A FINDING THAT IS NOT THE SOLVER'S, from ";
    "`deep`: ten consecutive solves read 1.24e-05 on their initial residuals with alpha 6e-12 from ";
    "OpenFOAM, because one top-patch face's flux sits at 1e-14 and pressureInletOutletVelocity ";
    "branches on its sign; the branch changes U's diagonal under that face, hence rAU and the ";
    "p_rgh matrix's row sum on a patch whose value is the solution there, hence normFactor and ";
    "every residual divided by it -- without moving the solution. brae::gamg ";
    "(src/OpenFOAM/matrices/gamg.cu), which simpleFoam_cpp uses, is an earlier multigrid with a ";
    "sorted coarse numbering and a direct coarsest solve; it is not this and was left alone. ";
    "THE PRECONDITIONER (GAMGPreconditioner.C) is a GAMGSolver built on the PCG's own matrix with ";
    "the `preconditioner` SUB-DICTIONARY as its controls (lduMatrixPreconditioner.C, New) -- its ";
    "tolerance and relTol are the coarsest solve's, not the PCG's -- and each application runs ";
    "nVcycles (default 2) of the same V-cycle from w = 0, recomputing r - A*w between cycles. PCG ";
    "builds it only once the first residual is above tolerance. UNDER IT THE COARSEST LEVEL ";
    "USUALLY DOES NOTHING: its source is the PCG residual restricted over aggregates, which ";
    "cancels to ~1e-26, and a solve from zero normalised by sum|source| + 1e-20 reads an initial ";
    "residual below tolerance and takes no iteration -- six of eight on the gated fixture, in ";
    "OpenFOAM and in brae alike. The gate asserts the coarsest counts there and holds the ";
    "residuals, which are that cancellation read to its last digits, to 1e-3. ";
    "PCG.C's checkSingularity break is transcribed in the coarsest-level PCG and is ABSENT from ";
    "brae::pcg (it fires only on wApA/normFactor under 1e-300). ON THE DEVICE ";
    "(device_gamg_solver.cuh): the hierarchy is the host's own code, uploaded once; the coarse ";
    "matrices and the restriction are FIXED-ORDER GATHERS in the host's accumulation order (a ";
    "scatter with atomic adds is neither ordered nor reproducible); the smoother is DIC through ";
    "the level-scheduled DILU with lower aliased to upper, one schedule per level, its ";
    "diagonal recomputed at every solve; the scaling's two dot products and the residual norms ";
    "are device reductions; and THE COARSEST LEVEL IS SOLVED ON THE HOST by the host's own ";
    "PCG -- ten cells by default, a pair of short copies against dozens of launches and a ";
    "read-back per iteration. That is a finished state, not a deferred one."]);
  selection_base := None;
  schema_for := None;
  other := [] |}.

Definition c_interFoam_solidBodyMotion : component := {|
  name := "interFoam_solidBodyMotion";
  of_symbol := "dynamicMotionSolverFvMesh";
  of_file := "src/dynamicFvMesh/dynamicMotionSolverFvMesh/dynamicMotionSolverFvMesh.C";
  classification := "HOST_ONLY";
  status := "REIMPLEMENT";
  of_line := None;
  brae_driver := None;
  brae_existing := None;
  brae_reference := Some "src/dynamicFvMesh/dynamicMotionSolverFvMesh/dynamic_motion_solver_fv_mesh_cpp.cuh";
  brae_cuda := None;
  brae_target := Some "";
  validation := Some (cat [
    "tests/mesh_motion_vs_openfoam.sh: the moved polyMesh/points and the mesh flux meshPhi ";
    "against OpenFOAM's moveDynamicMesh, written per step at writePrecision 18, and V and C of the ";
    "moved mesh against postProcess's writeCellVolumes and writeCellCentres on those points. ";
    "SEVEN PROFILES: testTubeMixer (multiMotion of a rotatingMotion and an ";
    "oscillatingRotatingMotion), sloshingTank2D (SDA, m4 mesh), sloshingTank3D6DoF ";
    "(tabulated6DoFMotion, spline, across two knots), sloshingCylinder (multiMotion of an ";
    "oscillatingLinearMotion and a rotatingMotion on a snappyHexMesh mesh of polyhedra), and ";
    "linearMotion, axisRotationMotion and tabulated6DoFMotion with linear interpolation on the ";
    "tutorials' meshes. MEASURED: points and meshPhi differ from OpenFOAM's by EXACTLY ZERO on ";
    "every profile, and the gate asserts zero (BRAE_MESH_MOTION_ROUNDOFF=1 holds 1e-15 and 1e-12 ";
    "instead, for a compiler that orders floating point differently) -- and V and C of the moved ";
    "mesh are exact too, since fv_geometry's face centres took primitiveMeshTools.C's operation ";
    "order (interFoam_nonOrthCorrection); they read 1.7e-14 and 8.0e-16 before. CONTROL on brae's side (the oracle has ";
    "no wrong answer to offer): the two multiMotion entries in the other order, 1.5e-01 of the ";
    "extent, which the script asserts FAILS. BROKEN ONCE EACH -- and the reason the comparison ";
    "is exact, since all but the last sit under any round-off bound: meshPhi as sweptVol/deltaT ";
    "rather than sweptVol*(1.0/deltaT) 2.0e-16; the swept volume fanned about the vertex mean ";
    "rather than face::centre 6.7e-15; points rotated through the quaternion rather than the ";
    "tensor q.R() 4.4e-16 and 1.8e-14; septernion*septernion without normalising the product ";
    "rotation 6.1e-16 and 2.1e-14; the time as index*deltaT rather than accumulated 1.8e-16 and ";
    "8.4e-15; oldPoints never refreshed 4.1e+00. END TO END in interFoam ";
    "(tests/interfoam_moving_vs_openfoam.sh), beside sloshingTank2D and the cylinder, the other ";
    "four tanks as shipped, ten steps of 0.01 against their static controls: sloshingTank2D3DoF ";
    "U 4.4e-13, sloshingTank3D 2.7e-12, sloshingTank3D3DoF 6.8e-13, sloshingTank3D6DoF 5.4e-13, ";
    "the moved points exact; SDA without its lamda rescaling 8.2e-01, without its roll 9.9e-01, ";
    "the 6DoF table's interpolation flipped 1.4e-02. A CELLZONE's motion (zoneMotion.C: the points of ";
    "every face of every zone cell, ascending; the rest of the mesh held where it stands) is ";
    "gated on RAS/mixerVesselAMI (tests/interfoam_ami_vs_openfoam.sh, test_face_area_weight_ami): ";
    "the moved points bitwise OpenFOAM's at every step checked; the whole mesh moved 1.3e-03, the ";
    "zone's points transformed from the CURRENT points 9.6e-04, the boundary faces left out of ";
    "the marking 9.6e-04; the owner side of the faces alone NOT DISCRIMINATED (it marks the same ";
    "points on that mesh). WHAT IT DOES NOT CLAIM: a cellSet, a cellZone named by a regular ";
    "expression or a zone group, a zone under displacementLaplacian, points0 read from a file, a restart of a moved mesh, any ";
    "motionSolver but solidBody, drivenLinearMotion, a non-constant Function1 coefficient, ";
    "mergeLevels, and the device -- refused by name, fifteen arms in tests/interfoam_refusals.sh."]);
  note := Some (cat [
    "EVERY MOTION IS AN ABSOLUTE FUNCTION OF TIME ON THE ORIGINAL POINTS (points0MotionSolver), a ";
    "septernion built and multiplied as OpenFOAM's quaternion and septernion multiply (src/OpenFOAM/";
    "primitives/septernion/septernion_cpp.cuh), and applied by transformPoints: the translation ";
    "subtracted when it exceeds VSMALL, the rotation by the TENSOR q.R() when mag(R - I) exceeds ";
    "SMALL. multiMotion is the product of its entries in dictionary order. fvMesh::movePoints ";
    "takes V into V0 and the points into oldPoints ONCE PER TIME INDEX (a second update in the ";
    "same step, moveMeshOuterCorrectors, keeps both), sets meshPhi = face::sweptVol*(1/deltaT) ";
    "on every face but an empty patch's, and recomputes the geometry. face::sweptVol fans each ";
    "face about face::centre at both times, and face::centre is NOT primitiveMesh's Cf: a third ";
    "arrangement of the same sums, differing in the last digits on any face that is not a ";
    "triangle. src/OpenFOAM/motion/solid_body_motion.cuh and swept_volume.cuh, which pimpleFoam ";
    "still uses, are earlier transcriptions with Rodrigues' formula and a different centre; they ";
    "are the same motion and not the same digits, and were left alone. fvMesh::Vsc and Vsc0 ";
    "interpolate V0 and V to a sub-cycle's clock (fvMeshGeometry.C), and fvc::surfaceIntegrate ";
    "divides by Vsc, not V. HOST_ONLY is a finished state: the motion is mesh topology and ";
    "geometry, computed once per step; what the DEVICE loop needs is the moved geometry uploaded, ";
    "which is interFoam_dynamicMesh's target."]);
  selection_base := None;
  schema_for := None;
  other := [] |}.

Definition c_interFoam_rigidBodyMotion : component := {|
  name := "interFoam_rigidBodyMotion";
  of_symbol := "rigidBodyMeshMotion";
  of_file := "src/rigidBodyMeshMotion/rigidBodyMeshMotion/rigidBodyMeshMotion.C";
  classification := "HOST_ONLY";
  status := "REIMPLEMENT";
  of_line := None;
  brae_driver := None;
  brae_existing := None;
  brae_reference := Some "src/rigidBodyMeshMotion/rigid_body_mesh_motion_cpp.cuh";
  brae_cuda := None;
  brae_target := Some "";
  validation := Some (cat [
    "tests/rigid_body_dynamics_vs_openfoam.sh: OpenFOAM's own RBD::rigidBodyMotion::solve ";
    "(tools/dumpRigidBodySolve) built from the case's dictionary, handed a state and a spatial ";
    "force. RAS/floatingObject (cuboid, composite Py+Ry, coefficients in rigidBodyMotionCoeffs): ";
    "three as-run states and a rotated one, qDdot within 1.6e-16 relative. RAS/DTCHullMoving ";
    "(coefficients at the TOP LEVEL, rigidBody with its own inertia, composite Pz+Ry, a ";
    "linearDamper and a sphericalAngularDamper): at rest and moving, qDdot, q, qDot, X0 and the ";
    "36 inertia components 0.0 from OpenFOAM. Controls: inertia diagonal-first 9.2e+02; at rest ";
    "the dampers add exactly nothing; moving, restraints dropped 2.5e+00, each alone 2.1e+00 / ";
    "2.5e+00, the damper force left in the body frame 2.7e+00; Pz as Py 1.2e-01. Fail-proofs ";
    "(moving arm): restraints never applied, Pz on y, the damper reading v.w, no X0.T() ";
    "transport -- 8, 7, 6 and 4 failures. END TO END, tests/interfoam_dtchullmoving_vs_openfoam.sh ";
    "`moving`: RAS/DTCHullMoving AS SHIPPED (the hull moving, symmetryPlane point ";
    "constraints, tangentialVelocity, the inert cached grad(U)), six steps: q 2.2e-15, qDot ";
    "6.2e-15, qDdot 8.6e-15, the moved points 2.5e-17 of the extent, U 4.8e-13, p_rgh ";
    "1.1e-12, nut 3.2e-12, every p_rgh and alpha count OpenFOAM's; control, the restraints ";
    "removed, q 1.9e-03. Six because OpenFOAM branches on itself at the eighth: one ulp in ";
    "one alpha cell reads U 7.9e-06 and q 9.0e-09 by the tenth, where brae reads U 8.7e-06 ";
    "and q 2.3e-08. NOT CLAIMED: the device."]);
  note := Some (cat [
    "The body is integrated on the host: two degrees of freedom, once per step. The dictionary is ";
    "motionSolver::coeffDict() = optionalSubDict(rigidBodyMotionCoeffs) and the name getCompat(";
    "motionSolver, {solver}); the restraints read the model's CACHED v_/X0_, which ";
    "forwardDynamicsCorrection last wrote from the same q and qDot the solve starts from."]);
  selection_base := None;
  schema_for := None;
  other := [] |}.

Definition c_interFoam_pointConstraints : component := {|
  name := "interFoam_pointConstraints";
  of_symbol := "pointConstraints";
  of_file := "src/finiteVolume/interpolation/volPointInterpolation/pointConstraints.C";
  classification := "HOST_ONLY";
  status := "REIMPLEMENT";
  of_line := None;
  brae_driver := None;
  brae_existing := None;
  brae_reference := Some "src/finiteVolume/interpolation/volPointInterpolation/point_constraints_cpp.cuh";
  brae_cuda := None;
  brae_target := Some "";
  validation := Some (cat [
    "tests/point_constraints_vs_openfoam.sh, against tools/dumpPointConstraints (OpenFOAM's ";
    "own class on the same staged input), BIT FOR BIT on three arms: RAS/DTCHullMoving's mesh ";
    "(848,022 cells; its bottom and side normals carry 1e-18/1e-21 off-axis parts from ";
    "gSum(faceAreas), matched to the bit; 1,750 constrained points, 1,664 one-plane and 86 ";
    "two-plane), the same with its fixedValue patches pinned off zero, and a parallelepiped ";
    "whose three tilted symmetry planes meet (45 one-plane, 24 two-plane, one three-plane ";
    "point): every normal, every constrained point in OpenFOAM's order with its count and ";
    "tensor, the field after correctBoundaryConditions and after constrainDisplacement. ";
    "Controls: the symmetryPlane evaluate skipped, constrainCorners skipped, the pins ";
    "written after the planes, the three-plane corner left free. Fail-proofs: the normal ";
    "by a reciprocal multiply and the count-3 case are seen by the parallelepiped only."]);
  note := Some (cat [
    "Built ONCE by the rigid-body mesh motion at attach: the patch kinds from the MESH patch ";
    "types (pointPatchFieldNew.C:143-161; `patchType` refused), the symmetryPlane normals frozen ";
    "from the construction-time face areas, the constrained points from every non-empty, ";
    "non-coupled patch's boundary points in patch order. Refused: any other constraint patch, ";
    "a 2-D mesh (twoDPointCorrector), a per-point fixedValue. OpenFOAM's own ";
    "patchPatchPointConstraints() list is truncated without being compacted, so it does not line ";
    "up with the points; the oracle reads the count off the tensor."]);
  selection_base := None;
  schema_for := None;
  other := [] |}.

Definition c_interFoam_displacementLaplacian : component := {|
  name := "interFoam_displacementLaplacian";
  of_symbol := "displacementLaplacianFvMotionSolver";
  of_file := "src/fvMotionSolver/fvMotionSolvers/displacement/laplacian/displacementLaplacianFvMotionSolver.C";
  classification := "GPU_REQUIRED";
  status := "REIMPLEMENT";
  of_line := None;
  brae_driver := None;
  brae_existing := None;
  brae_reference := Some (cat [
    "src/fvMotionSolver/fvMotionSolvers/displacement/laplacian/";
    "displacement_laplacian_fv_motion_solver_cpp.cuh"]);
  brae_cuda := None;
  brae_target := Some "";
  validation := Some (cat [
    "tests/displacement_laplacian_vs_openfoam.sh: the moved polyMesh/points, the motion solver's ";
    "cellDisplacement and pointDisplacement, meshPhi and every GAMG solve of the displacement ";
    "equation against OpenFOAM's moveDynamicMesh run SERIALLY with a fixed deltaT, written per ";
    "step at writePrecision 18, and V and C of the moved mesh from postProcess. SEVEN PROFILES, ";
    "each the tutorial's own mesh and dictionaries: waveMakerPiston, waveMakerFlap (the wall ";
    "tilts) and waveMakerSolitary (0.26 m of stroke, two blocks), 20 steps of 0.05 to t = 1, ";
    "waveMakerMultiPaddleFlap and waveMakerMultiPaddlePiston (four paddles at 45 degrees, 3-D, ";
    "448000 cells), 4 steps of 0.1, and the piston and the flap again with `secondOrder yes` ";
    "staged into the paddle. MEASURED, worst of the seven: all 204 GAMG solves take ";
    "OpenFOAM's iteration count; points 2.9e-16 of the extent; cellDisplacement and ";
    "pointDisplacement 1.3e-14 of the largest displacement; meshPhi 2.4e-13 of the run's largest ";
    "|meshPhi|; V 1.1e-13 relative, C 5.9e-16 of the extent. The bounds are those numbers and say why: see the note. ";
    "THE CONTROL: the wall distance taken from rightwall instead of leftwall, 9.9e-01 of the ";
    "displacement, which the script asserts FAILS. BROKEN ONCE EACH, as a fraction of the largest ";
    "displacement: the paddle's values not written back over the interpolated ones 3.7e-02; y on ";
    "the named patch the next cell's instead of the wave's SMALL 4.0e-01 and 20 of 40 counts; the ";
    "wall distance without correctWalls 2.3e-05 (the flap only, whose wall tilts); the 2-D ";
    "correction skipped 7.4e-02 (the solitary only); volPointInterpolation's weights made once ";
    "6.2e-04; the diffusivity computed once 9.1e-02; the GAMG hierarchy kept from step one ";
    "1.9e-01; the non-orthogonal correction dropped 7.9e-02. TEN REFUSALS asserted by name: a ";
    "diffusivity other than inverseDistance, a cellDisplacement solver other than GAMG, a ";
    "laplacian other than Gauss linear corrected, a point condition other than fixedValue, ";
    "zeroGradient, empty and waveMaker, an unknown motionType, a waveMaker without `value`, and ";
    "frozenPointsZone; and three more on fvSchemes' `patchDist`, which the diffusivity's ";
    "wallDist reads (its patch type name is " ++ dq ++ "patch" ++ dq ++ "): a method other than meshWave, ";
    "correctWalls false, an updateInterval other than 1 -- with the defaults written out as the ";
    "arm that must run. NOT CLAIMED, because these meshes cannot tell: pointCells' order (the ";
    "pointFaces walk OpenFOAM takes here and the ascending order give the same lists on a block ";
    "mesh) and face::average against a vertex mean for cellMotion (equal on flat parallel faces); ";
    "the Final solver entry, which moveDynamicMesh never selects; and the device. UNDER ";
    "interFoam: all five are gated end to end (interFoam_correctPhi, ";
    "interFoam_interfaceCompression)."]);
  note := Some (cat [
    "ONE newPoints(), IN OpenFOAM'S ORDER, all on the mesh before the move (motionSolver.C:200-204, ";
    "displacementLaplacianFvMotionSolver.C:199-318): the inverseDistance diffusivity 1/interpolate(y), ";
    "y the meshWave distance to the named patches (patchWave: FaceCellWave<wallPoint> seeded with the ";
    "patch face centres, visiting cells() in OpenFOAM's order and taking a new origin only when nearer ";
    "by 1%, then correctBoundaryCells' exact distance for every cell touching the patches), whose ";
    "boundary value is the wave's own on the named patches -- sqrt(0) + SMALL, so the diffusivity there ";
    "is 1e15 -- and the next cell's elsewhere; the point conditions' updateCoeffs, each writing its ";
    "values straight into the point field in patch order; cellMotion on every patch whose point ";
    "condition fixes a value, the face::average of the POINT field; laplacian(diffusivity, ";
    "cellDisplacement) Gauss linear corrected, solved component by component with GAMG from the last ";
    "step's solution, the empty direction skipped; then volPointInterpolation -- cells to points by ";
    "1/|p - C|, boundary faces of real patches to patch points by 1/|p - Cf|, the weights remade on ";
    "every move -- the fixing conditions evaluated again over it, points0 + pointDisplacement, and ";
    "twoDPointCorrector, whose plane normal is taken once and whose mid-plane is the current bounds'. ";
    "THE GAMG SOLVE HAS TO BE OPENFOAM'S EXACTLY: the paddle's 1e15 diffusivity dominates the residual ";
    "normalisation, the equation is declared converged after one V-cycle, and the mesh is that ";
    "V-cycle's. The hierarchy is the mesh's MeshObject, shared with p_rgh's GAMG and rebuilt after ";
    "each move; DynamicMotionSolverFvMesh::update takes the run's cache and invalidates it. ";
    "AN OPEN FINDING THAT BELONGS TO THE SHARED OPERATORS: brae's fvm::laplacian forms its face ";
    "coefficient as (deltaCoeffs*gamma)*magSf where gaussLaplacianScheme forms gammaMagSf = ";
    "gamma*magSf first, and brae's linear interpolation is w*P + (1 - w)*N where ";
    "surfaceInterpolationScheme::dotInterpolate is lambda*(P - N) + N. Switched to OpenFOAM's order, ";
    "every profile of this gate is EXACT for its first four to seven steps; they are what the gate's ";
    "bounds are. Left as they are here because every solver's laplacian and interpolation read them. ";
    "face::centre, face::average and face::nearestPoint are src/OpenFOAM/meshes/meshShapes/face/";
    "face_cpp.cuh; the wave src/meshTools/cellDist/patchWave/; the interpolation ";
    "src/finiteVolume/interpolation/volPointInterpolation/vol_point_interpolation_cpp.cuh (the older ";
    "vol_point_interpolation.cuh, which velocityComponentLaplacian uses, was left alone). ";
    "moveDynamicMesh does not link libwaveModels, which interFoam does: the gate's controlDict loads it."]);
  selection_base := None;
  schema_for := None;
  other := [] |}.

Definition c_interFoam_waveMaker : component := {|
  name := "interFoam_waveMaker";
  of_symbol := "waveMakerPointPatchVectorField";
  of_file := "src/waveModels/derivedPointPatchFields/waveMaker/waveMakerPointPatchVectorField.C";
  classification := "HOST_ONLY";
  status := "REIMPLEMENT";
  of_line := None;
  brae_driver := None;
  brae_existing := None;
  brae_reference := Some (cat [
    "src/waveModels/derivedPointPatchFields/waveMaker/";
    "wave_maker_point_patch_vector_field_cpp.cuh"]);
  brae_cuda := None;
  brae_target := Some "";
  validation := Some (cat [
    "tests/displacement_laplacian_vs_openfoam.sh (interFoam_displacementLaplacian): the paddle is ";
    "every profile's only moving boundary, so its displacement is the whole of the motion -- ";
    "piston and flap, one paddle and four at 45 degrees, and the solitary stroke with its Newton ";
    "iteration -- and the piston and the flap with `secondOrder yes` staged in, which no tutorial ";
    "turns on. The paddle points' pointDisplacement is OpenFOAM's to the gate's 2e-14 of the ";
    "largest displacement. NOT CLAIMED: a waveMaker without `value`, which OpenFOAM evaluates ";
    "at construction (refused)."]);
  note := Some (cat [
    "updateCoeffs (waveMakerPointPatchVectorField.C:278-436): the wave length by 100 fixed-point ";
    "iterations of L = L0 tanh(2 pi h/L), the paddle's phase its centre's position alone (wavePhase is ";
    "read and never used), and the ramp clamp(t/rampTime, 0, 1) on the piston and the flap but not the ";
    "solitary stroke; the flap's stroke scaled by the point's height above the patch's lowest point. ";
    "The paddle centres and every point's paddle are taken from the patch's points at construction ";
    "(initialiseGeometry) and never again; the reference depth on the first updateCoeffs. HOST_ONLY is ";
    "a finished state: the condition is a function of time on the patch's points, and what the ";
    "device needs is the moved mesh."]);
  selection_base := None;
  schema_for := None;
  other := [] |}.

Definition c_interFoam_dynamicRefine_validation_1 : string := cat [
    "tests/interfoam_amr_vs_openfoam.sh, real OpenFOAM run SERIALLY, two fixed steps of 1e-3 on ";
    "laminar/damBreakWithObstacle written at `writePrecision 18` so the floor is floating point ";
    "and not the file. A refining case writes its own polyMesh into every time directory, so the ";
    "comparison is on the mesh OpenFOAM produced, cell by cell. THE TWO STEPS: 1,430 cells refined ";
    "(32,256 -> 42,266) with pcorr at initial residual 0 and 0 iterations, then 5,714 refined ";
    "(42,266 -> 82,264) with pcorr at initial residual 1 and 8 iterations -- so step one maps ";
    "fields and step two needs the flux correction, and one step alone passes with the flux ";
    "rebuild missing. MEASURED: the same cell, face and point counts, every face's owner and ";
    "neighbour, every cell's refinement level; alpha 1.8848e-15, p_rgh 3.7065e-15 relative, U ";
    "2.4051e-13, p 2.2797e-14, rAU 1.5133e-12, phi 2.6343e-13, Uf 2.5089e-13; patch values alpha ";
    "EXACT, U 1.4268e-16, p_rgh 3.7e-15; all 6 p_rgh and 3 pcorr solves on OpenFOAM's iteration ";
    "count with every residual identical TO THE BIT; sum local continuity error 8.138623e-09 ";
    "against 8.138623e-09. TWO CONTROLS: the mapped flux left alone (no Sf & Uf rebuild, no ";
    "pcorr) reads alpha 2.8570e-01 and max(alpha.water) 1.009594 where OpenFOAM stays at 1; the ";
    "carried cell fields RESIZED instead of mapped reads alpha 3.6032e-02. AND ONE ARM THAT ";
    "CANNOT WITNESS, measured: re-capturing the old-time levels instead of mapping them changes ";
    "NOTHING (0.0e+00 on alpha and U), because at the top of a step every old-time level is a ";
    "copy of its own field -- the gate asserts that identity rather than pretending to test it. ";
    "The chain below it is gated on its own: tests/hex_ref8_vs_openfoam.sh (7 arms including ";
    "three UNREFINEMENT ones), tests/refine_update_vs_openfoam.sh (three steps on an analytic ";
    "moving sphere, refine and unrefine and both-in-one-step, with the flux correction on an ";
    "injected velocity pair), tests/refine_candidates_vs_openfoam.sh, ";
    "tests/refine_controls_vs_openfoam.sh, tests/mesh_edges_addressing_vs_openfoam.sh. NOT ";
    "CLAIMED: the flux correction on the shipped path (every interFoam tutorial maps every flux ";
    "to `none`; a case that names a velocity or NaN is refused) and the old-time levels mapping. ";
    "UNREFINEMENT inside a solver run IS held, on laminar/oscillatingBox at step 57 ";
    "(tests/interfoam_amr_motion_vs_openfoam.sh boxUnrefine), and so is a MOTION beside the ";
    "refinement there: a 3-D solidBody motion of the whole mesh, its points0 mapped through each ";
    "change and its points and points0 held to OpenFOAM's bitwise, on the HOST arm; the DEVICE arm ";
    "refuses that combination by name and runs refinement alone (device_refine_runs). Refused ";
    "beside it, each by name: a motion solver on a 2-D mesh or under CrankNicolson or ";
    "moveMeshOuterCorrectors, wave conditions, a CN restart ";
    "directory, `correctPhi no`, and a coupled patch on a refining mesh. MRF was on that list ";
    "until tests/interfoam_amr_mrf_vs_openfoam.sh gated it on mixerVessel2D -- see ";
    "interFoam_MRF, whose oracle for the renumbered cellZone is the one OpenFOAM writes into its ";
    "own time directory, compared cell by cell. AND TURBULENCE WAS ON IT UNTIL ";
    "tests/interfoam_amr_ras_vs_openfoam.sh, which stages RAS/damBreak plus one injected ";
    "dynamicMeshDict in two profiles -- `ke` as shipped and `sst` the same case made kOmegaSST, ";
    "the only one of the two that builds a CELL wall distance. WHAT OPENFOAM DOES SPLITS IN ";
    "THREE. k, the second transported scalar and nut are registered AUTO_WRITE fields, so ";
    "MapGeometricFields autoMaps them and brae maps them through the same cell and patch mappers ";
    "as alpha1, their per-step old times with them. THE CELL WALL DISTANCE IS RECOMPUTED, not ";
    "mapped: wallDist is a MeshObject<fvMesh, UpdateableMeshObject, wallDist> (wallDist.H:76-78), ";
    "so a change reaches wallDist::updateMesh, which is `pdm_->updateMesh(mpm); requireUpdate_ = ";
    "true; movePoints();` (wallDist.C:224-234) -- the latch is FORCED, with OpenFOAM's own ";
    "comment " ++ dq ++ "Force update if performing topology change" ++ dq ++ ", where a plain MOVE only sets it ";
    "when the interval divides the step; kOmegaSST holds a const reference into that object ";
    "(kOmegaSSTBase.C:381) whose header notes it is " ++ dq ++ "different to wall distance in parent ";
    "RASModel which is for near-wall cells only" ++ dq ++ ". AND THE NEAR-WALL DISTANCE NEEDS NOTHING on ";
    "the host: it is turbulenceModel::y_, a nearWallDist and NOT a MeshObject, re-corrected by ";
    "`if (mesh_.changing()) { y_.correct(); }` (turbulenceModel.C:94-100) -- changing() being ";
    "moving() OR topoChanging(), the same distinction that decided this port's Uf, correctUf and ";
    "ddtCorr branches -- and brae's host closures recompute it at every correct() ";
    "unconditionally; the DEVICE arm caches it and does rebuild it. MEASURED on `ke`, host then ";
    "device then device-vs-host: alpha 1.1425e-14, 2.7756e-14, 2.8311e-14; p_rgh 1.0323e-14, ";
    "2.2903e-14, 2.0000e-14; U 1.9283e-13, 1.7083e-12, 1.7087e-12; k 2.2516e-14 and 2.1519e-13; ";
    "epsilon 2.0314e-14 and 6.1862e-13; nut 3.7415e-14 and 9.1907e-14; plus ALL 23 ITERATION ";
    "COUNTS OpenFOAM's (12 p_rgh, 3 pcorr, 4 k, 4 epsilon) with no solve at maxIter. On `sst` the ";
    "host reads k 1.9062e-14, omega 5.1909e-15 and nut 1.8203e-14 while the device reads ";
    "7.4632e-11, 1.1299e-10 and 1.0470e-10 -- the static RAS gate's own documented device SST ";
    "floor (" ++ dq ++ "nut carries the device loop's U difference through k, omega and F2, so an SST ";
    "profile sits three orders above a kEpsilon one" ++ dq ++ ", its `sst` reading omega 3.09e-11), which ";
    "is the device closure's distance and not the carry's: the host is at 1e-14 on both profiles. ";
    "THE FIXTURE CAN WITNESS, both halves measured from OpenFOAM's own output rather than ";
    "assumed: the fields are UNIFORM at t=0 (k and epsilon 0.1, nut 0) and develop in ONE step ";
    "(epsilon spans 0.09981 to 8.449 at t=0.001), so the FIRST change maps a uniform state -- ";
    "which a broken mapper carries correctly -- and the SECOND maps a developed one, which is why ";
    "the gate takes four steps; and WALL-FUNCTION FACES ARE SPLIT, leftWall 50 -> 56 -> 68 and ";
    "lowerWall 62 -> 68 -> 80 while rightWall stays at 50 because the water has not reached it, ";
    "asserted in the script from the written boundary files. EVERY SOLVE IS PINNED, and not all ";
    "to one value: at the tutorial's own `relTol 0.05` the fields read alpha 6.5e-11 with every ";
    "count already equal (the Krylov stopping point), at 1e-14 they reach 1.1e-14 but k CANNOT ";
    "REACH 1e-14 with symGaussSeidel and both codes then grind to maxIter 1000 on two of four k ";
    "solves where the count stops discriminating, so the (U|k|epsilon) block is pinned at 1e-12 ";
    "and the script FAILS if any solve hits maxIter. THE CONTROL, ";
    "BRAE_CONTROL_AMR_NO_TURB_UPDATE, does not recompute the wall distance or the filter width: ";
    "it is a TEST on `sst` (alpha 2.0797e-03 against 2.8866e-15, twelve orders) and VACUOUS on ";
    "`ke` (0.0e+00, because kEpsilon builds no cell wall distance), and the gate asserts which. ";
    "ONE DEFECT FOUND, and only the device arm could find it: dRhoOld -- rho.oldTime() for the ";
    "closure's fvm::ddt(rho, k) -- is captured at the TOP of a step from the previous step's dRho ";
    "and read after the change, so it sat at the OLD cell count while every other closure input ";
    "was at the new one. Nothing else reads it (the laminar path has no ddt(rho,k)), so it was ";
    "wrong for as long as an adaptive turbulent case was refused. MEASURED before the fix: every ";
    "one of the 546 cells the change added (78 refined x 7) came out of the closure's FIRST solve ";
    "with k collapsed to 1.2e-12 against OpenFOAM's minimum 0.09221 and nut to 3.8e-25 against ";
    "9.057e-05, reaching 5.4e+04 times OpenFOAM's nut by four steps. It was named by printing the ";
    "SIZE of every mesh-sized input the closure is handed (BRAE_AMR_TRACE): one said 2268 where ";
    "the rest said 2814. TWO THINGS HARDENED WITH IT: the device yCell upload had no size check ";
    "where the LES branch throws, which stopped being harmless once this builder ran mid-run; and ";
    "the old-time restore is unconditional, because buildDeviceInterTurbulence does once-per-run ";
    "RESTART seeding (seedCnDdt0, readClosureCnOldTime) and an `if (!empty)` restore would have ";
    "been correct only by the order of two lines. STILL REFUSED beside a change: the closure ";
    "under CrankNicolson (its ddt0 levels are registered DDt0Fields OpenFOAM autoMaps, and the ";
    "SOLVER's took two units of their own), refused on the SCHEME and on the STATE; and LES, ";
    "whose filter width IS recomputed here but whose only fixture is not adaptive. NOT CLAIMED: ";
    "a `wallDist { updateInterval }` other than 1 -- the forced latch is exactly what a change ";
    "does differently from a move and can only be witnessed above 1, which is refused for want ";
    "of a fixture; unrefinement beside turbulence; the variable-density lineage under SST (brae ";
    "refuses `density variable` with kOmegaSST by name, so `sst` drops it and `ke` alone ";
    "witnesses that lineage); and RAS/motorBike itself, which needs a reader for the cellLevel, ";
    "pointLevel and level0Edge snappyHexMesh writes -- brae assigns level 0 everywhere, so ";
    "maxRefinement does not mean the same thing. That is the next unit and this is what it ";
    "stands on. AND A MESH THAT IS ALREADY REFINED WHEN THE RUN STARTS, ";
    "tests/interfoam_amr_levels_vs_openfoam.sh: OpenFOAM reads THREE files and not four. cellLevel ";
    "and pointLevel are labelLists from mesh_.facesInstance()/polyMesh, READ_IF_PRESENT with ";
    "labelList(n, Zero) behind them (hexRef8.C:1912-1937); refinementHistory is READ_IF_PRESENT ";
    "with a FATAL visibleCells().size() == nCells check (:1953-1990), its operator>> clearing ";
    "freeSplitCells_ while its operator<< compacts first, so a written history has no holes; and ";
    "level0Edge IS NOT READ BY THIS SOLVER AT ALL -- hexRef8 uses level0EdgeLength() only in ";
    "consistentSlowRefinement2 (:2784), which dynamicRefineFvMesh never calls, calling ";
    "consistentRefinement (dynamicRefineFvMesh.C:895) and rolling its own buffer layers (:1415). ";
    "So brae reads three and says why it ignores the fourth. THAT ALSO REFRAMES THE DEFECT: ";
    "all-zeros IS OpenFOAM's fallback, correct for every blockMesh case and wrong only where the ";
    "files exist. THE FIXTURE is built in two phases because a mesh at mixed levels has to come ";
    "from somewhere: OpenFOAM runs laminar/damBreak for ONE step and its 0.001/polyMesh becomes ";
    "the gate case's constant/polyMesh. A UNIFORM cellLevel would make the unit invisible -- the ";
    "2:1 constraint only differs where levels differ -- so the seed's spread is asserted: 2,814 ";
    "cells at levels {0: 2190, 1: 624}. A TWO-step seed was tried first and REFUSED BY THE ";
    "SCRIPT'S OWN WITNESS CHECK: at {0,1,2} with maxRefinement 2 the continuation selects `0 ";
    "cells for refinement out of 4998` and 0 split points, so no refinement decision is taken ";
    "and nothing reads a level. THE CONTROL IS CAUGHT STRUCTURALLY, not by a field bound: ";
    "BRAE_CONTROL_AMR_NO_LEVELS restores exactly what brae SHIPPED (level 0 everywhere, which is ";
    "also OpenFOAM's answer when the files are absent), `cellLevel[celli] < maxRefinement` is then ";
    "true for every cell, and it refines cells already at the cap -- 18,466 cells against ";
    "OpenFOAM's 4,998, alpha 8.5760e-02 and U 4.2137e-01 against the port's 4,998 cells, every ";
    "level OpenFOAM's and alpha 1.0501e-09. A SECOND PROFILE IS motorBike'S ACTUAL SHAPE: its ";
    "controlDict says `writeFormat binary`, so its snappy-written levels are BINARY -- the trap ";
    "the cellZones reader fell into -- and its Allrun.pre DELETES the refinementHistory, making ";
    "snappy's refinement permanent. The binary files are OPENFOAM'S OWN: foamFormatConvert ";
    "converts fields and leaves polyMesh label lists alone (measured) and writes in the case's ";
    "own writeFormat with no -binary flag (which the arm caught by asserting the format it got), ";
    "so the seed is re-run with writeFormat binary and only its two label lists are taken -- ";
    "encoding them in the script would test the script's writer against brae's reader and could ";
    "agree on a shared mistake. A BINARY refinementHistory is REFUSED by name: its splitCells are ";
    "a compound (parent, FixedList<label,8>) and not the flat blob readBinaryLabelList handles. ";
    "ONE SHARED READER: readLabelColumn/readLabelFile were file-static in primitive_mesh.cu ";
    "serving owner and neighbour; readLabelListFile is exported now and both use it. THE FIELD ";
    "BOUNDS ARE 1e-08 AND THAT IS MEASURED CONDITIONING -- this is the first fixture whose FIRST ";
    "change maps a DEVELOPED state -- OpenFOAM against itself at one ulp reads alpha 7.7953e-10, ";
    "p_rgh 3.3041e-09, U 2.7944e-08 against brae's 1.0501e-09, 4.5130e-09, 3.6038e-08, i.e. "].

Definition c_interFoam_dynamicRefine_validation_2 : string := cat [
    "1.35x, 1.37x and 1.29x of the twin; the mrf profile's `<=` is NOT a law and the bound is a ";
    "per-profile ulpFactor (1 there, 2 here) with both ratios recorded. ONE ITERATION COUNT ";
    "DIFFERS (114/115 of 9) and the TWIN settles it: OpenFOAM's solve ends at 9.267e-15 against a ";
    "pinned 1e-14, 7% under it, and its own one-ulp twin reproduces the oracle's counts exactly, ";
    "so the count is a threshold crossing -- this profile measures the counts and asserts at most ";
    "one differs and by at most one, rather than widening compareSolves' thousandth-of-tolerance ";
    "rule for every other caller. TWO DEFECTS FOUND BY THE SAME FIXTURE, both READ_IF_PRESENT in ";
    "OpenFOAM and always-constructed in brae: Uf (createUfIfPresent.H is READ_IF_PRESENT with ";
    "fvc::interpolate(U) only as the FALLBACK, and a refining mesh writes a Uf beside every time ";
    "directory -- measured with the file present, the mesh and EVERY CELL LEVEL came out exactly ";
    "OpenFOAM's while alpha read 8.8625e-02 and U 1.2349e+00, because phi = Sf & Uf at the change ";
    "consumes it). THE phi HALF OF THAT CLAIM WAS WRONG and is corrected here: brae reads phi ";
    "READ_IF_PRESENT already, through readPhiIfPresent (inter_case_cpp.cu:1155) with a phiWasRead ";
    "flag -- the claim came from grepping for the literal `startDir + " ++ dq ++ "/phi" ++ dq ++ "`, which the ";
    "helper's name hides, and the measurement that accompanied it (omitting the file changed ";
    "nothing to five figures) was right for that reason rather than because it did not matter. Uf ";
    "is omitted from this fixture so both codes take the same fallback, a hole named in the ";
    "script and CLOSED by the restart profile: readUfIfPresent now reads it, with ";
    "BRAE_CONTROL_NO_UF_READ restoring the interpolation as the control -- caught at alpha ";
    "8.8625e-02 against the port's 5.6049e-10, rAU 8.0261e-01 against 1.2132e-08, eight orders. ";
    "readSurfaceField's body is now a template with two thin wrappers, because ";
    "SurfaceScalarField and SurfaceVectorField are two structs of one layout. alphaPhi0.water is ";
    "READ_IF_PRESENT too (createAlphaFluxes.H:1-8) and brae reads only its PRESENCE; this fixture ";
    "CANNOT witness that, measured rather than argued -- interFoam.C:120-123 clears ";
    "talphaPhi1Corr0 when the topology changes, so on a case whose first change is at step 1 the ";
    "value is discarded before use, and removing the file moved nothing to five figures. It stays ";
    "an open finding for a NON-adaptive restart. THE restart PROFILE'S FIELD BOUNDS ARE REPORTED ";
    "AND NOT ASSERTED, which is the honest answer rather than a relaxation: it reads alpha ";
    "5.6049e-10 where OpenFOAM's own one-ulp twin reads about 2.8e-11, so brae is 20x to 32x the ";
    "envelope and not inside it as the levels profile is at 1.35x, and the remainder is NOT ";
    "localised (alphaPhi0 was the candidate and was measured not to be it). So that profile ";
    "asserts the mesh, every cell level, that the Uf file WAS read, and the control at eight ";
    "orders, and prints the field distances beside them with the reason. AND THAT RESIDUAL IS NOW ";
    "LOCALISED, in four measurements. (1) PER STEP: step 1 is essentially exact -- alpha ";
    "5.5511e-16 with all three p_rgh initial residuals BIT-IDENTICAL -- and step 2 introduces ";
    "5.0078e-12, so the start state, the three reads and step 1's whole solve are OpenFOAM's and ";
    "the error is born in what step 1 LEAVES for step 2. (2) WITH THE CHANGE SWITCHED OFF ";
    "(refineInterval 1000000, a pure restart on a mesh that happens to be refined) alpha holds to ";
    "3.5018e-12 over three steps against 5.6049e-10 with it -- 160x -- SO THE READS ARE NOT THE ";
    "PROBLEM: it is the topology change acting on a DEVELOPED state, and this is the first fixture ";
    "whose FIRST change does that, every other profile's first change happening from rest. (3) ";
    "WHICH FIELD, at step 1, pure restart against with-change: Uf 1.4201e-11 -> 2.3274e-10 (16x), ";
    "U 1.0164e-11 -> 1.2952e-10 (13x), p_rgh 4.5x, phi 4.4x, rAU 1.3x, and alpha BIT-IDENTICAL. ";
    "At rest every surface field is zero and a refined cell's hull average is exactly 0 in both ";
    "codes, which is why no other profile can see any of it. (4) IT IS NOT ONE SITE: 1,095 of ";
    "12,487 internal faces sit within a hundredth of the worst, which rules out a single ";
    "mis-mapped face and points at the surface-field mapping as a whole. A FIFTH reading was ";
    "WRONG and is recorded: the first version of that diagnostic invited `a low face index is an ";
    "inherited face, a high one is added`, which is true of CELLS (hexRef8 modifies the parent in ";
    "place and appends seven children) and FALSE of faces, which polyTopoChange renumbers ";
    "wholesale. THE NEXT MEASUREMENT IS NAMED AND NEEDS NO NEW ORACLE: ";
    "tests/refine_update_vs_openfoam.sh already gates the MAPPER against OpenFOAM's own on ";
    "injected fields, and it injects surface SCALARS (braePhi oriented, braePhiFlat unoriented) ";
    "and a volVector (braeU) but NO SURFACE VECTOR -- the path Uf takes. Adding a braeUf there ";
    "separates the MAP from the phi = Sf & Uf rebuild and its pcorr: red means the surface-vector ";
    "map, green means the rebuild. NOT CLAIMED: a GENUINE restart from a latestTime directory (OpenFOAM ";
    "reads the levels from mesh_.facesInstance(); brae hard-codes constant/polyMesh in four places ";
    "and has no facesInstance, so the fixture copies the refined mesh into constant/ -- the reader ";
    "is done, the instance resolution is not), a label=64 install (readBinaryLabelList memcpys ";
    "sizeof(label) without reading the header's arch, pre-existing), and motorBike itself. THE DEVICE ARM RUNS IT ";
    "TOO (unit 9), in the same test and ";
    "against the same oracle: the change is host work on either loop, so what the device arm ";
    "measures is the ROUND TRIP -- every mesh-sized buffer down to the host, the change, and ";
    "every one of them back up onto a DeviceMesh REBUILT from scratch, which is what ";
    "invalidates the schedule caches keyed on its addressingId. MEASURED: alpha 2.2204e-15 ";
    "from OpenFOAM, p_rgh 6.0540e-15 relative, U 3.2213e-13, phi 3.2929e-13; from the host ";
    "arm alpha 2.1176e-15; and the arm run TWICE IN ONE PROCESS bit-identical, which is the ";
    "detector for a schedule cached against a recycled pointer. FOUND BY THAT ARM: Uf.oldTime ";
    "was rotated inside `if (dyn)`, so an adaptive case kept the Uf the run STARTED with -- ";
    "alpha stayed exact at 2.2e-15 while p_rgh read 1.4536e-02, U 2.1642e-01 and phi ";
    "3.5678e-01, the pressure half alone; and a buffer the loop has not written yet is EMPTY ";
    "(rhoPhi's boundary is the alpha step's output, so at the first change reading it walked ";
    "off the end of the array). FOUR PROFILES NOW, each on both arms: `open` as shipped, ";
    "`closed` with the atmosphere walled off so the case's own pressure reference is live ";
    "(unit 10), `cn` under CrankNicolson 0.5 (unit 11) and `porosity` with an ";
    "explicitPorositySource over a cellZone of the water cells (unit 14). THE cn PROFILE turns ";
    "the old-time control from a statement about the fixture into a test: the scheme reads the ";
    "old-OLD levels, which are two steps back and are copies of nothing current, so ";
    "re-capturing them instead of mapping them reads alpha 9.3122e-03 and U 2.5152e-01 where ";
    "under Euler it reads 0.0e+00. MEASURED on cn: alpha 7.7716e-15 on the host and 2.1982e-14 ";
    "on the device; and the device's CN carry is the ddt0 levels themselves -- FOUND THERE, ";
    "`if (!dyn) phiOldRequested = true;`, which left the device asking for a phi.oldTime an ";
    "adaptive case never got (6.97e-04). THE porosity PROFILE is the sharpest oracle in the set ";
    "because OpenFOAM PRINTS ITS OWN SELECTION: `- selected N cell(s) with volume V` at every ";
    "change, 2736 -> 7398 -> 26711 cells at a volume of 0.08349609375 that never moves a digit. ";
    "OpenFOAM RE-SELECTS rather than mapping the labels (cellSetOption::isActive() calls ";
    "setCellSelection() whenever the mesh is topoChanging, cellSetOption.C:383-396) and a ";
    "cellZone resolves against the LIVE zone, which polyTopoChange renumbers by giving each ";
    "child its parent's zone id. MEASURED: brae's last selection is 26711 cells of ";
    "0.08349609375, alpha 1.5190e-14, p_rgh 1.2499e-14 relative, rAU 1.4562e-11, all 9 p_rgh ";
    "and 3 pcorr solves on OpenFOAM's counts. THE CONTROL keeps the selections: 2736 cells of ";
    "0.0657119750977 -- the zone's unrefined part alone -- and U 9.5948e-02. THE DEVICE ARM ";
    "FOUND THE SAME DEFECT ON ITS OWN HALF, which nothing else here could: the porosity cell ";
    "list was uploaded ONCE before the time loop, so the device applied the resistance to an ";
    "eighth of the zone and read the control's own number, U 9.5948e-02 from the host arm, to ";
    "every digit. AND THE 2-D CASE, refused for one release and now gated (unit 12): ";
    "laminar/damBreak read alpha 5.2e-03 with every solve pinned to 1e-14 relTol 0 because the ";
    "hull average of dynamicRefineFvMeshTemplates.C:42-53 counted an `empty` patch's faces in ";
    "its denominator while an emptyFvPatchField is constructed ZERO-SIZED on a patch that HAS ";
    "faces, so those faces contributed nothing and divided by themselves anyway -- braePhi ";
    "161.0 against OpenFOAM's -6.8e-30 on the mapper oracle. Skipping a patch that holds no ";
    "values takes it to alpha 1.8e-15, and tests/refine_update_vs_openfoam.sh's third arm gates ";
    "the mapper itself on a 2-D mesh."].

Definition c_interFoam_dynamicRefine_note_1 : string := cat [
    "WHAT AN ADAPTIVE interFoam IS: interFoam.C:114 mesh.update() with dynamicRefineFvMesh selected, ";
    "then interFoam.C:116-148 gated on mesh.changing(). The engine: select cells whose driving field ";
    "lies in (lowerRefineLevel, upperRefineLevel) through cellToPoint's UNWEIGHTED point average, ";
    "extend by nBufferLayers, cap at maxRefinement and maxCells, protect non-hexes; hexRef8 splits ";
    "each into eight and removeFaces merges the faces of an unrefined set; then SIX maps -- cell, ";
    "face, point, and the three patch ones -- carry every registered field. The mappers are the part a ";
    "solver cannot see: a cell mapper is DIRECT when nothing merged and interpolative with VOLUME ";
    "weights when the map carries old cell volumes, V0 has a rule of its own (gather then ADD the ";
    "merged parts, then correctOldVolumes overwrites split and merged cells with their own V), an ";
    "ORIENTED surface field is negated on flipFaceFlux and hull-averaged as an intensive vector where ";
    "an unoriented one is not, and mapNewInternalFaces runs on EVERY registered surface field outside ";
    "the per-flux loop. THE SOLVER'S OWN HALF is interFoam.C:118-142 in this order: drop the previous ";
    "step's MULES correction flux (talphaPhi1Corr0.clear(), because it is a flux on faces that no ";
    "longer exist), gh and ghf off the new centres, MRF.update(), and then under `correctPhi` -- which ";
    "DEFAULTS TRUE on a refining mesh, because mesh.dynamic() is moving() OR topoChanging() -- rebuild ";
    "phi = mesh.Sf() & Uf(), solve pcorr, makeRelative (a no-op: a refining mesh does not move) and ";
    "mixture.correct(). THE THREE THINGS THAT dynamic() DECIDES, and brae asked moving() for all ";
    "three: createUfIfPresent.H builds Uf (so a refining case HAS one, and OpenFOAM's own run writes ";
    "it beside every time directory), fvc::correctUf runs (fvcMeshPhi.C:224), and fvc::ddtCorr takes ";
    "the Uf branch (fvcDdt.C:219). A SPLIT FACE INHERITS ITS PARENT'S WHOLE FLUX through a quarter of ";
    "the area -- Field::map copies, it does not divide -- so the mapped flux carries max|div(phi)|/V ";
    "of about 5.0e+02 per second and the alpha equation has nothing to absorb it; the Sf & Uf rebuild ";
    "alone leaves 1.3e+02, and OpenFOAM's pcorr takes it to 2.6e-09 in 8 GAMG iterations. HOST_ONLY is ";
    "a finished state for the ENGINE: topology surgery and six integer maps, not per-cell arithmetic. ";
    "What the DEVICE loop needs is the new topology and the mapped fields uploaded, and every device ";
    "object keyed on the old addressing destroyed -- the same shape as interFoam_dynamicMesh's target ";
    "for motion. FOUND ON THE WAY, each silent: `outerOfStep == 1` is never true on the first ";
    "corrector (it is 0), so a case ran to completion refining nothing; a cached `nC` read before the ";
    "loop made every per-cell statistic use the pre-refinement count (the Courant number read 0.041 ";
    "against OpenFOAM's 0.0880, which is instrumentation and would have been diagnosed as physics); ";
    "`alpha2Bnd` -- alpha2's patch values, which are NOT 1 - alpha1's, because `alpha2 = 1 - alpha1` ";
    "runs one line above the corrector's mixture.correct() -- was neither mapped, recomputed nor ";
    "refused, and updateMixtureBoundary reads it behind a per-face length guard that silently blends ";
    "one face's alpha1 with another's alpha2; and three patch fields inherited ";
    "autoMapComplete() == true from MixedPatchField while leaving their own TOLD per-face state out of ";
    "autoMap, which is the flag that decides whether a change is REFUSED. EVERY PATCH TYPE HAS SINCE ";
    "BEEN RESOLVED: of the 33 classes in fv_patch_field.cuh, 28 answer true and 5 answer false, and ";
    "each of the five names its own reason -- the base (the safety net), processor (parallel, not ";
    "worked on), and cyclic/coupledCyclic/porousBafflePressure, whose blocker is on the MESH side, ";
    "since faceConsistentRefinement refuses any coupled patch before a field is ever mapped. TWO ";
    "ANSWERED TRUE WRONGLY: timeVaryingMappedFixedValue retained nothing, so a refinement handed each ";
    "child its parent's sampled value instead of the table read at the child's own centre ";
    "(MappedFile.C:228-248 resets the interpolator for exactly this), and surfaceNormalFixedValue kept ";
    "only refValue*nf, which cannot be re-formed against a normal that has changed. THE THREE TOLD-STATE ";
    "REFUSALS ARE NOW MAPS, and coarsening was the direction nothing guarded: every length guard is ";
    "`size() < n`, so a SHRINKING patch left a stale vector long enough to pass and read the flux and ";
    "the phase fraction at old face indices."].

Definition c_interFoam_dynamicRefine : component := {|
  name := "interFoam_dynamicRefine";
  of_symbol := "dynamicRefineFvMesh";
  of_file := "src/dynamicFvMesh/dynamicRefineFvMesh/dynamicRefineFvMesh.C";
  classification := "HOST_ONLY";
  status := "REIMPLEMENT";
  of_line := None;
  brae_driver := None;
  brae_existing := None;
  brae_reference := Some "src/dynamicFvMesh/dynamicRefineFvMesh/dynamic_refine_fv_mesh_cpp.cu";
  brae_cuda := None;
  brae_target := Some "";
  validation := Some (cat [c_interFoam_dynamicRefine_validation_1; c_interFoam_dynamicRefine_validation_2]);
  note := Some (cat [c_interFoam_dynamicRefine_note_1]);
  selection_base := None;
  schema_for := None;
  other := [] |}.

Definition c_interFoam_dynamicMesh : component := {|
  name := "interFoam_dynamicMesh";
  of_symbol := "mesh.update";
  of_file := "applications/solvers/multiphase/interFoam/interFoam.C";
  classification := "GPU_REQUIRED";
  status := "REIMPLEMENT";
  of_line := None;
  brae_driver := None;
  brae_existing := None;
  brae_reference := Some "src/applications/solvers/interFoam/inter_driver_cpp.cu";
  brae_cuda := None;
  brae_target := Some "";
  validation := Some (cat [
    "tests/interfoam_moving_vs_openfoam.sh, real OpenFOAM run SERIALLY, ten fixed steps of 2e-4 on ";
    "laminar/testTubeMixer -- a closed tube of water and air on a turntable that also tilts, every ";
    "wall a movingWallVelocity -- against its fields, its moved points, its Uf and its wall ";
    "velocity, with the same tube held still (`staticFvMesh`) as the control. FIVE PROFILES: as ";
    "staged (the tutorial's nAlphaSubCycles 3), MULESCorr, nOuterCorrectors 2 with ";
    "moveMeshOuterCorrectors (the mesh moved twice in one step), without it (the second ";
    "corrector must NOT move it), and momentumPredictor yes. MEASURED, worst of the five: every ";
    "p_rgh iteration count OpenFOAM's (20 to 40 per profile), initial residuals 3.7e-11 in step ";
    "one and 4.8e-09 over the run, alpha 5.6e-12, p_rgh 1.5e-13, U 1.0e-10, Uf 6.8e-11, the wall ";
    "velocity 7.0e-14 on 1050 faces, the moved points OpenFOAM's exactly. THE CONTROL: the still ";
    "tube is 100% of U and 0.8 of alpha away. THE TUTORIAL RUNS AS SHIPPED: vanLeerV (interFoam_vanLeerV) and ";
    "p_rghFinal's PCG with a GAMG preconditioner (interFoam_GAMG) were staged away until each ";
    "was ported. With them, alpha 6.1e-12 and U 7.0e-11 at worst over the five profiles; the ";
    "two non-orthogonal tanks run as shipped too (interFoam_nonOrthCorrection). BROKEN ONCE EACH: phi left absolute after the corrector alpha 9.2e-01 and U ";
    "470%; ddtCorr from phi.oldTime() instead of Sf & Uf.oldTime() 8.1e-02 and 28%; Uf left at ";
    "interpolate(U) 3.3e-02 and 27%; gh and ghf not recomputed 3.3e-04; the GAMG hierarchy kept ";
    "from step one 9.3e-06 and 10 of 20 counts; the mesh moved on every outer corrector 5.1e-07 ";
    "and 29 of 40; oldPoints re-taken on the second update 9.9e-02 and 100%; the wall velocity ";
    "as the face-centre displacement alone, without the swept volume in its normal component, ";
    "and adjustPhi STOPS THE RUN with OpenFOAM's own `continuity error cannot be removed`. WHAT ";
    "THIS GATE CANNOT SEE, because the motion is rigid: every cell keeps its volume to round-off, ";
    "so V0 against V in fvm::ddt and MULES and Vsc's interpolation inside a sub-cycle move the ";
    "answer by 1e-15 -- transcribed, and gated only by a mesh that deforms. NOT CLAIMED: ";
    "a turbulent case on a moving mesh (refused) and the device (refused). correctPhi is ";
    "interFoam_correctPhi, and a wave condition on a moving mesh runs: see there."]);
  note := Some (cat [
    "WHAT interFoam DOES ON A MOVING MESH, in the order of interFoam.C:118-148 and pEqn.H. At the top ";
    "of the first outer corrector: mesh.update(), whose last line is U.correctBoundaryConditions() -- ";
    "a movingWallVelocity takes Uwall = Up + n*(Un - n&Up) with Up the face::centre displacement ";
    "over deltaT and Un = meshPhi/(magSf + VSMALL): the normal component is the SWEPT VOLUME's, so ";
    "the wall's flux is the mesh flux and a closed tank's adjustPhi closes on it; then gh and ghf ";
    "from the new centres; the correctPhi block is skipped when the case says `correctPhi no`, ";
    "which every solid-body tutorial does. The alpha sub-cycle convects with the RELATIVE phi the ";
    "last corrector left and divides by Vsc; fvm::ddt(rho, U) carries V0 in its source; ddtCorr(U, ";
    "phi, Uf) is ddtCorr(U, Uf) on a dynamic mesh: Sf & Uf.oldTime() in phi.oldTime()'s place, with ";
    "the NEW Sf and weights; adjustPhi sees phiHbyA made relative and is made absolute again; after ";
    "`phi = phiHbyA - p_rghEqn.flux()` and U's correction, fvc::correctUf replaces Uf's normal ";
    "component by the ABSOLUTE flux's and fvc::makeRelative subtracts meshPhi, so the phi that ";
    "leaves the corrector is relative. GAMGAgglomeration::movePoints marks the hierarchy for ";
    "rebuilding at every step (updateInterval 1), from wherever the static pairing direction was ";
    "left. A TRANSCRIPTION SLIP FOUND ON THE WAY: ddtCorr's limiter divided by |phi| + 1e-37, ";
    "the FLOAT build's VSMALL (floatScalar.H:64), where OpenFOAM's double build adds SMALL = 1e-15 ";
    "(doubleScalar.H:62); the two differ only where |phi| is at or below 1e-15 and no gated number ";
    "moved when it was corrected, on the host or on the device (device_inter_peqn.cu had it too and ";
    "tests/test_device_inter_peqn.cu holds the two bit-identical); time_controls.cuh's setDeltaT ";
    "still divides by CoNum + 1e-37 where setDeltaT.H adds SMALL (open finding, in that ";
    "component). THE DRIVER TAKES ITS MESH BY CONST REFERENCE and a moving ";
    "case needs the same objects mutable -- the points, the geometry, and the patches every patch ";
    "field references -- so runInterFoam takes a MutableMesh naming them, checked by address, and ";
    "refuses a moving case without one."]);
  selection_base := None;
  schema_for := None;
  other := [] |}.

Definition c_interFoam_correctPhi : component := {|
  name := "interFoam_correctPhi";
  of_symbol := "CorrectPhi";
  of_file := "src/finiteVolume/cfdTools/general/CorrectPhi/CorrectPhi.C";
  classification := "GPU_REQUIRED";
  status := "REIMPLEMENT";
  of_line := None;
  brae_driver := None;
  brae_existing := None;
  brae_reference := Some "src/applications/solvers/interFoam/inter_correct_phi_cpp.cuh";
  brae_cuda := None;
  brae_target := Some "";
  validation := Some (cat [
    "tests/interfoam_moving_vs_openfoam.sh, real OpenFOAM run serially for fixed steps. FIVE ";
    "PROFILES: the three solid-body tanks with `correctPhi yes` (testTubeMixer; sloshingTank2D's ";
    "non-orthogonal pcorr laplacian; sloshingCylinder's non-orthogonal corrector, pcorr then ";
    "pcorrFinal, staged `maxIter 1000` because the shipped 100 leaves PCG unconverged at 0.1 to ";
    "0.3 in both codes and then reads alpha 7.6e-09 on 22 of 22 counts); laminar/waves/";
    "waveMakerSolitary AS SHIPPED, thirty steps -- a deforming mesh, correctPhi by default, an ";
    "absorbing outlet, an open top; and closed damBreak STARTED MOVING, U (0.1 0 0) against its ";
    "walls, where initCorrectPhi does 79 iterations of work. Every other profile of the gate ";
    "compares initCorrectPhi's start-up solve too. MEASURED: every pcorr and p_rgh iteration count ";
    "OpenFOAM's; waveMakerSolitary alpha 2.9e-12, p_rgh 3.3e-13, U 1.7e-10; the tanks alpha ";
    "1.4e-12, 3.0e-13, 1.2e-10; the moving dam alpha 1.2e-14, U 2.3e-12. BROKEN ONCE EACH: ";
    "correctUphiBCs skipped, and phi not rebuilt from Sf & Uf, both stop the run in adjustPhi as ";
    "OpenFOAM would; rAUf = 1 alpha 3.6e-02; no pcorr reference 4.1e-07; phi left absolute ";
    "9.9e-01; pcorr's non-orthogonal flux dropped 4.9e-01 (the cylinder -- identically zero with ";
    "no corrector, since pcorr starts at 0); initCorrectPhi skipped 3.2e-02 on the moving dam; ";
    "fvm::ddt's V0 as V 1.1e-02 and the sub-cycle's Vsc as V 2.6e-03 on waveMakerSolitary, the ";
    "first gated case whose cells change volume; the outlet's wave model updated in UEqn ";
    "rather than at the mesh update U 2.0e-05. NOT CLAIMED: the curvature pass after ";
    "CorrectPhi (under 3e-13 on these tanks), the corrected flux handed to flux-conditional ";
    "patches (a closed tank has none), a divU, and the device (it runs initCorrectPhi on the ";
    "host and refuses a moving mesh). GRAD(pcorr)'S ENTRY, tests/interfoam_les_vs_openfoam.sh ";
    "`pcorrGrad`: LES/nozzleFlow2D with `grad(pcorr) leastSquares;` named on its own, a mesh ";
    "non-orthogonal to 40 degrees with one non-orthogonal pass, where the start-up pcorr's ";
    "second pass takes its correction from that gradient and the entry moves OpenFOAM's own U ";
    "by 1.7e-05 (the control). MEASURED on BOTH arms: U 4.5e-12, p_rgh 8.3e-11, alpha 6.6e-12, ";
    "all 400 p_rgh counts. FOUND: the device driver's start-up controls were assembled by hand ";
    "without the entry -- Gauss linear whatever the case named -- behind a refusal of every ";
    "non-Gauss-linear grad(pcorr) that CorrectPhi, a host operator on both arms, never needed. ";
    "One builder (correctPhiControlsOf) now serves the host driver, the device's start-up and ";
    "its mesh update; the refusal keeps alpha, p_rgh, rho, U and nHat. BROKEN ONCE, the entry ";
    "dropped from the builder: both arms U 1.79e-05, the scheme's own distance."]);
  note := Some (cat [
    "ONE CorrectPhi (CorrectPhi.C:36-117): correctUphiBCs when the mesh is changing -- every velocity ";
    "patch that FIXES A VALUE evaluated again, a pressureInletOutletVelocity against the Sf & Uf ";
    "flux, and phi there set to U_b & Sf; pcorr zero, fixedValue where p_rgh fixes a value and ";
    "zeroGradient elsewhere; on a closed domain phi made relative, adjustPhi, made absolute; ";
    "laplacian(rAUf, pcorr) == div(phi), pinned at cell 0 to 0 when it needs a reference, solved ";
    "nNonOrthogonalCorrectors + 1 times with pcorrFinal last; phi -= flux() on the last pass, the ";
    "face correction included. interFoam.C:136-146 then makes phi relative and calls ";
    "mixture.correct(), which recomputes nHatf on the moved mesh. initCorrectPhi.H runs it at the ";
    "start of EVERY case with rAUf exactly 1 (OpenFOAM's interpolation of a uniform 1 is exact); on ";
    "a case at rest it is one solve of zero iterations, and no existing gate moved a digit when it ";
    "went in. rAU is kept across steps under correctPhi (pEqn.H:4). THREE THINGS CHANGED ON THE WAY: ";
    "pressureInletOutletVelocity now FIXES A VALUE, as directionMixed does in OpenFOAM (it said ";
    "false; switching it moved nothing on damBreak, waves or capillaryRise, host or device); PCG ";
    "with a GAMG preconditioner builds the mesh's hierarchy only when its initial residual has not ";
    "converged, as PCG.C constructs its preconditioner, so a pcorr at rest neither builds it nor ";
    "flips the pairing direction; and on a moving mesh the wave velocity model updates at the mesh ";
    "update, where OpenFOAM's log has it. A wave condition on a moving mesh is no longer refused: ";
    "OpenFOAM's model keeps its construction geometry and reads the patch's current magSf, and ";
    "brae's does the same. CLOSED, found on the way: brae's dictionary expansion resolved `$name` ";
    "only against literal keys, where OpenFOAM's keyword substitution matches patterns too ";
    "(REGEX_RECURSIVE, dictionary.C:415-443) -- the two multi-paddle waveMakers write ";
    "`p_rgh { $pcorr; ... }` against a `" ++ dq ++ "(pcorr|pcorrFinal)" ++ dq ++ "` entry, and brae read no solver ";
    "there and ran PBiCGStab under a notice. The expander now searches as dictionary::csearch ";
    "does (tests/test_dict_scoped_macro.cu, scored against foamDictionary -expand over the 9,500 ";
    "tutorial dictionaries: 2,958 moved entries agree with OpenFOAM, 17 agreed only before), and ";
    "both cases are profiles of the moving gate."]);
  selection_base := None;
  schema_for := None;
  other := [] |}.

Definition c_interFoam_interfaceCompression : component := {|
  name := "interFoam_interfaceCompression";
  of_symbol := "interfaceCompressionLimiter";
  of_file := "src/transportModels/interfaceProperties/interfaceCompression/interfaceCompression.H";
  classification := "GPU_REQUIRED";
  status := "REIMPLEMENT";
  of_line := None;
  brae_driver := None;
  brae_existing := None;
  brae_reference := Some "src/finiteVolume/interpolation/surfaceInterpolation/limitedSchemes/limitedSchemes_cpp.cuh";
  brae_cuda := None;
  brae_target := Some "";
  validation := Some (cat [
    "tests/interfoam_dambreak_vs_openfoam.sh's `compression`: damBreak at dt 5e-3 with ";
    "`div(phirb,alpha) Gauss interfaceCompression`, on a mesh that does not move. MEASURED: ";
    "every p_rgh and alpha iteration count OpenFOAM's, alpha 6.6e-14, p_rgh 3.1e-14, U 2.2e-13. ";
    "THE CONTROL: the scheme moves OpenFOAM's own alpha by 1.03e-01 against `Gauss linear`. ";
    "BROKEN ONCE EACH: the quadratic form OpenFOAM leaves commented out 1.0e-02 of alpha; min ";
    "for max 8.1e-02. NOT DISCRIMINATED: pos against pos0 in the blend (no face where the ";
    "limiter is below 1 carries exactly zero flux). END TO END, tests/interfoam_moving_vs_openfoam.";
    "sh's `piston` and `flap`: laminar/waves/waveMakerPiston and waveMakerFlap, thirty steps of ";
    "0.01, the mesh deformed by the paddle, correctPhi, the absorbing outlet -- with p_rgh, ";
    "p_rghFinal and pcorr converged to 1e-13, because as shipped their 135- to 480-iteration ";
    "solves carry last-bit differences out to U 3.9e-07 on the piston (converged: 1.6e-09); ";
    "alpha 1.5e-12 and 1.0e-11, U 1.6e-09 and 1.1e-09, every solve below its tolerance in both ";
    "codes, counts equal on short solves and within 2% on long ones (3 of 194 at worst). NOT ";
    "CLAIMED: the device, which refuses the scheme by name -- its alpha mapping took it as ";
    "linear until the host ported it. THE TWO MULTI-PADDLE waveMakers, `multiPiston` and ";
    "`multiFlap` of the same script: AS SHIPPED on their own 448000-cell 3-D mesh, four paddles ";
    "at 45 degrees, thirty steps of 0.01, GAMG as the solver of pcorr and p_rgh through ";
    "`p_rgh { $pcorr; }`. MEASURED (piston, flap): all 90 p_rgh and all 31 pcorr iteration ";
    "counts OpenFOAM's, alpha 5.7e-13 and 2.9e-12, p_rgh 5.6e-13 and 2.6e-12, U 2.2e-10 and ";
    "1.8e-09, the moved points 1.1e-16 of the extent; the control, OpenFOAM with its mesh held ";
    "still, U 100%. BROKEN ONCE, the pattern lookup taken out of the dictionary reader: 48 of ";
    "90 p_rgh counts, alpha 9.7e-04, U 1.0e-01. AND THE DEVICE ARM on both, same script, same ";
    "thirty steps as shipped: all 90 p_rgh counts OpenFOAM's, alpha 7.7e-14 and 1.7e-13, p_rgh ";
    "7.7e-14 and 1.7e-13, U 6.7e-11 and 6.7e-11, Uf 5.8e-11 and 5.5e-11 -- and a second device ";
    "run in the same process reproduces the first to the bit. BROKEN ONCE EACH: the device GAMG ";
    "upload kept while the host hierarchy was rebuilt on the moved mesh, a heap corruption ";
    "(free(): invalid next size) the sweep had reported as the flap's TIMEOUT; the Gauss-Seidel ";
    "level cache keyed on the owner pointer and the sizes alone, which the pool recycles across ";
    "the per-step rebuild: piston U 3.0e-02, 89 of 90 counts."]);
  note := Some (cat [
    "A PhiScheme (interfaceCompression.C:33-41), so the limiter reads the two cell values of the field ";
    "and nothing else: clamp(1 - max(sqr(1 - 4 phiP (1 - phiP)), sqr(1 - 4 phiN (1 - phiN))), 0, 1), ";
    "the quartic form -- 1 where both cells are half full, 0 where either is empty or full -- blended ";
    "as limitedSurfaceInterpolationScheme::weights does, limiter*CDweight + (1 - limiter)*";
    "pos0(faceFlux), and 1 on an uncoupled patch (PhiScheme.C). alphaEqn.H applies it twice through ";
    "fvc::flux(-fvc::flux(-phir, alpha2, alpharScheme), alpha1, alpharScheme): on alpha2 upwinded by ";
    "-phir, then on alpha1 by the negated result."]);
  selection_base := None;
  schema_for := None;
  other := [] |}.

Definition c_interFoam_pressureReference : component := {|
  name := "interFoam_pressureReference";
  of_symbol := "setRefCell";
  of_file := "src/finiteVolume/cfdTools/general/findRefCell/findRefCell.C";
  classification := "GPU_REQUIRED";
  status := "REIMPLEMENT";
  of_line := None;
  brae_driver := None;
  brae_existing := None;
  brae_reference := Some "src/applications/solvers/interFoam/inter_case_cpp.cu";
  brae_cuda := None;
  brae_target := Some "";
  validation := Some (cat [
    "tests/interfoam_moving_vs_openfoam.sh's `closedDamBreak`: laminar/damBreak with its atmosphere ";
    "WALLED OFF (U fixedValue 0, p_rgh fixedFluxPressure, alpha zeroGradient) and PIMPLE naming ";
    "`pRefPoint (0.292 0.292 0.0073); pRefValue 0;`, twenty of the tutorial's own steps against real ";
    "OpenFOAM. MEASURED: 60 of 60 p_rgh iteration counts, initial residuals 2.0e-11 over the run, ";
    "alpha 1.2e-14, p_rgh 9.5e-15, p 5.7e-15, U 8.1e-14. THE CONTROL: OpenFOAM's own closed dam with ";
    "`pRefValue 1e5`, whose p is 89 times its magnitude away and whose U is 3.0e-11 away -- the ";
    "reference moves the level and nothing else. BROKEN ONCE: the reference cell pinned at ";
    "pRefValue rather than its current p_rgh (what this code did on a path no gated case had ";
    "taken) reads 15 of 60 counts and U 4.4e-05 on the closed dam, 18 of 20 and 5.3e-07 on the ";
    "moving tube. Every solid-body tutorial is a closed tank and takes this path -- and ";
    "sloshingTank2D's pRefPoint (0 0 0.15) LIES ON A FACE: findCell takes the nearer of two ";
    "centres 5e-16 apart, brae took the other one while its face centres differed from ";
    "OpenFOAM's in the last bit, and read alpha 2.8e-06 and 18 of 20 counts for it. NOT CLAIMED: ";
    "polyMesh::findCell's octree fallback when the face-plane test finds no cell (refused by ";
    "name), and the device (refused: its reference is the pRefValue one). AND THROUGH A ";
    "TOPOLOGY CHANGE, tests/interfoam_amr_vs_openfoam.sh's `closed` profile: OpenFOAM locates ";
    "the reference ONCE (createFields.H:104-113) and NO solver re-locates or renumbers it, so ";
    "after a refinement it pins the SAME INDEX -- a different cell on the refined mesh -- and ";
    "brae keeps the label. What is refused is an index past the end after an unrefinement, ";
    "where OpenFOAM reads out of bounds in its own Release build. MEASURED: all 9 solves on ";
    "OpenFOAM's counts, alpha 1.6209e-14, p 1.9964e-14 relative, the reference cell 16400 of ";
    "82264 and p pinned at pRefValue there in BOTH codes. THE CONTROL pins a cell the change ";
    "added (p 1.8350e-03, eleven orders out); renumbering through reverseCellMap is VACUOUS ";
    "under pure refinement, measured -- hexRef8 modifies the parent in place and adds the ";
    "other seven, so 16400 -> 16400."]);
  note := Some (cat [
    "p_rgh.needReference() is `no patch fixes a value` (GeometricField.C:1068-1085). setRefCell ";
    "(findRefCell.C:36-110) then reads pRefCell, or pRefPoint located by findCell(point, FACE_PLANES): ";
    "the nearest cell centre if the point is inside that cell by every face plane -- (Sf & (p - Cf)) ";
    "<= 0 with Sf flipped for a neighbour -- else the FIRST cell in index order that is; and ";
    "pRefValue, mandatory. createFields.H:115-124 shifts p by pRefValue - p[refCell] and rebuilds ";
    "p_rgh from it once at the start; pEqn.H:47 pins the reference cell at getRefCellValue(p_rgh, ";
    "pRefCell), ITS CURRENT p_rgh -- not at pRefValue, which is p's level, applied again at ";
    "pEqn.H:74-83 after the solve with p_rgh rebuilt from the shifted p. adjustPhi (adjustPhi.C) ";
    "runs on such a case only: the outflow of every patch whose U does not fix a value (an ";
    "inletOutlet counts as adjustable) is scaled to balance the inflow, and an imbalance no ";
    "adjustable outflow can remove stops the run -- which is what a wall velocity with the wrong ";
    "normal component does on a closed tank. brae's driver set needReference = false with a note ";
    "that damBreak's atmosphere is a totalPressure; every case gated before this one had one."]);
  selection_base := None;
  schema_for := None;
  other := [] |}.

Definition c_interFoam_vanLeerV : component := {|
  name := "interFoam_vanLeerV";
  of_symbol := "vanLeerV";
  of_file := "src/finiteVolume/interpolation/surfaceInterpolation/limitedSchemes/vanLeer/vanLeer.C";
  classification := "SHARED_NUMERICAL";
  status := "REIMPLEMENT";
  of_line := None;
  brae_driver := None;
  brae_existing := None;
  brae_reference := Some "src/finiteVolume/interpolation/surfaceInterpolation/limitedSchemes/limitedSchemes_cpp.cuh";
  brae_cuda := None;
  brae_target := Some "src/cuda/device_fvm.cu";
  validation := Some (cat [
    "tests/interfoam_dambreak_vs_openfoam.sh's `vanleerv` profile: laminar/damBreak at the big step ";
    "with `div(rhoPhi,U) Gauss vanLeerV` in place of its linearUpwind, five steps against real ";
    "OpenFOAM, host and device, with the big-step run as the control. MEASURED: alpha 1.2e-13, ";
    "U 3.1e-13 on the host and alpha 3.8e-14, U 1.2e-11 on the device, all 15 p_rgh counts ";
    "OpenFOAM's; the scheme moves OpenFOAM's own alpha by 2.0e-01. AND ON THE FIXTURE IT EXISTS ";
    "FOR: tests/interfoam_moving_vs_openfoam.sh's testTubeMixer, whose own fvSchemes name it, now ";
    "run as shipped there. BROKEN ONCE: ";
    "vanLeer's limiter replaced by limitedLinear's clamp of 2r on the same r, host and device ";
    "alike, alpha 2.1e-01 (45% of the change the scheme makes). A SECOND PROFILE, `linear`, holds ";
    "`Gauss linear` on div(rhoPhi,U) on both paths (alpha 9.8e-14 host, 1.2e-13 device), for the ";
    "reason in the note."]);
  note := Some (cat [
    "vanLeerV IS LimitedScheme<vector, vanLeerLimiter<NVDVTVDV>, null> (vanLeer.C:37): the r of the V ";
    "schemes -- one per face, from the vector difference across it dotted with the upwind cell's ";
    "gradient projected on d (NVDVTVDV.H) -- with vanLeer's (r + |r|)/(1 + |r|), which is not ";
    "clamped and reaches 2. The gradient is fvc::grad(U) through the case's grad(U) entry ";
    "(LimitedScheme::calcLimiter). brae already had both halves: rVector for limitedLinearV and ";
    "vanLeerLimiter for div(phi,alpha); vanLeerVWeights is their product. On the device the V kernel ";
    "selected its limiter by clamping alone, so the limiter selection was hoisted out of the scalar ";
    "kernel into limiterOfR and both kernels take it, vanLeer chosen by the kVanLeerTwoByk sentinel. ";
    "THE `linear` PROFILE EXISTS BECAUSE OF WHAT WAS FOUND WIRING THIS: interFoam's own scheme enum ";
    "has `linear` (three shipped tutorials name it) and its device mapping had no case for it, so ";
    "it fell through the switch's `default` to upwind -- a -device run would have convected upwind ";
    "under the name `linear`. The shared cpu::DivScheme now has `linear` (deviceDivCentralCoeffs; ";
    "the mesh's own weights on the host) and the mapping names every scheme with no default."]);
  selection_base := None;
  schema_for := None;
  other := [] |}.

Definition c_interFoam_limitedLinear : component := {|
  name := "interFoam_limitedLinear";
  of_symbol := "limitedLinear";
  of_file := "src/finiteVolume/interpolation/surfaceInterpolation/limitedSchemes/limitedLinear/limitedLinear.C";
  classification := "SHARED_NUMERICAL";
  status := "REIMPLEMENT";
  of_line := None;
  brae_driver := None;
  brae_existing := None;
  brae_reference := Some "src/applications/solvers/interFoam/inter_ueqn_cpp.cu";
  brae_cuda := None;
  brae_target := None;
  validation := Some (cat [
    "tests/interfoam_limitedlinear_vs_openfoam.sh, real OpenFOAM on ";
    "laminar/vofToLagrangian/eulerianInjection AS ITS Allrun MESHES IT (blockMesh, topoSet, ";
    "subsetMesh, the patch and collector sets, setFields) with the block at 45^3 in place of ";
    "75^3, 90627 cells; its own `div(rhoPhi,U) Gauss limitedLinear 0.2`; 60 fixed steps of ";
    "2e-5. MEASURED: alpha 9.2e-14, p_rgh 8.8e-12, U 2.7e-12, all 180 p_rgh counts OpenFOAM's; ";
    "bounds at about 30x. THE CONTROLS, OpenFOAM against itself: `Gauss upwind` 8.0e-01, ";
    "`Gauss limitedLinear 1` 7.8e-01. BROKEN ONCE EACH (U): the V form's weights 8.5e-01; ";
    "magSqr's patch values taken from the face cells 4.3e-01; the coefficient ignored 7.8e-01; ";
    "upwind in its place 8.0e-01; the limiter on mag(U) 8.2e-01. WHY 60 STEPS: the gap opens at ";
    "step 68 in one near-air cell at the jet edge, where the density ratio of 1000 turns ";
    "alpha's 4e-13 into rho's 3e-10, and reads U 1.2e-08 at 100; brae against itself with only ";
    "the face interpolation's arithmetic reordered reads 2.9e-09 there, so that growth is the ";
    "case's conditioning. NOT CLAIMED: the tutorial's 420k-cell mesh (a bench size), its ";
    "Lagrangian function object (stripped), limitedLinear across a coupled patch (refused), ";
    "and the device loop (refused by name)."]);
  note := Some (cat [
    "limitedLinear on a VECTOR is LimitedScheme<vector, limitedLinearLimiter<NVDTVD>, ";
    "limitFuncs::magSqr> (LimitedScheme.H:185-189): ONE scalar limiter per face, computed on ";
    "magSqr(U) with grad(magSqr(U)), carrying all three components -- not per component and not ";
    "the V form. The host had the scalar weights already (limitedLinearWeights, k and epsilon); ";
    "interFoam's momentum refused the scheme by name until now. The coefficient is read with no ";
    "default and must lie in [0, 1] or OpenFOAM stops (limitedLinear.H:67-76); brae's reader ";
    "used to default a missing one to 1, and now refuses both. THE DEVICE momentum has a ";
    "limitedLinear branch that reads U 5.1e-01 against OpenFOAM on a DIC-smoother twin of this ";
    "case at 50 steps, where the host reads 3.9e-12 and the device under upwind 1.1e-13; the ";
    "device loop refuses the scheme and that branch is an open finding. HOST ONLY SO FAR."]);
  selection_base := None;
  schema_for := None;
  other := [] |}.

Definition c_interFoam_nonOrthCorrection : component := {|
  name := "interFoam_nonOrthCorrection";
  of_symbol := "correctedSnGrad";
  of_file := "src/finiteVolume/finiteVolume/snGradSchemes/correctedSnGrad/correctedSnGrad.C";
  classification := "SHARED_NUMERICAL";
  status := "REIMPLEMENT";
  of_line := None;
  brae_driver := None;
  brae_existing := None;
  brae_reference := Some "src/applications/solvers/interFoam/inter_peqn_cpp.cu";
  brae_cuda := None;
  brae_target := Some "";
  validation := Some (cat [
    "tests/interfoam_moving_vs_openfoam.sh's two non-orthogonal tanks, against real OpenFOAM: ";
    "laminar/sloshingTank2D as shipped but for p_rghFinal -- SDA motion, 44-degree chamfered ";
    "cells, `Gauss linear corrected` and `corrected`, nAlphaSubCycles 3, cAlpha 1.5, 2-D -- ten of ";
    "its own steps: 20 of 20 p_rgh counts, alpha 5.8e-15, p_rgh 3.2e-14, U 3.9e-13, the still ";
    "tank 100% of U away; and laminar/sloshingCylinder -- a snappyHexMesh cylinder of polyhedra ";
    "at 26 degrees, MULESCorr, nNonOrthogonalCorrectors 1, its oscillation's phase and vertical ";
    "shifts zeroed because as shipped the mesh jumps 6.9 cm at the first update and OpenFOAM ";
    "itself blows up at any fixed step -- ten steps of 0.001: 40 of 40 counts, alpha 6.9e-11, U ";
    "1.0e-08. BROKEN ONCE EACH (tank / cylinder): the pressure laplacian's explicit correction ";
    "dropped from the source 8.7e-02 / 2.1e-01; its face flux dropped from p_rghEqn.flux() 9.5e-02 ";
    "/ 2.6e-01; the viscous laplacian orthogonal 6.4e-10 / 2.7e-04; the three snGrads orthogonal ";
    "1.3e-11 / 4.6e-04 (the tank's interface is horizontal; the cylinder is the fixture for that ";
    "one). tests/interfoam_refusals.sh: `corrected` on a sheared damBreak RUNS on the host and is ";
    "refused on the device; `uncorrected` on it is refused by name; and three gradSchemes arms. ";
    "WHAT IT DOES NOT CLAIM: `uncorrected` on a mesh that is not orthogonal, any gradSchemes ";
    "entry but `Gauss linear`. ON THE DEVICE (2026-09-19), one module at a time, each transcribed ";
    "from the host: the p_rgh laplacian's non-orthogonal LOOP (device_inter_pressure_step.cu, from ";
    "pressureCorrector) -- nNonOrthogonalCorrectors + 1 passes, nonOrthDeltaCoeffs, the explicit ";
    "correction from grad(p_rgh) on its stored patch values, the face-flux correction in ";
    "p_rghEqn.flux(), the Final entry on the last pass only. Its kernels are the host's bit for bit ";
    "(tests/test_device_laplacian_vs_host.cu, tests/test_device_gauss_grad.cu); the pass against the ";
    "host's on a sheared box, corrected, one non-orthogonal corrector: p_rgh 3.4e-11 relative, U ";
    "9.3e-13, the device assembled orthogonal 3.9e-02 (tests/test_device_inter_pressure_step.cu); ";
    "BROKEN ONCE EACH, p_rgh / U.x of 1.2e+06 / 1.2e+02: the correction dropped from the source ";
    "8.3e+04 / 1.3e+01, its face flux dropped 0 / 2.0e+01, one pass 8.3e+04 / 1.7e+01, the boundary ";
    "not re-evaluated between passes 5.0e+05 / 1.2e+02. End to end, laminar/damBreak `nonorth` on ";
    "the device against OpenFOAM: alpha 6.8e-14, p_rgh 7.1e-14, U 8.9e-12, all 30 p_rgh counts ";
    "OpenFOAM's. THEN THE OTHER SITES, each transcribed from the host driver's own call: the three ";
    "snGrads in the interface-force hook -- snGrad(alpha) in the surface tension, snGrad(rho) in ";
    "phig, snGrad(p_rgh) in the predictor's source, each under snGradSchemes with that field's own ";
    "gradSchemes entry, where the hook had `false` -- and the viscous laplacian, the shared ";
    "assembler handed the case's flags (device_inter_step.cu; its own gate is ";
    "tests/test_device_inter_ueqn_assembly.cu on a sheared box, corrected and `limited 0.5`, the ";
    "device assembled orthogonal 3.5e-05 of the source, and the fixture needed a 1e5x viscosity ";
    "before the correction was visible in a source dominated by rho*U/dt). CorrectPhi's pcorr is ";
    "host operators under the same flag; the closure's k and epsilon carry theirs already. WITH ALL ";
    "OF IT the device runs a mesh that is not orthogonal: laminar/damBreak `sheared` (six degrees, ";
    "momentum predictor on, nNonOrthogonalCorrectors 1, a moving start, phirb vanLeer) against ";
    "OpenFOAM -- alpha 1.8e-14, p_rgh 1.6e-14, U 4.9e-12 relative, every p_rgh and alpha count ";
    "OpenFOAM's. BROKEN ONCE EACH, that arm's alpha / U: snGrad(rho) orthogonal 4.3e-01 / 4.3e+00, ";
    "snGrad(p_rgh) 7.2e-03 / 3.8e+00, snGrad(alpha) 5.5e-04 / 3.3e-03. STILL REFUSED on the device: ";
    "`uncorrected` on a mesh that is not orthogonal (tests/interfoam_refusals.sh ";
    "device_sheared_uncorrected), and every gradSchemes entry but `Gauss linear`."]);
  note := Some (cat [
    "THE OPERATORS, from gaussLaplacianSchemes.C and correctedSnGrad.C: a corrected laplacian's matrix ";
    "takes nonOrthDeltaCoeffs on the internal faces and the patch's own coefficients on the boundary; ";
    "its source takes -V*div(gammaMagSf*snGradCorrection(vf)), the correction being ";
    "nonOrthCorrectionVectors dotted with the linear interpolate of grad(vf) THROUGH vf's OWN ";
    "gradSchemes entry, a vector field's by component and so through `default`; and because ";
    "p_rgh is fluxRequired the same face field is kept as the matrix's faceFluxCorrection, which ";
    "p_rghEqn.flux() adds back so `phi = phiHbyA - flux` stays conservative. A corrected snGrad is ";
    "nonOrthDeltaCoeffs*(vfN - vfP) plus that correction. `limited <c>` caps the correction per ";
    "face against the orthogonal part. brae had all of it (fvm.cuh, fvc.cu, addDivDevReff) from ";
    "rhoSimpleFoam; interFoam refused every corrected scheme on a mesh that was not orthogonal and ";
    "now passes the case's flags through the pressure equation, the viscous term and the three ";
    "snGrads -- p_rgh in the predictor's force, rho in phig, alpha in the surface-tension force. ";
    "`uncorrected` is NOT brae's orthogonal assembly: uncorrectedSnGrad takes nonOrthDeltaCoeffs, ";
    "orthogonalSnGrad takes deltaCoeffs (uncorrectedSnGrad.H:91, orthogonalSnGrad.H:91), so it is ";
    "refused on a mesh where they differ. gradSchemes WERE NEVER READ by this solver: 40 of the 44 ";
    "tutorials write `default Gauss linear;` alone, and the four that limit a gradient ";
    "(mixerVesselAMI, DTCHull, DTCHullMoving, electrostaticDeposition) would have run unlimited; ";
    "every entry but `Gauss linear` is refused now. TWO FINDINGS ON THE WAY, both about a mesh ";
    "that is not a mesh of rectangles: fv_geometry's face centres were (1/3)*(sumAc/sumA) where ";
    "primitiveMeshTools.C computes (1/3)*sumAc/sumA, and a triangle's (a+b+c)/3 where OpenFOAM ";
    "writes (1/3)*(a+b+c) -- with OpenFOAM's order V and C are OpenFOAM's to the bit on every mesh ";
    "the motion gate runs (hex, chamfered, snappy), where they read 1e-14 before; and that last ";
    "digit decided the pressure reference of sloshingTank2D, whose pRefPoint lies on a face ";
    "(interFoam_pressureReference)."]);
  selection_base := None;
  schema_for := None;
  other := [] |}.

Definition c_interFoam_vanLeer : component := {|
  name := "interFoam_vanLeer";
  of_symbol := "vanLeer";
  of_file := "src/finiteVolume/interpolation/surfaceInterpolation/limitedSchemes/vanLeer/vanLeer.C";
  classification := "SHARED_NUMERICAL";
  status := "REIMPLEMENT";
  of_line := None;
  brae_driver := None;
  brae_existing := None;
  brae_reference := Some "src/cuda/device_fvm.cu";
  brae_cuda := None;
  brae_target := Some "src/cuda/device_fvm.cu";
  validation := Some (cat [
    "tests/test_scheme_blocks.cu -- the selector, with a fail-proof; and the limiter ";
    "against vanLeer.H:70 directly. It asymptotes to 2, not 1: it is a Sweby TVD ";
    "limiter, not a [0,1] blend, and writing the clamp limitedLinear needs would ";
    "make it a different scheme."]);
  note := Some (cat [
    "EVERY interFoam tutorial uses `div(phi,alpha) Gauss vanLeer`. brae has limitedLinear/V, ";
    "vanAlbada, LUST, linearUpwind/V -- not vanLeer. Small, and blocking."]);
  selection_base := None;
  schema_for := None;
  other := [] |}.

Definition c_interFoam_alphaCourantNo : component := {|
  name := "interFoam_alphaCourantNo";
  of_symbol := "alphaCourantNo";
  of_file := "applications/solvers/multiphase/VoF/alphaCourantNo.H";
  classification := "CONFIGURATION";
  status := "REIMPLEMENT";
  of_line := None;
  brae_driver := None;
  brae_existing := None;
  brae_reference := Some "src/finiteVolume/cfdTools/general/time_controls.cuh";
  brae_cuda := None;
  brae_target := Some "src/finiteVolume/cfdTools/general/device_alpha_courant.cu";
  validation := Some (cat [
    "tests/test_alpha_courant_cpp.cu. Four fail-proofs: defaulting maxAlphaCo, ";
    "pos for pos0, masking the mean's denominator, and dropping the alpha limit ";
    "from setDeltaT. ON THE DEVICE, tests/test_device_alpha_courant.cu repeats ";
    "three of them plus the boundary half of surfaceSum (0.0035 against 0.0043), ";
    "with the fixture landing 40 cells EXACTLY on the band's edges so pos and pos0 ";
    "differ. Agreement is 1e-14 relative and NOT bit-exact, and that is itself the ";
    "measurement: a max over per-cell sums would be bit-identical if the sums were, ";
    "so the one ULP proves sumPhi is a gather here and a scatter on the host."]);
  note := Some (cat [
    "A SECOND Courant number, over the interface cells only, because the ordinary one is a ";
    "global max set by whatever corner runs fastest -- usually nowhere near the ";
    "interface -- and MULES does not stop the interface being advected more than a cell ";
    "per step. Landed alongside the existing time_controls, which already gives every ";
    "transient solver CourantNo/setInitialDeltaT/setDeltaT (brae_pimpleFoam stopped ";
    "refusing adjustTimeStep when that landed). Four things: maxAlphaCo is get<scalar> ";
    "with NO default where maxCo defaults to 1, so the same controlDict is refused by ";
    "one reader and not the other; nearInterface() is a 0/1 MASK over the CLOSED band ";
    "[0.01, 0.99] (pos0 is 1 at exactly zero), so the two cells at its edges -- the ones ";
    "an advancing interface is passing through -- are counted; meanAlphaCoNum divides by ";
    "gSum(V) over the WHOLE mesh, not the interface volume; and with no interface ";
    "alphaCoNum is exactly 0 so maxAlphaCo/(0+SMALL) lets maxCo alone set the step, ";
    "which a differently-guarded division would turn into a freeze. FEEDING IT BACK ";
    "INTO deltaT found two more things, both silent. Time::run() is `value() < endTime - ";
    "0.5*deltaT`, tested BEFORE setDeltaT with the previous step -- nothing in brae ";
    "implemented it, brae_interFoam bounded its loop by a step COUNT computed from the ";
    "initial deltaT, and damBreak at `endTime 0.004` ran out to t = 0.054, thirteen times ";
    "past the end of the case, under a comment claiming the end time stopped it. And ";
    "Time::setDeltaT takes `adjust = true` by default (Time.C:1178) and calls ";
    "Time::adjustDeltaT, which under `writeControl adjustable` SHORTENS the step to land ";
    "on the next write time: damBreak writes every 0.05, so OpenFOAM's first step is ";
    "0.05/417 = 0.000119904 where brae's unclamped setDeltaTVoF gave 0.00012. Both are ";
    "ported (WriteCadence + adjustDeltaT in time_controls.cuh, and note that ";
    "Time::writeControlNames tabulates wcAdjustableRunTime TWICE, as `adjustable` and as ";
    "`adjustableRunTime` -- damBreak uses the short spelling and matching only the long ";
    "one made the whole clamp a no-op on the very case it was measured against). ";
    "tests/interfoam_dambreak_clock_vs_openfoam.sh now holds the clock against real ";
    "OpenFOAM on the tutorial AS IT SHIPS: thirteen steps over one write interval, deltaT ";
    "BIT-IDENTICAL, 0.000e+00 on every step at 17 digits, both landing exactly on 0.05 ";
    "-- and `brae_interFoam -device`, which refused adjustTimeStep until this landed, is ";
    "bit-identical too. Over those thirteen steps the Courant number never binds at ";
    "maxCo 1, so this gate is the cap, adjustDeltaT and the loop bound; the Courant ";
    "feedback is the device gate's adaptive arm at maxCo 0.0015. GETTING TO A TRUE ";
    "NUMBER TOOK THREE PRINTFS: at OpenFOAM's default six figures it read 3.2e-06 (half ";
    "an ULP of 0.00119047619 logged as 0.00119048); at writePrecision/timePrecision 14 ";
    "it read 2.389e-09 and stayed there, identical on host and device, while the fields ";
    "moved four orders closer -- which was brae's own `%.9g`; at 17 digits on both ";
    "sides it is zero. A comment in the gate had explained the 2.389e-09 as field ";
    "disagreement arriving through the Courant number. It was a printf."]);
  selection_base := None;
  schema_for := None;
  other := [] |}.

Definition c_interFoam_createFields : component := {|
  name := "interFoam_createFields";
  of_symbol := "createFields";
  of_file := "applications/solvers/multiphase/interFoam/createFields.H";
  classification := "CONFIGURATION";
  status := "REIMPLEMENT";
  of_line := None;
  brae_driver := None;
  brae_existing := None;
  brae_reference := Some "src/applications/solvers/interFoam/inter_case_cpp.cuh";
  brae_cuda := None;
  brae_target := Some "src/applications/solvers/interFoam/device_inter_case.cu";
  validation := Some (cat [
    "tests/interfoam_createfields_vs_openfoam.sh -- damBreak's OWN case, prepared ";
    "the way the tutorial does. damBreak ships 0.orig and NO mesh, so the fixture ";
    "is a PROCEDURE (blockMesh then setFields), not a directory this repo can ";
    "check in; the gate runs OpenFOAM's own utilities and SKIPs where OpenFOAM is ";
    "absent. 2268 cells, 5 patches, 324 water cells."]);
  note := Some (cat [
    "ONE translation from case to fields, shared by the gate and by the solver -- a ";
    "private copy in the driver is the defect rhoSimpleFoam's mirror wrote down: the ";
    "gate proves the step, the driver feeds it something else, nothing compares them. ";
    "Three things: the alpha field's NAME comes from `phases (water air)`, so a ";
    "hard-coded alpha1 finds no file on any shipped case; phi is READ when present ";
    "(createAlphaFluxes.H) and only computed from U when it is not, so a restart ";
    "continues from the written flux rather than discarding the continuity error the ";
    "last pressure corrector drove down; and fvSchemes KEYS contain parentheses and ";
    "commas, so FoamDict cannot look them up -- they are read as text through ";
    "scheme_parse's fvSchemesBlock, the same route every other brae solver uses. ";
    "simulationType RAS is read here and handed to interFoam_turbulence, which holds what ";
    "is run (kEpsilon, both lineages) and what is refused. THIS NOTE USED TO SAY a ";
    "non-laminar simulationType is refused because interFoam's turbulence is `a MIXTURE ";
    "model handed the blended rho`; that was written from memory and is wrong for 15 of ";
    "the 17 turbulent tutorials (incompressibleInterPhaseTransportModel.C:99-106 builds ";
    "the ordinary single-phase model by default). solvers/p_rgh and p_rghFinal are read ";
    "as the case names them: PCG with DIC, or GAMG with its controls (interFoam_GAMG); ";
    "anything else still substitutes PBiCGStab under a notice. constant/dynamicMeshDict is read here ";
    "too (interFoam_solidBodyMotion), and p_rgh's need for a reference (interFoam_pressureReference). ";
    "GRADIENT SCHEMES (2026-09-19): each fvc::grad is resolved by the name its call site asks for ";
    "-- grad(U), grad(alpha.<phase1>), grad(alpha.<phase2>), grad(p_rgh), grad(pcorr), grad(rho), ";
    "and interfaceProperties' `nHat` -- then `default`, and carried to that site as a GradChoice ";
    "(gradSchemes/grad_choice.cuh): the vanLeer limiters, snGrad's and the laplacians' corrections, ";
    "CorrectPhi and the curvature. The host takes `Gauss linear`, `leastSquares` and `cellLimited` ";
    "over either; anything else is refused by name, and so is a non-Gauss grad(magSqr(U)) under ";
    "limitedLinear (its limiter is ported Gauss only). GATED in tests/interfoam_dambreak_vs_openfoam.sh ";
    "`gradLsqLimited` on a sheared, predictor-on, moving-start damBreak (every site live there, ";
    "alpha 1.9e-14), each site broken once and red, and `nHatLimited` at the small step (alpha ";
    "5.6e-13). A LIMITED nHat is not held at the big step, and not for a defect: brae's limited K ";
    "from OpenFOAM's own 17-digit post-MULES alpha agrees to 3e-16 relative, but the limiter turns ";
    "MULES' bulk round-off (alpha 1 +- 1e-7) into 1.1e-06 of p_rgh a step later. NOT CLAIMED: any ";
    "non-Gauss entry across a cyclic or cyclicACMI, or leastSquares across any coupled patch ";
    "(refused; grad(U) cellLimited alone is gated across a cyclicAMI); the device, whose operators ";
    "are Gauss linear and which refuses every other entry."]);
  selection_base := None;
  schema_for := None;
  other := [] |}.

Definition components : list component := [
  c_interFoam_main;
  c_interFoam_alphaEqn;
  c_interFoam_MULES;
  c_interFoam_CMULES;
  c_interFoam_interfaceProperties;
  c_interFoam_twoPhaseMixture;
  c_interFoam_immiscibleMixture;
  c_interFoam_UEqn;
  c_interFoam_pEqn;
  c_interFoam_smoothSolver;
  c_interFoam_turbulence;
  c_interFoam_kOmegaSST;
  c_interFoam_MRF;
  c_interFoam_fvOptions;
  c_interFoam_mangroves;
  c_interFoam_PBiCG;
  c_interFoam_CrankNicolson;
  c_interFoam_setRDeltaT;
  c_interFoam_localEuler;
  c_interFoam_nutkRoughWallFunction;
  c_interFoam_outletPhaseMeanVelocity;
  c_interFoam_piovTangentialVelocity;
  c_interFoam_cacheGradU;
  c_interFoam_variableHeightFlowRate;
  c_interFoam_LESkEqn;
  c_interFoam_wedgeCoefficients;
  c_interFoam_cyclic;
  c_interFoam_cyclicACMI;
  c_interFoam_cyclicAMI;
  c_interFoam_faceAreaWeightAMI;
  c_interFoam_codedPatchFunction1;
  c_interFoam_porousBafflePressure;
  c_interFoam_permeableWall;
  c_interFoam_waveModel;
  c_interFoam_GAMG;
  c_interFoam_solidBodyMotion;
  c_interFoam_rigidBodyMotion;
  c_interFoam_pointConstraints;
  c_interFoam_displacementLaplacian;
  c_interFoam_waveMaker;
  c_interFoam_dynamicRefine;
  c_interFoam_dynamicMesh;
  c_interFoam_correctPhi;
  c_interFoam_interfaceCompression;
  c_interFoam_pressureReference;
  c_interFoam_vanLeerV;
  c_interFoam_limitedLinear;
  c_interFoam_nonOrthCorrection;
  c_interFoam_vanLeer;
  c_interFoam_alphaCourantNo;
  c_interFoam_createFields].
End interFoam.
