(* ===== verification/ManifestRho.v ===== *)
(** * tools/of_manifest.py: the component table of rhoSimpleFoam

    The curated entries of the table, one definition per entry, in its order. *)
From Stdlib Require Import String.
From S2P Require Import ManifestData.

Module rhoSimpleFoam.
Local Open Scope string_scope.

Definition c_rhoSimpleFoam_main : component := {|
  name := "rhoSimpleFoam_main";
  of_symbol := "main";
  of_file := "applications/solvers/compressible/rhoSimpleFoam/rhoSimpleFoam.C";
  classification := "HOST_ONLY";
  status := "REIMPLEMENT";
  of_line := None;
  brae_driver := None;
  brae_existing := None;
  brae_reference := Some "src/applications/solvers/rhoSimpleFoam/rhoSimpleFoam_cpp.cu";
  brae_cuda := None;
  brae_target := Some "src/applications/solvers/rhoSimpleFoam/rhoSimpleFoam.cu";
  validation := Some (cat [
    "tests/rho_simple_end_to_end_vs_openfoam.sh -- THE WHOLE CASE in _cpp against real OpenFOAM. 112k-cell sbMatched TURBULENT, with the fixture own kEpsilon and its own flowRateInletVelocity, `consistent yes` + `transonic yes` so the path exercised is pcEqn.H transonic. 400 iterations from the same start. EIGHT FIELDS ARE GATED, not one: U 2.364262e-05, p 1.230477e-05, T 4.544945e-06, rho 1.341389e-05, k 7.648476e-05, epsilon 1.373127e-04, nut 4.302340e-05, alphat 4.866781e-05. The same binary runs tests/rho_squarebend_vs_openfoam.sh, which is the wider of the two on every field and is where the bounds come from: p 4.850e-04, T 1.096e-04, U 4.410791e-04, rho 4.341e-04, k 1.358e-03, epsilon 1.652e-03, nut 1.166e-03, alphat 9.666e-04. Bounds p 1.0e-3, T 3.0e-4, rho 1.0e-3, turbulence 3.0e-3, U 5e-4. EACH BOUND IS ASSERTED ONLY WHERE THAT FIELD MOVES, decided per field and per fixture by gateIfItMoves(): the bound is applied when the START state misses OpenFOAM answer by at least 10x it, and ";
    "otherwise the field is printed with the reason it is not held. Measured start-state ratios on squareBend: p 437x, T 101x, rho 453x, and 83x on each of k, epsilon, nut and alphat -- so every bound above separates a converged solver from one that did nothing. This REPLACES an earlier arrangement in which U alone was gated and everything else printed `(reported, see the control)`; the stated reason was that on this fixture p and T barely move, and the measurement contradicts it -- p starts 2.1698e-01 away from OpenFOAM answer, 434x its bound. THE START-STATE CONTROL ON U CANNOT FAIL, and that is a property of the fixture rather than of the solver: sbMatched/0.orig/U is `uniform (0 0 0)`, so relL2 against OpenFOAM is exactly 1.0 for any code state. The other seven ratios are real measurements and are not fixed by construction. THE WIDEST FIELDS ARE squareBend k and epsilon at ~1.6e-03, and that case asks for `Gauss limitedLinear 1` on div(phi,k) and div(phi,epsilon) while the closure ";
    "discretises both upwind regardless -- fvm::div plain overload, where the weighted one exists and the incompressible path uses it. That difference is what ~1.6e-03 is worth at convergence, and it is an open finding rather than a tolerance. RUN TO CONVERGENCE, NOT TO A TUTORIAL endTime: comparing at an endTime compares trajectories, and 400 is where both codes have stopped moving. AN UNPORTED RAS MODEL IS REFUSED BY NAME, and so is an unported nut wall function -- both asserted by the gate, each with a negative control proving createFields still accepts the case own. WHAT THIS FIXTURE NEVER REACHES: limitTemperature, any fvOptions (sbMatched ships no fvOptions and no MRFProperties), MRF, the kOmegaSST branch, the laminar branch, the SUBSONIC pEqn.H branch and the rho.relax() it guards. Each is a live branch of the driver that this gate does not exercise. tests/rho_angledduct_vs_openfoam.sh would reach the fvOptions and porosity paths and is deliberately NOT registered (PORT.md), so ";
    "those remain ungated end-to-end."]);
  note := Some (cat [
    "The driver branches on simple.consistent(): pcEqn.H for SIMPLEC, pEqn.H otherwise. ";
    "Both must be ported -- the existing solver reached only one of them by case. Order is ";
    "UEqn, EEqn, then p; turbulence->correct() LAST, after the pressure solve. ";
    "LINEAR-SOLVER POLICY ON THE CUDA ARM (bench/rhoSimpleFoam/FASTPATH.md FP-1, 2026-09-12): ";
    "wherever the case names `smoothSolver` with a GaussSeidel-family smoother -- on U since ";
    "2026-09-08, on e/h, k, epsilon and omega since FP-1 -- the sweep runs in COLOUR order ";
    "through the fused multicolour engine (deviceColourGaussSeidelFused) under the entry's own ";
    "stop rule, announced per field as `approximated` (a different iterate after n sweeps, the ";
    "same converged solution); BRAE_U_SOLVER=ofOrder / BRAE_GS_ORDER=ofOrder run OpenFOAM's ";
    "index order instead, which is what the gates that hold an exact iterate at a loose relTol ";
    "pin. Measured on squareBendLiq at 112k: the e solve 6.8 -> 1.3 ms per iteration and the ";
    "turbulence block 14.7 -> 4.0, gated by tests/scalar_colour_gs_vs_openfoam.sh (EXACT ";
    "1.3e-12 at 1e-14, the relTol-0.1 control 1.3e-02) and test_colour_gs_fused arm (m)."]);
  selection_base := None;
  schema_for := None;
  other := [] |}.

Definition c_createFields : component := {|
  name := "createFields";
  of_symbol := "createFields.H";
  of_file := "applications/solvers/compressible/rhoSimpleFoam/createFields.H";
  classification := "HOST_ONLY";
  status := "REIMPLEMENT";
  of_line := None;
  brae_driver := None;
  brae_existing := None;
  brae_reference := Some "src/applications/solvers/rhoSimpleFoam/rhoCreateFields_cpp.cu";
  brae_cuda := None;
  brae_target := Some "src/applications/solvers/rhoSimpleFoam/rhoCreateFields.cu";
  validation := Some (cat [
    "tests/rho_createfields_vs_openfoam.sh -- against OpenFOAM's OWN createFields.H, obtained by running rhoSimpleFoam -postProcess with writeObjects(phi,rho); postProcess.H builds the field set without solving. On a developed 112k-cell sbMatched state: rho 6.1e-16, phi 2.1e-15, initialMass 3.9e-16, psi bounded at 1e-14 -- but against 1.0/(R*T), the SAME expression the implementation evaluates, so it verifies brae against its own formula and reads no OpenFOAM psi at all; psiBnd, which the transonic pressure branch is built on, is unchecked. initialMass likewise multiplies OpenFOAM rho by brae OWN g.V(), so a volume error cancels on both sides and OpenFOAM domainIntegrate is never read. rho and phi are gated on INTERNAL fields only: rho patch values and phi patch fluxes, the inlet mass flux among them, are compared to nothing, and a restart reads both fields byte-exact. THE CONTROL is the point: interpolate(rho)*flux(U), which is pEqn.H form and brae fvc::rhoFlux, reads 3.7e-04 against the ";
    "same oracle -- 11 orders worse -- so the gate discriminates the two flux forms instead of passing either. It also asserts the fixture rho is non-uniform, because a uniform rho makes the two forms algebraically identical and the shipped 0.orig is uniform."]);
  note := Some (cat [
    "rho is READ_IF_PRESENT and falls back to thermo.rho() -- a restart reads it, a cold ";
    "start computes it, and getting that backwards was a past defect. p is a REFERENCE into ";
    "the thermo (thermo.p()), not an independent field. thermo.validate(.., h, e) refuses a ";
    "thermo whose energy is neither. pressureControl carries pMin/pMax/pRefCell/pRefValue ";
    "from the SIMPLE dict. phi comes from compressibleCreatePhi.H, so it is rho*flux(U)."]);
  selection_base := None;
  schema_for := None;
  other := [] |}.

Definition c_UEqn : component := {|
  name := "UEqn";
  of_symbol := "UEqn.H";
  of_file := "applications/solvers/compressible/rhoSimpleFoam/UEqn.H";
  classification := "GPU_REQUIRED";
  status := "REIMPLEMENT";
  of_line := None;
  brae_driver := None;
  brae_existing := None;
  brae_reference := Some "src/applications/solvers/rhoSimpleFoam/rhoUEqn_cpp.cu";
  brae_cuda := None;
  brae_target := Some "src/applications/solvers/rhoSimpleFoam/rhoUEqn.cu";
  validation := Some (cat [
    "tests/rho_ueqn_vs_openfoam.sh -- against OpenFOAM's OWN assembled momentum matrix, via the tools/dumpPEqn stage harness (stage_rAU = 1/UEqn.A(), stage_UIC, stage_UBC, stage_muEff, stage_Uass) at SIMPLE iteration 1 on 112k-cell sbMatched: rAU 6.13e-15, internalCoeffs 7.1e-15, boundaryCoeffs 4.89e-16 -- but ALL THREE ARE GATED AT 1e-10, five orders looser than the figures suggest, so the bound would pass a far worse assembly than the one measured. The per-patch inlet/outlet/walls figures are printf, not bounded; on this fixture the outlet iC/bC and the walls bC are identically zero in both codes, where relL2 degenerates to an absolute norm. OpenFOAM's own muEff is INJECTED so the number measures the assembly rather than the closure -- and so is OpenFOAM's VELOCITY, internal field and every written patch value, which the text did not say. The injection is a near no-op here (brae's own muEff sits at 1.9e-15 against OpenFOAM's) and the closure is no longer unported: compressible kEpsilon ";
    "is ported and separately gated, so the live reason for injecting is isolation, not absence. THE CONTROL: assembling with the kinematic nu_eff -- the incompressible divDevReff -- reads 6.2e-01, fourteen orders worse, and forcing that form into the implementation fails the gate at 6.2e-01, so it discriminates the one thing that distinguishes this solver's momentum equation from simpleFoam's.";
    " _cpp AGAINST OPENFOAM'S OWN MOMENTUM MATRIX ON A DEVELOPED FIELD (tests/rho_limitedlinearv_cpp_vs_openfoam.sh, gasMixing restarted at OpenFOAM's iteration 5, off-diagonals stage_UUpper/ULower, `Gauss upwind` as the control at 1.06e-14): limitedLinearV 3.31e-03 -> 1.76e-14 and limitedLinear 4.63e-02 -> 3.22e-13. Two causes read out of the source: the limiter's gradient is built from U's patch values BEFORE updateCoeffs (gaussConvectionScheme.C:84 takes the weights, :89 builds the fvMatrix whose constructor calls updateCoeffs, fvMatrix.C:396) where brae refreshed first; and `Gauss limitedLinear` on a VECTOR is NVDTVD + limitFuncs::magSqr (LimitedScheme.H:188), so its gradient is fvc::grad(magSqr(U)) under the key grad(magSqr(U)) -- default, leastSquares there -- where brae hardcoded Gauss. Before this the device had been validated against a _cpp reference that was itself unvalidated for both schemes.";
    " CUDA: the device momentum limiters took the refreshed boundary (RhoMomentumInput::UxPreUpdateBnd ";
    "now carries the step's pre-updateCoeffs snapshot, required under limitedLinear/V) and a plain Gauss ";
    "grad(magSqr(U)); measured on gasMixing/injectorPipe restarted at OpenFOAM's iteration 5 the ";
    "momentum off-diagonals were 3.3e-03 off the host and read 1.2e-15 after, with test_rho_ueqn_cuda ";
    "(one shared boundary array) at 3.2e-14 either way -- the twin cannot see the snapshot, the ";
    "restarted end-to-end gate can."]);
  note := Some (cat [
    "fvm::div(phi,U) + MRF.DDt(rho,U) + turbulence->divDevRhoReff(U) == fvOptions(rho,U), ";
    "solved against -fvc::grad(p). divDevRhoReff is the COMPRESSIBLE form (rho-weighted, ";
    "dev2 transpose term) and is NOT the incompressible divDevReff that simpleFoam uses. ";
    "TARGET IS rhoUEqn.cu, NOT UEqn.cu: brae puts every source directory on ONE include ";
    "path, so a companion UEqn.cuh here would resolve to simpleFoam/UEqn.cuh or the ";
    "reverse, whichever the compiler saw first. simpleFoam already owns UEqn.cuh and ";
    "pEqn.cuh. The host references are already rhoUEqn_cpp/rhoPEqn_cpp/rhoEEqn_cpp for ";
    "the same reason; the device targets follow them."]);
  selection_base := None;
  schema_for := None;
  other := [] |}.

Definition c_EEqn : component := {|
  name := "EEqn";
  of_symbol := "EEqn.H";
  of_file := "applications/solvers/compressible/rhoSimpleFoam/EEqn.H";
  classification := "GPU_REQUIRED";
  status := "REIMPLEMENT";
  of_line := None;
  brae_driver := None;
  brae_existing := None;
  brae_reference := Some "src/applications/solvers/rhoSimpleFoam/rhoEEqn_cpp.cu";
  brae_cuda := None;
  brae_target := Some "src/applications/solvers/rhoSimpleFoam/rhoEEqn.cu";
  validation := Some (cat [
    "tests/rho_eeqn_vs_openfoam.sh -- against OpenFOAM's OWN assembled energy equation via the tools/dumpPEqn harness (stage_Ekp, stage_he, stage_eD, stage_eSrc, stage_alphaEff, stage_Upred) at SIMPLE iteration 1 on 112k-cell sbMatched: Ekp 6.4e-16 (and 6.1e-16 on every patch), EEqn.D() 3.8e-15, source+boundaryCoeffs 3.9e-15, interior and boundary cells both at machine precision. THE INLET IS NEUTRALISED: the script replaces sbMatched flowRateInletVelocity with a plain `fixedValue uniform (1 2 3)`, ~3.7 m/s against the case own ~523 m/s, so this gate says nothing about the inlet and the energy it carries. NO OFF-DIAGONAL HAS AN OPENFOAM ORACLE: dumpPEqn writes none for this equation and the test compares none, where the sibling momentum gate does. Bounds are 1e-12 on Ekp and 1e-10 on D and source; the per-patch and interior/boundary figures are printf, and the interior/boundary one is an ABSOLUTE L2 with no denominator, so machine precision is not the quantity it reports. alphaEff, he AND ";
    "OpenFOAM solved U are INJECTED so the number measures the assembly, not the unported compressible turbulence closure or the unported energy boundary types. THE CONTROL: the `h` arm (K = 0.5|U|^2) reads 1.0 against stage_Ekp and builds a convection term differing from the `e` arm by 100% of its own magnitude; forcing the h arm into the implementation fails the gate. NOTE the control is taken on the UNBOUNDED convection term on purpose -- `div(phi,Ekp)` is bounded, and at iteration 1 the bounded subtraction removes the near-uniform p/rho that IS the difference between the arms (|KE div| 1.3e-04 bounded against 1.4e+01 unbounded), so the assembled source at this state cannot discriminate them.";
    " THE CORRECTED LAPLACIAN'S OWN GRADIENT: correctedSnGrad::fullGradCorrection resolves gradScheme::New(mesh.gradScheme('grad(' + name + ')')), i.e. grad(e)'s own gradSchemes entry, and brae took a hardcoded Gauss gradient there. On gasMixing/injectorPipe (default leastSquares, snappyHexMesh) the energy source was 2.8e-07 and the solved he 2.2e-06 off OpenFOAM's own at a developed restart; with the entry honoured 6.3e-11 and 4.7e-16, and T 8.6e-07 -> 9.6e-13 end to end (tests/rho_gasmixing_vs_openfoam.sh). NOT gated on sbMatched: its mesh is orthogonal to 0.78 degrees, the correction is ~0 there, and a leastSquares arm passed with the defect present and absent alike -- measured, then removed as vacuous.";
    " test_rho_eeqn_cuda, the device twin, now assembles `limitedLinear` on BOTH convection terms ";
    "against the host (diag 5.7e-13, upper 2.4e-12, lower 1.4e-12, source 1.2e-12 on matrixDumpAsym ";
    "and pitzDailyTurb, e and h) where it used to assert a REFUSAL the port had since made stale -- ";
    "three registrations red for that reason. WHAT THE ARM FOUND: with the twin's synthesized ";
    "he = 2e5 + 6e4*frac(x) the two arms read upper 5.8e-02 apart on 1228 of 24170 faces, every ";
    "one with he[N] == he[P] -- NVDTVD's 0/0 branch, where r = 2000*sign(gradcf)*sign(0) - 1 is ";
    "decided by the round-off sign of gradcf (the gradients agree to 4e-15); the same phenomenon ";
    "gasMixing/injectorPipe shows from rest. The field now carries an incommensurate sine and the ";
    "twin asserts zero plateau faces; LUST stands in as the unported-scheme refusal control."]);
  note := Some (cat [
    "The kinetic-energy source DIFFERS BY ENERGY VARIABLE: he==e uses Ekp = 0.5|U|^2 + p/rho, ";
    "he==h uses K = 0.5|U|^2. Picking one is a wrong equation for the other thermo. MRF adds ";
    "fvc::div(MRF.phi(), p). thermo.correct() runs at the END and is what updates T, psi, mu ";
    "and alpha for every consumer downstream."]);
  selection_base := None;
  schema_for := None;
  other := [] |}.

Definition c_pEqn : component := {|
  name := "pEqn";
  of_symbol := "pEqn.H";
  of_file := "applications/solvers/compressible/rhoSimpleFoam/pEqn.H";
  classification := "GPU_REQUIRED";
  status := "REIMPLEMENT";
  of_line := None;
  brae_driver := None;
  brae_existing := None;
  brae_reference := Some "src/applications/solvers/rhoSimpleFoam/rhoPEqn_cpp.cu";
  brae_cuda := None;
  brae_target := Some "src/applications/solvers/rhoSimpleFoam/rhoPEqn.cu";
  validation := Some (cat [
    "tests/rho_peqn_vs_openfoam.sh -- BOTH branches, by running OpenFOAM twice on 112k-cell sbMatched with transonic no and transonic yes (and consistent no, so the driver reaches pEqn.H rather than pcEqn.H). Subsonic: rAU 6.1e-15, rhorAUf 4.8e-15, HbyA 2.2e-15, phiHbyA 6.4e-12, after adjustPhi 6.4e-12 -- BUT adjustPhi NEVER RUNS on this fixture, so that figure re-measures the same phiHbyA rather than testing the step: rhoPEqn_cpp.cu:73-76 returns immediately when any p patch fixes a value, and the outlet is fixedValue. The fatal `continuity error cannot be removed` path is unreached on every arm, and the `adjustable` mask the step consumes is inert here, pEqn.D() 3.3e-15, source 6.5e-14. Transonic: the same, plus phid 6.4e-12 and the psi*p subtraction 1.3e-15 (normalised by the pre-subtraction flux, because psi*p is rho for a perfect gas so the subtraction is a near-total cancellation -- residual 1.8e-10 of an inflow of 1.6e-04). The transonic branch had NO stage harness before this gate; ";
    "one was added to tools/dumpPEqn. OpenFOAM own muEff, Uass, Upred, psi and rho are injected so the number is about pEqn.H and not about the turbulence closure or thermo.correct(). CONTROLS, each verified to fail: the other branch does not reproduce this one; dropping fvm::div(phid,p) fails transonic D at 3.1e-07; omitting pEqn.relax() on the transonic branch fails D at 1.1e-07 and source at 4.4e-06."]);
  note := Some (cat [
    "TWO BRANCHES, both required: simple.transonic() builds fvm::div(phid,p) with phid = ";
    "(psi/rho)*phiHbyA and subtracts fvc::interpolate(psi*p)*phiHbyA/interpolate(rho); the ";
    "subsonic branch runs adjustPhi and has no div term. closedVolume comes from adjustPhi ";
    "and drives the psi-weighted mass correction after the solve. rho.relax() is SKIPPED ";
    "when transonic. pressureControl.limit(p) may clip p and then requires ";
    "correctBoundaryConditions()."]);
  selection_base := None;
  schema_for := None;
  other := [] |}.

Definition c_pcEqn : component := {|
  name := "pcEqn";
  of_symbol := "pcEqn.H";
  of_file := "applications/solvers/compressible/rhoSimpleFoam/pcEqn.H";
  classification := "GPU_REQUIRED";
  status := "REIMPLEMENT";
  of_line := None;
  brae_driver := None;
  brae_existing := None;
  brae_reference := Some "src/applications/solvers/rhoSimpleFoam/rhoPcEqn_cpp.cu";
  brae_cuda := None;
  brae_target := Some "src/applications/solvers/rhoSimpleFoam/rhoPcEqn.cu";
  validation := Some (cat [
    "tests/rho_pceqn_vs_openfoam.sh -- BOTH branches, with consistent yes so the driver reaches pcEqn.H. The comparison is taken from a RESTART at iteration 20, not from iteration 1: sbMatched starts from a uniform p, where fvc::grad(p) is analytically zero and BOTH SIMPLEC corrections are no-ops (OpenFOAM own HbyA correction moves it by 9e-10 there, pure round-off), so an iteration-1 gate would report machine precision while testing none of SIMPLEC. On the developed state the correction moves HbyA by 2.4e-01 and rAtU is 6.9x rAU. Results: rAU 5.1e-15, rAtU 5.2e-15, rhorAtU 5.5e-15, HbyA 2.1e-15, constrainHbyA boundary 6.7e-16, phiHbyA 1.4e-15, phid 1.4e-15, pcEqn.D() 4.2e-15; the two fvc::grad(p)-derived quantities sit at 1.4e-10 and 1.2e-09 and are bounded at 1e-8 with the alternatives ruled out in the test comments. CONTROLS, AS REGISTERED -- and this list was previously overstated. What the gate actually asserts is that SIMPLEC is live (rAtU differs from rAU by more than 1e-3, ";
    "test:235) and that the plain-SIMPLE BUNDLE disagrees on the assembled system: D and source, each bounded > 1e-8 (test:389-390). That bundle swaps rAU for rAtU AND rhorAUf for rhorAtU AND drops the flux correction together, so it does not isolate any one of them. The figures 8.8e-01 and 2.4e-01 are printf, not bounds. THERE IS NO ARM THAT MUTATES phiHbyA: the previous text claimed a control `dropping the SIMPLEC flux correction fails phiHbyA at 2.6e-01`, and 2.6e-01 appears nowhere in the tree outside that sentence -- no test produces it. Isolating the two halves of SIMPLEC, which the module header argues are one change, is not gated. FOUND BY THIS GATE: inletOutlet assignable() was false in brae because it derives from mixed, but OpenFOAM OVERRIDES it back to true (inletOutletFvPatchField.H:164) -- constrainHbyA was taking U at every inletOutlet patch, worth 1.3e-03 on HbyA boundary and 3.5e-03 on phiHbyA. Shared code; outletInlet genuinely does inherit false and was correct."]);
  note := Some (cat [
    "The SIMPLEC pressure equation, selected by `consistent yes`. Carries its own rAtU = ";
    "1/(1/rAU - UEqn.H1()) and the (rAtU - rAU) flux correction -- the same shape that cost ";
    "real time in simpleFoam, so it is transcribed here rather than re-derived by guess."]);
  selection_base := None;
  schema_for := None;
  other := [] |}.

Definition c_kEpsilon_compressible : component := {|
  name := "kEpsilon_compressible";
  of_symbol := "kEpsilon<BasicMomentumTransportModel>::correct";
  of_file := "src/TurbulenceModels/turbulenceModels/RAS/kEpsilon/kEpsilon.C";
  classification := "GPU_REQUIRED";
  status := "REIMPLEMENT";
  of_line := None;
  brae_driver := None;
  brae_existing := None;
  brae_reference := Some "src/TurbulenceModels/turbulenceModels/RAS/kEpsilon/kEpsilon_cpp.cu";
  brae_cuda := None;
  brae_target := Some "src/TurbulenceModels/turbulenceModels/RAS/kEpsilon/kEpsilon.cu";
  validation := Some (cat [
    "tests/rho_kepsilon_vs_openfoam.sh -- against OpenFOAM's OWN kEpsilon, instrumented. tools/dumpKEpsilon is that model with writes added and its equations untouched, registered as kEpsilonDump through makeRASModel, so gradU, divU, GbyNu, G, both diffusivities, the mesh factors the laplacian coefficient is a product of, both off-diagonal sets and both assembled systems (before and after relax/boundaryManipulate) each have an oracle. On 112k-cell sbMatched at SIMPLE iteration 1, given OpenFOAM's own inputs: epsilon 5.0e-15, k 8.9e-16, nut 1.7e-15, alphat 2.3e-15, wall and interior alike, with every intermediate at the same order. THE CONTROL: substituting the MASS flux for the volumetric one in divU -- the one difference between the compressible and incompressible readings of this same templated model -- must be worse by at least 1e3x, measured 5.0e-06 against 5.0e-15. A term sweep drops each of the eight terms in turn and every one of them moves the answer. A short source array for a ";
    "turbulent inlet is REFUSED by name, with a full-length array as the negative control.";
    " FVM::DDT UNDER `Euler` (kEpsilon.C:254,275): tests/rho_kepsilon_vs_openfoam.sh's Euler arm holds the assembled k and epsilon systems to 1e-14 against the instrumented model with `ddtSchemes default Euler`, and reads epsilon D() 8.0e-04 / k source 2.8e-02 with the term zeroed (the fail-proof). Found on gasMixing/injectorPipe, the one rhoSimpleFoam tutorial shipping Euler: with every input to the closure exact, its epsilon diagonal was 5.66e-04 and k source 6.14e-03 off OpenFOAM's own assembly, and OpenFOAM minus brae equalled rho*V/deltaT to 4.8e-09. rho.oldTime() in the source is the closure-time rho on a process's first step (GeometricField::oldTime() copies at first use) and the start-of-step rho afterwards -- measured 1.8e-09 and 5.6e-12 respectively, the other choice 1.3e-03 / 2.9e-04. End to end: tests/rho_gasmixing_vs_openfoam.sh, k 2.2e-12 at the first restarted iteration."]);
  note := Some (cat [
    "OpenFOAM has ONE templated kEpsilon.C; the compressible instantiation supplies alpha=1, ";
    "rho as a field, alphaRhoPhi as the MASS flux and a nu that varies with T. TWO FLUXES, ";
    "not one: fvm::div takes the mass flux while divU takes the VOLUMETRIC one, because ";
    "compressibleTurbulenceModel::phi() divides by interpolate(rho). Four defects were found ";
    "by reading the instrumented model's numbers rather than by reasoning -- the closure ";
    "never being given the flux (so fvc::grad(U) read a stale outlet face value), k and ";
    "epsilon never having updateCoeffs called (so every flux-conditional patch contributed ";
    "nothing), the turbulent inlets being frozen at the case file's `value` instead of ";
    "recomputed from U and k, and the diffusion terms being assembled orthogonally while ";
    "the case asked for `corrected`. See PORT.md. FP-2 FUSIONS (2026-09-12): the shared conv-diff assembly (turbulence_transport.cu) subtracts the five laplacian coefficient arrays in one launch, and the device kOmegaSST closure fuses S2+production+G, CD+F1+F2, the gamma/beta blends with the GbyNu limit, and the compressible DEff*rho+nu*rho chain (device_komega_sst.cu, FP-2 block), each kernel text-identical in its expressions to the ones it replaces and __dmul_rn pinning the products that used to cross a kernel boundary -- byte-identical fields and residual lines on aerofoilNACA0012 and squareBend over 5 iterations and on all 18 SST stage dumps. Worth 25 launches per iteration on the aerofoil, inside the run-to-run noise; the closure's cost there is the DILU-preconditioned k/omega solves the case names, not its kernels."]);
  selection_base := None;
  schema_for := None;
  other := [] |}.

Definition c_createFieldRefs : component := {|
  name := "createFieldRefs";
  of_symbol := "createFieldRefs.H";
  of_file := "applications/solvers/compressible/rhoSimpleFoam/createFieldRefs.H";
  classification := "HOST_ONLY";
  status := "REIMPLEMENT";
  of_line := None;
  brae_driver := None;
  brae_existing := None;
  brae_reference := Some "src/applications/solvers/rhoSimpleFoam/rhoCreateFields_cpp.cu";
  brae_cuda := None;
  brae_target := Some "src/applications/solvers/rhoSimpleFoam/rhoCreateFields.cu";
  validation := Some "tests/rho_createfields_vs_openfoam.sh -- psi bounded at 1e-14 against 1.0/(R*T), from the same T that rho came from. NOT AN OPENFOAM COMPARISON, and the previous wording (`exactly`) implied one: the right-hand side is the SAME expression perfectGasPsi evaluates, so this asserts brae agrees with its own formula. No OpenFOAM psi file is read anywhere in the gate. Cells only -- psiBnd, which the transonic pressure branch interpolates to faces, is compared to nothing.";
  note := Some (cat [
    "One line: psi is a const reference to thermo.psi(). It matters because pEqn uses psi ";
    "AFTER thermo.correct() has moved it."]);
  selection_base := None;
  schema_for := None;
  other := [] |}.

Definition c_leastSquaresGrad : component := {|
  name := "leastSquaresGrad";
  of_symbol := "Foam::fv::leastSquaresGrad";
  of_file := "src/finiteVolume/finiteVolume/gradSchemes/leastSquaresGrad/leastSquaresGrad.C";
  classification := "SHARED_NUMERICAL";
  status := "PORTED";
  of_line := None;
  brae_driver := None;
  brae_existing := Some "src/cuda/device_mesh.cu (deviceLeastSquaresGrad)";
  brae_reference := Some "src/finiteVolume/finiteVolume/fvc.cu (fvc::leastSquaresGrad)";
  brae_cuda := None;
  brae_target := Some "src/finiteVolume/finiteVolume/gradSchemes/";
  validation := Some (cat [
    "tests/leastsquares_grad_vs_openfoam.sh -- the GRADIENT itself, SCALAR and VECTOR ";
    "arms on an orthogonal mesh AND a pitzDaily arm whose boundary faces are SKEWED ";
    "(fvPatch::delta() is the patch-normal projection of Cf - Cn, not Cf - Cn: brae ";
    "used the raw vector and an orthogonal mesh cannot tell the two apart -- 1.18e-01 ";
    "vs 1.84e-12 on pitzDaily, 4.6e-15 either way on squareBend). Scalar and vector ";
    "arms, against OpenFOAM's own grad(T) and grad(U) on validation/rhoSST, each a 2x2 ";
    "with the other scheme as the control: brae leastSquares vs OF leastSquares ";
    "2.5e-13 (scalar) and 2.3e-13 (vector), against OF Gauss linear 2.5e-01, and OF ";
    "leastSquares against brae Gauss 3.3e-01 (device scalar 2.5e-13, device-vs-host ";
    "1.6e-16; no device twin for the vector form yet). ";
    "tests/rho_leastsquares_closure_vs_openfoam.sh -- the CONSUMERS, nine arms on the ";
    "host arm end to end against real OpenFOAM: the closure's CDkOmega and ";
    "corrected-laplacian gradients, the turbulence limiters' own gradient, grad(p) and ";
    "grad(U), each restarted from OpenFOAM's own iteration 5 and each measured ";
    "separately (before -> after: k 3.1e-06 -> 8.7e-12, 1.7e-05 -> 2.9e-12, ";
    "3.6e-06 -> 2.9e-12), with the shipped case as the control, a wrong-scheme control ";
    "(brae's Gauss against OpenFOAM's leastSquares run must differ, 6.3e-08). Two ";
    "fail-proofs, each watched: divDevRhoReff's flag removed, and the limiter's gradient ";
    "back to Gauss -- different arms go red. CUDA, the CLOSURES' grad(k)/grad(epsilon|omega): ";
    "test_rho_kepsilon_cuda's leastSquares arm against the host closure on pitzDaily ";
    "(`corrected` laplacians, so the correction path is live) epsilon 7.9e-16, k 8.4e-16, ";
    "nut 2.7e-15, with the Gauss device answer 3.36e-03 off the leastSquares reference ";
    "(the control); rho_leastsquares_closure_vs_openfoam.sh's lsq arm now runs the CUDA ";
    "arm against OpenFOAM, worst p 2.9e-12 (the same floor as the host and as the shipped ";
    "control). CUDA, grad(p) at its five consumers (RhoStepInput::gradPLeastSq): the ";
    "closure gate's lsqp arm (grad(p) leastSquares explicit on rhoSST) host 2.900e-12, CUDA ";
    "2.901e-12 vs OpenFOAM, the shipped Gauss run 1.42e-05 off the leastSquares oracle; ";
    "tests/rho_step_cuda_lsq.sh (rhoKE and sbMatched, in-gate Gauss control 1.4e-05 / ";
    "4.7e-03); and tests/rho_gradp_lsq_simplec_vs_openfoam.sh, the SIMPLEC+transonic case ";
    "nothing else covers: both arms 2e-11 of OpenFOAM at iterations 1-2 with the shipped ";
    "control at the same floor and OpenFOAM's own two schemes 1.6e-02 apart. THAT GATE ";
    "FOUND A HOST DEFECT: the device arm was 5.7e-12 of OpenFOAM and the host 1.98e-09, ";
    "because fvc::snGrad's non-orthogonal correction (SIMPLEC's phiHbyA term, pcEqn.H:27) ";
    "took a hardcoded Gauss gradient where correctedSnGrad.C:52-55 resolves grad(p)'s own ";
    "entry -- invisible on rhoSST (not SIMPLEC) and at iteration 1 of sbMatched (p uniform). ";
    "Fixed in fvc.cu (snGrad takes the field's scheme); 2.02e-11 after. CUDA, the VECTOR form ";
    "(deviceLeastSquaresGradU: three scalar fits packed as grad(U), leastSquaresGrad.C's ";
    "lsGrad += ownLs*deltaVsf): leastsquares_grad_vs_openfoam's device twin 9.4e-15 of ";
    "OpenFOAM's own grad(U) on sbMatched and 4.2e-13 on pitzDaily, device-host 1.5e-16; its ";
    "consumers -- divDevRhoReff's dev2 term, the corrected laplacian, the limitedLinearV limiter ";
    "and the linearUpwind-named gradient (rho_ueqn_cuda_lsq, sources 8e-16 of the host), both ";
    "closures' production (test_rho_kepsilon_cuda's grad(U) arm: GbyNu 5.5e-16, the Gauss ";
    "GbyNu 5.0e-01 off as the control) -- and end to end rho_leastsquares_closure_vs_openfoam's ";
    "restart arms now on BOTH mirror arms: lsq_none/CUDA p 2.85e-12, lsq_all/CUDA (`default ";
    "leastSquares` with every limiter) omega 2.46e-11 against the host's 2.45e-11."]);
  note := Some (cat [
    "OpenFOAM's inverse-distance least-squares fit (leastSquaresVectors.C), not a Gauss sum; ";
    "a case naming it gets it or is refused. fvc::grad(vf) resolves `grad(<name>)` through ";
    "gradSchemes (fvcGrad.C:149), so `default leastSquares` reaches every consumer: the ";
    "limitedLinear limiters' gradient in the energy equation (reached by default) and in ";
    "both turbulence closures' divWithScheme (LimitedScheme.C:51-55), kOmegaSST's CDkOmega ";
    "and the k/omega|epsilon corrected-laplacian corrections (gradKLeastSq), grad(p) (the ";
    "velocity correction pEqn.H:86 / pcEqn.H:99, SIMPLEC's HbyA pcEqn.H:30,65, the non-orth ";
    "corrections) and grad(U) (divDevRhoReff's dev2 term, the closures' production, ";
    "validate()'s correctNut) -- the VECTOR form, lsGrad_ij = ownLs_i*deltaVsf_j, sharing ";
    "one leastSquaresInvDd with the scalar one. Four of those consumers computed the Gauss ";
    "gradient under the case's own scheme name until this. The DEVICE computes the scalar ";
    "form (deviceLeastSquaresGrad): the energy limiters' gradient, both closures' limiter ";
    "gradient, the closures' corrected-laplacian correction (turbulence_transport.cu, ";
    "TransportScheme::gradFieldLeastSq) and kOmegaSST's CDkOmega (kOmegaSST.cu) take it under ";
    "the case's scheme, and so do grad(p)'s five consumers (the momentum source, U = HbyA - ";
    "rAtU*grad(p), SIMPLEC's HbyA correction, both pressure branches' non-orth corrections), the ";
    "energy equation's non-orth correction (rhoEEqn.cu, grad(he)'s base and cellLimited ";
    "coefficient) and grad(U)'s VECTOR form at divDevRhoReff, the corrected laplacian, the momentum ";
    "limiters and both closures' production (deviceLeastSquaresGradU) -- the CUDA mirror arm ";
    "refuses nothing of leastSquares any more; the linearUpwind-NAMED gradient under leastSquares ";
    "is refused by the shared parse on both arms, and so is any limiter brae does not apply ";
    "(cellMDLimited, faceLimited, faceMDLimited) on grad(U), grad(p), grad(magSqr(U)), grad(he) and ";
    "grad(Ekp|K) -- the parse recorded it and the shared reader only warned, so the unlimited gradient ";
    "ran under the case's scheme name (tests/eeqn_limitedlinear_vs_openfoam.sh's cellMDLimited arm). ";
    "A cellLimited grad(p) (parseFieldGradScheme's ";
    "cellLimitK for p, applied nowhere until this) now limits every grad(p) consumer on both arms, ";
    "fvc::snGrad's correction included -- tests/rho_gradp_lsq_simplec_vs_openfoam.sh's lim arm, ";
    "sbMatched with `grad(p) cellLimited Gauss linear 1`: host 2.02e-11, CUDA 2.48e-11 of OpenFOAM ";
    "where OpenFOAM's own Gauss and cellLimited runs are 5.4e-02 apart (the limiter bites; the ";
    "unlimited arms equal the Gauss run, so that number is the fail-proof). OPEN: the ";
    "incompressible simpleFoam pEqn_cpp.cu ";
    "calls fvc::snGrad without the scheme argument and so still builds SIMPLEC's correction from ";
    "Gauss under a leastSquares grad(p). The non-orth corrections and the gradient linearUpwind NAMES are ported ";
    "but not exercised by rhoSST (orthogonal laplacians, upwind divs). ";
    "SPEED, FP-3 (bench/rhoSimpleFoam/FASTPATH.md, 2026-09-12), all three levers ";
    "bit-identical end to end -- a reference binary with the FP-3 files at HEAD against the ";
    "new one wrote byte-identical fields and residual lines on injectorPipe and squareBend: ";
    "(1) THE INVERTED dd TENSOR IS THE MESH'S, not the gradient call's. OpenFOAM builds ";
    "leastSquaresVectors once per mesh as a MeshObject and invalidates it on a move; brae ";
    "rebuilt it inside every call -- on gasMixing/injectorPipe at 74,650 cells that was 10 ";
    "lsqInvDdKernel launches and 1.99 of the iteration's 15.79 GPU ms. It now lives on the ";
    "DeviceMesh (lsqInvDdFor, dropped in refreshDeviceMeshGeometry where OF invalidates its ";
    "MeshObject), 0.01 ms/it; BRAE_LSQ_INVDD=recompute restores the rebuild. (2) THE FUSED ";
    "FIT, deviceLeastSquaresGradFused, up to three fields in one launch -- the least-squares ";
    "twin of deviceGaussGradFused, held to memcmp per field by tests/test_lsq_grad_fused.cu ";
    "(ctest lsq_grad_fused; n=1,2,3, sheared and empty-patch meshes, one-ulp ";
    "cross-contamination controls, the cache's per-mesh control; fail-proof RUN, 10 arms ";
    "red). Its raw form writes into caller-owned slices, so deviceLeastSquaresGradU fills ";
    "the 9*nC grad(U) tensor in ONE launch where it took three fits, nine device-to-device ";
    "copies and three cudaStreamSynchronize. (3) ONE GRADIENT PER (base scheme, cellLimited ";
    "coefficient) PAIR an assembly asks for: the limitedLinear limiter, linearUpwind's ";
    "correction and the corrected laplacian all read the case's grad(<field>) entry, so the ";
    "energy assembly fitted grad(he) twice and each closure its own field twice. Net on ";
    "injectorPipe: 15.79 -> 13.73 GPU ms/it, four phases 19.1 -> 17.3 ms/it wall, EEqn 3.4 ";
    "-> 2.8 and turbulence 4.5 -> 3.6. The row's UEqn target (40 ns/cell) is NOT met at 56: ";
    "that case names grad(U) cellLimited Gauss linear 0.99, so the momentum phase runs no ";
    "least-squares fit at all and its cost is cellLimitGradKernel (FP-4)."]);
  selection_base := None;
  schema_for := None;
  other := [] |}.

Definition c_fvm_ddt_closure : component := {|
  name := "fvm_ddt_closure";
  of_symbol := "Foam::fv::EulerDdtScheme<Type>::fvmDdt";
  of_file := "src/finiteVolume/finiteVolume/ddtSchemes/EulerDdtScheme/EulerDdtScheme.C";
  classification := "SHARED_NUMERICAL";
  status := "PORTED";
  of_line := None;
  brae_driver := None;
  brae_existing := None;
  brae_reference := None;
  brae_cuda := None;
  brae_target := None;
  validation := Some (cat [
    "tests/rho_kepsilon_vs_openfoam.sh and tests/rho_komegasst_vs_openfoam.sh, each with an ";
    "arm that switches sbMatched to `ddtSchemes default Euler` and holds the assembled k and ";
    "epsilon|omega systems to 1e-13 against the instrumented models (fail-proofs: the term ";
    "zeroed reads 8.0e-04 / 2.8e-02 and 9.6e-04 / 3.0e-02). End to end on the tutorial that ";
    "ships Euler, gasMixing/injectorPipe: tests/rho_gasmixing_vs_openfoam.sh, worst 2.0e-11 ";
    "over iterations 6-8 with both codes restarted from OpenFOAM's own iteration 5. ";
    "CUDA against the _cpp reference: test_rho_kepsilon_cuda's Euler arm (rDeltaT 2, ";
    "rho.oldTime() synthesized distinct from rho) epsilon 3.2e-16, k 8.4e-16, nut 2.0e-15, ";
    "with the term withheld on the device k 4.85e-05 and with rho.oldTime() := rho ";
    "1.79e-05; inside the driver, tests/rho_step_cuda_euler.sh (rhoKE and rhoSST switched ";
    "to Euler, 3 iterations, both firstIteration rules exercised) k 4.4e-13, epsilon 3.1e-12, ";
    "nut 1.8e-11 on kEpsilon, and the in-gate fail-proof with the device term withheld reads ";
    "k 7.87e-05."]);
  note := None;
  selection_base := None;
  schema_for := None;
  other := [("brae_files", (cat [
    "src/TurbulenceModels/turbulenceModels/RAS/kEpsilon/kEpsilon_cpp.cu, ";
    "src/TurbulenceModels/turbulenceModels/RAS/kOmegaSST/kOmegaSST_cpp.cu ";
    "(the term, per equation); src/applications/solvers/common/scheme_parse.cuh ";
    "(parseDdtScheme); src/applications/solvers/rhoSimpleFoam/rhoSimpleFoamDriver_cpp.cu ";
    "(StepInput::ddtEuler, rDeltaT, firstIteration). CUDA: ";
    "src/TurbulenceModels/turbulenceModels/RAS/kEpsilon/kEpsilon.cu (inside the ";
    "reaction kernels, at the reference's position), ";
    "src/TurbulenceModels/turbulenceModels/RAS/kOmegaSST/kOmegaSST.cu (ddtKernel after ";
    "the shared reaction), src/applications/solvers/rhoSimpleFoam/rhoSimpleFoam.cu ";
    "(RhoSolverFields::rhoOld written before the closure hook), rhoTurbulenceHook.cu ";
    "(TurbulenceHookOptions::rDeltaT)"])); ("notes", (cat [
    "rhoSimpleFoam's own equations carry no fvm::ddt; the closures do, because the model is ";
    "shared with the transient solvers, and `steadyState` (five of the six tutorials) makes the ";
    "term an empty matrix (steadyStateDdtScheme::fvmDdt) while `Euler` makes it rho*V/deltaT on ";
    "the diagonal and rho.oldTime()*psi.oldTime()*V/deltaT in the source. brae neither parsed nor ";
    "refused ddtSchemes before this. deltaT is controlDict's LAST entry (the tutorial has two; ";
    "OpenFOAM's dictionary takes the last, and so does brae's). backward, CrankNicolson, ";
    "localEuler and bounded are refused by name (device_ddt.cuh carries their coefficients for the ";
    "transient solvers; this port takes only Euler's). OPEN: the incompressible simpleFoam driver ";
    "does not yet resolve ddtSchemes for its closures. The CUDA rhoSimpleFoam arm computes the ";
    "term in both closures (RhoStepInput::firstIteration mirrors the host rule). A RESTART is not ";
    "a continuation under Euler: OpenFOAM ";
    "itself, restarted from its own written iteration, differs from its continuous run at the ";
    "first restarted iteration by k 3.8e-07 (oldTime() created at first use), so gates restart ";
    "BOTH codes."]))] |}.

Definition c_generalizedNewtonian_compressible : component := {|
  name := "generalizedNewtonian_compressible";
  of_symbol := "laminarModels::generalizedNewtonian<BasicMomentumTransportModel>::correct";
  of_file := "src/TurbulenceModels/turbulenceModels/laminar/generalizedNewtonian/generalizedNewtonian.C";
  classification := "GPU_REQUIRED";
  status := "REIMPLEMENT";
  of_line := None;
  brae_driver := None;
  brae_existing := None;
  brae_reference := Some "src/TurbulenceModels/turbulenceModels/laminar/generalizedNewtonian/generalizedNewtonian_cpp.cu";
  brae_cuda := None;
  brae_target := Some "src/TurbulenceModels/turbulenceModels/laminar/generalizedNewtonian/generalizedNewtonian.cu";
  validation := Some (cat [
    "tests/rho_generalized_newtonian_vs_openfoam.sh -- OpenFOAM's own squareBendLiqNoNewtonian, ";
    "both arms, against OpenFOAM's WRITTEN generalizedNewtonian:nu as well as U, p, T and rho. ";
    "A: from rest, iteration 1 only (the constructor's nu_, nuMax over the quiescent field). ";
    "B: restart from OpenFOAM's iteration 5 with the tutorial's coefficients, iterations 6-8 ";
    "(nu_ at nuMin in every cell). C: the same restart with nuMin 1e-9, the coefficients in ";
    "generalizedNewtonianCoeffs { powerLawCoeffs { } } beside the flat ones, grad(U) ";
    "cellLimited -- the unclamped branch in every cell and on every patch face. Bounds 1e-10 ";
    "(T, rho 1e-11) except C's interior nu_ at 5e-9, which is OpenFOAM's own floor there ";
    "(OpenFOAM against itself, p solver swapped: 2.2e-10..1.1e-09). NOT CLAIMED: the tutorial ";
    "from rest past iteration 1 -- its first correct() reads the round-off of a plug (strain ";
    "rate ~1e-9 1/s in 21120 cells) and OpenFOAM against itself differs by U 1.04e-03 at ";
    "iteration 2; a converged comparison (nu_ = nuMin everywhere, a constant viscosity) is not ";
    "run; viscosity models other than powerLaw are refused by name."]);
  note := Some (cat [
    "The model REPLACES the molecular viscosity: nuEff() is nu_ and linearViscousStress assembles ";
    "rho_*nu_, cells and patch faces, with nu0 = mu/rho_ (the SOLVER's rho). nu_ is STORED: ";
    "built by the constructor from the initial U, rebuilt only in correct() at the end of the ";
    "iteration. Its patch values are the formula on the patch values of nu0 and strainRate, and ";
    "strainRate's come from gaussGrad's boundary correction -- the wall shear. The gate found a ";
    "generic restart defect before it could see the model: brae's inletOutlet/outletInlet/";
    "freestream took their construction value from inletValue where OpenFOAM keeps the file's ";
    "`value`. See PORT.md, Stage S1 Half B. THE DEVICE ARM CARRIED THE SAME DEFECT until the ";
    "gasMixing/injectorPipe restart gate reached it (tests/rho_gasmixing_vs_openfoam.sh): ";
    "buildDeviceBoundary seeded an inletOutlet face as fixedValue(inletValue), so every evaluate ";
    "before the first flux switch -- the closure's stored-patch-value reconstruction at its first ";
    "step -- returned inletValue; measured as the epsilon equation's off-diagonals 1.6e-04 off the ";
    "host with 100% of it on outlet-adjacent faces, and 8.8e-04 on the two turbulent inlets when ";
    "seeded zeroGradient instead. DeviceBoundary::ioStored now carries the file's `value` (the ";
    "host patch field's, extrapolated where absent) and ioFresh marks it until ";
    "deviceUpdateInletOutlet first runs (inletOutletFvPatchField.C's dictionary constructor: ";
    "valueFraction 0, readValueEntry or extrapolateInternal). Both boundary builders. After it the ";
    "CUDA arm sits at 1.2e-11 of OpenFOAM's own restart over iterations 6-8, the host at 2.0e-11. ";
    "The seed is taken by the CLOSURE boundaries (buildDeviceBoundary's storedIoSeed, dbK and dbEps in ";
    "rhoCreateFields.cu) and is INERT on the solver fields: nothing evaluates U/p/he/T's inletOutlet ";
    "faces before the step's first flux switch, and with BRAE_IO_STORED_SOLVER=1 neither mirror arm ";
    "changes a digit. MEASURED CLOSED by tests/rho_naca_restart_vs_openfoam.sh (aerofoilNACA0012: ";
    "kOmegaSST, inletOutlet T/k/omega, freestream U/p, restarted from OpenFOAM's iteration 100 under ";
    "the gasMixing protocol): host and CUDA both 1.8e-09 of OpenFOAM's own restart (p at the first ";
    "restarted iteration, <= 2.2e-10 elsewhere), CUDA vs host <= 5.2e-13; at the case's own ";
    "tolerances the arms read 2.5e-05 apart, solver stopping points. The 1.16e-03 that ";
    "validation/restart_vs_openfoam.sh once read with a seed was the PRE-MIRROR driver (which that ";
    "gate runs, BRAE_RHOSIMPLEFOAM_MIRROR unset) under the outletInlet/freestreamPressure seed, no ";
    "longer taken for any field. BRAE_IO_STORED=0 disables the seed everywhere (the control)."]);
  selection_base := None;
  schema_for := None;
  other := [] |}.

Definition c_PatchFunction1Expression : component := {|
  name := "PatchFunction1Expression";
  of_symbol := "PatchFunction1Types::PatchExprField<Type>::value";
  of_file := "src/finiteVolume/expressions/PatchFunction1/PatchFunction1Expression.C";
  classification := "HOST_ONLY";
  status := "PORTED";
  of_line := None;
  brae_driver := None;
  brae_existing := None;
  brae_reference := Some "src/finiteVolume/expressions/PatchFunction1/patchExprFunction1.cu";
  brae_cuda := None;
  brae_target := Some "src/finiteVolume/expressions/PatchFunction1/patchExprFunction1.cu";
  validation := Some (cat [
    "tests/rho_patch_expression_vs_openfoam.sh -- squareBendLiq's own T walls, `type ";
    "expression` with its variables and functions<scalar> table verbatim, both mirror arms ";
    "against OpenFOAM's WRITTEN wall values iteration by iteration and the cells alongside ";
    "(solvers tightened to 1e-14 relTol 0 on both codes, since the expression reads |U_c| ";
    "after the momentum solve). Walls at iteration 1: host 1.21e-13, CUDA 1.21e-13 (22400 ";
    "distinct values around 500.003); iterations 2-3 exactly 0 (both 500); cells over 1-3 ";
    "1.86e-12 on both arms. Bounds 1e-12 walls, 1e-11 cells. THE CONTROL is a `constant 500` ";
    "wall on the host arm, which the same comparison rejects at 3.63e-07 -- six orders above ";
    "the bound. Also asserted: the oracle is non-uniform and above 500 at iteration 1; brae's ";
    "written T carries the dictionary and OpenFOAM restarts from it; six refusals by name ";
    "(sqrt, a functions<scalar> entry referenced, an unregistered field, the expression on U, ";
    "on p, and the entry-less form). tests/test_patch_expr.cu covers the grammar without ";
    "OpenFOAM: precedence and associativity as operator-precedence.m4 declares them, lookups ";
    "in OpenFOAM's order, Foam::max's NaN side, mag() of a vector, 17 refusals by name. ";
    "tests/rho_tutorials_vs_openfoam.sh now RUNS squareBendLiq on both arms (1.9e-12)."]);
  note := Some (cat [
    "THE SUBSET, and nothing else: numbers, + - * /, unary minus, parentheses, identifiers that ";
    "are `variables` entries or registered fields (the PATCH value, getField), internalField(x), ";
    "snGrad(x) (the patch class's own virtual on the host; the fixedValue formula on the CUDA arm ";
    "for the patch's own field only), mag(vector), max, min, time(), deltaT(), arg(), pi(). ";
    "OpenFOAM's grammar has ~60 more rules; every other token -- another function, a comparison, ";
    "?:, .x component access, vector arithmetic, a functions<> entry referenced, name{where} ";
    "remote variables -- is refused BY NAME at parse or first evaluation. WHERE IT IS EVALUATED ";
    "is the port: uniformFixedValue::updateCoeffs runs inside fixedEnergy::updateCoeffs -> ";
    "Tw.evaluate(), once per iteration (the first fvm:: term's fvMatrix constructor; later ones ";
    "find updated()), over U AFTER the momentum solve and T's cells and T's own patch value from ";
    "the previous iteration -- so both steps evaluate it immediately before energy_boundary's ";
    "updateEnergyBoundaryCoeffs. On T ONLY: an expression on any other field is refused by name ";
    "(that field's own updateCoeffs is where OpenFOAM would evaluate it, and no brae step ";
    "reproduces that); the entry-less form (no `value`) is refused because OpenFOAM evaluates it ";
    "at construction over fields brae has not built. The CUDA arm evaluates the same host code ";
    "on the patch's cells downloaded at the assembly and pushes the result into dbT's refValue ";
    "(operator==), which deviceBCValue then exposes -- the flowRate Function1's arrangement. ";
    "Foam::max is (b < a) ? a : b, so max(NaN, 0) is 0 -- transcribed, not std::max; the walls ";
    "reach exactly 500 from iteration 2 because max((500 - 500.003)/500, 0) is 0 and ";
    "par1*T_c*0 is 0. heBoundaryTypes dispatches on the CLASS: uniformFixedValue is a ";
    "fixedValueFvPatchField, so he gets fixedEnergy seeded from T's `value`; createFields_cpp ";
    "now maps it so. THE WRITER echoes the dictionary (PatchExprField::writeData echoes dict_): ";
    "the functions<> tokens are re-emitted with the tokenizer's single-character delimiters ";
    "bare -- quoting them made OpenFOAM's reader fail at the functionObjectTrigger's `{`. ";
    "SPEED, FP-7 (2026-09-13): those downloads were WHOLE FIELDS. Every accessor of the ";
    "expression context called .host() on a 112,000-cell or 22,400-face array and sliced the ";
    "patch out of it, once per field the expression names, once per patch, once per ";
    "iteration -- measured on squareBendLiq as ONE gap of 3.15 ms per iteration inside an ";
    "energy phase whose wall is 4.9 ms and whose GPU work is 1.9. The boundary slice is now a ";
    "copy of the patch's own bytes (it is contiguous), the internal values are gathered on the ";
    "DEVICE (deviceGatherIndexed) into a patch-sized buffer, and each field is fetched at most ";
    "ONCE per evaluation. Sizing alone halved the bytes (142.3 -> 70.4 MB per 20 iterations) ";
    "and changed nothing, because it turned five big blocking copies into 74 small ones and ";
    "the cost is the ROUND TRIP. The cache took the energy phase 5.8 -> 4.7 ms/it, and BATCHING ";
    "took it to 3.9: the first request fills the whole cache, every registered field gathered ";
    "(scattered internal values) or sliced (contiguous boundary values) into ONE device buffer ";
    "read back in a single copy. Blocking copies in that phase went 8.0 -> 6.0 -> 2.0 per ";
    "iteration and their API time 2.75 -> 3.03 -> 0.79 ms, with the phase 39% -> 65% GPU-busy; ";
    "the four phases went 21.0 -> 19.0 ms/it, which puts squareBendLiq at 1.21x OpenFOAM on 20 ";
    "cores per iteration where it was 1.08x. rho_patch_expression_vs_openfoam holds its 1e-12 ";
    "walls bound throughout. Two round trips remain -- the batch coming back and the result ";
    "going out -- and the second needs a pinned staging buffer to go async."]);
  selection_base := None;
  schema_for := None;
  other := [] |}.

Definition components : list component := [
  c_rhoSimpleFoam_main;
  c_createFields;
  c_UEqn;
  c_EEqn;
  c_pEqn;
  c_pcEqn;
  c_kEpsilon_compressible;
  c_createFieldRefs;
  c_leastSquaresGrad;
  c_fvm_ddt_closure;
  c_generalizedNewtonian_compressible;
  c_PatchFunction1Expression].
End rhoSimpleFoam.
