(* ===== verification/Manifest.v ===== *)
(** * tools/of_manifest.py: the port manifest

    The YAML scalar [y], the queries behind the derived half ([impls_for],
    [schema_for], [case_selections]), [verify_provenance], [emit] and [main].

    ofscan is outside the repository: its database is the record [odb] (the rows
    of the table [runtime_types], and the answers of its three functions).  A
    value of the table is text; [None] is Python's. *)
From stdpp Require Import gmap.
From S2P Require Export ManifestData PyRe PyOs.
From S2P Require ManifestSimple ManifestInter ManifestRho.

#[local] Open Scope list_scope.
(** The text of a field. *)
Definition tx (s : String.string) : str := String.list_ascii_of_string s.
Definition otx (o : option String.string) : str := from_option tx [] o.

Module Yaml.
(** The characters that make a scalar need quotes. *)
Definition indicators : list citem := CChar dquote :: CChar "'" :: chars ":#[]{},&*?|<>=!%@`".
Definition re_special : re :=
  alts [cls indicators; RSeq RBol sp; RSeq sp REol].
Definition re_leading : re := RSeq RBol (cls (chars "-?")).
Definition reserved : list str :=
  ["yes" : str; "no" : str; "true" : str; "false" : str; "null" : str; "~" : str].

Definition needs_quotes (s : str) : bool :=
  bool_decide (is_Some (search re_special s 0))
  || bool_decide (is_Some (match_ re_leading s 0))
  || bool_decide (lower s ∈ reserved).

(** [.replace("\\", "\\\\").replace('"', '\\"')] *)
Definition escape (s : str) : str :=
  replace1 dquote [bslash; dquote] (replace1 bslash [bslash; bslash] s).

Definition y (v : option str) : str :=
  match v with
  | None => "null"
  | Some [] => [dquote; dquote]
  | Some s => if needs_quotes s then dquote :: escape s ++ [dquote] else s
  end.
Definition ys (s : str) : str := y (Some s).
End Yaml.

Module Manifest.
Import Yaml.

(** A row of ofscan's dictionary schema: key, required, default, operation, path,
    line as printed. *)
Record schema_row := {
  r_key : str; r_required : bool; r_default : option str; r_op : str;
  r_path : option str; r_line : str;
}.
(** A selection site of a case: category, base, keyword, where. *)
Record site := { s_category : str; s_base : str; s_keyword : str; s_where : str }.

Record odb := {
  runtime_types : list (str * option str);
  db_schema : str → list schema_row;
  selections : str → list site;
  resolve : str → str → option (str * str);
}.

(** SELECT DISTINCT selection_key ... ORDER BY *)
Definition impls_for (d : odb) (base : str) : list str :=
  sorted (elements (list_to_set (C := gset str)
    (omap (λ r, if bool_decide (r.1 = base) then r.2 else None) (runtime_types d)))).

Record schema := {
  key : str; required : bool; default_ : option str; op : str; at_ : str;
}.
Definition or_else (o : option str) (d : str) : str :=
  match o with Some ((_ :: _) as s) => s | _ => d end.
Definition schema_for (d : odb) (cls : str) : list schema :=
  map (λ r, {| key := r_key r; required := r_required r; default_ := r_default r; op := r_op r;
               at_ := basename (or_else (r_path r) "?") ++ ":" ++ r_line r |}) (db_schema d cls).

Record selection := {
  category : str; keyword : str; where_ : str; resolved : option str; how : str;
}.
Definition case_selections (d : odb) (case : str) : list selection :=
  map (λ s, let r := resolve d (s_base s) (s_keyword s) in
            {| category := s_category s; keyword := s_keyword s; where_ := s_where s;
               resolved := fst <$> r;
               how := match r with Some p => p.2 | None => "UNRESOLVED" end |}) (selections d case).

Definition COMPONENTS : list (str * list component) :=
  [("simpleFoam" : str, ManifestSimple.simpleFoam.components);
   ("interFoam" : str, ManifestInter.interFoam.components);
   ("rhoSimpleFoam" : str, ManifestRho.rhoSimpleFoam.components)].
Definition table_of (tables : list (str * list component)) (solver : str) :
    option (list component) :=
  snd <$> List.find (λ p, bool_decide (p.1 = solver)) tables.

Definition SELECTION_NOTE : list (str * str) :=
  [("incompressible::turbulenceModel" : str, "createFields.H:42" : str);
   ("lduMatrix::solver" : str, "fvSolution solvers/<field>/solver" : str);
   ("option" : str, "constant/fvOptions or system/fvOptions" : str)].
Definition selection_note (base : str) : str :=
  match List.find (λ p, bool_decide (p.1 = base)) SELECTION_NOTE with
  | Some p => p.2
  | None => "-"
  end.

(** ** verify_provenance *)
Definition no_path (s : str) : bool := bool_decide (s = "-" :> str) || bool_decide (s = []).
Definition missing (f : fs) (OF : str) (c : component) : bool :=
  negb (no_path (tx (of_file c))) && negb (exists_ f (pjoin OF (tx (of_file c)))).
Definition verify_provenance (f : fs) (OF : str) (table : list component) : list (str * str) :=
  map (λ c, (tx (name c), tx (of_file c))) (List.filter (missing f OF) table).

(** ** emit *)

(** [if c.get(k): add(prefix + y(c[k]))] *)
Definition opt_line (prefix : str) (o : option String.string) : list str :=
  match otx o with [] => [] | s => [prefix ++ ys s] end.

Definition field_lines (c : component) : list str :=
  opt_line "    brae_driver: " (brae_driver c) ++ opt_line "    brae_existing: " (brae_existing c)
  ++ opt_line "    brae_reference: " (brae_reference c) ++ opt_line "    brae_cuda: " (brae_cuda c)
  ++ opt_line "    brae_target: " (brae_target c) ++ opt_line "    validation: " (validation c)
  ++ opt_line "    note: " (note c).

Definition selection_lines (d : odb) (base : str) : list str :=
  match base with
  | [] => []
  | _ =>
      let ks := impls_for d base in
      [("    derived_runtime_selection:" : str);
       ("      base: " : str) ++ ys base;
       ("      selected_at: " : str) ++ ys (selection_note base);
       ("      openfoam_implementations: " : str) ++ dec (Z.of_nat (length ks));
       ("      keys: [" : str) ++ join ", " (map ys ks) ++ "]"]
  end.

Definition schema_lines (r : schema) : list str :=
  [("        - key: " : str) ++ ys (key r);
   ("          required: " : str) ++ (if required r then "true" else "false" : str);
   ("          default: " : str) ++ y (default_ r);
   ("          read_by: " : str) ++ ys (op r);
   ("          at: " : str) ++ ys (at_ r)].
Definition dictionary_lines (d : odb) (cls : str) : list str :=
  match cls with
  | [] => []
  | _ =>
      let rows := schema_for d cls in
      [("    derived_dictionary_schema:" : str); ("      class: " : str) ++ ys cls]
      ++ match rows with
         | [] => ["      keys: []" : str]
         | _ => ("      keys:" : str) :: flat_map schema_lines rows
         end
  end.

Definition component_lines (d : odb) (c : component) : list str :=
  [("  " : str) ++ tx (name c) ++ ":"; ("    openfoam:" : str);
   ("      symbol: " : str) ++ ys (tx (of_symbol c));
   ("      file: " : str) ++ ys (tx (of_file c))]
  ++ match of_line c with
     | Some n => if (n =? 0)%Z then [] else [("      line: " : str) ++ dec n]
     | None => []
     end
  ++ [("    classification: " : str) ++ tx (classification c);
      ("    brae_status: " : str) ++ tx (status c)]
  ++ field_lines c ++ selection_lines d (otx (selection_base c))
  ++ dictionary_lines d (otx (ManifestData.schema_for c)).

(** One line per [(category, keyword)], the first of each in sorted order. *)
Fixpoint required_lines (seen : list (str * str)) (l : list selection) : list str :=
  match l with
  | [] => []
  | s :: l =>
      let tag := (category s, keyword s) in
      if bool_decide (tag ∈ seen) then required_lines seen l
      else (("      - {category: " : str) ++ category s ++ ", keyword: " ++ ys (keyword s)
              ++ ", resolves_to: " ++ y (resolved s) ++ "}") :: required_lines (tag :: seen) l
  end.

(** The order of the pairs [(category, keyword)]. *)
Definition sel_leb (a b : selection) : bool :=
  if bool_decide (category a = category b) then str_leb (keyword a) (keyword b)
  else str_leb (category a) (category b).

Definition unresolved (s : selection) : bool := bool_decide (how s = "UNRESOLVED" :> str).
Definition case_lines (f : fs) (d : odb) (path : str) : list str :=
  if isdir f path then
    let sels := case_selections d path in
    [("  " : str) ++ ys (basename path) ++ ":"; ("    path: " : str) ++ ys path;
     ("    derived_selection_sites: " : str) ++ dec (Z.of_nat (length sels));
     ("    derived_unresolved: " : str) ++ dec (Z.of_nat (length (List.filter unresolved sels)));
     ("    derived_required_implementations:" : str)]
    ++ required_lines [] (sort_by sel_leb sels) ++ [[]]
  else [].

Definition header_lines (solver OF : str) : list str :=
  [("# GENERATED by tools/of_manifest.py -- do not edit the `derived:` blocks by hand." : str);
   ("# The `classification:`/`brae_status:`/`note:` fields are CURATED and live in that script." : str);
   ("solver: " : str) ++ ys solver; ("openfoam_root: " : str) ++ ys OF; ([] : str);
   ("components:" : str)].

Definition emit_lines (f : fs) (OF solver : str) (table : list component) (d : odb)
    (cases : list str) : list str :=
  header_lines solver OF
  ++ flat_map (λ c, component_lines d c ++ [[]]) table
  ++ ("validation_cases:" : str) :: flat_map (case_lines f d) cases.

Definition emit (f : fs) (OF solver : str) (table : list component) (d : odb) (cases : list str) :
    str := join [nl] (emit_lines f OF solver table d cases) ++ [nl].

(** ** main *)
Definition SKIP_EXIT : Z := 77.
Record arguments := { a_solver : str; a_cases : option (list str); a_check : option str }.

Definition default_cases (OF : str) : list str :=
  map (pjoin OF) ["tutorials/incompressible/simpleFoam/pitzDaily" : str;
                  "tutorials/incompressible/simpleFoam/airFoil2D" : str;
                  "tutorials/incompressible/simpleFoam/motorBike" : str].

(** The exit status and what goes to standard output; [db] is [None] when ofscan
    is not there. *)
Definition main (f : fs) (OF : str) (tables : list (str * list component)) (db : option odb)
    (a : arguments) : res (Z * str) :=
  match table_of tables (a_solver a) with
  | None => Ok (1%Z, [])
  | Some table =>
      match verify_provenance f OF table with
      | _ :: _ => Ok (2%Z, [])
      | [] =>
          let cases := match a_cases a with Some ((_ :: _) as l) => l | _ => default_cases OF end in
          match db with
          | None => Ok (SKIP_EXIT, [])
          | Some d =>
              let text := emit f OF (a_solver a) table d cases in
              match a_check a with
              | Some ((_ :: _) as file) =>
                  old ← (if exists_ f file then read_text f file else Ok []);
                  Ok (if bool_decide (old = text) then 0%Z else 1%Z, [])
              | _ => Ok (0%Z, text)
              end
          end
      end
  end.
End Manifest.
