(* ===== verification/ManifestProofs.v ===== *)
(** * tools/of_manifest.py: theorems

    Quoting ([y]) is injective; the completeness of the drift check, the exit status of [main],
    and what the component table holds. *)
From stdpp Require Import gmap.
From Stdlib Require String.
From S2P Require Import Manifest.


Module Quoting.
Import Yaml.

Definition special (c : ascii) : bool := existsb (λ i, citem_in i c) indicators.

Lemma plain_no_special s : needs_quotes s = false → ∀ c, c ∈ s → special c = false.
Proof.
  intros H c Hc. apply orb_false_iff in H as [H _]. apply orb_false_iff in H as [H _].
  apply bool_decide_eq_false in H. destruct (special c) eqn:E; [|done]. destruct H.
  destruct (search re_special s 0) eqn:Es; [by eexists|].
  apply list_elem_of_lookup_1 in Hc as [j Hj].
  pose proof (lookup_lt_Some _ _ _ Hj).
  destruct (search_None _ _ _ Es j (advance c (drop (S j) s) (start_state s j))); [lia|].
  apply M_AltL, M_Set; [by apply drop_S|]. change (xorb false (special c) = true). by rewrite E.
Qed.

Lemma plain_not_reserved s : needs_quotes s = false → lower s ∉ reserved.
Proof. intros H. apply orb_false_iff in H as [_ H]. by apply bool_decide_eq_false in H. Qed.

(** ** Quoting loses nothing

    The escapes of [escape] taken back, up to the closing quote. *)
Fixpoint unescape (r : str) : option str :=
  match r with
  | [] => None
  | c :: r' =>
      if Ascii.eqb c dquote then match r' with [] => Some [] | _ => None end
      else if Ascii.eqb c bslash then
        match r' with [] => None | d :: r'' => cons d <$> unescape r'' end
      else cons c <$> unescape r'
  end.

Lemma escape_cons c s :
  escape (c :: s) =
  (if Ascii.eqb c bslash then [bslash; bslash]
   else if Ascii.eqb c dquote then [bslash; dquote] else [c]) ++ escape s.
Proof.
  unfold escape, replace1. cbn [flat_map].
  destruct (Ascii.eqb_spec c bslash) as [->|H]; [done|].
  cbn [app flat_map]. by destruct (Ascii.eqb_spec c dquote) as [->|H'].
Qed.

Lemma unescape_escape s : unescape (escape s ++ [dquote]) = Some s.
Proof.
  induction s as [|c s IH]; [done|]. rewrite escape_cons, <- app_assoc.
  destruct (Ascii.eqb_spec c bslash) as [->|H]; [|destruct (Ascii.eqb_spec c dquote) as [->|H']].
  - cbn. by rewrite IH.
  - cbn. by rewrite IH.
  - cbn [app unescape]. apply Ascii.eqb_neq in H, H'. by rewrite H, H', IH.
Qed.

Definition quoted (s : str) : bool := bool_decide (s = []) || needs_quotes s.

Lemma ys_forms s : ys s = if quoted s then dquote :: escape s ++ [dquote] else s.
Proof. destruct s as [|c s]; [done|]. unfold ys, quoted. cbn [y]. by rewrite bool_decide_eq_false_2. Qed.

Lemma special_dquote : special dquote = true.
Proof. done. Qed.

Lemma plain_head s : quoted s = false → ∃ c r, s = c :: r ∧ special c = false.
Proof.
  intros H. apply orb_false_iff in H as [H1 H2]. destruct s as [|c r]; [done|].
  exists c, r. split; [done|]. apply (plain_no_special _ H2). left.
Qed.

Lemma ys_inj s t : ys s = ys t → s = t.
Proof.
  rewrite !ys_forms. destruct (quoted s) eqn:Es, (quoted t) eqn:Et.
  - intros [= E]. apply (f_equal unescape) in E. rewrite !unescape_escape in E. by injection E.
  - destruct (plain_head t Et) as (c & r & -> & Hc). intros [= <- _]. by rewrite special_dquote in Hc.
  - destruct (plain_head s Es) as (c & r & -> & Hc). intros [= -> _]. by rewrite special_dquote in Hc.
  - done.
Qed.
Lemma ys_not_null s : ys s ≠ ("null" : str).
Proof.
  rewrite ys_forms. destruct (quoted s) eqn:E; [done|]. intros ->.
  apply orb_false_iff in E as [_ E]. apply (plain_not_reserved _ E). by apply (bool_decide_eq_true_1 _).
Qed.
Lemma y_inj v w : y v = y w → v = w.
Proof.
  destruct v as [s|], w as [t|]; [|by intros E%ys_not_null|intros E; by destruct (ys_not_null t)|done].
  intros E. f_equal. by apply ys_inj.
Qed.
End Quoting.

Module Drift.
Import Yaml Manifest Quoting.

(** ** A scalar followed by a separator *)

Definition ends_scalar (c : ascii) : bool := Ascii.eqb c "," || Ascii.eqb c "]".
Lemma ends_special c : ends_scalar c = true → special c = true.
Proof. intros [->%ascii_eqb_eq| ->%ascii_eqb_eq]%orb_true_iff; done. Qed.

Lemma escape_prefix a b r1 r2 :
  escape a ++ dquote :: r1 = escape b ++ dquote :: r2 → a = b ∧ r1 = r2.
Proof.
  revert b; induction a as [|c a IH]; intros [|d b]; rewrite ?escape_cons.
  - by intros [= ->].
  - destruct (Ascii.eqb d bslash); [done|]. destruct (Ascii.eqb_spec d dquote); [done|].
    intros [= E _]. by destruct n.
  - destruct (Ascii.eqb c bslash); [done|]. destruct (Ascii.eqb_spec c dquote); [done|].
    intros [= E _]. by destruct n.
  - rewrite <- !app_assoc.
    destruct (Ascii.eqb_spec c bslash) as [->|H1], (Ascii.eqb_spec d bslash) as [->|H2];
      [|destruct (Ascii.eqb_spec d dquote) as [->|H4]|destruct (Ascii.eqb_spec c dquote) as [->|H3]|
       destruct (Ascii.eqb_spec c dquote) as [->|H3], (Ascii.eqb_spec d dquote) as [->|H4]];
      cbn [app]; intros [= E]; subst; try done;
      repeat match goal with H : _ = _ |- _ => apply IH in H as [-> ->] end; done.
Qed.

Lemma plain_prefix a b c1 c2 r1 r2 :
  (∀ c, c ∈ a → ends_scalar c = false) → (∀ c, c ∈ b → ends_scalar c = false) →
  ends_scalar c1 = true → ends_scalar c2 = true →
  a ++ c1 :: r1 = b ++ c2 :: r2 → a = b ∧ c1 :: r1 = c2 :: r2.
Proof.
  revert b; induction a as [|x a IH]; intros [|z b] Ha Hb H1 H2; cbn; [done|..].
  - intros [= -> _]. rewrite Hb in H1; [done|left].
  - intros [= -> _]. rewrite Ha in H2; [done|left].
  - intros [= -> E]. assert (a = b ∧ c1 :: r1 = c2 :: r2) as [-> E']; [|by split].
    apply IH; [intros c Hc; apply Ha; by right|intros c Hc; apply Hb; by right|done..].
Qed.

Lemma ys_prefix a b c1 c2 r1 r2 :
  ends_scalar c1 = true → ends_scalar c2 = true →
  ys a ++ c1 :: r1 = ys b ++ c2 :: r2 → a = b ∧ c1 :: r1 = c2 :: r2.
Proof.
  intros H1 H2. rewrite !ys_forms.
  assert (∀ s, quoted s = false → ∀ c, c ∈ s → ends_scalar c = false) as Hp.
  { intros s [_ Hs]%orb_false_iff c Hc. destruct (ends_scalar c) eqn:E; [|done].
    apply ends_special in E. by rewrite (plain_no_special s Hs c Hc) in E. }
  destruct (quoted a) eqn:Ea, (quoted b) eqn:Eb.
  - cbn [app]. rewrite <- !app_assoc. intros [= E]. by apply escape_prefix in E as [-> E].
  - destruct (plain_head b Eb) as (c & r & -> & Hc). intros [= <- _]. by rewrite special_dquote in Hc.
  - destruct (plain_head a Ea) as (c & r & -> & Hc). intros [= -> _]. by rewrite special_dquote in Hc.
  - apply plain_prefix; [by apply Hp..|done|done].
Qed.

(** A flow sequence. *)
Lemma keys_inj l1 l2 :
  length l1 = length l2 →
  join ", " (map ys l1) ++ ("]" : str) = join ", " (map ys l2) ++ ("]" : str) → l1 = l2.
Proof.
  revert l2; induction l1 as [|a l1 IH]; intros [|b l2] Hl; try done.
  assert (∀ x l, join ", " (map ys (x :: l)) ++ ("]" : str) =
    ys x ++ match l with [] => ("]" : str) | _ => (", " : str) ++ join ", " (map ys l) ++ ("]" : str) end) as Hj.
  { intros x [|z l]; [done|]. cbn [map join]. by rewrite <- !app_assoc. }
  rewrite !Hj. destruct l1 as [|a' l1], l2 as [|b' l2]; try done.
  - intros [-> _]%ys_prefix; done.
  - intros [-> [= E]]%ys_prefix; [|done..]. f_equal. apply IH; [cbn in *; lia|done].
Qed.

(** ** Lines *)

#[local] Opaque y.
Lemma schema_lines_inj r1 r2 : schema_lines r1 = schema_lines r2 → r1 = r2.
Proof.
  destruct r1 as [k1 q1 d1 o1 a1], r2 as [k2 q2 d2 o2 a2]. unfold schema_lines, ys. cbn [key required default_ op at_].
  intros [= Ek Eq Ed Eo Ea]. apply y_inj in Ek, Ed, Eo, Ea. injection Ek as ->. injection Eo as ->.
  injection Ea as ->. subst. f_equal. by destruct q1, q2.
Qed.
#[local] Transparent y.

Lemma rows_inj l1 l2 : flat_map schema_lines l1 = flat_map schema_lines l2 → l1 = l2.
Proof.
  revert l2; induction l1 as [|r1 l1 IH]; intros [|r2 l2]; try done. cbn [flat_map].
  intros E. apply app_inj_1 in E as [E1 E2]; [|done]. f_equal; [by apply schema_lines_inj | by apply IH].
Qed.

Lemma dictionary_inj d1 d2 cls :
  cls ≠ [] → dictionary_lines d1 cls = dictionary_lines d2 cls →
  schema_for d1 cls = schema_for d2 cls.
Proof.
  intros Hc. unfold dictionary_lines. destruct cls as [|c cls]; [done|]. intros E.
  apply app_inv_head in E.
  destruct (schema_for d1 (c :: cls)) as [|r1 l1], (schema_for d2 (c :: cls)) as [|r2 l2]; try done.
  apply rows_inj. exact (f_equal (@tail _) E).
Qed.

Lemma selection_inj d1 d2 base t1 t2 :
  base ≠ [] → selection_lines d1 base ++ t1 = selection_lines d2 base ++ t2 →
  impls_for d1 base = impls_for d2 base ∧ t1 = t2.
Proof.
  intros Hb. unfold selection_lines. destruct base as [|c base]; [done|].
  intros [= En Ek Et]. split; [|done]. apply keys_inj.
  - by apply dec_inj, Nat2Z.inj in En.
  - done.
Qed.

(** No line of a component is empty: an empty line ends it. *)
Lemma opt_line_nonempty p o : p ≠ [] → Forall (λ l : str, l ≠ []) (opt_line p o).
Proof. intros Hp. unfold opt_line. destruct (otx o); repeat constructor. by destruct p. Qed.

Lemma schema_nonempty l : Forall (λ l : str, l ≠ []) (flat_map schema_lines l).
Proof. induction l as [|r l IH]; cbn [flat_map]; [constructor|]. apply Forall_app; split; [|done]. by repeat constructor. Qed.

Lemma component_lines_nonempty d c : Forall (λ l : str, l ≠ []) (component_lines d c).
Proof.
  unfold component_lines, field_lines. rewrite !Forall_app.
  repeat match goal with |- _ ∧ _ => split end;
    try (apply opt_line_nonempty; done); try (repeat constructor; done).
  - destruct (of_line c) as [n|]; [|done]. destruct (n =? 0)%Z; by repeat constructor.
  - unfold selection_lines. destruct (otx (selection_base c)); by repeat constructor.
  - unfold dictionary_lines. destruct (otx _) as [|x cls]; [done|]. apply Forall_app. split; [by repeat constructor|].
    destruct (schema_for d (x :: cls)) as [|r l]; [by repeat constructor|].
    constructor; [done | apply schema_nonempty].
Qed.

Lemma blocks_inj d1 d2 table r1 r2 :
  flat_map (λ c, component_lines d1 c ++ [[]]) table ++ r1
  = flat_map (λ c, component_lines d2 c ++ [[]]) table ++ r2 →
  ∀ c, c ∈ table → component_lines d1 c = component_lines d2 c.
Proof.
  induction table as [|c0 table IH]; cbn [flat_map]; [by intros _ c ?%not_elem_of_nil|].
  rewrite <- !app_assoc. cbn [app]. intros E.
  assert (∀ d c, ([] : str) ∉ component_lines d c) as Hn.
  { intros d c Hin. pose proof (component_lines_nonempty d c) as H. rewrite Forall_forall in H.
    by apply (H _ Hin). }
  apply sep_inj in E as [E1 E2]; [|apply Hn..].
  intros c [->|Hc]%elem_of_cons; [done | by apply IH].
Qed.

Lemma component_inj d1 d2 c :
  component_lines d1 c = component_lines d2 c →
  (otx (selection_base c) ≠ [] →
     impls_for d1 (otx (selection_base c)) = impls_for d2 (otx (selection_base c))) ∧
  (otx (ManifestData.schema_for c) ≠ [] →
     schema_for d1 (otx (ManifestData.schema_for c)) = schema_for d2 (otx (ManifestData.schema_for c))).
Proof.
  unfold component_lines. intros E. do 4 (apply app_inv_head in E).
  destruct (otx (selection_base c)) as [|b base] eqn:Eb.
  - cbn [selection_lines app] in E. split; [done|]. intros Hc. by apply dictionary_inj.
  - apply selection_inj in E as [E1 E2]; [|done]. split; [done|]. intros Hc. by apply dictionary_inj.
Qed.

(** C14: the drift check is complete.  If two databases give one manifest, line by
    line free of newlines, then they agree on everything the manifest derives from
    them for the components: the implementations of every selected base and the
    schema of every queried class, row by row. *)
Theorem emit_derived_inj f OF solver table d1 d2 cases :
  Forall (λ l, nl ∉ l) (emit_lines f OF solver table d1 cases) →
  Forall (λ l, nl ∉ l) (emit_lines f OF solver table d2 cases) →
  emit f OF solver table d1 cases = emit f OF solver table d2 cases →
  ∀ c, c ∈ table →
    (otx (selection_base c) ≠ [] →
       impls_for d1 (otx (selection_base c)) = impls_for d2 (otx (selection_base c))) ∧
    (otx (ManifestData.schema_for c) ≠ [] →
       schema_for d1 (otx (ManifestData.schema_for c)) = schema_for d2 (otx (ManifestData.schema_for c))).
Proof.
  intros H1 H2 E c Hc. apply app_inj_2 in E as [E _]; [|done].
  apply join_inj in E; [|done..]. unfold emit_lines in E. apply app_inv_head in E.
  by apply component_inj, (blocks_inj _ _ _ _ _ E).
Qed.
End Drift.

Module Props.
Import Yaml Manifest Quoting Drift.

(** The path an entry claims is there. *)
Definition path_ok (f : fs) (OF : str) (c : component) : Prop :=
  tx (of_file c) = ("-" : str) ∨ tx (of_file c) = [] ∨ exists_ f (pjoin OF (tx (of_file c))) = true.

Lemma missing_spec f OF c : missing f OF c = false ↔ path_ok f OF c.
Proof.
  unfold missing, no_path, path_ok.
  rewrite andb_false_iff, !negb_false_iff, orb_true_iff, !bool_decide_eq_true. tauto.
Qed.

Lemma provenance_nil f OF table :
  verify_provenance f OF table = [] ↔ ∀ c, c ∈ table → path_ok f OF c.
Proof.
  unfold verify_provenance. setoid_rewrite <- missing_spec.
  induction table as [|c table IH]; cbn [List.filter]; [split; [by intros _ ? ?%not_elem_of_nil|done]|].
  destruct (missing f OF c) eqn:E; cbn [map].
  - split; [done|]. intros H. rewrite (H c) in E; [done|left].
  - rewrite IH. split; [intros H x [->|Hx]%elem_of_cons; auto | intros H x Hx; apply H; by right].
Qed.

(** The cases of a run, and the text a check reads. *)
Definition cases_of (OF : str) (a : arguments) : list str :=
  match a_cases a with Some ((_ :: _) as l) => l | _ => default_cases OF end.
Definition old_text (f : fs) (file : str) : res str :=
  if exists_ f file then read_text f file else Ok [].

(** the exit status.  A run ends with 2 exactly when the solver has a table
    and an OpenFOAM path the table claims is not in the tree, and with 77 exactly
    when all paths are there and ofscan is not. *)
Theorem main_status f OF tables db a code out :
  main f OF tables db a = Ok (code, out) →
  (code = 2%Z ↔ ∃ table c, table_of tables (a_solver a) = Some table ∧ c ∈ table ∧ ¬ path_ok f OF c) ∧
  (code = SKIP_EXIT ↔ ∃ table, table_of tables (a_solver a) = Some table ∧
     (∀ c, c ∈ table → path_ok f OF c) ∧ db = None).
Proof.
  unfold main. destruct (table_of tables (a_solver a)) as [table|].
  2: { intros [= <- _]. split; (split; [done|]); [by intros (? & ? & ? & _)|by intros (? & ? & _)]. }
  pose proof (provenance_nil f OF table) as Hp.
  destruct (verify_provenance f OF table) as [|b bad] eqn:Ev.
  - assert (∀ c, c ∈ table → path_ok f OF c) as Hok by (by apply Hp).
    fold (cases_of OF a).
    intros H. assert (code ≠ 2%Z ∧ (code = SKIP_EXIT ↔ db = None)) as [H2 H77].
    { destruct db as [d|]; [|by injection H as <- _].
      destruct (a_check a) as [[|x file]|]; [by injection H as <- _| |by injection H as <- _].
      apply bind_Ok in H as (old & _ & [= <- _]). by case_bool_decide. }
    split.
    + split; [done|]. intros (? & c & [= <-] & Hc & Hn). by destruct Hn; apply Hok.
    + rewrite H77. split; [intros ->; by exists table | by intros (? & _ & _ & ?)].
  - intros [= <- _]. split; (split; [|done || by intros (? & [= <-] & Hok & _); apply Hp in Hok]).
    + intros _.
      destruct (Exists_dec (λ c, missing f OF c = true) table) as [(c & Hc & Hm)%Exists_exists|Hno].
      * exists table, c. split; [done|]. split; [done|]. rewrite <- missing_spec. congruence.
      * exfalso. apply not_Exists_Forall in Hno; [|apply _]. rewrite Forall_forall in Hno.
        assert (∀ c, c ∈ table → path_ok f OF c) as Hok%Hp; [|done].
        intros c Hc. apply missing_spec. by apply not_true_is_false, Hno.
    + done.
Qed.

(** C13: [--check] exits with 0 exactly when the solver has a table, every OpenFOAM
    path it claims exists, ofscan is there, and the file holds, character for
    character, the manifest that is produced now. *)
Theorem check_status f OF tables db a file code out :
  a_check a = Some file → file ≠ [] → main f OF tables db a = Ok (code, out) →
  code = 0%Z ↔ ∃ table d, table_of tables (a_solver a) = Some table ∧ db = Some d ∧
    (∀ c, c ∈ table → path_ok f OF c) ∧
    old_text f file = Ok (emit f OF (a_solver a) table d (cases_of OF a)).
Proof.
  intros Ha Hf. unfold main. rewrite Ha.
  destruct (table_of tables (a_solver a)) as [table|].
  2: { intros [= <- _]. split; [done|]. by intros (? & ? & ? & _). }
  pose proof (provenance_nil f OF table) as Hp.
  destruct (verify_provenance f OF table) as [|b bad].
  2: { intros [= <- _]. split; [done|]. intros (? & ? & [= <-] & _ & Hok & _). by apply Hp in Hok. }
  destruct db as [d|]; [|intros [= <- _]; split; [done|]; by intros (? & ? & _ & ? & _)].
  destruct file as [|x file]; [done|].
  intros (old & Ho & [= <- _])%bind_Ok. fold (old_text f (x :: file)) in Ho.
  fold (cases_of OF a). case_bool_decide as E.
  - split; [|done]. intros _. exists table, d. rewrite Ho, E. split; [done|]. split; [done|].
    split; [by apply Hp|done].
  - split; [done|]. intros (? & ? & [= <-] & [= <-] & _ & Ht). rewrite Ho in Ht.
    injection Ht as ->. by destruct E.
Qed.

(** ** The curated tables *)

(** The classifications and statuses the comment above the table lists. *)
Definition documented_class : list String.string :=
  ["HOST_ONLY"; "CONFIGURATION"; "DISPATCH"; "SHARED_NUMERICAL"; "MODEL"; "BOUNDARY_CONDITION";
   "LINEAR_SOLVER"; "GPU_REQUIRED"; "DYNAMIC_OR_UNRESOLVED"].
Definition documented_status : list String.string :=
  ["REUSE_EXISTING"; "REVALIDATE_EXISTING"; "REIMPLEMENT"; "NOT_REQUIRED_ON_GPU";
   "UNSUPPORTED"].

Definition one_line (s : str) : bool := forallb (λ c, negb (Ascii.eqb c nl)) s.
Definition field_texts (c : component) : list str :=
  map tx [name c; of_symbol c; of_file c; classification c; status c]
  ++ map otx [brae_driver c; brae_existing c; brae_reference c; brae_cuda c; brae_target c;
              validation c; note c; selection_base c; ManifestData.schema_for c].

(** The entry's key is a word, its file is named, its line is positive, its status
    and classification are words too, and no field breaks the line. *)
Definition word_text (s : String.string) : bool := negb (bool_decide (s = String.EmptyString)) && forallb is_word (tx s).
Definition entry_ok (c : component) : bool :=
  word_text (name c) && word_text (classification c) && word_text (status c)
  && negb (bool_decide (of_file c = String.EmptyString))
  && match of_line c with Some n => (0 <? n)%Z | None => true end
  && forallb one_line (field_texts c).

Fixpoint no_repeat (l : list String.string) : bool :=
  match l with [] => true | x :: l => negb (existsb (String.eqb x) l) && no_repeat l end.

Lemma no_repeat_NoDup l : no_repeat l = true → NoDup l.
Proof.
  induction l as [|x l IH]; cbn; [constructor|]. rewrite andb_true_iff, negb_true_iff.
  intros [H1 H2]. constructor; [|by apply IH]. intros Hx.
  assert (existsb (String.eqb x) l = true) as E; [|congruence].
  apply existsb_elem. exists x. split; [done | apply String.eqb_refl].
Qed.

Definition table_ok (t : list component) : bool := no_repeat (map name t) && forallb entry_ok t.

Lemma tables_checked : forallb (λ p, table_ok p.2) COMPONENTS = true.
Proof. vm_compute. reflexivity. Qed.

Lemma table_of_ok solver table :
  table_of COMPONENTS solver = Some table → table_ok table = true.
Proof.
  unfold table_of. intros (p & Hp & ->)%fmap_Some.
  apply List.find_some in Hp as [Hin _]. pose proof tables_checked as H.
  rewrite forallb_forall in H. by apply H.
Qed.

Lemma one_line_spec s : one_line s = true ↔ nl ∉ s.
Proof.
  unfold one_line. rewrite forallb_elem. split.
  - intros H Hin. specialize (H _ Hin). by rewrite Ascii.eqb_refl in H.
  - intros H c Hc. apply negb_true_iff, Ascii.eqb_neq. congruence.
Qed.

(** the three component tables are well formed: no name twice, every name,
    classification and status a word (so that the lines [emit] writes without
    quotes are the keys and values they are meant to be), an OpenFOAM file named in
    every entry, and no field with a newline in it. *)
Theorem tables_well_formed solver table :
  table_of COMPONENTS solver = Some table →
  NoDup (map name table) ∧
  ∀ c, c ∈ table →
    word_text (name c) = true ∧ word_text (classification c) = true ∧ word_text (status c) = true ∧
    of_file c ≠ String.EmptyString ∧ ∀ s, s ∈ field_texts c → nl ∉ s.
Proof.
  intros H%table_of_ok. apply andb_true_iff in H as [Hn He]. split; [by apply no_repeat_NoDup|].
  intros c Hc. rewrite forallb_elem in He. specialize (He c Hc). unfold entry_ok in He.
  apply andb_true_iff in He as [He H6]. apply andb_true_iff in He as [He _].
  apply andb_true_iff in He as [He H4]. apply andb_true_iff in He as [He H3].
  apply andb_true_iff in He as [H1 H2].
  split; [done|]. split; [done|]. split; [done|]. split.
  - by apply negb_true_iff, bool_decide_eq_false in H4.
  - intros s Hs. apply one_line_spec. rewrite forallb_elem in H6. by apply H6.
Qed.

Lemma tables_well_formed_witness :
  NoDup (map name ManifestRho.rhoSimpleFoam.components).
Proof.
  refine (proj1 (tables_well_formed "rhoSimpleFoam" ManifestRho.rhoSimpleFoam.components _)).
  reflexivity.
Defined.

(** An entry without the keys [emit] does not look for. *)
Definition drop_other (c : component) : component :=
  {| name := name c; of_symbol := of_symbol c; of_file := of_file c;
     classification := classification c; status := status c; of_line := of_line c;
     brae_driver := brae_driver c; brae_existing := brae_existing c;
     brae_reference := brae_reference c; brae_cuda := brae_cuda c; brae_target := brae_target c;
     validation := validation c; note := note c; selection_base := selection_base c;
     ManifestData.schema_for := ManifestData.schema_for c; other := [] |}.

Lemma component_lines_drop d c : component_lines d (drop_other c) = component_lines d c.
Proof. done. Qed.

(** An entry with text under a key. *)
Definition has_text (k : String.string) (c : component) : bool :=
  existsb (λ kt, bool_decide (kt.1 = k) && negb (bool_decide (kt.2 = String.EmptyString))) (other c).

(** Two keys of the rhoSimpleFoam table never reach the manifest: there are
    entries with text under [notes] and under [brae_files], and the manifest is the
    same without those keys, whatever the database. *)
Theorem keys_never_written :
  (∃ c, c ∈ ManifestRho.rhoSimpleFoam.components ∧ has_text "notes" c = true) ∧
  (∃ c, c ∈ ManifestRho.rhoSimpleFoam.components ∧ has_text "brae_files" c = true) ∧
  ∀ f OF solver table d cases,
    emit f OF solver (map drop_other table) d cases = emit f OF solver table d cases.
Proof.
  split; [apply existsb_elem; vm_compute; reflexivity|].
  split; [apply existsb_elem; vm_compute; reflexivity|].
  intros f OF solver table d cases. unfold emit, emit_lines. do 4 f_equal.
  by rewrite !flat_map_concat_map, map_map.
Qed.

(** The entries whose status, and whose classification, is not one of the list. *)
Definition odd_status (c : component) : bool := negb (bool_decide (status c ∈ documented_status)).
Definition odd_class (c : component) : bool := negb (bool_decide (classification c ∈ documented_class)).

(** The tables use statuses, and one classification, that the list above them
    does not have: twenty entries of simpleFoam and three of rhoSimpleFoam have a
    status outside it and one of simpleFoam a classification outside it, while
    interFoam keeps to the list. *)
Theorem undocumented_words :
  length (List.filter odd_status ManifestSimple.simpleFoam.components) = 20 ∧
  length (List.filter odd_class ManifestSimple.simpleFoam.components) = 1 ∧
  length (List.filter odd_status ManifestRho.rhoSimpleFoam.components) = 3 ∧
  List.filter (λ c, odd_status c || odd_class c) ManifestInter.interFoam.components = [].
Proof. vm_compute. by repeat split. Qed.

(** ** Inputs at which the theorems apply *)
Definition w_fs : fs :=
  {| root := Dir [("of" : str, Dir [("a.C" : str, File [] 0 false)]);
                  ("m.yaml" : str, File "stale" 0 false)]; real := normpath |}.
Definition w_entry : component :=
  {| name := "one"; of_symbol := "s"; of_file := "a.C"; classification := "MODEL";
     status := "REIMPLEMENT"; of_line := Some 3%Z; brae_driver := None; brae_existing := None;
     brae_reference := None; brae_cuda := None; brae_target := None; validation := None;
     note := Some "a: b"%string; selection_base := Some "option"%string;
     ManifestData.schema_for := Some "cls"%string; other := [] |}.
Definition w_db : odb :=
  {| runtime_types := [("option" : str, Some ("b,c" : str)); ("option" : str, Some ("a" : str))];
     db_schema := λ _, [{| r_key := "k"; r_required := true; r_default := None; r_op := "get";
                           r_path := Some ("x/y.C" : str); r_line := "7" |}];
     selections := λ _, []; resolve := λ _ _, None |}.
Definition w_args (solver : str) (check : option str) : arguments :=
  {| a_solver := solver; a_cases := None; a_check := check |}.
Definition w_tables : list (str * list component) := [("t" : str, [w_entry])].

Lemma emit_derived_inj_witness :
  impls_for w_db "option" = impls_for w_db "option" ∧ length (impls_for w_db "option") = 2.
Proof.
  assert (Forall (λ l, nl ∉ l) (emit_lines w_fs "/of" "t" [w_entry] w_db [])) as H.
  { apply Forall_forall. intros l Hl. apply one_line_spec.
    assert (forallb one_line (emit_lines w_fs "/of" "t" [w_entry] w_db []) = true) as E
      by (vm_compute; reflexivity).
    rewrite forallb_elem in E. by apply E. }
  split; [|vm_compute; reflexivity].
  refine (proj1 (emit_derived_inj w_fs "/of" "t" [w_entry] w_db w_db [] H H eq_refl w_entry
    (list_elem_of_here _ _)) _).
  discriminate.
Defined.

Lemma main_status_witness :
  ∃ out, main w_fs "/nowhere" w_tables (Some w_db) (w_args "t" None) = Ok (2%Z, out) ∧
    ∃ table c, table_of w_tables "t" = Some table ∧ c ∈ table ∧ ¬ path_ok w_fs "/nowhere" c.
Proof.
  destruct (main w_fs "/nowhere" w_tables (Some w_db) (w_args "t" None)) as [[code out]|e] eqn:E;
    [|vm_compute in E; discriminate E].
  assert (code = 2%Z) as -> by (vm_compute in E; by injection E as <- _).
  exists out. split; [reflexivity|].
  exact (proj1 (proj1 (main_status w_fs "/nowhere" w_tables (Some w_db) (w_args "t" None) 2 out E)) eq_refl).
Defined.

Lemma check_status_witness :
  ∃ code out, main w_fs "/of" w_tables (Some w_db) (w_args "t" (Some ("/m.yaml" : str))) = Ok (code, out) ∧
    code ≠ 0%Z ∧
    ¬ ∃ table d, table_of w_tables "t" = Some table ∧ Some w_db = Some d ∧
      (∀ c, c ∈ table → path_ok w_fs "/of" c) ∧
      old_text w_fs "/m.yaml" = Ok (emit w_fs "/of" "t" table d (cases_of "/of" (w_args "t" (Some ("/m.yaml" : str))))).
Proof.
  destruct (main w_fs "/of" w_tables (Some w_db) (w_args "t" (Some ("/m.yaml" : str))))
    as [[code out]|e] eqn:E; [|vm_compute in E; discriminate E].
  assert (code = 1%Z) as -> by (vm_compute in E; by injection E as <- _).
  exists 1%Z, out. split; [reflexivity|]. split; [done|]. intros H.
  apply (check_status w_fs "/of" w_tables (Some w_db) (w_args "t" (Some ("/m.yaml" : str))) "/m.yaml"
    1 out eq_refl ltac:(discriminate) E) in H. discriminate H.
Defined.
End Props.
