(* ===== verification/ManifestQuote.v ===== *)
(** * tools/of_manifest.py: what YAML makes of the scalars [y] writes

    The one-line scalars of YAML 1.2.2, as the specification has them: the plain ones
    (productions 126 to 133, in a flow, which is where the stricter rule holds), the
    double-quoted ones (productions 41 to 61 and 107 to 116), and which plain ones are not text
    (section 10.3, and the words and numbers of YAML 1.1).  What [y] writes is such a
    scalar, and is read as what was given. *)
From S2P Require Export Manifest ManifestProofs.

Module Scalars.
Import Yaml Quoting.

(** ** Characters *)
Definition blank : ascii := " ".
Definition printable (c : ascii) : bool := (32 <=? code c)%Z && (code c <=? 126)%Z || (160 <=? code c)%Z.
(** [ns-char], a character that is not white; [c-indicator]; [ns-plain-safe-in]. *)
Definition ns_char (c : ascii) : bool := printable c && negb (Ascii.eqb c blank).
Definition c_indicators : list ascii := ("-?:,[]{}#&*!|>'%@`" : str) ++ [dquote].
Definition indicator (c : ascii) : bool := bool_decide (c ∈ c_indicators).
Definition plain_safe (c : ascii) : bool := ns_char c && negb (bool_decide (c ∈ (",[]{}" : str))).
Definition safe_next (s : str) : bool := match s with c :: _ => plain_safe c | [] => false end.

(** ** Plain scalars

    [ns-plain-first]: no indicator, or one of [?], [:] and [-] before a safe character. *)
Definition plain_first (c : ascii) (rest : str) : bool :=
  ns_char c && negb (indicator c) || bool_decide (c ∈ ("?:-" : str)) && safe_next rest.
(** The rest: blanks between, a hash after no blank, a colon before a safe character, and no
    blank at the end. *)
Fixpoint plain_rest (prev : ascii) (s : str) : bool :=
  match s with
  | [] => negb (Ascii.eqb prev blank)
  | c :: s =>
      (if Ascii.eqb c blank then true
       else if Ascii.eqb c "#" then negb (Ascii.eqb prev blank)
       else if Ascii.eqb c ":" then safe_next s
       else plain_safe c)
      && plain_rest c s
  end.
Definition plain_one_line (s : str) : bool :=
  match s with c :: s => plain_first c s && plain_rest c s | [] => false end.

(** A plain scalar that may be a number: it begins like one. *)
Definition number_like (s : str) : bool :=
  match s with c :: _ => is_digit c || bool_decide (c ∈ ("+-." : str)) | [] => false end.
Definition null_words : list str := ["null" : str; "Null" : str; "NULL" : str; "~" : str].
Definition bool_words : list str :=
  ["true" : str; "false" : str; "yes" : str; "no" : str; "on" : str; "off" : str; "y" : str; "n" : str].
Definition not_text (s : str) : bool :=
  number_like s || bool_decide (s ∈ null_words) || bool_decide (lower s ∈ bool_words).

(** ** Double-quoted scalars *)
Definition esc_of (c : ascii) : option ascii :=
  if Ascii.eqb c dquote then Some dquote else if Ascii.eqb c bslash then Some bslash
  else if Ascii.eqb c "/" then Some "/"%char else if Ascii.eqb c blank then Some blank
  else if Ascii.eqb c "t" then Some (ascii_of_N 9) else if Ascii.eqb c "n" then Some nl
  else if Ascii.eqb c "r" then Some cr else None.
Inductive quoted_text : str → str → Prop :=
  | Qt_end : quoted_text [] []
  | Qt_char c r s : printable c = true → c ≠ dquote → c ≠ bslash → quoted_text r s → quoted_text (c :: r) (c :: s)
  | Qt_esc c d r s : esc_of c = Some d → quoted_text r s → quoted_text (bslash :: c :: r) (d :: s).

(** What a scalar is read as: null, or a text. *)
Inductive reads : str → option str → Prop :=
  | Reads_null t : t ∈ null_words → reads t None
  | Reads_plain s : plain_one_line s = true → not_text s = false → reads s (Some s)
  | Reads_quoted r s : quoted_text r s → reads (dquote :: r ++ [dquote]) (Some s).

(** ** A scalar is read in one way *)
Lemma quoted_text_fun r s s' : quoted_text r s → quoted_text r s' → s = s'.
Proof.
  intros H; revert s'; induction H as [|c r s Hp Hd Hb _ IH|c d r s Hc _ IH]; intros s' H'; inversion H'; subst; try done.
  - f_equal. by apply IH.
  - f_equal; [congruence | by apply IH].
Qed.
Lemma text_not_null s : not_text s = false → s ∉ null_words.
Proof. intros [[_ H]%orb_false_iff _]%orb_false_iff. by apply bool_decide_eq_false in H. Qed.
Lemma quote_not_null r : dquote :: r ∉ null_words.
Proof. unfold null_words. rewrite !not_elem_of_cons. repeat split; try done. apply not_elem_of_nil. Qed.
Lemma reads_fun t v w : reads t v → reads t w → v = w.
Proof.
  intros Hv Hw. destruct Hv as [t Ht|s Hp Hn|r s Hq]; inversion Hw as [t' Ht'|s' Hp' Hn'|r' s' Hq' E]; subst; try done.
  - by destruct (text_not_null _ Hn').
  - by apply quote_not_null in Ht.
  - by destruct (text_not_null _ Hn).
  - by apply quote_not_null in Ht'.
  - apply app_inj_2 in E as [-> _]; [|done]. f_equal. by eapply quoted_text_fun.
Qed.

(** ** What [y] writes *)

(** A text of one printable line.  Not covered are a text that begins like a number,
    unless with a minus sign, and the words of YAML 1.1 that [y] does not know. *)
Definition unknown_words : list str := ["on" : str; "off" : str; "y" : str; "n" : str].
Definition sayable (s : str) : Prop :=
  Forall (λ c, printable c = true) s ∧ (number_like s = false ∨ head s = Some "-"%char) ∧ lower s ∉ unknown_words.

Lemma indicator_special c : indicator c = true → special c = true ∨ c = "-"%char.
Proof. destruct c as [[] [] [] [] [] [] [] []]; vm_compute; auto; discriminate. Qed.
Lemma flow_special c : c ∈ (",[]{}" : str) → special c = true.
Proof. cbn [String.list_ascii_of_string]. rewrite !elem_of_cons. intros [->|[->|[->|[->|[->|[]%not_elem_of_nil]]]]]; reflexivity. Qed.

(** A text that [y] leaves plain. *)
Lemma plain_parts s :
  needs_quotes s = false → search re_special s 0 = None ∧ match_ re_leading s 0 = None.
Proof.
  intros [[H1%bool_decide_eq_false H2%bool_decide_eq_false]%orb_false_iff _]%orb_false_iff.
  split; [destruct (search re_special s 0) | destruct (match_ re_leading s 0)]; try done; exfalso; eauto.
Qed.
Lemma plain_head_not_blank c r : needs_quotes (c :: r) = false → c ≠ blank.
Proof.
  intros [H _]%plain_parts ->.
  apply (search_None _ _ _ H 0 (advance blank r (start_state (blank :: r) 0))); [lia|].
  apply M_AltR, M_AltL. eapply M_Seq; [by apply M_Bol | by apply M_Set].
Qed.
Lemma plain_last_not_blank s : needs_quotes s = false → last s ≠ Some blank.
Proof.
  intros [H _]%plain_parts [l E]%last_Some.
  assert (drop (length l) s = [blank]) as Hd by (rewrite E, drop_app_length; done).
  apply (search_None _ _ _ H (length l) (advance blank [] (start_state s (length l)))); [rewrite E, length_app; lia|].
  apply M_AltR, M_AltR. eapply M_Seq; [by apply M_Set | by apply M_Eol].
Qed.
Lemma plain_head_not_dash c r : needs_quotes (c :: r) = false → c ≠ "-"%char.
Proof. intros [_ H]%plain_parts ->. discriminate H. Qed.

Lemma plain_rest_ok prev s :
  (∀ c, c ∈ s → printable c = true ∧ special c = false) → last (prev :: s) ≠ Some blank → plain_rest prev s = true.
Proof.
  revert prev; induction s as [|c s IH]; intros prev Hs Hl; cbn [plain_rest].
  - apply negb_true_iff. destruct (Ascii.eqb_spec prev blank) as [->|]; [|done]. by destruct Hl.
  - destruct (Hs c) as [Hp Hn]; [left|]. apply andb_true_iff. split.
    + destruct (Ascii.eqb_spec c blank) as [|Hb]; [done|]. destruct (Ascii.eqb_spec c "#") as [->|]; [discriminate Hn|].
      destruct (Ascii.eqb_spec c ":") as [->|]; [discriminate Hn|]. unfold plain_safe, ns_char. rewrite Hp.
      apply Ascii.eqb_neq in Hb. rewrite Hb. cbn. apply negb_true_iff, bool_decide_eq_false.
      intros Hf%flow_special. congruence.
    + apply IH; [intros d Hd; apply Hs; by right|]. exact Hl.
Qed.
Lemma quoted_text_escape s : Forall (λ c, printable c = true) s → quoted_text (escape s) s.
Proof.
  induction 1 as [|c s Hc _ IH]; [constructor|]. rewrite escape_cons.
  destruct (Ascii.eqb_spec c bslash) as [->|Hb]; [by apply Qt_esc|].
  destruct (Ascii.eqb_spec c dquote) as [->|Hd]; [by apply Qt_esc | by apply Qt_char].
Qed.
Lemma plain_text s : sayable s → quoted s = false → plain_one_line s = true ∧ not_text s = false.
Proof.
  intros (Hp & Hn & Hu) [He Hq]%orb_false_iff. rewrite Forall_forall in Hp.
  destruct s as [|c r]; [done|].
  pose proof (plain_head_not_dash _ _ Hq) as Hd. pose proof (plain_head_not_blank _ _ Hq) as Hb.
  assert (∀ d, d ∈ c :: r → printable d = true ∧ special d = false) as Hc.
  { intros d Hin. split; [by apply Hp | by apply (plain_no_special _ Hq)]. }
  split.
  - cbn [plain_one_line]. apply andb_true_iff. split.
    + destruct (Hc c) as [H1 H2]; [left|]. unfold plain_first, ns_char. rewrite H1. apply Ascii.eqb_neq in Hb. rewrite Hb.
      destruct (indicator c) eqn:Ei; [|done]. apply indicator_special in Ei as [Ei|Ei]; congruence.
    + apply plain_rest_ok; [intros d Hin; apply Hc; by right|]. by apply plain_last_not_blank.
  - unfold not_text. apply orb_false_iff. pose proof (plain_not_reserved _ Hq) as Hr. split; [apply orb_false_iff; split|].
    + destruct Hn as [Hn|[= ->]]; [exact Hn | done].
    + apply bool_decide_eq_false. intros Hw. apply Hr. clear -Hw. unfold null_words in Hw. rewrite !elem_of_cons in Hw.
      destruct Hw as [->|[->|[->|[->|[]%not_elem_of_nil]]]]; by apply (bool_decide_eq_true_1 _).
    + apply bool_decide_eq_false. intros Hw. unfold bool_words, reserved, unknown_words in *.
      rewrite !elem_of_cons in Hw. rewrite !elem_of_cons in Hr. rewrite !elem_of_cons in Hu.
      pose proof (not_elem_of_nil (lower (c :: r))). clear -Hw Hr Hu H. tauto.
Qed.

(** C15: quoting keeps the value.  The null value, and every text of one printable line that neither
    begins like a number nor is a word of YAML 1.1 that [y] does not know, is what YAML
    reads in the scalar [y] writes, and YAML reads nothing else in it: a text is written
    plain only where the rules of plain scalars (in a flow as well as in a block) have it
    whole and as text, and else in double quotes. *)
Theorem y_read_back (v : option str) :
  (∀ s, v = Some s → sayable s) → ∀ w, reads (y v) w ↔ w = v.
Proof.
  intros Hv. assert (reads (y v) v) as H.
  { destruct v as [s|]; [|apply Reads_null; left]. specialize (Hv s eq_refl). change (y (Some s)) with (ys s).
    rewrite ys_forms. destruct (quoted s) eqn:E.
    - apply Reads_quoted, quoted_text_escape, Hv.
    - apply Reads_plain; by apply plain_text. }
  intros w. split; [intros Hw; by eapply reads_fun | by intros ->].
Qed.

(** An entry of a list that a plain scalar would not hold. *)
Definition entry_text : str := "- a: #b".
Lemma y_read_back_witness : sayable entry_text ∧ ∀ w, reads (y (Some entry_text)) w ↔ w = Some entry_text.
Proof.
  assert (sayable entry_text) as H.
  { split; [|split].
    - apply Forall_forall. intros c Hc. unfold entry_text in Hc. cbn [String.list_ascii_of_string] in Hc. rewrite !elem_of_cons in Hc.
      destruct Hc as [->|[->|[->|[->|[->|[->|[->|Hc]]]]]]]; [reflexivity..|by apply not_elem_of_nil in Hc].
    - right. reflexivity.
    - by apply (bool_decide_eq_false_1 _). }
  split; [exact H|]. apply (y_read_back (Some entry_text)). intros s E. injection E as <-. exact H.
Defined.
End Scalars.
