(* ===== verification/Audits.v ===== *)
(** * tools: the source audits

    cache_key_audit.py ([CacheKey]), header_odr_audit.py ([HeaderOdr]),
    slice_provenance.py ([Slice]) and mirror_coverage.py ([Mirror]): what each
    reads out of a source file, what it reports, and its exit status.  Printing is
    not modelled.  Directories are walked in sorted order, which the reports'
    content does not depend on. *)
From stdpp Require Import gmap.
From S2P Require Export PyRe PyOs.

(** The files of a tree in the order of the walk. *)
Definition all_dirs (d : str) : bool := true.
Definition files_of (f : fs) (root : str) : list (str * str) :=
  concat (map (λ bf, map (λ n, (bf.1, n)) bf.2) (walk f all_dirs root)).

(** [text.count('\n')] before a position, plus one. *)
Definition line_of (t : str) (i : nat) : nat := count nl (take i t) + 1.

(** ** tools/cache_key_audit.py *)
Module CacheKey.
Definition spaces (n : nat) : str := repeat (" "%char : ascii) n.
(** Comment text as blanks, newlines kept. *)
Definition blank (s : str) : str := map (λ c, if Ascii.eqb c nl then nl else " "%char) s.

(** The loop of [strip_comments]: the text from the position on. *)
Fixpoint strip_loop (fuel : nat) (s : str) : str :=
  match fuel with
  | 0 => []
  | S fuel =>
      match s with
      | [] => []
      | c :: s' =>
          if starts "//" s then
            let j := match find0 [nl] s with Some j => j | None => length s end in
            spaces j ++ strip_loop fuel (drop j s)
          else if starts "/*" s then
            let j := match find "*/" s 2 with Some j => j + 2 | None => length s end in
            blank (take j s) ++ strip_loop fuel (drop j s)
          else c :: strip_loop fuel s'
      end
  end.
Definition strip_comments (text : str) : str := strip_loop (S (length text)) text.

(** The comparison against a device pointer. *)
Definition const_void : re :=
  opt (seqs [txt "(const"; many1 sp; txt "void"; many sp; txt "*)"; many sp]).
Definition POINTER_CMP : re :=
  seqs [RGroup 1 (many1 word); many sp; chr "."; many sp; RGroup 2 (many1 word); many sp;
        txt "!="; many sp; const_void; many (cls (CWord :: chars ".->")); RWordB;
        RGroup 3 (alts [txt "diag"; txt "owner"; txt "nei"; txt "upper"; txt "lower"; txt "psi";
                        txt "data()"])].
Definition rhs_re : re :=
  seqs [many (ncls (chars "!")); txt "!="; many sp; const_void; RGroup 1 (many1 word)].
Definition SURVIVORS : list str :=
  ["addressingId" : str; "buildCount" : str; "Epoch" : str; "epoch" : str; "generation" : str;
   "Generation" : str].

(** [max] of the three [rfind]s, plus one; [None] counts as -1. *)
Definition stmt_start (t : str) (i : nat) : nat :=
  let at_ c := match rfind [c] t i with Some k => S k | None => 0 end in
  Nat.max (at_ ";"%char) (Nat.max (at_ "{"%char) (at_ "}"%char)).

Record hit := { h_rel : str; h_line : nat; h_key : str; h_what : str }.

(** One comparison: [None] when it is not a guard, else whether an identity that
    survives is compared too. *)
Definition guard_of (t : str) (m : mobj) : option bool :=
  let e := match find ";" t (m_end m) with Some e => e | None => m_end m end in
  let stmt := slice t (stmt_start t (m_start m)) e in
  if negb (contains "if" stmt) && negb (contains "=" stmt) then None
  else
    let rhs := slice t (m_start m) (m_end m) in
    let same := match match_ rhs_re rhs 0 with
                | Some r => bool_decide (group 1 rhs r = group 1 t m)
                | None => false
                end in
    if same then None
    else
      let body := slice t e (e + 400) in
      if contains "throw" body || contains "refuse(" body then None
      else Some (existsb (λ s, contains s stmt) SURVIVORS).

Definition hits_in (path t : str) : list hit :=
  omap (λ m, match guard_of t m with
             | Some false =>
                 Some {| h_rel := path; h_line := line_of t (m_start m);
                         h_key := basename path ++ " " ++ group_d 1 t m ++ "." ++ group_d 2 t m;
                         h_what := group_d 3 t m |}
             | _ => None
             end) (finditer POINTER_CMP t).

(** The arguments: [--allow FILE] wherever it stands, the rest are roots. *)
Fixpoint take_allow (argv : list str) : res (option str * list str) :=
  match argv with
  | [] => Ok (None, [])
  | a :: argv' =>
      if bool_decide (a = "--allow" :> str) then
        v ← getitem argv' 0; Ok (Some v, tail argv')
      else '(o, rest) ← take_allow argv'; Ok (o, a :: rest)
  end.

Definition before_hash (line : str) : str := strip (default [] (head (split "#" line))).
Definition ledger (f : fs) (allow_path : option str) : res (list str) :=
  match allow_path with
  | Some ((_ :: _) as p) =>
      if exists_ f p then
        text ← read_text f p;
        Ok (List.filter (λ l, negb (bool_decide (l = []))) (map before_hash (split nl text)))
      else Ok []
  | _ => Ok []
  end.

Definition is_cuda (n : str) : bool := ends ".cu" n || ends ".cuh" n.
Definition sources (f : fs) (roots : list str) : list str :=
  sorted (map (λ bn, pjoin bn.1 bn.2)
    (List.filter (λ bn, is_cuda bn.2) (flat_map (files_of f) roots))).

Definition hits_of (f : fs) (files : list str) : res (list hit) :=
  l ← mapR (λ p, t ← read_text f p; Ok (hits_in p (strip_comments t))) files; Ok (concat l).

(** The exit status, the hits, the unlisted ones and the stale entries. *)
Definition main (f : fs) (argv : list str) : res (Z * list hit * list hit * list str) :=
  '(allow_path, rest) ← take_allow argv;
  let roots := match rest with [] => ["src" : str] | _ => rest end in
  allow ← ledger f allow_path;
  hits ← hits_of f (sources f roots);
  let unlisted := List.filter (λ h, negb (bool_decide (h_key h ∈ allow))) hits in
  let stale := List.filter (λ a, negb (existsb (λ h, bool_decide (h_key h = a)) hits))
                           (sorted (remove_dups allow)) in
  Ok (if bool_decide (unlisted = []) && bool_decide (stale = []) then 0%Z else 1%Z,
      hits, unlisted, stale).
End CacheKey.

(** ** tools/header_odr_audit.py *)
Module HeaderOdr.
Definition block_comment : re := seqs [txt "/*"; many_lazy anys; txt "*/"].
Definition line_comment : re := seqs [txt "//"; many (ncls [CChar nl])].
(** A block comment leaves its newlines, a line comment nothing. *)
Definition newlines (s : str) (m : mobj) : str := repeat nl (count nl (group0 s m)).
Definition strip_comments (src : str) : str :=
  sub line_comment (λ _, []) (sub block_comment (newlines src) src).

Definition KEYWORDS : re :=
  alts (map txt ["if" : str; "for" : str; "while" : str; "switch" : str; "return" : str;
    "else" : str; "catch" : str; "namespace" : str; "class" : str; "struct" : str; "enum" : str;
    "union" : str; "using" : str; "typedef" : str; "template" : str; "static_assert" : str;
    "extern" : str; "friend" : str; "do" : str; "try" : str; "public" : str; "private" : str;
    "protected" : str; "operator" : str]).
Definition keyword_re : re := seqs [RBol; KEYWORDS; RWordB].
Definition namespace_re : re :=
  seqs [RWordB; txt "namespace"; RWordB; many (ncls (chars ";{}")); REol].
Definition sig_re : re :=
  seqs [RBol;
        RGroup 1 (seqs [cls [CRange "A" "Z"; CRange "a" "z"; CChar "_"];
                        many_lazy (cls (CWord :: CSpace :: chars ":<>,*&"))]);
        sp; RGroup 2 (many1 (cls (CWord :: chars ":~"))); many sp; chr "("].

Inductive kind := Ns | Blk.
#[export] Instance kind_eq_dec : EqDecision kind.
Proof. solve_decision. Defined.

Record def := { d_line : nat; d_name : str; d_sig : str }.
Record state := {
  out : list def;
  stack : list kind;
  par : nat;
  pending : str;
}.
Definition start : state := {| out := []; stack := []; par := 0; pending := [] |}.
Definition with_pending (s : state) (p : str) : state :=
  {| out := out s; stack := stack s; par := par s; pending := p |}.
Definition with_par (s : state) (n : nat) (c : ascii) : state :=
  {| out := out s; stack := stack s; par := n; pending := pending s ++ [c] |}.

(** [re.sub(r'\s+', ' ', pending).strip()] *)
Definition signature (pending : str) : str := strip (sub (many1 sp) (λ _, " ") pending).

(** The function a block at namespace scope defines with external linkage. *)
Definition external (line : nat) (sig : str) : option def :=
  m ← match_ sig_re sig 0;
  let head_ := group_d 1 sig m in
  if negb (bool_decide (is_Some (match_ keyword_re sig 0)))
     && negb (contains "inline" head_) && negb (contains "static" head_)
     && negb (contains "constexpr" head_) && negb (contains "template" sig)
     && negb (contains "=" (default [] (head (split "(" sig))))
  then Some {| d_line := line; d_name := group_d 2 sig m; d_sig := take 110 sig |}
  else None.

Definition open_brace (line : nat) (s : state) : state :=
  let k := if bool_decide (is_Some (search namespace_re (pending s) 0)) then Ns else Blk in
  let found :=
    if bool_decide (k = Blk) && negb (existsb (λ k, bool_decide (k = Blk)) (stack s))
    then option_list (external line (signature (pending s))) else [] in
  {| out := out s ++ found; stack := stack s ++ [k]; par := par s; pending := [] |}.
Definition close_brace (s : state) : state :=
  {| out := out s; stack := removelast (stack s); par := par s; pending := [] |}.

Definition scan_char (line : nat) (s : state) (c : ascii) : state :=
  if Ascii.eqb c "(" then with_par s (S (par s)) c
  else if Ascii.eqb c ")" then with_par s (par s - 1) c
  else if 0 <? par s then with_par s (par s) c
  else if Ascii.eqb c "{" then open_brace line s
  else if Ascii.eqb c "}" then close_brace s
  else if Ascii.eqb c ";" then with_pending s []
  else with_pending s (pending s ++ [c]).

Definition scan_line (s : state) (il : nat * str) : state :=
  if starts "#" (strip il.2) then with_pending s []
  else let s := fold_left (scan_char (S il.1)) il.2 s in with_pending s (pending s ++ " ").

Definition scan_state (text : str) : state :=
  let lines := split nl (strip_comments text) in
  fold_left scan_line (zip (seq 0 (length lines)) lines) start.
Definition scan (text : str) : list def := out (scan_state text).

(** The arguments: the last [--allow], and the roots. *)
Fixpoint arguments (argv : list str) (allow_path : option str) (roots : list str) :
    res (option str * list str) :=
  match argv with
  | [] => Ok (allow_path, roots)
  | a :: argv =>
      if bool_decide (a = "--allow" :> str) then
        match argv with
        | v :: argv => arguments argv (Some v) roots
        | [] => Raise StopIteration
        end
      else arguments argv allow_path (roots ++ [a])
  end.

(** The first word of each line of the ledger. *)
Definition allow_key (line : str) : option str := head (words (default [] (head (split "#" line)))).
Definition ledger (f : fs) (allow_path : option str) : res (list str) :=
  match allow_path with
  | Some ((_ :: _) as p) =>
      if exists_ f p then text ← read_text f p; Ok (omap allow_key (split nl text)) else Ok []
  | _ => Ok []
  end.

Definition header_files (f : fs) (roots : list str) : list (str * str) :=
  List.filter (λ bn, ends ".cuh" bn.2) (flat_map (files_of f) roots).
(** The definitions of a header, each with its key. *)
Definition keyed (f : fs) (bn : str * str) : res (list (str * def)) :=
  text ← read_text f (pjoin bn.1 bn.2);
  Ok (map (λ d, (bn.2 ++ " " ++ d_name d, d)) (scan text)).

(** The exit status, the reported definitions and the stale entries. *)
Definition main (f : fs) (argv : list str) : res (Z * list (str * def) * list str) :=
  '(allow_path, roots) ← arguments argv None [];
  match roots with
  | [] => Ok (2%Z, [], [])
  | _ =>
      allow ← ledger f allow_path;
      found ← mapR (keyed f) (header_files f roots);
      let found := concat found in
      let reported := List.filter (λ kd, negb (bool_decide (kd.1 ∈ allow))) found in
      let stale := List.filter (λ a, negb (bool_decide (a ∈ map fst found)))
                               (sorted (remove_dups allow)) in
      Ok (if bool_decide (reported = []) && bool_decide (stale = []) then 0%Z else 1%Z,
          reported, stale)
  end.
End HeaderOdr.

(** ** tools/slice_provenance.py *)
Module Slice.
Definition MARK : re :=
  seqs [txt "//"; many sp; txt "COPIED FROM"; many1 sp;
        RGroup 1 (seqs [RSet {| neg := true; items := [CSpace] |};
                        many_lazy (RSet {| neg := true; items := [CSpace] |})]);
        many sp; txt "--"].

(** A marked file: its path and its donor's. *)
Definition copy_of (f : fs) (BRAE : str) (bn : str * str) : option (str * str) :=
  let path := pjoin bn.1 bn.2 in
  match read_text f path with
  | Raise _ => None
  | Ok text =>
      let head := take 4096 text in
      (λ m, (path, pjoin BRAE (group_d 1 head m))) <$> search MARK head 0
  end.

Definition pair_leb (a b : str * str) : bool :=
  if bool_decide (a.1 = b.1) then str_leb a.2 b.2 else str_leb a.1 b.1.

Definition find_copies (f : fs) (BRAE : str) : list (str * str) :=
  sort_by pair_leb (omap (copy_of f BRAE)
    (List.filter (λ bn, contains "/slice" bn.1) (files_of f (pjoin BRAE "src")))).

Definition body_after_header (copy_text donor_text : str) : str :=
  let first := default [] (head (split nl donor_text)) in
  match find0 first copy_text with Some i => drop i copy_text | None => copy_text end.

Inductive verdict := MissingDonor | Identical | Drifted (line : nat).
#[export] Instance verdict_eq_dec : EqDecision verdict.
Proof. solve_decision. Defined.

(** The first index at which the lists differ, or the shorter length. *)
Fixpoint first_difference (a b : list str) : nat :=
  match a, b with
  | x :: a, y :: b => if bool_decide (x = y) then S (first_difference a b) else 0
  | _, _ => 0
  end.

Definition check_copy (f : fs) (cd : str * str) : res verdict :=
  if negb (exists_ f cd.2) then Ok MissingDonor
  else
    c ← read_text f cd.1;
    d ← read_text f cd.2;
    let body := body_after_header c d in
    Ok (if bool_decide (body = d) then Identical
        else Drifted (S (first_difference (split nl body) (split nl d)))).

Definition main (f : fs) (BRAE : str) : res (Z * list (str * str * verdict)) :=
  let copies := find_copies f BRAE in
  verdicts ← mapR (λ cd, v ← check_copy f cd; Ok (cd, v)) copies;
  Ok (if forallb (λ x, bool_decide (x.2 = Identical)) verdicts then 0%Z else 1%Z, verdicts).
End Slice.

(** ** tools/mirror_coverage.py *)
Module Mirror.
Definition TESTPATH : re :=
  seqs [RWordB; RGroup 1 (seqs [txt "tests/"; many1 (cls (CWord :: chars "./-")); chr ".";
                                alts [txt "sh"; txt "cu"; txt "py"]])].

(** The lines of the block after its first, up to the first that is not a comment
    or is an empty one. *)
Fixpoint block_lines (lines : list str) : list str :=
  match lines with
  | [] => []
  | l :: lines =>
      if negb (starts "//" l) || bool_decide (strip l = "//" :> str) then []
      else l :: block_lines lines
  end.

Definition set_sorted (l : list str) : list str :=
  sorted (elements (list_to_set (C := gset str) l)).

(** [(has_block, tests)] *)
Definition provenance_tests (f : fs) (path : str) : bool * list str :=
  match read_text f path with
  | Raise _ => (false, [])
  | Ok text =>
      let head := take 20000 text in
      match find0 "// provenance:" head with
      | None => (false, [])
      | Some i =>
          let text := join [nl] (block_lines (tail (split nl (drop i head)))) in
          (true, match find0 "tests:" text with
                 | Some j => set_sorted (findall1 TESTPATH (drop j text))
                 | None => []
                 end)
      end
  end.

Definition is_host_half (name : str) : bool := contains "_cpp" name.

(** [os.path.splitext(name)[0]] of a file name. *)
Definition stem (name : str) : str :=
  match rfind "." name (length name) with
  | Some i => if forallb (λ c, Ascii.eqb c ".") (take i name) then name else take i name
  | None => name
  end.
(** [.replace(p, '')] *)
Definition remove_all (p s : str) : str := sub (txt p) (λ _, []) s.
Definition norm (name : str) : str :=
  let base := remove_all "_cpp" (stem name) in
  let base := if starts "device_" base then drop 7 base else base in
  lower (remove_all "_" base).

Definition is_source (n : str) : bool := ends ".cu" n || ends ".cuh" n.

(** [files]: relative path, whether it has a block, the tests it names. *)
Definition files (f : fs) (BRAE : str) : list (str * (bool * list str)) :=
  map (λ bn, let p := pjoin bn.1 bn.2 in (relpath p BRAE, provenance_tests f p))
    (List.filter (λ bn, is_source bn.2) (files_of f (pjoin BRAE "src"))).

(** A component: the tests each half names and whether the half is there. *)
Record component := { host : gset str; dev : gset str; hostf : list str; devf : list str }.
Definition empty_component : component := {| host := ∅; dev := ∅; hostf := []; devf := [] |}.

Definition by_path (l : list (str * (bool * list str))) : list (str * (bool * list str)) :=
  sort_by (λ a b, str_leb a.1 b.1) l.

(** One turn of the loop that fills [comp]. *)
Definition add_file (comp : gmap (str * str) component) (e : str * (bool * list str)) :
    gmap (str * str) component :=
  let n := basename e.1 in
  let key := (dirname e.1, norm n) in
  let c := default empty_component (comp !! key) in
  let tests := list_to_set e.2.2 in
  <[key := if is_host_half n
           then {| host := tests ∪ host c; dev := dev c; hostf := hostf c ++ [n]; devf := devf c |}
           else {| host := host c; dev := tests ∪ dev c; hostf := hostf c; devf := devf c ++ [n] |}]> comp.
Definition components (l : list (str * (bool * list str))) : gmap (str * str) component :=
  fold_left add_file (by_path l) ∅.

(** The tests named that are not there. *)
Definition missing (f : fs) (BRAE : str) (l : list (str * (bool * list str))) : list (str * str) :=
  flat_map (λ e, map (pair e.1) (List.filter (λ t, negb (exists_ f (pjoin BRAE t))) e.2.2)) (by_path l).

(** A row of the [--gaps] table: both halves there, one naming tests. *)
Definition gap (c : component) : bool :=
  negb (bool_decide (hostf c = [])) && negb (bool_decide (devf c = []))
  && xorb (bool_decide (host c = ∅)) (bool_decide (dev c = ∅)).

Definition main (f : fs) (BRAE : str) (argv : list str) : Z * gmap (str * str) component * list (str * str) :=
  let l := files f BRAE in
  let m := missing f BRAE l in
  (if bool_decide (("--check" : str) ∈ argv) && negb (bool_decide (m = [])) then 1%Z else 0%Z,
   components l, m).
End Mirror.
