(* ===== verification/AuditProofs.v ===== *)
(** * tools: what the source audits promise

    Theorems about Audits.v: the comment stripper of cache_key_audit.py keeps
    every position and leaves no comment; the exit statuses of the four audits,
    each in terms of the files it read; the ledger of header_odr_audit.py matches
    nothing; the table of mirror_coverage.py. *)
From S2P Require Import Audits.

(** ** Shared lemmas *)
Lemma ex_status (p q : Prop) `{Decision p, Decision q} :
  (if bool_decide p && bool_decide q then 0%Z else 1%Z) = 0%Z ↔ p ∧ q.
Proof. do 2 case_bool_decide; cbn; naive_solver. Qed.

(** ** cache_key_audit.py *)
Module CacheKeySpec.
Import CacheKey.

(** A character of the text and the one at its place in the output. *)
Definition kept (c d : ascii) : Prop := d = c ∨ (d = " "%char ∧ c ≠ nl).

(** No comment opens in the text. *)
Definition no_comment (s : str) : Prop :=
  ∀ i, starts "//" (drop i s) = false ∧ starts "/*" (drop i s) = false.

Lemma kept_blank s : Forall2 kept s (blank s).
Proof.
  induction s as [|c s IH]; cbn; constructor; [|done]. unfold kept.
  destruct (Ascii.eqb_spec c nl); [by left | by right].
Qed.
Lemma kept_spaces s : nl ∉ s → Forall2 kept s (spaces (length s)).
Proof.
  induction s as [|c s IH]; cbn; [constructor|].
  intros [Hc Hs]%not_elem_of_cons. constructor; [right; split; [done|congruence] | auto].
Qed.

Lemma no_comment_skip s t :
  Forall (λ c, c = " "%char ∨ c = nl) s → no_comment t → no_comment (s ++ t).
Proof.
  intros Hs Ht; induction Hs as [|c s Hc _ IH]; [done|].
  intros [|i]; [|apply IH]. by destruct Hc as [->| ->].
Qed.
Lemma blank_skip s : Forall (λ c, c = " "%char ∨ c = nl) (blank s).
Proof. induction s; cbn; constructor; [case_match; auto | done]. Qed.
Lemma spaces_skip n : Forall (λ c, c = " "%char ∨ c = nl) (spaces n).
Proof. induction n; cbn; constructor; auto. Qed.

(** A slash of the output was the slash of the text. *)
Lemma starts_kept p s r :
  Forall2 kept s r → Forall (λ c, c ≠ " "%char) p → starts p r = true → starts p s = true.
Proof.
  intros H; revert p; induction H as [|c d s r Hcd _ IH]; intros [|a p] Hp; try done.
  apply Forall_cons in Hp as [Ha Hp]. cbn. rewrite !andb_true_iff, !ascii_eqb_eq.
  intros [<- Hr]. destruct Hcd as [<-|[-> _]]; [|done]. auto.
Qed.

(** The two comment branches: what is skipped is blanked. *)
Lemma strip_loop_spec fuel s :
  length s < fuel → Forall2 kept s (strip_loop fuel s) ∧ no_comment (strip_loop fuel s).
Proof.
  revert s; induction fuel as [|fuel IH]; intros s Hf; [lia|].
  cbn [strip_loop]. destruct s as [|c s].
  { split; [constructor|]. intros i. by rewrite drop_nil. }
  destruct (starts "//" (c :: s)) eqn:E1; [|destruct (starts "/*" (c :: s)) eqn:E2].
  - set (j := match find0 [nl] (c :: s) with Some j => j | None => length (c :: s) end).
    assert (0 < j ≤ length (c :: s) ∧ nl ∉ take j (c :: s)) as [Hj Hn].
    { subst j. destruct (find0 [nl] (c :: s)) as [j|] eqn:E.
      - pose proof (find0_char _ _ _ E). apply find0_Some in E as (H1 & H2 & _).
        split; [|done]. split; [|done]. destruct j; [|lia].
        apply starts_spec in E1 as [r [= -> _]]. done.
      - split; [cbn; lia|]. rewrite firstn_all.
        rewrite <- count_0. destruct (count nl (c :: s)) eqn:Ec; [done|exfalso].
        assert (nl ∈ c :: s) as [i Hi]%list_elem_of_lookup_1.
        { destruct (decide (nl ∈ c :: s)) as [|Hx]; [done|]. apply count_0 in Hx. lia. }
        pose proof (find0_None _ _ E i) as H. rewrite (drop_S _ _ _ Hi) in H.
        apply lookup_lt_Some in Hi. cbn in H. specialize (H ltac:(cbn in *; lia)). done. }
    destruct (IH (drop j (c :: s))) as [H1 H2]; [rewrite length_drop; lia|]. split.
    + rewrite <- (take_drop j (c :: s)) at 1. apply Forall2_app; [|done].
      replace (spaces j) with (spaces (length (take j (c :: s)))) by (rewrite length_take; f_equal; lia).
      by apply kept_spaces.
    + apply no_comment_skip; [apply spaces_skip | done].
  - set (j := match find "*/" (c :: s) 2 with Some j => j + 2 | None => length (c :: s) end).
    assert (0 < j) as Hj by (subst j; case_match; cbn; lia).
    destruct (IH (drop j (c :: s))) as [H1 H2]; [rewrite length_drop; cbn in *; lia|]. split.
    + rewrite <- (take_drop j (c :: s)) at 1. apply Forall2_app; [apply kept_blank | done].
    + apply no_comment_skip; [apply blank_skip | done].
  - destruct (IH s) as [H1 H2]; [cbn in Hf; lia|].
    assert (Forall2 kept (c :: s) (c :: strip_loop fuel s)) as H
      by (constructor; [by left | done]).
    split; [done|]. intros [|i]; [|apply H2]. rewrite drop_0.
    split; apply not_true_is_false; intros Hs;
      apply (starts_kept _ _ _ H) in Hs; (congruence || by repeat constructor).
Qed.

(** cache_key_audit.py's comment stripper maps the text place by place (the
    length is kept, each character is kept or, when it is not a newline, blanked, so
    the line numbers of the report are those of the file), and no comment opens
    anywhere in its output: a guard or a surviving identity quoted in a comment is
    never read.  The loop ends on every text. *)
Theorem cache_strip_comments (t : str) :
  Forall2 kept t (strip_comments t) ∧ no_comment (strip_comments t) ∧
  ∀ i, line_of (strip_comments t) i = line_of t i.
Proof.
  destruct (strip_loop_spec (S (length t)) t) as [H1 H2]; [lia|].
  fold (strip_comments t) in *. split; [done|]. split; [done|]. intros i. unfold line_of.
  f_equal. apply Forall2_take with (n := i) in H1.
  induction H1 as [|c d a b H _ IH]; [done|]. rewrite !count_cons, IH. f_equal.
  destruct H as [<-|[-> H]]; [done|]. by destruct (Ascii.eqb_spec nl c).
Qed.

(** C16: cache_key_audit.py exits 0 exactly when its ledger lists the keys of the
    unprotected pointer guards found in the CUDA sources and nothing else: an
    unlisted guard and a stale entry both fail it. *)
Theorem cache_key_main f argv st hits unlisted stale :
  CacheKey.main f argv = Ok (st, hits, unlisted, stale) →
  ∃ allow_path roots allow,
    take_allow argv = Ok (allow_path, roots) ∧ ledger f allow_path = Ok allow ∧
    hits_of f (sources f (match roots with [] => ["src" : str] | _ => roots end)) = Ok hits ∧
    (st = 0%Z ↔ ∀ key, key ∈ allow ↔ ∃ h, h ∈ hits ∧ h_key h = key).
Proof.
  unfold CacheKey.main. intros ([allow_path roots] & Ha & H)%bind_Ok.
  apply bind_Ok in H as (allow & Hl & H). apply bind_Ok in H as (hits' & Hh & H).
  injection H as Hst <- <- <-. exists allow_path, roots, allow.
  split; [done|]. split; [done|]. split; [done|]. rewrite <- Hst, ex_status, !filter_nil.
  split.
  - intros [Hu Hs] k. split.
    + intros Hk. specialize (Hs k). rewrite elem_of_sorted, elem_of_remove_dups in Hs.
      specialize (Hs Hk).
      apply negb_false_iff, existsb_elem in Hs as (h & Hin & E%bool_decide_eq_true). eauto.
    + intros (h & Hin & <-). specialize (Hu h Hin).
      by apply negb_false_iff, bool_decide_eq_true in Hu.
  - intros H. split.
    + intros h Hh'. apply negb_false_iff, bool_decide_eq_true. apply H. eauto.
    + intros k. rewrite elem_of_sorted, elem_of_remove_dups. intros (h & Hin & E)%H.
      apply negb_false_iff, existsb_elem. exists h. split; [done|]. by apply bool_decide_eq_true.
Qed.
End CacheKeySpec.

(** ** header_odr_audit.py *)
Module HeaderOdrSpec.
Import HeaderOdr.

Lemma count_repeat c n : count c (repeat c n) = n.
Proof. induction n; cbn; [done|]. by rewrite count_cons, Ascii.eqb_refl, IHn. Qed.

Lemma strip_comments_newlines t : count nl (strip_comments t) = count nl t.
Proof.
  unfold strip_comments. rewrite !sub_count; [done| |].
  - intros m _. apply count_repeat.
  - intros m Hm. by rewrite (avoids_group0 _ _ _ _ Hm).
Qed.

(** Each definition comes from a line of the text and a signature with external
    linkage. *)
Definition reported_from (n : nat) (d : def) : Prop :=
  1 ≤ d_line d ≤ n ∧ ∃ sig, external (d_line d) sig = Some d.

Lemma external_line n sig d : external n sig = Some d → d_line d = n.
Proof.
  unfold external. intros (m & _ & H)%bind_Some. case_match; [|done]. by injection H as <-.
Qed.

Lemma scan_char_out n line s c :
  1 ≤ line ≤ n → Forall (reported_from n) (out s) → Forall (reported_from n) (out (scan_char line s c)).
Proof.
  intros Hl Hs. unfold scan_char. repeat (case_match; [done|]); try done.
  repeat case_match; try done. unfold open_brace; cbn [out]. apply Forall_app. split; [done|].
  case_match; [|constructor]. destruct (external line _) as [d|] eqn:E; cbn; [|constructor].
  constructor; [|constructor]. pose proof (external_line _ _ _ E) as L.
  unfold reported_from. rewrite L. eauto.
Qed.

(** header_odr_audit.py reads as many lines as the header has (its comment
    stripper keeps every newline), and each definition it reports lies on one of
    them and has a signature that is not inline, static, constexpr or a
    template. *)
Theorem scan_reports (t : str) (d : def) :
  d ∈ scan t →
  1 ≤ d_line d ≤ S (count nl t) ∧
  ∃ sig m, match_ sig_re sig 0 = Some m ∧ d_name d = group_d 2 sig m ∧ d_sig d = take 110 sig ∧
    Forall (λ w : str, contains w (group_d 1 sig m) = false)
           ["inline" : str; "static" : str; "constexpr" : str] ∧
    contains "template" sig = false.
Proof.
  assert (Forall (reported_from (S (count nl t))) (scan t)) as H.
  { unfold scan, scan_state. rewrite length_split, strip_comments_newlines.
    apply fold_left_ind; [constructor|]. intros [i l] s Hil Hs.
    apply elem_of_zip_l, elem_of_seq in Hil. unfold scan_line; cbn. case_match; [done|].
    cbn. apply fold_left_ind; [done|]. intros c s' _ Hs'. apply scan_char_out; [lia|done]. }
  rewrite Forall_forall in H. intros Hd. destruct (H d Hd) as (Hl & sig & E). split; [done|].
  unfold external in E. apply bind_Some in E as (m & Hm & E). exists sig, m.
  repeat match type of E with (if ?b then _ else _) = _ => destruct b eqn:Eb; [|done] end.
  injection E as <-. rewrite !andb_true_iff, !negb_true_iff in Eb. cbn. naive_solver.
Qed.

Lemma words_go_nonspace cur s :
  Forall (λ c, is_space c = false) cur →
  Forall (Forall (λ c, is_space c = false)) (words_go cur s).
Proof.
  revert cur; induction s as [|a s IH]; intros cur Hc; cbn.
  - destruct cur; [constructor|]. constructor; [by apply Forall_rev | constructor].
  - destruct (is_space a) eqn:E.
    + destruct cur; [by apply IH|]. constructor; [by apply Forall_rev | by apply IH; constructor].
    + apply IH. by constructor.
Qed.

Lemma ledger_one_word f ap allow k :
  ledger f ap = Ok allow → k ∈ allow → Forall (λ c, is_space c = false) k.
Proof.
  unfold ledger. intros H Hk. repeat case_match; res_inv;
    try by apply not_elem_of_nil in Hk.
  apply list_elem_of_omap in Hk as (line & _ & Hw%head_Some_elem_of).
  pose proof (words_go_nonspace [] (default [] (head (split "#" line))) (List.Forall_nil _)) as F.
  rewrite Forall_forall in F. by apply F.
Qed.

Lemma keyed_space f bn l kd :
  keyed f bn = Ok l → kd ∈ l → " "%char ∈ kd.1.
Proof.
  unfold keyed. intros (t & _ & H)%bind_Ok Hk. injection H as <-.
  apply list_elem_of_fmap in Hk as (d & -> & _). cbn.
  rewrite !elem_of_app. right; left.
Qed.

(** header_odr_audit.py's ledger permits nothing.  Its entries are kept by
    their first word while the definitions are looked up by "file name", so no
    entry ever matches one: the audit exits 0 exactly when no header under the
    roots defines a function with external linkage and the ledger has no entry,
    every definition is reported and every entry is called stale. *)
Theorem header_odr_ledger_dead f argv allow_path roots allow st reported stale :
  arguments argv None [] = Ok (allow_path, roots) → roots ≠ [] →
  ledger f allow_path = Ok allow →
  HeaderOdr.main f argv = Ok (st, reported, stale) →
  (st = 0%Z ↔ reported = [] ∧ allow = []) ∧
  stale = sorted (remove_dups allow) ∧
  ∀ kd, kd ∈ reported ↔
    ∃ bn t, bn ∈ header_files f roots ∧ read_text f (pjoin bn.1 bn.2) = Ok t ∧
            kd.2 ∈ scan t ∧ kd.1 = bn.2 ++ " " ++ d_name kd.2.
Proof.
  unfold HeaderOdr.main. intros -> Hr Hl. cbn [mbind res_mbind].
  destruct roots as [|r roots]; [done|]. rewrite Hl. cbn [mbind res_mbind].
  intros (found & Hf & [= <- <- <-])%bind_Ok.
  assert (∀ k kd, k ∈ allow → kd ∈ concat found → k ≠ kd.1) as Hne.
  { intros k kd Hk (bn & l & _ & Hkd & Hin)%(mapR_concat_elem _ _ _ _ Hf) ->.
    pose proof (ledger_one_word _ _ _ _ Hl Hk) as F. rewrite Forall_forall in F.
    specialize (F _ (keyed_space _ _ _ _ Hkd Hin)). done. }
  assert (List.filter (λ kd, negb (bool_decide (kd.1 ∈ allow))) (concat found) = concat found) as E1.
  { apply filter_all. intros kd Hkd. apply negb_true_iff, bool_decide_eq_false. intros Hk.
    by eapply Hne. }
  assert (List.filter (λ a, negb (bool_decide (a ∈ map fst (concat found))))
            (sorted (remove_dups allow)) = sorted (remove_dups allow)) as E2.
  { apply filter_all. intros k. rewrite elem_of_sorted, elem_of_remove_dups. intros Hk.
    apply negb_true_iff, bool_decide_eq_false. intros (kd & -> & Hkd)%list_elem_of_fmap.
    by eapply Hne. }
  rewrite E1, E2. split; [|split; [done|]].
  - rewrite ex_status. split; intros [H1 H2]; (split; [done|]); [|by subst].
    destruct allow as [|k allow]; [done|exfalso].
    assert (k ∈ sorted (remove_dups (k :: allow))) as Hk
      by (rewrite elem_of_sorted, elem_of_remove_dups; left).
    rewrite H2 in Hk. by apply not_elem_of_nil in Hk.
  - intros kd. rewrite (mapR_concat_elem _ _ _ _ Hf). unfold keyed. split.
    + intros (bn & l & Hbn & (t & Ht & [= <-])%bind_Ok & (d & -> & Hd)%list_elem_of_fmap).
      exists bn, t. done.
    + intros (bn & t & Hbn & Ht & Hd & E). exists bn. rewrite Ht. cbn. eexists.
      split; [done|]. split; [done|]. apply list_elem_of_fmap. exists kd.2. split; [|done].
      destruct kd; cbn in *; congruence.
Qed.
End HeaderOdrSpec.

(** ** slice_provenance.py *)
Module SliceSpec.
Import Slice.

(** The copy is a header followed by the donor, and the donor's first line is not
    found before the donor starts. *)
Definition headed_copy (c d : str) : Prop :=
  ∃ h, c = h ++ d ∧
    ∀ i, i < length h → starts (default [] (head (split nl d))) (drop i c) = false.

(** The first line begins the text. *)
Lemma first_line_starts d : starts (default [] (head (split nl d))) d = true.
Proof.
  induction d as [|a d IH]; [done|]. cbn [split].
  destruct (Ascii.eqb a nl); [done|]. pose proof (split_not_nil nl d).
  destruct (split nl d) as [|p ps]; [done|]. cbn in *. by rewrite Ascii.eqb_refl, IH.
Qed.

Lemma body_after_header_spec c d : body_after_header c d = d ↔ headed_copy c d.
Proof.
  unfold body_after_header. set (first := default [] (head (split nl d))). split.
  - destruct (find0 first c) as [i|] eqn:E.
    + intros H. apply find0_Some in E as (_ & Hi & Hn). exists (take i c).
      rewrite <- H, take_drop. split; [done|]. intros j. rewrite length_take. intros Hj.
      rewrite H. apply Hn. lia.
    + intros ->. pose proof (find0_None _ _ E 0 ltac:(lia)) as H. rewrite drop_0 in H.
      subst first. by rewrite first_line_starts in H.
  - intros (h & -> & Hn). rewrite (find0_intro first (h ++ d) (length h)).
    + by rewrite drop_app_length.
    + rewrite drop_app_length. apply first_line_starts.
    + rewrite length_app. lia.
    + done.
Qed.

(** C17: slice_provenance.py exits 0 exactly when, for every marked copy under a
    slice directory, the donor is there and the copy is a header followed by the
    donor character for character, the donor's first line not occurring before
    it; every other run that ends exits 1. *)
Theorem slice_main f BRAE st verdicts :
  Slice.main f BRAE = Ok (st, verdicts) →
  (st = 0%Z ↔ ∀ c d, (c, d) ∈ find_copies f BRAE →
     exists_ f d = true ∧
     ∃ ct dt, read_text f c = Ok ct ∧ read_text f d = Ok dt ∧ headed_copy ct dt) ∧
  (st = 0%Z ∨ st = 1%Z).
Proof.
  unfold Slice.main. intros (vs & Hv%mapR_Ok & [= <- <-])%bind_Ok. split; [|by case_match; auto].
  assert (∀ c d v, check_copy f (c, d) = Ok v → v = Identical ↔ exists_ f d = true ∧
     ∃ ct dt, read_text f c = Ok ct ∧ read_text f d = Ok dt ∧ headed_copy ct dt) as Hc.
  { intros c d v. unfold check_copy; cbn [fst snd]. destruct (exists_ f d); cbn [negb].
    - intros (ct & Hct & (dt & Hdt & [= <-])%bind_Ok)%bind_Ok.
      pose proof (body_after_header_spec ct dt) as Hb. case_bool_decide as E.
      + split; [|done]. intros _. split; [done|]. exists ct, dt. by rewrite <- Hb.
      + split; [done|]. intros (_ & ct' & dt' & ? & ? & H). exfalso. apply E, Hb. congruence.
    - intros [= <-]. split; [done | by intros [? _]]. }
  transitivity (∀ x, x ∈ vs → x.2 = Identical).
  { pose proof (forallb_elem (λ x, bool_decide (x.2 = Identical)) vs) as F.
    setoid_rewrite bool_decide_eq_true in F. rewrite <- F. by destruct (forallb _ vs). }
  induction Hv as [|[c d] x l vs Hx _ IH].
  - split; intros _; [intros c d H | intros x H]; by apply not_elem_of_nil in H.
  - setoid_rewrite elem_of_cons. apply bind_Ok in Hx as (v & Hx%Hc & [= <-]). split.
    + intros H c' d' [[= -> ->]|Hin]; [apply Hx, (H (c, d, v)); by left|].
      apply IH; [|done]. intros y Hy. apply H. by right.
    + intros H y [->|Hin]; [apply Hx, H; by left|]. apply IH; [|done]. intros. apply H. by right.
Qed.
End SliceSpec.

(** ** mirror_coverage.py *)
Module MirrorSpec.
Import Mirror.

(** The component a file belongs to. *)
Definition key_of (path : str) : str * str := (dirname path, norm (basename path)).
Definition get (comp : gmap (str * str) component) key : component :=
  default empty_component (comp !! key).
(** The tests and the files of one half of a component. *)
Definition tests_of (h : bool) (c : component) : gset str := if h then host c else dev c.
Definition names_of (h : bool) (c : component) : list str := if h then hostf c else devf c.

Lemma get_add comp e key h :
  (∀ t, t ∈ tests_of h (get (add_file comp e) key) ↔
     t ∈ tests_of h (get comp key) ∨
     (key_of e.1 = key ∧ is_host_half (basename e.1) = h ∧ t ∈ e.2.2)) ∧
  (∀ n, n ∈ names_of h (get (add_file comp e) key) ↔
     n ∈ names_of h (get comp key) ∨
     (key_of e.1 = key ∧ is_host_half (basename e.1) = h ∧ n = basename e.1)).
Proof.
  unfold get, add_file. fold (key_of e.1). destruct (decide (key_of e.1 = key)) as [<-|Hne].
  - rewrite lookup_insert_eq. cbn [default from_option id].
    destruct (is_host_half (basename e.1)), h; cbn; set_solver.
  - rewrite lookup_insert_ne by done. naive_solver.
Qed.

Lemma get_fold l comp key h :
  (∀ t, t ∈ tests_of h (get (fold_left add_file l comp) key) ↔
     t ∈ tests_of h (get comp key) ∨
     ∃ e, e ∈ l ∧ key_of e.1 = key ∧ is_host_half (basename e.1) = h ∧ t ∈ e.2.2) ∧
  (∀ n, n ∈ names_of h (get (fold_left add_file l comp) key) ↔
     n ∈ names_of h (get comp key) ∨
     ∃ e, e ∈ l ∧ key_of e.1 = key ∧ is_host_half (basename e.1) = h ∧ n = basename e.1).
Proof.
  revert comp; induction l as [|e l IH]; intros comp; cbn [fold_left].
  - split; intros ?; (split; [by left|]); by intros [?|(? & ?%not_elem_of_nil & _)].
  - destruct (IH (add_file comp e)) as [IH1 IH2], (get_add comp e key h) as [G1 G2].
    setoid_rewrite elem_of_cons. split; [intros t; rewrite IH1, G1 | intros n; rewrite IH2, G2];
      (split; [intros [[?|?]|(e' & ? & ?)] | intros [?|(e' & [->|?] & ?)]]); eauto 7.
Qed.

(** mirror_coverage.py's table.  The row of a directory and a normalised name
    lists, for each half, exactly the tests named by the files of that half in
    that directory whose names normalise to it, and those files; a file is in the
    row of its own key and in no other. *)
Theorem mirror_components l key h t n :
  (t ∈ tests_of h (get (components l) key) ↔
     ∃ path tests b, (path, (b, tests)) ∈ l ∧ key_of path = key ∧
       is_host_half (basename path) = h ∧ t ∈ tests) ∧
  (n ∈ names_of h (get (components l) key) ↔
     ∃ e, e ∈ l ∧ key_of e.1 = key ∧ is_host_half (basename e.1) = h ∧ n = basename e.1).
Proof.
  destruct (get_fold (by_path l) ∅ key h) as [H1 H2].
  unfold components. rewrite H1, H2. unfold by_path. setoid_rewrite elem_of_sort_by.
  assert (get ∅ key = empty_component) as -> by (unfold get; by rewrite lookup_empty).
  split; (split; [intros [H|H] | intros H; right]).
  - destruct h; set_solver.
  - destruct H as ([path [b tests]] & H); naive_solver.
  - destruct H as (path & tests & b & H). by exists (path, (b, tests)).
  - destruct h; by apply not_elem_of_nil in H.
  - done.
  - done.
Qed.

(** mirror_coverage.py exits 1 exactly when [--check] is given and the
    provenance block of some CUDA source under src names a test that does not
    exist; the list of missing tests is complete and holds nothing else. *)
Theorem mirror_main f BRAE argv st comps m :
  Mirror.main f BRAE argv = (st, comps, m) →
  (st = 1%Z ↔ ("--check" : str) ∈ argv ∧ m ≠ []) ∧
  ∀ rel t, (rel, t) ∈ m ↔
    ∃ bn, bn ∈ files_of f (pjoin BRAE "src") ∧ is_source bn.2 = true ∧
      rel = relpath (pjoin bn.1 bn.2) BRAE ∧
      t ∈ (provenance_tests f (pjoin bn.1 bn.2)).2 ∧ exists_ f (pjoin BRAE t) = false.
Proof.
  unfold Mirror.main. intros [= <- _ <-]. split.
  { do 2 case_bool_decide; cbn; naive_solver. }
  intros rel t. unfold missing, by_path, files. rewrite elem_of_flat_map.
  setoid_rewrite elem_of_sort_by. setoid_rewrite elem_of_lmap. setoid_rewrite elem_of_lfilter.
  split.
  - intros (e & (bn & -> & Hbn & Hs) & t' & [= -> ->] & Ht & Hx). exists bn.
    apply negb_true_iff in Hx. cbn in *. done.
  - intros (bn & Hbn & Hs & -> & Ht & Hx). eexists. split; [by exists bn|].
    exists t. cbn. rewrite Hx. done.
Qed.
End MirrorSpec.

(** ** The theorems at a small tree *)
Module AuditWitness.

Definition w_guard : str := "if (c.key != A.diag) { n = 1; } // generation".
Definition w_donor : str := "int x;" ++ [nl] ++ "int y;" ++ [nl].
Definition w_copy : str := "// COPIED FROM src/d.cu -- as is" ++ [nl] ++ w_donor.
Definition w_header : str :=
  "namespace a {" ++ [nl] ++ "int f(int x) {" ++ [nl] ++ "}" ++ [nl] ++ "}" ++ [nl].
Definition w_block : str :=
  "// provenance:" ++ [nl] ++ "//   tests: tests/x.sh" ++ [nl] ++ w_header.
Definition w_fs : fs :=
  {| root := Dir [("r" : str, Dir
       [("allow" : str, File ("h.cuh f # kept" ++ [nl]) 0 false);
        ("guards" : str, File ("g.cu c.key # owned" ++ [nl]) 0 false);
        ("src" : str, Dir
          [("d.cu" : str, File w_donor 0 false);
           ("g.cu" : str, File w_guard 0 false);
           ("h.cuh" : str, File w_block 0 false);
           ("slice" : str, Dir [("d.cu" : str, File w_copy 0 false)])])])];
     real := normpath |}.

Definition w_args : list str := ["--allow" : str; "/r/guards" : str; "/r/src" : str].
Definition code4 {A B C D} (r : res (A * B * C * D)) : option A :=
  match r with Ok (a, _, _, _) => Some a | _ => None end.
Lemma code4_Ok {A B C D} (r : res (A * B * C * D)) a :
  code4 r = Some a → ∃ b c d, r = Ok (a, b, c, d).
Proof. destruct r as [[[[a' b] c] d]|]; [|done]. intros [= ->]. eauto. Qed.
Definition code3 {A B C} (r : res (A * B * C)) : option A :=
  match r with Ok (a, _, _) => Some a | _ => None end.
Lemma code3_Ok {A B C} (r : res (A * B * C)) a :
  code3 r = Some a → ∃ b c, r = Ok (a, b, c).
Proof. destruct r as [[[a' b] c]|]; [|done]. intros [= ->]. eauto. Qed.
Definition code2 {A B} (r : res (A * B)) : option A :=
  match r with Ok (a, _) => Some a | _ => None end.
Lemma code2_Ok {A B} (r : res (A * B)) a : code2 r = Some a → ∃ b, r = Ok (a, b).
Proof. destruct r as [[a' b]|]; [|done]. intros [= ->]. eauto. Qed.

Lemma cache_key_main_witness :
  ∃ (hits : list CacheKey.hit) allow, CacheKey.ledger w_fs (Some ("/r/guards" : str)) = Ok allow ∧
    ∀ key, key ∈ allow ↔ ∃ h, h ∈ hits ∧ CacheKey.h_key h = key.
Proof.
  assert (code4 (CacheKey.main w_fs w_args) = Some 0%Z) as E by (vm_compute; reflexivity).
  apply code4_Ok in E as (hits & u & s & E).
  destruct (CacheKeySpec.cache_key_main w_fs w_args 0 hits u s E) as (ap & roots & allow & Ha & Hl & _ & Hst).
  assert (ap = Some ("/r/guards" : str)) as -> by (vm_compute in Ha; by injection Ha as <- _).
  exists hits, allow. split; [done|]. by apply Hst.
Defined.

Lemma scan_reports_witness :
  ∃ d, d ∈ HeaderOdr.scan w_header ∧ HeaderOdr.d_line d = 2 ∧ 1 ≤ HeaderOdr.d_line d ≤ S (count nl w_header).
Proof.
  exists {| HeaderOdr.d_line := 2; HeaderOdr.d_name := "f"; HeaderOdr.d_sig := "int f(int x)" |}.
  assert (HeaderOdr.scan w_header =
    [{| HeaderOdr.d_line := 2; HeaderOdr.d_name := "f"; HeaderOdr.d_sig := "int f(int x)" |}]) as E
    by (vm_compute; reflexivity).
  split; [rewrite E; by left|]. split; [done|].
  apply (HeaderOdrSpec.scan_reports w_header). rewrite E. by left.
Defined.

Lemma header_odr_ledger_dead_witness :
  ∃ reported, HeaderOdr.main w_fs ["--allow" : str; "/r/allow" : str; "/r/src" : str] =
    Ok (1%Z, reported, ["h.cuh" : str]) ∧
  reported ≠ [].
Proof.
  set (argv := ["--allow" : str; "/r/allow" : str; "/r/src" : str]).
  assert (code3 (HeaderOdr.main w_fs argv) = Some 1%Z) as E by (vm_compute; reflexivity).
  apply code3_Ok in E as (reported & stale & E).
  assert (HeaderOdr.ledger w_fs (Some ("/r/allow" : str)) = Ok ["h.cuh" : str]) as El
    by (vm_compute; reflexivity).
  destruct (HeaderOdrSpec.header_odr_ledger_dead w_fs argv (Some ("/r/allow" : str)) ["/r/src" : str]
    ["h.cuh" : str] 1 reported stale eq_refl ltac:(discriminate) El E) as (_ & -> & Hr).
  exists reported. split; [rewrite E; vm_compute; reflexivity|]. intros ->.
  refine (not_elem_of_nil ("h.cuh f" : str,
    {| HeaderOdr.d_line := 4; HeaderOdr.d_name := "f"; HeaderOdr.d_sig := "int f(int x)" |}) _).
  apply Hr. exists ("/r/src" : str, "h.cuh" : str), w_block.
  split; [vm_compute; by left|]. split; [vm_compute; reflexivity|]. split; [|vm_compute; reflexivity].
  assert (HeaderOdr.scan w_block =
    [{| HeaderOdr.d_line := 4; HeaderOdr.d_name := "f"; HeaderOdr.d_sig := "int f(int x)" |}]) as ->
    by (vm_compute; reflexivity).
  by left.
Defined.

Lemma slice_main_witness :
  Slice.find_copies w_fs "/r" = [("/r/src/slice/d.cu" : str, "/r/src/d.cu" : str)] ∧
  ∃ ct dt, read_text w_fs "/r/src/slice/d.cu" = Ok ct ∧ read_text w_fs "/r/src/d.cu" = Ok dt ∧
    SliceSpec.headed_copy ct dt.
Proof.
  assert (Slice.find_copies w_fs "/r" = [("/r/src/slice/d.cu" : str, "/r/src/d.cu" : str)]) as Ef
    by (vm_compute; reflexivity).
  split; [done|].
  assert (code2 (Slice.main w_fs "/r") = Some 0%Z) as E by (vm_compute; reflexivity).
  apply code2_Ok in E as (vs & E).
  refine (proj2 (proj1 (proj1 (SliceSpec.slice_main w_fs "/r" 0 vs E)) eq_refl _ _ _)).
  rewrite Ef. by left.
Defined.

Lemma mirror_main_witness :
  ∃ comps, Mirror.main w_fs "/r" ["--check" : str] =
    (1%Z, comps, [("src/h.cuh" : str, "tests/x.sh" : str)]) ∧
  exists_ w_fs (pjoin "/r" "tests/x.sh") = false.
Proof.
  destruct (Mirror.main w_fs "/r" ["--check" : str]) as [[st comps] m] eqn:E.
  assert (m = [("src/h.cuh" : str, "tests/x.sh" : str)]) as ->.
  { replace m with (Mirror.main w_fs "/r" ["--check" : str]).2 by (by rewrite E).
    vm_compute. reflexivity. }
  destruct (MirrorSpec.mirror_main w_fs "/r" ["--check" : str] st comps _ E) as [H1 H2].
  exists comps. split.
  - assert (st = 1%Z) as -> by (apply H1; split; [left | done]). done.
  - destruct (proj1 (H2 ("src/h.cuh" : str) ("tests/x.sh" : str))) as (? & _ & _ & _ & _ & H); [by left | done].
Defined.
End AuditWitness.
