(* ===== verification/Resize.v ===== *)
(** * tools/resize_audit.py

    The audit for a device buffer that is accumulated into without being zeroed:
    the blanking of comments and quoted text, the table of kernels, the launches
    and calls with their arguments, and the exit status.  A file is reported by the
    path it was opened with; [os.path.relpath] only changes what is printed. *)
From stdpp Require Import gmap.
From S2P Require Export Audits.

Module Resize.
Import CacheKey.

(** ** strip_comments *)

(** How much of the text after an opening quote the quoted text takes, its
    closing quote included. *)
Fixpoint quoted (q : ascii) (s : str) : nat :=
  match s with
  | [] => 0
  | c :: s' =>
      if Ascii.eqb c q then 1
      else if Ascii.eqb c bslash
           then match s' with [] => 1 | _ :: s'' => S (S (quoted q s'')) end
           else S (quoted q s')
  end.

Definition is_quote (c : ascii) : bool := Ascii.eqb c dquote || Ascii.eqb c "'".

Fixpoint strip_loop (fuel : nat) (s : str) : str :=
  match fuel with
  | 0 => []
  | S fuel =>
      match s with
      | [] => []
      | c :: s' =>
          if starts "//" s then
            let j := match find0 [nl] s with Some j => j | None => length s end in
            spaces j ++ strip_loop fuel (drop j s)
          else if starts "/*" s then
            let j := match find "*/" s 2 with Some j => j + 2 | None => length s end in
            blank (take j s) ++ strip_loop fuel (drop j s)
          else if is_quote c then
            let j := S (quoted c s') in spaces j ++ strip_loop fuel (drop j s)
          else c :: strip_loop fuel s'
      end
  end.
Definition strip_comments (text : str) : str := strip_loop (S (length text)) text.

(** ** Brackets and arguments *)

(** The loop that looks for the bracket closing the one at [i]: its index, or the
    length of the text. *)
Fixpoint matching_from (o c : ascii) (s : str) (depth : Z) (j : nat) : nat :=
  match s with
  | [] => j
  | a :: s =>
      if Ascii.eqb a o then matching_from o c s (depth + 1) (S j)
      else if Ascii.eqb a c then
        if (depth - 1 =? 0)%Z then j else matching_from o c s (depth - 1) (S j)
      else matching_from o c s depth (S j)
  end.
Definition matching (o c : ascii) (t : str) (i : nat) : nat := matching_from o c (drop i t) 0 i.

(** The pieces between the commas at depth zero; [cur] is the piece so far. *)
Definition opens (c : ascii) : bool := Ascii.eqb c "(" || Ascii.eqb c "<" || Ascii.eqb c "[".
Definition closes (c : ascii) : bool := Ascii.eqb c ")" || Ascii.eqb c ">" || Ascii.eqb c "]".
Definition deeper (depth : Z) (c : ascii) : Z :=
  if opens c then (depth + 1)%Z else if closes c then (depth - 1)%Z else depth.
Fixpoint pieces (s : str) (depth : Z) (cur : str) : list str :=
  match s with
  | [] => [cur]
  | c :: s =>
      let depth := deeper depth c in
      if Ascii.eqb c "," && (depth =? 0)%Z then cur :: pieces s depth []
      else pieces s depth (cur ++ [c])
  end.

(** The arguments of the call whose opening parenthesis ends the match at [e]. *)
Definition call_args (t : str) (e : nat) : list str :=
  map strip (pieces (slice t e (matching "(" ")" t (e - 1))) 0 []).

(** ** kernels_of *)
Definition kernel_re : re :=
  seqs [txt "__global__"; many1 sp; opt (seqs [txt "static"; many1 sp]);
        word; many (cls (CWord :: chars ":<>, ")); many1 sp; RGroup 1 (many1 word); many sp; chr "("].
Definition last_word_re : re := seqs [RGroup 1 (many1 word); many sp; REol].

(** The pointer parameters of a parameter list. *)
Definition pointer_param (p : str) : option str :=
  let p := strip p in
  m ← search last_word_re p 0;
  if contains "*" p then Some (group_d 1 p m) else None.
Definition pointer_params (params : str) : list str := omap pointer_param (split "," params).

Definition index_re (pn : str) (op : list re) : re :=
  seqs ([RWordB; txt pn; many sp; chr "["; many (ncls (chars "]")); chr "]"; many sp] ++ op).
Definition atomic_re (pn : str) : re :=
  seqs [txt "atomicAdd"; many sp; chr "("; many sp; opt (chr "&"); many sp; txt pn; RWordB].
Definition found (r : re) (s : str) : bool := bool_decide (is_Some (search r s 0)).

Definition accumulates (body pn : str) : bool :=
  found (index_re pn [txt "+="]) body || found (atomic_re pn) body.
Definition assigns (body pn : str) : bool :=
  found (index_re pn [chr "="; ncls (chars "=")]) body.

(** The pointer parameters, those accumulated into, those assigned. *)
Record kernel := { k_names : list str; k_acc : gset str; k_assign : gset str }.

Definition kernel_at (text : str) (m : mobj) : option (str * kernel) :=
  let j := matching "(" ")" text (m_end m - 1) in
  let names := pointer_params (slice text (m_end m) j) in
  k ← find "{" text j;
  let body := slice text k (matching "{" "}" text k) in
  Some (group_d 1 text m,
        {| k_names := names;
           k_acc := list_to_set (List.filter (accumulates body) names);
           k_assign := list_to_set (List.filter (assigns body) names) |}).

(** A later definition of a name replaces an earlier one. *)
Definition kernels_of (text : str) : gmap str kernel :=
  fold_left (λ out nk, <[nk.1 := nk.2]> out) (omap (kernel_at text) (finditer kernel_re text)) ∅.

(** ** enclosing_function, function_at *)
Definition enclosing_function (text : str) (pos : nat) : nat :=
  match rfind [nl; "{"%char] text pos with Some i => S i | None => 0 end.

Definition signature_re : re :=
  seqs [RGroup 1 (many1 word); many sp; chr "("; RGroup 2 (many (ncls (chars ";{}"))); chr ")";
        many sp; REol].
Definition function_at (text : str) (pos : nat) : option str * list str :=
  let open_brace := enclosing_function text pos in
  let head_ := rstrip (slice text (open_brace - 4000) open_brace) in
  match last (finditer signature_re head_) with
  | None => (None, [])
  | Some m =>
      (group 1 head_ m,
       omap (λ prm, let prm := strip prm in group_d 1 prm <$> search last_word_re prm 0)
            (split "," (group_d 2 head_ m)))
  end.

(** ** What puts a known value into every element of a buffer *)
Definition ender : re := seqs [many sp; cls (chars ".,)")].
Definition zeroers (b : str) : list re :=
  let call name := seqs [RWordB; txt name; many sp; chr "("; many sp; txt b; ender] in
  [seqs [txt "cudaMemset"; many word; many sp; chr "("; many sp; txt b; ender];
   call "deviceFill"; call "deviceZero"; call "zeroBuffer";
   seqs [txt b; many sp; chr "."; many sp; txt "copyFrom"; many sp; chr "("];
   call "deviceCopy"; call "deviceScale"].
Definition zeroed_by_name (b before : str) : bool := existsb (λ z, found z before) (zeroers b).
Definition resized (b before : str) : bool :=
  found (seqs [txt b; many sp; chr "."; many sp; txt "resize"; many sp; chr "("]) before.

Definition launch_re : re :=
  seqs [RWordB; RGroup 1 (many1 word); many sp; txt "<<<"; many (ncls (chars ">")); txt ">>>";
        many sp; chr "("].

(** A launch in [before] of a kernel that assigns, whose text up to [stop] names
    the buffer. *)
Definition assigned_by_launch (table : gmap str kernel) (buf before : str) (stop : option nat → nat) :
    bool :=
  existsb (λ m2,
    match table !! group_d 1 before m2 with
    | Some k2 => contains buf (slice before (m_end m2) (stop (find ";" before (m_end m2))))
                 && negb (bool_decide (k_assign k2 = ∅))
    | None => false
    end) (finditer launch_re before).
(** [before[a:before.find(';', a)]]: the index -1 leaves out the last character. *)
Definition stop_or_last (before : str) (o : option nat) : nat :=
  match o with Some e => e | None => length before - 1 end.
Definition stop_or_end (before : str) (o : option nat) : nat :=
  match o with Some (S e) => S e | _ => length before end.

(** ** The launches *)
Definition buffer_re : re :=
  seqs [RGroup 1 (many1 (cls (CWord :: chars ".->[]"))); many sp; chr "."; many sp; txt "data"; many sp;
        txt "()"; many sp; REol].

Record site := {
  s_file : str;
  s_line : nat;
  s_kernel : str;
  s_param : str;
  s_buf : str;
}.
Definition site_key (s : site) : str := basename (s_file s) ++ " " ++ s_kernel s ++ " " ++ s_buf s.

Inductive verdict :=
  | Zeroed
  | Hit (s : site)
  | Carried (s : site) (function : option (str * nat)).

Fixpoint index_of (x : str) (l : list str) : option nat :=
  match l with [] => None | y :: l => if bool_decide (y = x) then Some 0 else S <$> index_of x l end.

(** The argument that stands for the pointer parameter: the pointer arguments are
    counted. *)
Definition is_pointer_arg (a : str) : bool := contains ".data()" a || ends "data()" a.
Definition argument_of (k : kernel) (args : list str) (pn : str) : option str :=
  i ← index_of pn (k_names k);
  arg ← List.filter is_pointer_arg args !! i;
  m ← search buffer_re arg 0; Some (group_d 1 arg m).

Definition judge (table : gmap str kernel) (f t : str) (m : mobj) (kname : str) (k : kernel)
    (pn : str) : option verdict :=
  buf ← argument_of k (call_args t (m_end m)) pn;
  let before := slice t (enclosing_function t (m_start m)) (m_start m) in
  let s := {| s_file := f; s_line := line_of t (m_start m); s_kernel := kname; s_param := pn;
              s_buf := buf |} in
  Some (if zeroed_by_name buf before
           || assigned_by_launch table buf before (stop_or_last before) then Zeroed
        else if resized buf before then Hit s
        else match function_at t (m_start m) with
             | (Some ((_ :: _) as fname), params) => Carried s (pair fname <$> index_of buf params)
             | _ => Carried s None
             end).

(** One launch: the verdicts, or the unknown kernel. *)
Definition launch (table : gmap str kernel) (f t : str) (m : mobj) : list verdict + str :=
  let kname := group_d 1 t m in
  match table !! kname with
  | None => inr kname
  | Some k => inl (omap (judge table f t m kname k) (sorted (elements (k_acc k))))
  end.

(** ** The callers *)

(** The functions, with a parameter's position, that accumulate into what they are
    given: where each was first seen, in sorted order. *)
Definition fk_leb (a b : str * nat) : bool :=
  if bool_decide (a.1 = b.1) then a.2 <=? b.2 else str_leb a.1 b.1.
Definition add_risky (r : gmap (str * nat) (list site)) (v : verdict) : gmap (str * nat) (list site) :=
  match v with
  | Carried s (Some fk) => <[fk := default [] (r !! fk) ++ [s]]> r
  | _ => r
  end.
Definition risky (vs : list verdict) : list ((str * nat) * list site) :=
  sort_by (λ a b, fk_leb a.1 b.1) (map_to_list (fold_left add_risky vs ∅)).

Definition call_re (fname : str) : re :=
  seqs [RBehind false {| neg := false; items := CWord :: chars ":>." |}; txt fname; many sp; chr "("].
Definition name_re : re :=
  seqs [RBol; many (cls (CSpace :: chars "*&")); RGroup 1 (many1 (cls (CWord :: chars ".->[]"))); REol].

Record crossing := { x_file : str; x_line : nat; x_function : str; x_buf : str; x_site : option site }.
Definition crossing_key (x : crossing) : str :=
  basename (x_file x) ++ " " ++ x_function x ++ " " ++ x_buf x.

Definition judge_call (table : gmap str kernel) (fname : str) (k : nat) (sites : list site) (f t : str)
    (c : mobj) : option crossing :=
  if contains "__global__" (slice t (m_start c - 40) (m_start c))
     || contains "<<<" (slice t (m_end c) (m_end c + 40)) then None
  else
    arg ← call_args t (m_end c) !! k;
    bm ← match_ name_re arg 0;
    let buf := group_d 1 arg bm in
    let before := slice t (enclosing_function t (m_start c)) (m_start c) in
    if negb (resized buf before) then None
    else if zeroed_by_name buf before then None
    else if assigned_by_launch table buf before (stop_or_end before) then None
    else Some {| x_file := f; x_line := line_of t (m_start c); x_function := fname; x_buf := buf;
                 x_site := head sites |}.

Definition crossings (table : gmap str kernel) (texts : list (str * str))
    (fs : (str * nat) * list site) : list crossing :=
  flat_map (λ ft, omap (judge_call table fs.1.1 fs.1.2 fs.2 ft.1 ft.2)
                       (finditer (call_re fs.1.1) ft.2)) texts.

(** ** main *)

(** The first definition of a kernel's name, in the order of the files. *)
Definition table_of (texts : list (str * str)) : gmap str kernel :=
  fold_left (λ table ft, table ∪ kernels_of ft.2) texts ∅.

(** The texts of the files, comments blanked. *)
Definition read_source (f : fs) (p : str) : res (str * str) :=
  t ← read_text f p; Ok (p, strip_comments t).

Record report := {
  hits : list site;
  carried : list site;
  unknown : list (str * str);
  crossed : list crossing;
  stale : list str;
}.

Definition launches (table : gmap str kernel) (texts : list (str * str)) :
    list (str * (list verdict + str)) :=
  flat_map (λ ft, map (λ m, (ft.1, launch table ft.1 ft.2 m)) (finditer launch_re ft.2)) texts.
Definition verdicts (l : list (str * (list verdict + str))) : list verdict :=
  flat_map (λ x, match x.2 with inl vs => vs | inr _ => [] end) l.

Definition audit (texts : list (str * str)) (allow : list str) : report :=
  let table := table_of texts in
  let l := launches table texts in
  let vs := verdicts l in
  let hits := omap (λ v, match v with Hit s => Some s | _ => None end) vs in
  let crossed := flat_map (crossings table texts) (risky vs) in
  let keys := map site_key hits ++ map crossing_key crossed in
  {| hits := hits;
     carried := omap (λ v, match v with Carried s _ => Some s | _ => None end) vs;
     unknown := omap (λ x, match x.2 with inr k => Some (x.1, k) | inl _ => None end) l;
     crossed := crossed;
     stale := List.filter (λ a, negb (bool_decide (a ∈ keys))) (sorted (remove_dups allow)) |}.

(** The exit status and the report. *)
Definition main (f : fs) (argv : list str) : res (Z * report) :=
  '(allow_path, rest) ← take_allow (List.filter (λ a, negb (bool_decide (a = "--carried" :> str))) argv);
  let roots := match rest with [] => ["src" : str] | _ => rest end in
  allow ← ledger f allow_path;
  texts ← mapR (read_source f) (sources f roots);
  let r := audit texts allow in
  let listed k := bool_decide (k ∈ allow) in
  Ok (if forallb (λ h, listed (site_key h)) (hits r)
         && forallb (λ x, listed (crossing_key x)) (crossed r)
         && bool_decide (stale r = []) then 0%Z else 1%Z, r).
End Resize.
