(* ===== verification/ResizeProofs.v ===== *)
(** * tools/resize_audit.py: what the audit promises

    The blanking of comments and quoted text, the reading of a call's arguments,
    and the exit status. *)
From stdpp Require Import gmap.
From S2P Require Import Resize AuditProofs.

Module ResizeSpec.
Import Resize CacheKeySpec.
Notation blank := CacheKey.blank.
Notation spaces := CacheKey.spaces.

(** ** strip_comments *)

(** A character of the text and the one at its place in the output. *)
Definition faded (c d : ascii) : Prop := d = c ∨ d = " "%char.
Definition unquoted (s : str) : Prop := Forall (λ c, is_quote c = false) s.

Lemma faded_blank s : Forall2 faded s (blank s).
Proof. eapply Forall2_impl; [apply kept_blank|]. intros c d [->|[-> _]]; [by left | by right]. Qed.
Lemma faded_spaces s n : n = length s → Forall2 faded s (spaces n).
Proof. intros ->. induction s; constructor; [by right | done]. Qed.

Lemma starts_faded p s r :
  Forall2 faded s r → Forall (λ c, c ≠ " "%char) p → starts p r = true → starts p s = true.
Proof.
  intros H; revert p; induction H as [|c d s r Hcd _ IH]; intros [|a p] Hp; try done.
  apply Forall_cons in Hp as [Ha Hp]. cbn. rewrite !andb_true_iff, !ascii_eqb_eq.
  intros [<- Hr]. destruct Hcd as [<-| ->]; [|done]. auto.
Qed.

Lemma unquoted_skip s t : Forall (λ c, c = " "%char ∨ c = nl) s → unquoted t → unquoted (s ++ t).
Proof.
  intros Hs Ht. apply Forall_app. split; [|done]. eapply Forall_impl; [exact Hs|].
  by intros c [->| ->].
Qed.

Lemma quoted_le q s : quoted q s ≤ length s.
Proof.
  revert q; induction s as [s IH] using (induction_ltof1 _ (@length ascii)); unfold ltof in IH.
  intros q. destruct s as [|c s]; [done|]. cbn [quoted].
  destruct (Ascii.eqb c q); [cbn; lia|]. destruct (Ascii.eqb c bslash).
  - destruct s as [|d s]; [cbn; lia|]. pose proof (IH s ltac:(cbn; lia) q). cbn. lia.
  - pose proof (IH s ltac:(cbn; lia) q). cbn. lia.
Qed.

(** What a branch that blanks the first [j] characters leaves to show. *)
Lemma strip_skip s j mask r :
  j ≤ length s → Forall2 faded (take j s) mask → Forall (λ c, c = " "%char ∨ c = nl) mask →
  Forall2 faded (drop j s) r ∧ no_comment r ∧ unquoted r →
  Forall2 faded s (mask ++ r) ∧ no_comment (mask ++ r) ∧ unquoted (mask ++ r).
Proof.
  intros Hj Hm Hs (H1 & H2 & H3). split; [|split].
  - rewrite <- (take_drop j s). by apply Forall2_app.
  - by apply no_comment_skip.
  - by apply unquoted_skip.
Qed.

Lemma line_comment_later c s : starts "//" (c :: s) = true → find0 [nl] (c :: s) ≠ Some 0.
Proof.
  intros [r [= -> _]]%starts_spec E. apply find0_Some in E as (H & _).
  apply starts_spec in H as [r' [= ]].
Qed.

(** An occurrence ends inside the text. *)
Lemma find_end p s i n : find p s i = Some n → n + length p ≤ length s.
Proof.
  unfold find. destruct (Nat.leb_spec i (length s)); [|done].
  intros (k & (Hk & Hle & _)%find0_Some & ->)%fmap_Some. apply starts_spec in Hk as [r Hr].
  apply (f_equal (@length _)) in Hr. rewrite drop_drop, length_drop, length_app in Hr.
  rewrite length_drop in Hle. destruct p; [cbn; lia|]. cbn in *. lia.
Qed.

Lemma resize_loop_spec fuel s :
  length s < fuel →
  Forall2 faded s (strip_loop fuel s) ∧ no_comment (strip_loop fuel s) ∧ unquoted (strip_loop fuel s).
Proof.
  revert s; induction fuel as [|fuel IH]; intros s Hf; [lia|].
  cbn [strip_loop]. destruct s as [|c s].
  { split; [constructor|]. split; [|constructor]. intros i. by rewrite drop_nil. }
  assert (∀ j, 0 < j → length (drop j (c :: s)) < fuel) as Hd
    by (intros j Hj; rewrite length_drop; cbn in *; lia).
  destruct (starts "//" (c :: s)) eqn:E1; [|destruct (starts "/*" (c :: s)) eqn:E2;
    [|destruct (is_quote c) eqn:E3]].
  - set (j := match find0 [nl] (c :: s) with Some j => j | None => length (c :: s) end).
    assert (0 < j ≤ length (c :: s)) as Hj.
    { subst j. destruct (find0 [nl] (c :: s)) as [[|k]|] eqn:E; [| |cbn; lia].
      - by destruct (line_comment_later c s E1).
      - apply find0_Some in E as (_ & H & _). lia. }
    apply (strip_skip _ j); [lia | | apply spaces_skip | apply IH; apply (Hd j); lia].
    apply faded_spaces. rewrite length_take. lia.
  - set (j := match find "*/" (c :: s) 2 with Some j => j + 2 | None => length (c :: s) end).
    assert (0 < j) as Hj by (subst j; case_match; cbn; lia).
    assert (j ≤ length (c :: s)) as Hle.
    { subst j. destruct (find "*/" (c :: s) 2) as [k|] eqn:E; [|done]. by apply find_end in E. }
    apply (strip_skip _ j); [done | apply faded_blank | apply blank_skip | apply IH; apply (Hd j); lia].
  - assert (S (quoted c s) ≤ length (c :: s)) as Hj by (pose proof (quoted_le c s); cbn; lia).
    apply (strip_skip _ (S (quoted c s))); [done | | apply spaces_skip | apply IH; apply (Hd (S (quoted c s))); lia].
    apply faded_spaces. rewrite length_take. lia.
  - destruct (IH s) as (H1 & H2 & H3); [cbn in Hf; lia|].
    assert (Forall2 faded (c :: s) (c :: strip_loop fuel s)) as H
      by (constructor; [by left | done]).
    split; [done|]. split; [|by constructor]. intros [|i]; [|apply H2]. rewrite drop_0.
    split; apply not_true_is_false; intros Hs;
      apply (starts_faded _ _ _ H) in Hs; (congruence || by repeat constructor).
Qed.

Lemma strip_loop_unquoted fuel s :
  length s < fuel → unquoted s → strip_loop fuel s = CacheKey.strip_loop fuel s.
Proof.
  revert s; induction fuel as [|fuel IH]; intros s Hf Hs; [done|].
  cbn [strip_loop CacheKey.strip_loop]. destruct s as [|c s]; [done|].
  assert (∀ j, 0 < j → strip_loop fuel (drop j (c :: s)) = CacheKey.strip_loop fuel (drop j (c :: s))) as Hd.
  { intros j Hj. apply IH; [rewrite length_drop; cbn in *; lia | by apply Forall_drop]. }
  destruct (starts "//" (c :: s)) eqn:E1.
  - assert (0 < match find0 [nl] (c :: s) with Some j => j | None => length (c :: s) end) as Hj;
      [|by rewrite (Hd _ Hj)].
    destruct (find0 [nl] (c :: s)) as [[|k]|] eqn:E; [|lia|cbn; lia].
    by destruct (line_comment_later c s E1).
  - destruct (starts "/*" (c :: s)); [|].
    { match goal with |- context [drop ?j _] => assert (0 < j) as Hj by (case_match; cbn; lia) end.
      by rewrite (Hd _ Hj). }
    apply Forall_cons in Hs as [Hc Hs]. rewrite Hc. f_equal. apply IH; [cbn in Hf; lia | done].
Qed.

(** resize_audit.py's comment stripper keeps the length of the text and maps it
    place by place (a character is kept or blanked), no comment opens in its output
    and no quote is left in it; on a text without quotes it is cache_key_audit.py's
    stripper, so that it keeps the lines there.  The loop ends on every text. *)
Theorem resize_strip_comments (t : str) :
  Forall2 faded t (strip_comments t) ∧ no_comment (strip_comments t) ∧ unquoted (strip_comments t) ∧
  (unquoted t → strip_comments t = CacheKey.strip_comments t).
Proof.
  destruct (resize_loop_spec (S (length t)) t) as (H1 & H2 & H3); [lia|].
  split; [done|]. split; [done|]. split; [done|]. apply strip_loop_unquoted. lia.
Qed.

(** ** Lines *)
Lemma length_spaces n : length (spaces n) = n.
Proof. apply repeat_length. Qed.

Lemma starts_no_slash c s : c ≠ "/"%char → starts "//" (c :: s) = false ∧ starts "/*" (c :: s) = false.
Proof. intros H. split; apply not_true_is_false; intros [r [= -> _]]%starts_spec; done. Qed.

Lemma strip_loop_plain fuel a s :
  length a < fuel → Forall (λ c, is_quote c = false ∧ c ≠ "/"%char) a →
  strip_loop fuel (a ++ s) = a ++ strip_loop (fuel - length a) s.
Proof.
  intros Hf Ha; revert fuel Hf; induction Ha as [|c a [Hc Hs] _ IH]; intros fuel Hf.
  { cbn. by rewrite Nat.sub_0_r. }
  destruct fuel as [|fuel]; [cbn in Hf; lia|]. cbn [app strip_loop].
  destruct (starts_no_slash c (a ++ s) Hs) as [-> ->]. rewrite Hc.
  f_equal. apply IH. cbn in Hf. lia.
Qed.

Lemma quoted_plain q b s :
  Forall (λ c, c ≠ q ∧ c ≠ bslash) b → quoted q (b ++ q :: s) = S (length b).
Proof.
  induction 1 as [|c b [Hq Hb] _ IH]; cbn; [by rewrite Ascii.eqb_refl|].
  destruct (Ascii.eqb_spec c q); [done|]. destruct (Ascii.eqb_spec c bslash); [done|]. by rewrite IH.
Qed.

(** The newlines of a quoted text are lost.  After a quoted text [b] the stripped
    text has as many lines fewer as [b] has newlines, while the docstring promises
    that lines are kept: a line number reported below it is not the file's. *)
Theorem resize_lines_lost (a b s : str) (q : ascii) :
  Forall (λ c, is_quote c = false ∧ c ≠ "/"%char) a → is_quote q = true →
  Forall (λ c, c ≠ q ∧ c ≠ bslash) b →
  let t := a ++ q :: b ++ q :: s in
  let i := length a + length b + 2 in
  line_of (strip_comments t) i + count nl b = line_of t i.
Proof.
  intros Ha Hq Hb t i. unfold strip_comments, t. rewrite strip_loop_plain by
    (done || rewrite length_app; cbn; lia).
  rewrite length_app. replace (S (length a + _) - length a) with (S (length (q :: b ++ q :: s))) by lia.
  cbn [strip_loop]. assert (q ≠ "/"%char) as Hne by (intros ->; done).
  destruct (starts_no_slash q (b ++ q :: s) Hne) as [-> ->]. rewrite Hq, (quoted_plain q b s Hb).
  cbn zeta.
  assert (∀ u v : str, take i (a ++ u ++ v) = a ++ u ++ take (i - length a - length u) v ∨
                 length u ≠ length b + 2) as Ht.
  { intros u v. destruct (decide (length u = length b + 2)) as [E|]; [left|by right].
    rewrite !take_app. unfold i. rewrite !take_ge by lia. done. }
  unfold line_of.
  destruct (Ht (spaces (S (S (length b)))) (strip_loop (length (q :: b ++ q :: s))
     (drop (S (S (length b))) (q :: b ++ q :: s)))) as [->|H]; [|by rewrite length_spaces in H; lia].
  destruct (Ht (q :: b ++ [q]) s) as [E|H]; [|cbn in H; rewrite length_app in H; cbn in H; lia].
  cbn [app] in E. rewrite <- app_assoc in E. cbn [app] in E. rewrite E.
  replace (i - length a - length (spaces (S (S (length b))))) with 0 by (rewrite length_spaces; unfold i; lia).
  replace (i - length a - length (q :: b ++ [q])) with 0 by (cbn; rewrite length_app; unfold i; cbn; lia).
  rewrite !take_0, !app_nil_r, !count_app, count_cons, count_app, count_cons.
  assert (∀ n, count nl (spaces n) = 0) as -> by (induction n; [done|]; cbn; by rewrite count_cons).
  assert (Ascii.eqb nl q = false) as ->.
  { destruct (Ascii.eqb_spec nl q) as [<-|]; [done | done]. }
  change (count nl []) with 0. lia.
Qed.

(** ** Arguments *)

(** A text whose brackets close, with no comma outside them. *)
Fixpoint nested (d : Z) (s : str) : Prop :=
  match s with
  | [] => d = 0%Z
  | c :: s => ¬ (c = ","%char ∧ deeper d c = 0%Z) ∧ nested (deeper d c) s
  end.
(** A text whose parentheses close, seen from inside [d] of them. *)
Fixpoint parens (d : Z) (s : str) : Prop :=
  match s with
  | [] => d = 1%Z
  | c :: s =>
      if Ascii.eqb c "(" then parens (d + 1) s
      else if Ascii.eqb c ")" then (d - 1 ≠ 0)%Z ∧ parens (d - 1) s
      else parens d s
  end.

Lemma pieces_nested d a s cur : nested d a → pieces (a ++ s) d cur = pieces s 0 (cur ++ a).
Proof.
  revert d cur; induction a as [|c a IH]; intros d cur; cbn [nested app].
  - intros ->. by rewrite app_nil_r.
  - intros [Hc Ha]. cbn [pieces].
    assert (Ascii.eqb c "," && (deeper d c =? 0)%Z = false) as ->.
    { apply not_true_iff_false. rewrite andb_true_iff, ascii_eqb_eq, Z.eqb_eq. done. }
    rewrite IH by done. by rewrite <- app_assoc.
Qed.

Lemma pieces_join l : l ≠ [] → Forall (nested 0) l → pieces (join "," l) 0 [] = l.
Proof.
  intros Hne Hl; induction Hl as [|a l Ha Hl IH]; [done|]. destruct l as [|b l].
  - cbn [join]. rewrite <- (app_nil_r a) at 1. by rewrite pieces_nested.
  - change (join "," (a :: b :: l)) with (a ++ ","%char :: join "," (b :: l)).
    rewrite pieces_nested by done. cbn [pieces]. change (deeper 0 ",") with 0%Z.
    change (Ascii.eqb "," "," && (0 =? 0)%Z) with true. cbn iota. by rewrite IH.
Qed.

Lemma matching_parens d s rest j :
  parens d s → matching_from "(" ")" (s ++ ")"%char :: rest) d j = j + length s.
Proof.
  revert d j; induction s as [|c s IH]; intros d j; cbn [parens app matching_from].
  - intros ->. change (Ascii.eqb ")" "(") with false. change (Ascii.eqb ")" ")") with true.
    change (1 - 1 =? 0)%Z with true. cbn iota. cbn [length]. lia.
  - destruct (Ascii.eqb c "("); [intros H; rewrite IH by done; cbn; lia|].
    destruct (Ascii.eqb c ")").
    + intros [Hd H]. rewrite (proj2 (Z.eqb_neq _ _) Hd), IH by done. cbn; lia.
    + intros H. rewrite IH by done. cbn; lia.
Qed.

Lemma call_args_text pre s rest :
  parens 1 s →
  call_args (pre ++ "("%char :: s ++ ")"%char :: rest) (length pre + 1) = map strip (pieces s 0 []).
Proof.
  intros Hs. unfold call_args, matching.
  replace (length pre + 1 - 1) with (length pre) by lia. rewrite drop_app_length.
  cbn [matching_from]. change (Ascii.eqb "(" "(") with true. cbn iota.
  rewrite matching_parens by done. do 2 f_equal. unfold slice.
  change (pre ++ "("%char :: s ++ ")"%char :: rest) with (pre ++ ["("%char] ++ s ++ ")"%char :: rest).
  rewrite app_assoc.
  replace (length pre + 1) with (length (pre ++ ["("%char])) by (rewrite length_app; done).
  rewrite drop_app_length. replace (_ - _) with (length s) by (rewrite length_app; cbn; lia).
  by rewrite take_app_length.
Qed.

(** the audit reads a call's arguments back.  Where a call is written with
    arguments whose brackets close and whose commas lie inside brackets, the list it
    reads is the list that was written, blanks around each argument apart. *)
Theorem resize_call_args (pre rest : str) (args : list str) :
  args ≠ [] → Forall (nested 0) args → parens 1 (join "," args) →
  call_args (pre ++ "("%char :: join "," args ++ ")"%char :: rest) (length pre + 1) = map strip args.
Proof. intros Hne Hn Hp. by rewrite call_args_text, pieces_join. Qed.

(** Below depth zero a comma is not seen. *)
Lemma pieces_below a d cur :
  Forall (λ c, c ≠ ","%char) a → pieces a d cur = [cur ++ a].
Proof.
  intros Ha; revert d cur; induction Ha as [|c a Hc _ IH]; intros d cur; cbn [pieces].
  - by rewrite app_nil_r.
  - destruct (Ascii.eqb_spec c ","); [done|]. cbn [andb]. rewrite IH. by rewrite <- app_assoc.
Qed.
Fixpoint shut (d : Z) (s : str) : Prop :=
  match s with [] => d = 0%Z | c :: s => c ≠ ","%char ∧ shut (deeper d c) s end.
Lemma deeper_shift d c : deeper (d - 1) c = (deeper d c - 1)%Z.
Proof. unfold deeper. repeat case_match; lia. Qed.
Lemma pieces_shut d a s cur : shut d a → pieces (a ++ s) (d - 1) cur = pieces s (-1) (cur ++ a).
Proof.
  revert d cur; induction a as [|c a IH]; intros d cur; cbn [shut app].
  - intros ->. by rewrite app_nil_r.
  - intros [Hc Ha]. cbn [pieces]. destruct (Ascii.eqb_spec c ","); [done|]. cbn [andb].
    rewrite deeper_shift, IH by done. by rewrite <- app_assoc.
Qed.
Lemma pieces_lost l cur : Forall (shut 0) l → pieces (join "," l) (-1) cur = [cur ++ join "," l].
Proof.
  intros Hl; revert cur; induction Hl as [|a l Ha Hl IH]; intros cur.
  { cbn. by rewrite app_nil_r. }
  destruct l as [|b l].
  - cbn [join]. rewrite <- (app_nil_r a) at 1. by rewrite (pieces_shut 0).
  - change (join "," (a :: b :: l)) with (a ++ ","%char :: join "," (b :: l)).
    rewrite (pieces_shut 0) by done. cbn [pieces]. change (deeper (-1) ",") with (-1)%Z.
    change (Ascii.eqb "," "," && (-1 =? 0)%Z) with false. cbn iota. rewrite IH, <- app_assoc.
    by rewrite <- app_assoc.
Qed.

(** An arrow ends the reading.  The splitter counts the [>] of [->] as a closing
    bracket: after an argument [a->...] the depth is minus one and no comma separates
    arguments any more, so that a call with several arguments is read as one whose
    single argument is the whole text, and a buffer in a later place is never
    found. *)
Theorem resize_arrow_args (pre rest a : str) (args : list str) :
  nested 0 a → Forall (shut 0) args → parens 1 (a ++ "->" ++ join "," args) →
  call_args (pre ++ "("%char :: (a ++ "->" ++ join "," args) ++ ")"%char :: rest) (length pre + 1) =
  [strip (a ++ "->" ++ join "," args)].
Proof.
  intros Ha Hl Hp. rewrite call_args_text by done. rewrite pieces_nested by done.
  change ("->" ++ join "," args) with ("-"%char :: ">"%char :: join "," args).
  cbn [pieces]. change (deeper 0 "-") with 0%Z. change (deeper 0 ">") with (-1)%Z.
  cbn [Ascii.eqb Bool.eqb andb]. rewrite pieces_lost by done. cbn [map app]. by rewrite <- !app_assoc.
Qed.

(** ** main *)

(** C20: resize_audit.py exits 0 exactly when its ledger lists the keys of the sites
    it reports and nothing else: the accumulations into a buffer their own function
    resized and did not zero, and the calls that hand such a buffer to a function
    that accumulates into it.  An unlisted site and a stale entry both fail it. *)
Theorem resize_main f argv st r :
  Resize.main f argv = Ok (st, r) →
  ∃ allow_path roots allow texts,
    CacheKey.take_allow (List.filter (λ a, negb (bool_decide (a = "--carried" :> str))) argv) =
      Ok (allow_path, roots) ∧
    CacheKey.ledger f allow_path = Ok allow ∧
    mapR (read_source f) (CacheKey.sources f (match roots with [] => ["src" : str] | _ => roots end)) =
      Ok texts ∧
    r = audit texts allow ∧
    (st = 0%Z ↔ ∀ key, key ∈ allow ↔
       (∃ h, h ∈ hits r ∧ site_key h = key) ∨ (∃ x, x ∈ crossed r ∧ crossing_key x = key)).
Proof.
  unfold Resize.main. intros ([allow_path roots] & Ha & H)%bind_Ok.
  apply bind_Ok in H as (allow & Hl & H). apply bind_Ok in H as (texts & Ht & H).
  injection H as Hst <-. exists allow_path, roots, allow, texts. do 4 (split; [done|]).
  set (r := audit texts allow) in *.
  assert (st = 0%Z ↔ (∀ h, h ∈ hits r → site_key h ∈ allow) ∧
    (∀ x, x ∈ crossed r → crossing_key x ∈ allow) ∧ stale r = []) as ->.
  { rewrite <- Hst. destruct (_ && _) eqn:E.
    - rewrite !andb_true_iff, !forallb_elem, bool_decide_eq_true in E. split; [intros _|done].
      destruct E as [[E1 E2] E3]. repeat split; [..|done]; intros ? ?;
        eapply bool_decide_eq_true; eauto.
    - split; [done|]. intros (H1 & H2 & H3). apply not_true_iff_false in E. exfalso. apply E.
      rewrite !andb_true_iff, !forallb_elem, bool_decide_eq_true.
      repeat split; [..|done]; intros ? ?; apply bool_decide_eq_true; eauto. }
  assert (stale r = List.filter (λ a, negb (bool_decide
    (a ∈ map site_key (hits r) ++ map crossing_key (crossed r)))) (sorted (remove_dups allow))) as -> by done.
  rewrite filter_nil. setoid_rewrite elem_of_sorted. setoid_rewrite elem_of_remove_dups.
  setoid_rewrite negb_false_iff. setoid_rewrite bool_decide_eq_true. setoid_rewrite elem_of_app.
  setoid_rewrite elem_of_lmap. naive_solver.
Qed.
End ResizeSpec.

(** ** The theorems at small inputs *)
Module ResizeWitness.
Import Resize ResizeSpec.

Definition w_kernel : str :=
  "__global__ void addK(double* out, const double* in) { out[i] += in[i]; }" ++ [nl] ++
  "void f()" ++ [nl] ++ "{" ++ [nl] ++ "  b.resize(n);" ++ [nl] ++
  "  addK<<<1, 2>>>(b.data(), c.data());" ++ [nl] ++ "}" ++ [nl].
Definition w_tree : fs :=
  {| root := Dir [("allow" : str, File ("k.cu addK b # known" ++ [nl]) 0 false);
                  ("src" : str, Dir [("k.cu" : str, File w_kernel 0 false)])];
     real := normpath |}.
Definition w_argv : list str := ["--allow" : str; "/allow" : str; "/src" : str].
Definition code_of (x : res (Z * report)) : option (Z * list str) :=
  match x with Ok (st, r) => Some (st, map site_key (hits r)) | Raise _ => None end.
Lemma code_of_spec x c : code_of x = Some c → ∃ r, x = Ok (c.1, r) ∧ map site_key (hits r) = c.2.
Proof. destruct x as [[st r]|]; [|done]. intros [= <-]. by exists r. Qed.

Lemma resize_main_witness :
  ∃ r, Resize.main w_tree w_argv = Ok (0%Z, r) ∧ map site_key (hits r) = ["k.cu addK b" : str] ∧
    ∃ allow, CacheKey.ledger w_tree (Some ("/allow" : str)) = Ok allow ∧
    ∀ key, key ∈ allow ↔
      (∃ h, h ∈ hits r ∧ site_key h = key) ∨ (∃ x, x ∈ crossed r ∧ crossing_key x = key).
Proof.
  assert (code_of (Resize.main w_tree w_argv) = Some (0%Z, ["k.cu addK b" : str])) as E
    by (vm_compute; reflexivity).
  apply code_of_spec in E as (r & E & Eh). exists r. split; [exact E|]. split; [exact Eh|].
  destruct (resize_main w_tree w_argv 0 r E) as (ap & roots & allow & texts & Ha & Hl & _ & _ & Hst).
  assert (ap = Some ("/allow" : str)) as -> by (vm_compute in Ha; by injection Ha as <- _).
  exists allow. split; [exact Hl|]. by apply Hst.
Defined.

Lemma resize_lines_lost_witness :
  line_of (strip_comments ("x = 'a" ++ [nl] ++ "b'; y")) 9 + 1 =
  line_of ("x = 'a" ++ [nl] ++ "b'; y") 9.
Proof.
  refine (resize_lines_lost "x = " ("a" ++ [nl] ++ "b") "; y" "'" _ _ _).
  - repeat constructor; done.
  - reflexivity.
  - repeat constructor; done.
Defined.

Lemma resize_call_args_witness :
  call_args "k(f(a, b).data(), c)" 2 = ["f(a, b).data()" : str; "c" : str].
Proof.
  refine (resize_call_args "k" [] ["f(a, b).data()" : str; " c" : str] _ _ _).
  - discriminate.
  - repeat constructor; vm_compute; naive_solver.
  - vm_compute. naive_solver.
Defined.

Lemma resize_arrow_args_witness :
  call_args "k(a->x.data(), c.data())" 2 = ["a->x.data(), c.data()" : str].
Proof.
  refine (resize_arrow_args "k" [] "a" ["x.data()" : str; " c.data()" : str] _ _ _).
  - vm_compute. naive_solver.
  - repeat constructor; vm_compute; naive_solver.
  - vm_compute. naive_solver.
Defined.
End ResizeWitness.
