(* ===== verification/NumPy.v ===== *)
(** * What the scripts use of NumPy

    The arithmetic of the arrays is a class: [NumOps] holds the operations of the
    element type, among them the inner product and the sum, whose order of additions
    NumPy does not fix; [NumLaws] says that the operations are those of a field and
    that the inner product is the sum of the products.  Shapes and indices are as
    NumPy has them: an index below zero counts from the end, an index out of range
    raises, and operands of different lengths raise unless one has length one.

    [QOps] is the instance of the rational numbers, with its laws; [FOps] that of the
    IEEE doubles, with the sums taken from left to right. *)
From Stdlib Require Import QArith Qcanon Field.
From S2P Require Export PyFloat.

Class NumOps (F : Type) := {
  zero : F; one : F;
  add : F → F → F; sub : F → F → F; mul : F → F → F; div : F → F → F;
  neg : F → F;                (* -x *)
  absf : F → F;
  ltb : F → F → bool; leb : F → F → bool;
  maximum : F → F → F;        (* NumPy's, which keeps a NaN *)
  lit : Z → nat → F;          (* the literal m * 10^-e *)
  is_zero : F → bool;
  dot : list F → list F → F;  (* a @ b *)
  sum : list F → F;           (* a.sum() *)
  printed : F → F;            (* float(f'{x:.12e}') *)
}.

(** [max(a, b)] and [min(a, b)] of two numbers. *)
Definition pmax {F} `{NumOps F} (a b : F) : F := if ltb a b then b else a.
Definition pmin {F} `{NumOps F} (a b : F) : F := if ltb b a then b else a.
(** [a / b] of Python floats. *)
Definition pydiv {F} `{NumOps F} (a b : F) : res F :=
  if is_zero b then Raise ZeroDivisionError else Ok (div a b).

Section arrays.
Context {F : Type} `{NumOps F}.

Abbreviation vec := (list F).
(** A two-dimensional array: its rows, and the number of its columns. *)
Record mat := { ncols : nat; rows : list vec }.

(** ** Indices *)

(** The position an index stands for in an array of length [n]. *)
Definition position (n : nat) (i : Z) : res nat :=
  if (0 <=? i)%Z && (i <? Z.of_nat n)%Z then Ok (Z.to_nat i)
  else if (- Z.of_nat n <=? i)%Z && (i <? 0)%Z then Ok (Z.to_nat (Z.of_nat n + i))
  else Raise IndexError.
Definition get {A} (l : list A) (i : Z) : res A := p ← position (length l) i; getitem l p.
Definition put {A} (l : list A) (i : Z) (v : A) : res (list A) :=
  p ← position (length l) i; Ok (<[p := v]> l).

(** ** Elementwise operations *)
Definition lift (op : F → F → F) (a b : vec) : res vec :=
  if length a =? length b then Ok (zip_with op a b)
  else match a, b with
       | [x], _ => Ok (map (op x) b)
       | _, [y] => Ok (map (λ x, op x y) a)
       | _, _ => Raise ValueError
       end.
Definition vadd : vec → vec → res vec := lift add.
Definition vsub : vec → vec → res vec := lift sub.
Definition vdiv : vec → vec → res vec := lift div.
Definition scale (c : F) (a : vec) : vec := map (mul c) a.
Definition zeros (n : nat) : vec := repeat zero n.
(** [np.abs(a).sum()] *)
Definition norm1 (a : vec) : F := sum (map absf a).
(** [a.max()] *)
Definition vmax (a : vec) : res F :=
  match a with [] => Raise ValueError | x :: a => Ok (fold_left maximum a x) end.

(** ** Matrices *)
Definition at_ (A : mat) (i j : nat) : F := nth j (nth i (rows A) []) zero.
Definition nrows (A : mat) : nat := length (rows A).
Definition vdot (a b : vec) : res F :=
  if length a =? length b then Ok (dot a b) else Raise ValueError.
(** [A @ x] *)
Definition matvec (A : mat) (x : vec) : res vec :=
  if ncols A =? length x then Ok (map (λ row, dot row x) (rows A)) else Raise ValueError.
(** [A.T] *)
Definition transpose (A : mat) : mat :=
  {| ncols := nrows A;
     rows := map (λ j, map (λ row, nth j row zero) (rows A)) (seq 0 (ncols A)) |}.
(** [A @ B] *)
Definition matmul (A B : mat) : res mat :=
  if ncols A =? nrows B
  then Ok {| ncols := ncols B; rows := map (λ row, map (dot row) (rows (transpose B))) (rows A) |}
  else Raise ValueError.
(** [np.diag(A)] of a matrix, [np.diag(d)] of a vector. *)
Definition diag_of (A : mat) : vec := map (λ i, at_ A i i) (seq 0 (Nat.min (nrows A) (ncols A))).
Definition diag_mat (d : vec) : mat :=
  {| ncols := length d;
     rows := map (λ i, map (λ j, if i =? j then nth i d zero else zero) (seq 0 (length d)))
                 (seq 0 (length d)) |}.
(** [A[i, j] = v] *)
Definition set_entry (A : mat) (i j : Z) (v : F) : res mat :=
  p ← position (nrows A) i;
  row ← getitem (rows A) p;
  q ← position (ncols A) j;
  Ok {| ncols := ncols A; rows := <[p := <[q := v]> row]> (rows A) |}.
End arrays.
Arguments mat : clear implicits.

(** ** Laws *)
Class NumLaws (F : Type) `{NumOps F} := {
  num_ring : ring_theory zero one add mul sub (sub zero) (=);
  num_neg : ∀ a, neg a = sub zero a;
  dot_spec : ∀ a b, dot a b = foldr add zero (zip_with mul a b);
  sum_spec : ∀ a, sum a = foldr add zero a;
  div_cancel : ∀ a b, b ≠ zero → mul (div a b) b = a;
  is_zero_spec : ∀ a, is_zero a = true ↔ a = zero;
}.

(** The literals of integers. *)
Class LitLaws (F : Type) `{NumOps F} := {
  lit_sub : ∀ a b : Z, lit (a - b) 0 = sub (lit a 0) (lit b 0);
  lit_nonzero : ∀ a : Z, a ≠ 0%Z → lit a 0 ≠ zero;
}.

(** ** The rational numbers *)
Section rationals.
Definition Qc_lit (m : Z) (e : nat) : Qc := Q2Qc (m # (10 ^ Pos.of_nat e)%positive).
Definition Qc_abs (x : Qc) : Qc := if Qclt_le_dec x 0%Qc then Qcopp x else x.
Definition Qc_dot (a b : list Qc) : Qc := foldr Qcplus 0%Qc (zip_with Qcmult a b).
#[export] Instance QOps : NumOps Qc := {|
  zero := 0%Qc; one := 1%Qc; add := Qcplus; sub := Qcminus; mul := Qcmult; div := Qcdiv;
  neg := Qcopp;
  absf := Qc_abs; ltb := λ a b, if Qclt_le_dec a b then true else false;
  leb := λ a b, if Qclt_le_dec b a then false else true;
  maximum := λ a b, if Qclt_le_dec a b then b else a;
  lit := λ m e, if e =? 0 then Q2Qc (m # 1) else Qc_lit m e;
  is_zero := λ a, if Qc_eq_dec a 0%Qc then true else false;
  dot := Qc_dot; sum := foldr Qcplus 0%Qc; printed := id |}.

#[export] Instance QLaws : NumLaws Qc.
Proof.
  split.
  - split; intros; cbn; unfold Qcminus; ring.
  - intros a. cbn. unfold Qcminus. ring.
  - done.
  - done.
  - intros a b Hb. cbn in *. unfold Qcdiv. rewrite <- Qcmult_assoc, Qcmult_inv_l by done. apply Qcmult_1_r.
  - intros a. cbn. by destruct (Qc_eq_dec a 0%Qc).
Qed.
#[export] Instance QLit : LitLaws Qc.
Proof.
  split; cbn [lit QOps Nat.eqb sub zero].
  - intros a b. apply Qc_is_canon. unfold Qcminus, Qcplus, Qcopp. cbn [this Q2Qc]. rewrite !Qred_correct.
    unfold Qeq, Qplus, Qopp. cbn [Qnum Qden]. lia.
  - intros a Ha E. apply Ha. apply (f_equal this) in E. cbn in E.
    pose proof (Qred_correct (a # 1)) as Hq. rewrite E in Hq. change (Qred 0) with (0 # 1)%Q in Hq.
    unfold Qeq in Hq. cbn [Qnum Qden] in Hq. lia.
Qed.
End rationals.

(** ** IEEE doubles *)
Definition fone : float := float_of_dec false 1 0.
#[export] Instance FOps : NumOps float := {|
  zero := fzero; one := fone; add := fadd; sub := fsub; mul := fmul; div := fdiv;
  neg := fopp; absf := fabs; ltb := fltb; leb := fleb;
  maximum := λ a b, if is_nan a then a else if is_nan b then b else fmax a b;
  lit := λ m e, float_of_dec (m <? 0)%Z (Z.abs_N m) (- Z.of_nat e);
  is_zero := λ a, fleb a fzero && fleb fzero a;
  dot := λ a b, fold_left fadd (zip_with fmul a b) fzero;
  sum := λ a, fold_left fadd a fzero; printed := id |}.
