(* ===== verification/Amg.v ===== *)
(** * demo/amgpcg/make_steps.py

    The multigrid replay: reading the dumped system, pairwise aggregation, the
    Galerkin operators and the levels, the recorder, the smoothers, the V-cycles of
    brae and AMGX, OpenFOAM's GAMG cycle, the three outer solvers and the tables that
    are written.  The arithmetic is that of NumPy.v.

    A table is the list of the rows [csv.DictReader] gives; the text of a number is
    read by [to_float].  The wording of a frame's [detail] and the formatting of the
    numbers are not modelled; [np.linalg.solve] and the dumped files are
    parameters. *)
From stdpp Require Import gmap.
From S2P Require Export PyStr NumPy.

Module Amg.
Section amg.
Context {F : Type} `{NumOps F}.
Abbreviation vec := (list F).
Abbreviation mat := (NumPy.mat F).

(** ** Constants *)
Definition OMEGA_BRAE : F := lit 8 1.
Definition NPRE_BRAE : nat := 1.
Definition NPOST_BRAE : nat := 1.
Definition OMEGA_AMGX : F := lit 75 2.
Definition NPRE_AMGX : nat := 2.
Definition NPOST_AMGX : nat := 2.
Definition NPRE_OF : nat := 0.
Definition NPOST_OF : nat := 2.
Definition NFINEST_OF : nat := 2.

(** ** Reading the dumped system *)
Abbreviation row := (gmap str str).
Definition field (r : row) (k : str) : res str := from_opt KeyError (r !! k).

(** [int(s)]: blanks around, a sign, digits that single underscores may separate. *)
Definition int_of_str (s : str) : res Z :=
  let '(neg, s) := take_sign (strip s) in
  match digits_go 0 0 false s with
  | (v, S _, []) => Ok (if neg then - Z.of_N v else Z.of_N v)%Z
  | _ => Raise ValueError
  end.
Definition int_field (r : row) (k : str) : res Z := s ← field r k; int_of_str s.

Section reading.
Context (to_float : str → res F).
Definition float_field (r : row) (k : str) : res F := s ← field r k; to_float s.

(** The five dictionaries of [read_ldu]. *)
Record ldu := {
  l_diag : gmap Z F; l_upper : gmap Z F; l_lower : gmap Z F;
  l_owner : gmap Z Z; l_neighbour : gmap Z Z;
}.
Definition ldu_step (d : ldu) (r : row) : res ldu :=
  index ← int_field r "index";
  value ← float_field r "value";
  kind ← field r "kind";
  if bool_decide (kind = "diag" :> str) then
    Ok {| l_diag := <[index := value]> (l_diag d); l_upper := l_upper d; l_lower := l_lower d;
          l_owner := l_owner d; l_neighbour := l_neighbour d |}
  else
    o ← int_field r "owner";
    n ← int_field r "neighbour";
    let upper := bool_decide (kind = "upper" :> str) in
    Ok {| l_diag := l_diag d;
          l_upper := if upper then <[index := value]> (l_upper d) else l_upper d;
          l_lower := if upper then l_lower d else <[index := value]> (l_lower d);
          l_owner := <[index := o]> (l_owner d); l_neighbour := <[index := n]> (l_neighbour d) |}.

(** [[d[i] for i in range(n)]] *)
Definition entries {A} (d : gmap Z A) (n : nat) : res (list A) :=
  mapR (λ i, from_opt KeyError (d !! Z.of_nat i)) (seq 0 n).

Record system := {
  diag : vec; upper : vec; lower : vec; owner : list Z; neighbour : list Z;
}.
Definition read_ldu (table : list row) : res system :=
  d ← foldR ldu_step table {| l_diag := ∅; l_upper := ∅; l_lower := ∅; l_owner := ∅; l_neighbour := ∅ |};
  let n := size (l_diag d) in
  let nf := size (l_owner d) in
  dg ← entries (l_diag d) n;
  up ← entries (l_upper d) nf;
  lo ← entries (l_lower d) nf;
  ow ← entries (l_owner d) nf;
  ne ← entries (l_neighbour d) nf;
  Ok {| diag := dg; upper := up; lower := lo; owner := ow; neighbour := ne |}.

Definition dense_step (s : system) (A : mat) (f : nat) : res mat :=
  o ← getitem (owner s) f;
  n ← getitem (neighbour s) f;
  u ← getitem (upper s) f;
  A ← set_entry A o n u;
  l ← getitem (lower s) f;
  set_entry A n o l.
Definition dense (s : system) : res mat :=
  foldR (dense_step s) (seq 0 (length (owner s))) (diag_mat (diag s)).

Definition rhs_step (b : vec) (r : row) : res vec :=
  v ← float_field r "b"; c ← int_field r "cell"; put b c v.
Definition read_rhs (table : list row) (n : nat) : res vec := foldR rhs_step table (zeros n).

(** level -> fine cell -> coarse cell *)
Definition hierarchy_step (maps : gmap Z (gmap Z Z)) (r : row) : res (gmap Z (gmap Z Z)) :=
  fine ← int_field r "fine_cell";
  if (fine <? 0)%Z then Ok maps
  else
    coarse ← int_field r "coarse_cell";
    level ← int_field r "level";
    Ok (<[level := <[fine := coarse]> (default ∅ (maps !! level))]> maps).
Definition by_key {A} (l : list (Z * A)) : list (Z * A) := sort_by (λ a b, (a.1 <=? b.1)%Z) l.
Definition read_hierarchy (table : list row) : res (list (list Z)) :=
  maps ← foldR hierarchy_step table ∅;
  mapR (λ e, entries e.2 (size e.2)) (by_key (map_to_list maps)).

(** cycle -> psi; [None] when the file is not there. *)
Definition reference_step (n : nat) (psi : gmap Z vec) (r : row) : res (gmap Z vec) :=
  v ← float_field r "psi";
  cycle ← int_field r "cycle";
  let old := default (zeros n) (psi !! cycle) in
  cell ← int_field r "cell";
  new ← put old cell v; Ok (<[cycle := new]> psi).
Definition read_reference (table : option (list row)) (n : nat) : res (option (gmap Z vec)) :=
  match table with
  | None => Ok None
  | Some table => Some <$> foldR (reference_step n) table ∅
  end.
End reading.

(** ** pairwise_aggregate *)

(** A graph: the cells of each face and its weight. *)
Record graph := { g_owner : list Z; g_neighbour : list Z; g_weights : vec }.

Definition incident_step (g : graph) (inc : gmap Z (list nat)) (f : nat) : res (gmap Z (list nat)) :=
  o ← getitem (g_owner g) f;
  let inc := <[o := default [] (inc !! o) ++ [f]]> inc in
  n ← getitem (g_neighbour g) f;
  Ok (<[n := default [] (inc !! n) ++ [f]]> inc).
Definition incidence (g : graph) : res (gmap Z (list nat)) :=
  foldR (incident_step g) (seq 0 (length (g_owner g))) ∅.

(** [neighbour[f] if owner[f] == c else owner[f]] *)
Definition other (g : graph) (c : Z) (f : nat) : res Z :=
  o ← getitem (g_owner g) f;
  if (o =? c)%Z then getitem (g_neighbour g) f else Ok o.

(** The face of largest weight among those whose other cell is free ([wanted] on its
    entry): the face with its other cell's entry, and the weight. *)
Definition best_step (g : graph) (cell_map : list Z) (wanted : Z → bool) (c : Z)
    (best : option (nat * Z) * F) (f : nat) : res (option (nat * Z) * F) :=
  o ← other g c f;
  e ← get cell_map o;
  if wanted e then
    w ← getitem (g_weights g) f;
    Ok (if ltb best.2 w then (Some (f, e), w) else best)
  else Ok best.
Definition best_face (g : graph) (cell_map : list Z) (wanted : Z → bool) (c : Z) (faces : list nat) :
    res (option (nat * Z)) :=
  '(b, _) ← foldR (best_step g cell_map wanted c) faces (None, lit (-1) 0); Ok b.

(** The turn of the loop for one cell: the map and the number of aggregates. *)
Definition free (e : Z) : bool := (e <? 0)%Z.
Definition aggregate_step (g : graph) (inc : gmap Z (list nat)) (s : list Z * Z) (c : nat) :
    res (list Z * Z) :=
  let '(cell_map, n_coarse) := s in
  let c := Z.of_nat c in
  e ← get cell_map c;
  if (0 <=? e)%Z then Ok s
  else
    let faces := default [] (inc !! c) in
    best ← best_face g cell_map free c faces;
    match best with
    | Some (f, _) =>
        o ← other g c f;
        cell_map ← put cell_map c n_coarse;
        cell_map ← put cell_map o n_coarse;
        Ok (cell_map, n_coarse + 1)%Z
    | None =>
        attached ← best_face g cell_map (λ e, negb (free e)) c faces;
        match attached with
        | Some (_, k) => cell_map ← put cell_map c k; Ok (cell_map, n_coarse)
        | None => cell_map ← put cell_map c n_coarse; Ok (cell_map, n_coarse + 1)%Z
        end
    end.
Definition pairwise_aggregate (g : graph) (n : nat) : res (list Z * Z) :=
  inc ← incidence g;
  foldR (aggregate_step g inc) (seq 0 n) (repeat (-1)%Z n, 0%Z).

(** ** galerkin, build_levels *)

(** The 0/1 prolongator: [P[np.arange(n), cell_map] = 1.0]. *)
Definition injection_row (n_coarse : Z) (k : Z) : res vec :=
  p ← position (Z.to_nat n_coarse) k;
  Ok (map (λ j, if j =? p then one else zero) (seq 0 (Z.to_nat n_coarse))).
Definition injection (n : nat) (cell_map : list Z) (n_coarse : Z) : res mat :=
  if (n_coarse <? 0)%Z then Raise ValueError
  else if length cell_map =? n then
    r ← mapR (injection_row n_coarse) cell_map; Ok {| ncols := Z.to_nat n_coarse; rows := r |}
  else match cell_map with
       | [k] => row ← injection_row n_coarse k; Ok {| ncols := Z.to_nat n_coarse; rows := repeat row n |}
       | _ => Raise IndexError
       end.
(** [(P.T @ A @ P, P)] *)
Definition galerkin (A : mat) (cell_map : list Z) (n_coarse : Z) : res (mat * mat) :=
  P ← injection (nrows A) cell_map n_coarse;
  PA ← matmul (transpose P) A;
  A_c ← matmul PA P;
  Ok (A_c, P).

(** A level: its operator, and the map and prolongator to the next one. *)
Record level := { l_A : mat; l_next : option (list Z * mat) }.

(** [int(cell_map.max()) + 1] *)
Definition n_coarse_of (cell_map : list Z) : res Z :=
  match cell_map with [] => Raise ValueError | k :: l => Ok (fold_left Z.max l k + 1)%Z end.

(** The coarse faces, their weights added up in the order of the fine ones. *)
Definition pair_step (g : graph) (cell_map : list Z) (pairs : gmap (Z * Z) F) (f : nat) :
    res (gmap (Z * Z) F) :=
  o ← getitem (g_owner g) f;
  co ← get cell_map o;
  n ← getitem (g_neighbour g) f;
  cn ← get cell_map n;
  if (co =? cn)%Z then Ok pairs
  else
    w ← getitem (g_weights g) f;
    let key := (Z.min co cn, Z.max co cn) in
    Ok (<[key := add (default zero (pairs !! key)) w]> pairs).
Definition pairs_of (g : graph) (cell_map : list Z) : res (gmap (Z * Z) F) :=
  foldR (pair_step g cell_map) (seq 0 (length (g_owner g))) ∅.
Definition pair_leb (a b : (Z * Z) * F) : bool :=
  if (a.1.1 =? b.1.1)%Z then (a.1.2 <=? b.1.2)%Z else (a.1.1 <=? b.1.1)%Z.
Definition coarse_graph (pairs : gmap (Z * Z) F) : graph :=
  let ordered := sort_by pair_leb (map_to_list pairs) in
  {| g_owner := map (λ e, e.1.1) ordered; g_neighbour := map (λ e, e.1.2) ordered;
     g_weights := map snd ordered |}.

(** The aggregation of a level, or nothing when it is the last. *)
Definition next_map (g : graph) (A : mat) (maps : option (list (list Z))) (target : nat) (k : nat) :
    res (option (list Z * Z)) :=
  match maps with
  | Some maps =>
      match maps !! k with
      | None => Ok None
      | Some cell_map => n_coarse ← n_coarse_of cell_map; Ok (Some (cell_map, n_coarse))
      end
  | None =>
      if nrows A <=? target then Ok None
      else
        '(cell_map, n_coarse) ← pairwise_aggregate g (nrows A);
        Ok (if (Z.of_nat (nrows A) <=? n_coarse)%Z then None else Some (cell_map, n_coarse))
  end.

(** The loop; its levels are the ones appended from here on. *)
Fixpoint levels_loop (fuel : nat) (g : graph) (A : mat) (maps : option (list (list Z)))
    (target k : nat) : res (list level) :=
  match fuel with
  | 0 => Raise OutOfFuel
  | S fuel =>
      next ← next_map g A maps target k;
      match next with
      | None => Ok [{| l_A := A; l_next := None |}]
      | Some (cell_map, n_coarse) =>
          '(A_c, P) ← galerkin A cell_map n_coarse;
          pairs ← pairs_of g cell_map;
          let here := {| l_A := A; l_next := Some (cell_map, P) |} in
          if bool_decide (pairs = ∅) then Ok [here; {| l_A := A; l_next := None |}]
          else
            rest ← levels_loop fuel (coarse_graph pairs) A_c maps target (S k);
            Ok (here :: rest)
      end
  end.
Definition build_levels (A : mat) (g : graph) (maps : option (list (list Z))) (target : nat) :
    res (list level) :=
  levels_loop (S (match maps with Some maps => length maps | None => nrows A end)) g A maps target 0.

(** ** The recorder *)
Inductive phase :=
  | krylov_start | presmooth | residual | restrict | coarse_solve | prolong | postsmooth
  | krylov_update.
#[export] Instance phase_eq_dec : EqDecision phase.
Proof. solve_decision. Defined.

Record frame := {
  f_step : nat; f_iter : nat; f_phase : phase; f_grid : nat; f_ngrid : nat; f_resnorm : F;
}.
Record cell := { c_step : nat; c_grid : nat; c_cell : nat; c_x : F; c_r : F }.
Record recorder := { steps : list frame; state : list cell; step : nat }.
Definition new_recorder : recorder := {| steps := []; state := []; step := 0 |}.

Definition cell_rows (rec : recorder) (grid : nat) (x r : vec) : res (list cell) :=
  mapR (λ i, v ← getitem x i; w ← getitem r i;
             Ok {| c_step := step rec; c_grid := grid; c_cell := i; c_x := v; c_r := w |})
       (seq 0 (length x)).
Definition emit (rec : recorder) (iter : nat) (ph : phase) (grid : nat) (x r : vec) (resnorm : F) :
    res recorder :=
  rows ← cell_rows rec grid x r;
  Ok {| steps := steps rec ++ [{| f_step := step rec; f_iter := iter; f_phase := ph; f_grid := grid;
                                  f_ngrid := length x; f_resnorm := resnorm |}];
        state := state rec ++ rows; step := S (step rec) |}.

(** ** Smoothers *)
Definition residual_of (A : mat) (b x : vec) : res vec := Ax ← matvec A x; vsub b Ax.

(** [x + omega * (b - A @ x) / np.diag(A)] *)
Definition jacobi_sweep (A : mat) (b x : vec) (omega : F) : res vec :=
  r ← residual_of A b x;
  d ← vdiv (scale omega r) (diag_of A);
  vadd x d.

Definition gs_step (A : mat) (b x : vec) (i : nat) : res vec :=
  bi ← getitem b i;
  row ← getitem (rows A) i;
  s ← vdot row x;
  aii ← getitem row i;
  xi ← getitem x i;
  Ok (<[i := div (add (sub bi s) (mul aii xi)) aii]> x).
Definition gauss_seidel_sweep (A : mat) (b x : vec) (reverse : bool) : res vec :=
  foldR (gs_step A b) ((if reverse then @rev nat else id) (seq 0 (length x))) x.

(** [n] turns of a loop. *)
Fixpoint times {S} (n : nat) (f : S → res S) (s : S) : res S :=
  match n with 0 => Ok s | S n => s ← f s; times n f s end.

(** ** V-cycles *)

(** The sweeps before and after, each recorded. *)
Definition smooth (A : mat) (b : vec) (omega : F) (ph : phase) (grid iter : nat) (resnorm : F)
    (s : vec * recorder) : res (vec * recorder) :=
  x ← jacobi_sweep A b s.1 omega;
  r ← residual_of A b x;
  rec ← emit s.2 iter ph grid x r resnorm;
  Ok (x, rec).

(** The cycle of one solver: its relaxation factor, sweeps and coarsest solve.  The
    levels are those from [grid] on. *)
Section vcycle.
Context (omega : F) (npre npost : nat) (coarse : mat → vec → res vec).

Fixpoint vcycle (levels : list level) (grid : nat) (b_g : vec) (iter : nat) (resnorm : F)
    (rec : recorder) : res (vec * recorder) :=
  match levels with
  | [] => Raise IndexError
  | l :: levels =>
      let A_g := l_A l in
      match l_next l with
      | None =>
          x ← coarse A_g b_g;
          r ← residual_of A_g b_g x;
          rec ← emit rec iter coarse_solve grid x r resnorm;
          Ok (x, rec)
      | Some (_, P) =>
          '(x, rec) ← times npre (smooth A_g b_g omega presmooth grid iter resnorm)
                           (zeros (length b_g), rec);
          r ← residual_of A_g b_g x;
          rec ← emit rec iter residual grid x r resnorm;
          b_c ← matvec (transpose P) r;
          rec ← emit rec iter restrict (S grid) (zeros (length b_c)) b_c resnorm;
          '(x_c, rec) ← vcycle levels (S grid) b_c iter resnorm rec;
          Px ← matvec P x_c;
          x ← vadd x Px;
          r ← residual_of A_g b_g x;
          rec ← emit rec iter prolong grid x r resnorm;
          times npost (smooth A_g b_g omega postsmooth grid iter resnorm) (x, rec)
      end
  end.
End vcycle.

(** The coarsest solve of brae: 200 sweeps. *)
Definition coarse_brae (A : mat) (b : vec) : res vec :=
  times 200 (λ x, jacobi_sweep A b x OMEGA_BRAE) (zeros (length b)).
Definition vcycle_brae := vcycle OMEGA_BRAE NPRE_BRAE NPOST_BRAE coarse_brae.

Section solving.
Context (solve : mat → vec → res vec).  (* np.linalg.solve *)
Definition vcycle_amgx := vcycle OMEGA_AMGX NPRE_AMGX NPOST_AMGX solve.

(** [(sf * field + (source - sf * A field) / diag, sf)] *)
Definition clamp (d : F) : F := if leb zero d then pmax d (lit 1 300) else pmin d (sub zero (lit 1 300)).
Definition scale_correction (A : mat) (field source : vec) : res (vec * F) :=
  Acf ← matvec A field;
  numerator ← vdot field source;
  denominator ← vdot field Acf;
  sf ← pydiv numerator (clamp denominator);
  r ← vsub source (scale sf Acf);
  d ← vdiv r (diag_of A);
  v ← vadd (scale sf field) d;
  Ok (v, sf).

(** ** Outer solvers *)

(** The state of the conjugate gradient loop. *)
Record cg := {
  g_x : vec; g_r : vec; g_p : option vec; g_rho : F; g_history : list F; g_rec : recorder;
}.
(** [np.abs(r).sum() / norm_factor], a NumPy division *)
Definition resnorm_of (r : vec) (norm_factor : F) : F := div (norm1 r) norm_factor.

Definition direction (p : option vec) (z : vec) (rho rho_old : F) : res vec :=
  match p with
  | None => Ok z
  | Some p => beta ← pydiv rho rho_old; vadd z (scale beta p)
  end.

Section pcg.
Context (cycle : list level → nat → vec → nat → F → recorder → res (vec * recorder)).
Context (levels : list level) (A : mat) (norm_factor : F).

Definition cg_step (s : cg) (iteration : nat) : res cg :=
  let resnorm := resnorm_of (g_r s) norm_factor in
  rec ← emit (g_rec s) iteration krylov_start 0 (g_x s) (g_r s) resnorm;
  '(z, rec) ← cycle levels 0 (g_r s) iteration resnorm rec;
  rho ← vdot z (g_r s);
  p ← direction (g_p s) z rho (g_rho s);
  Ap ← matvec A p;
  pAp ← vdot p Ap;
  alpha ← pydiv rho pAp;
  x ← vadd (g_x s) (scale alpha p);
  r ← vsub (g_r s) (scale alpha Ap);
  let resnorm := resnorm_of r norm_factor in
  rec ← emit rec iteration krylov_update 0 x r resnorm;
  Ok {| g_x := x; g_r := r; g_p := Some p; g_rho := rho; g_history := g_history s ++ [resnorm];
        g_rec := rec |}.
End pcg.

Definition cg_start (A : mat) (b : vec) (rec : recorder) : res cg :=
  let x := zeros (length b) in
  r ← residual_of A b x;
  Ok {| g_x := x; g_r := r; g_p := None; g_rho := zero;
        g_history := [resnorm_of r (norm1 b)]; g_rec := rec |}.
Definition run_pcg cycle (levels : list level) (A : mat) (b : vec) (n_iter : nat) (rec : recorder) :
    res cg :=
  s ← cg_start A b rec;
  foldR (cg_step cycle levels A (norm1 b)) (seq 1 n_iter) s.
Definition run_brae := run_pcg vcycle_brae.
Definition run_amgx := run_pcg vcycle_amgx.

(** The state of the GAMG loop. *)
Record gamg := { o_x : vec; o_residual : vec; o_history : list F; o_rec : recorder }.

Definition prolongator (levels : list level) (k : nat) : res mat :=
  l ← getitem levels k; from_opt TypeError (snd <$> l_next l).

(** The residual restricted to the level [k + 1]; [source] holds it for the levels
    1, 2, ... so far. *)
Definition of_down (levels : list level) (iter : nat) (resnorm : F) (s : list vec * vec * recorder)
    (k : nat) : res (list vec * vec * recorder) :=
  let '(source, current, rec) := s in
  P ← prolongator levels k;
  current ← matvec (transpose P) current;
  rec ← emit rec iter restrict (S k) (zeros (length current)) current resnorm;
  Ok (source ++ [current], current, rec).

(** One recorded Gauss-Seidel sweep. *)
Definition gs_smooth (A : mat) (b : vec) (grid iter : nat) (resnorm : F) (s : vec * recorder) :
    res (vec * recorder) :=
  x ← gauss_seidel_sweep A b s.1 false;
  r ← residual_of A b x;
  rec ← emit s.2 iter postsmooth grid x r resnorm;
  Ok (x, rec).

(** From the correction of the level [k + 1] to that of the level [k]. *)
Definition of_up (levels : list level) (source : list vec) (iter : nat) (resnorm : F)
    (s : vec * recorder) (k : nat) : res (vec * recorder) :=
  let '(correction, rec) := s in
  l ← getitem levels k;
  P ← prolongator levels k;
  field ← matvec P correction;
  source_k ← from_opt KeyError (source !! (k - 1));
  '(field, _) ← scale_correction (l_A l) field source_k;
  r ← residual_of (l_A l) source_k field;
  rec ← emit rec iter prolong k field r resnorm;
  times NPOST_OF (gs_smooth (l_A l) source_k k iter resnorm) (field, rec).

(** Where the cycle starts from: the dumped psi of the previous cycle if there is
    one. *)
Definition of_start (A : mat) (b : vec) (anchor : option (gmap Z vec)) (s : gamg) (iteration : nat) :
    res (vec * vec) :=
  match anchor ≫= λ a, a !! (Z.of_nat iteration - 1)%Z with
  | Some x => r ← residual_of A b x; Ok (x, r)
  | None => Ok (o_x s, o_residual s)
  end.

Definition of_step (levels : list level) (A : mat) (b : vec) (anchor : option (gmap Z vec))
    (norm_factor : F) (s : gamg) (iteration : nat) : res gamg :=
  let coarsest := length levels - 1 in
  '(x, resid) ← of_start A b anchor s iteration;
  let resnorm := resnorm_of resid norm_factor in
  rec ← emit (o_rec s) iteration krylov_start 0 x resid resnorm;
  '(source, _, rec) ← foldR (of_down levels iteration resnorm) (seq 0 coarsest) ([], resid, rec);
  l ← getitem levels coarsest;
  b_c ← from_opt KeyError (if coarsest =? 0 then None else source !! (coarsest - 1));
  x_c ← solve (l_A l) b_c;
  r ← residual_of (l_A l) b_c x_c;
  rec ← emit rec iteration coarse_solve coarsest x_c r resnorm;
  '(correction, rec) ← foldR (of_up levels source iteration resnorm) (rev (seq 1 (coarsest - 1))) (x_c, rec);
  P0 ← prolongator levels 0;
  finest ← matvec P0 correction;
  '(finest, _) ← scale_correction A finest resid;
  x ← vadd x finest;
  r ← residual_of A b x;
  rec ← emit rec iteration prolong 0 x r resnorm;
  '(x, rec) ← times NFINEST_OF (gs_smooth A b 0 iteration resnorm) (x, rec);
  resid ← residual_of A b x;
  let resnorm := resnorm_of resid norm_factor in
  rec ← emit rec iteration krylov_update 0 x resid resnorm;
  Ok {| o_x := x; o_residual := resid; o_history := o_history s ++ [resnorm]; o_rec := rec |}.

Definition run_of (levels : list level) (A : mat) (b : vec) (n_iter : nat) (rec : recorder)
    (anchor : option (gmap Z vec)) : res gamg :=
  let x := zeros (length b) in
  residual ← residual_of A b x;
  foldR (of_step levels A b anchor (norm1 b)) (seq 1 n_iter)
    {| o_x := x; o_residual := residual; o_history := [resnorm_of residual (norm1 b)]; o_rec := rec |}.

(** ** main *)

(** The deviation of one iteration from the dumped psi; nothing when the iteration
    recorded no update. *)
Definition deviation (rec : recorder) (reference : gmap Z vec) (n iteration : nat) : res (option F) :=
  match last (List.filter (λ s, (f_iter s =? iteration) && bool_decide (f_phase s = krylov_update))
                          (steps rec)) with
  | None => Ok None
  | Some s =>
      let x_ref := default (zeros n) (reference !! Z.of_nat iteration) in
      let x_mine := map (λ c, printed (c_x c))
                        (List.filter (λ c, c_step c =? f_step s) (state rec)) in
      top ← vmax (map absf x_ref);
      let scale := pmax top (lit 1 30) in
      d ← vsub x_mine x_ref;
      worst ← vmax (map absf d);
      Ok (Some (div worst scale))
  end.
(** [max(reference)], the largest cycle *)
Definition last_cycle (reference : gmap Z vec) : res Z :=
  match map fst (map_to_list reference) with
  | [] => Raise ValueError
  | k :: l => Ok (fold_left Z.max l k)
  end.
(** The largest deviation; [None] is NaN, no iteration having been compared. *)
Definition validate (rec : recorder) (reference : gmap Z vec) (n iters : nat) : res (option F) :=
  last ← last_cycle reference;
  l ← mapR (deviation rec reference n) (seq 1 (Z.to_nat (Z.min (Z.of_nat iters) last)));
  Ok (match omap id l with [] => None | d :: ds => Some (fold_left pmax ds d) end).

(** The nonzeros of a level's operator. *)
Record nonzero := { z_grid : nat; z_row : nat; z_col : nat; z_value : F }.
Definition nonzeros (grid : nat) (A : mat) : list nonzero :=
  flat_map (λ i, flat_map (λ j,
      if is_zero (at_ A i j) then []
      else [{| z_grid := grid; z_row := i; z_col := j; z_value := at_ A i j |}])
    (seq 0 (ncols A))) (seq 0 (nrows A)).

(** Which cell of each grid a finest cell belongs to: (grid, finest cell, cell). *)
Fixpoint aggregates (grid n : nat) (chain : list Z) (levels : list level) :
    res (list (nat * nat * Z)) :=
  match levels with
  | [] => Ok []
  | l :: levels =>
      rows ← mapR (λ c, k ← getitem chain c; Ok (grid, c, k)) (seq 0 n);
      chain ← match l_next l with
              | None => Ok chain
              | Some (cell_map, _) => mapR (get cell_map) chain
              end;
      rest ← aggregates (S grid) n chain levels; Ok (rows ++ rest)
  end.

Definition tables (levels : list level) (n : nat) : res (list nonzero * list (nat * nat * Z)) :=
  a ← aggregates 0 n (map Z.of_nat (seq 0 n)) levels;
  Ok (concat (imap (λ grid l, nonzeros grid (l_A l)) levels), a).

(** What one solver adds to the four files. *)
Record result := {
  r_frames : recorder;
  r_validation : option (option F);
  r_grids : list nonzero;
  r_aggregates : list (nat * nat * Z);
}.
(** The files of the trace directory. *)
Record trace := {
  t_matrix : list row; t_rhs : list row; t_of_hierarchy : list row; t_brae_hierarchy : list row;
  t_of_cycles : option (list row); t_amgx_cycles : option (list row); t_brae_cycles : option (list row);
}.

Definition conclude (n iters : nat) (levels : list level) (reference : option (gmap Z vec))
    (rec : recorder) : res result :=
  v ← match reference with
      | None => Ok None
      | Some reference => Some <$> validate rec reference n iters
      end;
  '(grids, aggs) ← tables levels n;
  Ok {| r_frames := rec; r_validation := v; r_grids := grids; r_aggregates := aggs |}.

(** The three solvers' contributions, in the order of OpenFOAM, AMGX and brae. *)
Definition main (to_float : str → res F) (t : trace) (iters : nat) : res (result * result * result) :=
  s ← read_ldu to_float (t_matrix t);
  A ← dense s;
  let n := nrows A in
  b ← read_rhs to_float (t_rhs t) n;
  let g := {| g_owner := owner s; g_neighbour := neighbour s;
              g_weights := repeat one (length (owner s)) |} in
  of_maps ← read_hierarchy (t_of_hierarchy t);
  brae_maps ← read_hierarchy (t_brae_hierarchy t);
  of_levels ← build_levels A g (Some of_maps) 4;
  amgx_levels ← build_levels A g None 2;
  brae_levels ← build_levels A g (Some brae_maps) 4;
  of_ref ← read_reference to_float (t_of_cycles t) n;
  o ← run_of of_levels A b iters new_recorder of_ref;
  of_result ← conclude n iters of_levels of_ref (o_rec o);
  amgx_ref ← read_reference to_float (t_amgx_cycles t) n;
  a ← run_amgx amgx_levels A b iters new_recorder;
  amgx_result ← conclude n iters amgx_levels amgx_ref (g_rec a);
  brae_ref ← read_reference to_float (t_brae_cycles t) n;
  c ← run_brae brae_levels A b iters new_recorder;
  brae_result ← conclude n iters brae_levels brae_ref (g_rec c);
  Ok (of_result, amgx_result, brae_result).
End solving.
End amg.
#[global] Arguments graph : clear implicits.
#[global] Arguments level : clear implicits.
#[global] Arguments recorder : clear implicits.
#[global] Arguments frame : clear implicits.
#[global] Arguments cg : clear implicits.
#[global] Arguments gamg : clear implicits.
#[global] Arguments result : clear implicits.
End Amg.
