(* ===== verification/AmgAggregate.v ===== *)
(** * demo/amgpcg/make_steps.py: the aggregation

    [pairwise_aggregate] on a valid graph returns a partition of the cells into
    connected aggregates, and a smaller one whenever some face can merge cells. *)
From stdpp Require Import gmap.
From S2P Require Export Amg.

Module Aggregate.
Import Amg.

(** A loop over [seq] whose every turn returns and keeps an indexed invariant. *)
Lemma foldR_seq {S} (P : nat → S → Prop) (f : S → nat → res S) a n s :
  P a s → (∀ c s, a ≤ c < a + n → P c s → ∃ s', f s c = Ok s' ∧ P (Datatypes.S c) s') →
  ∃ s', foldR f (seq a n) s = Ok s' ∧ P (a + n) s'.
Proof.
  revert a s; induction n as [|n IH]; intros a s Hs Hstep.
  - exists s. cbn. by rewrite Nat.add_0_r.
  - destruct (Hstep a s ltac:(lia) Hs) as (s1 & E & H1). cbn [seq foldR]. rewrite E.
    cbn [mbind res_mbind]. destruct (IH (Datatypes.S a) s1 H1) as (s' & E' & H').
    { intros c s2 Hc. apply Hstep. lia. }
    exists s'. split; [done|]. by replace (a + Datatypes.S n) with (Datatypes.S a + n) by lia.
Qed.

(** ** Indices in range *)
Lemma position_in n i : (0 ≤ i < Z.of_nat n)%Z → position n i = Ok (Z.to_nat i).
Proof.
  intros Hi. unfold position. rewrite (proj2 (Z.leb_le 0 i)), (proj2 (Z.ltb_lt i _)) by lia. done.
Qed.
Lemma position_bound n i p : position n i = Ok p → p < n.
Proof.
  unfold position. intros Hp. repeat case_match; simplify_eq;
    rewrite ?andb_true_iff, ?Z.leb_le, ?Z.ltb_lt in *; lia.
Qed.
Lemma get_nat {A} (l : list A) i x : l !! i = Some x → get l (Z.of_nat i) = Ok x.
Proof.
  intros Hi. unfold get. pose proof (lookup_lt_Some _ _ _ Hi).
  rewrite position_in, Nat2Z.id by lia.
  change (getitem l i = Ok x). by apply getitem_Ok.
Qed.
Lemma put_nat {A} (l : list A) i (v : A) : i < length l → put l (Z.of_nat i) v = Ok (<[i := v]> l).
Proof. intros Hi. unfold put. by rewrite position_in, Nat2Z.id by lia. Qed.

Section aggregate.
Context {F : Type} `{NumOps F}.

(** ** Graphs *)

(** The face [f] joins the cells [i] and [j]. *)
Definition joins (g : graph F) (f i j : nat) : Prop :=
  (g_owner g !! f = Some (Z.of_nat i) ∧ g_neighbour g !! f = Some (Z.of_nat j)) ∨
  (g_owner g !! f = Some (Z.of_nat j) ∧ g_neighbour g !! f = Some (Z.of_nat i)).
Definition adjacent (g : graph F) (i j : nat) : Prop := ∃ f, joins g f i j.
(** The face can merge: its weight is above the -1 the search starts from. *)
Definition mergeable (g : graph F) (i j : nat) : Prop :=
  ∃ f w, joins g f i j ∧ g_weights g !! f = Some w ∧ ltb (lit (-1) 0) w = true.

(** Every face joins two different cells below [n] and has a weight. *)
Record valid (g : graph F) (n : nat) : Prop := {
  v_neighbours : length (g_neighbour g) = length (g_owner g);
  v_weights : length (g_weights g) = length (g_owner g);
  v_cells : ∀ f o, g_owner g !! f = Some o →
    ∃ i j, i < n ∧ j < n ∧ i ≠ j ∧ o = Z.of_nat i ∧ g_neighbour g !! f = Some (Z.of_nat j);
}.

Section valid.
Context (g : graph F) (n : nat) (Hg : valid g n).

Lemma valid_face f : f < length (g_owner g) → ∃ i j w, i < n ∧ j < n ∧ i ≠ j ∧
  g_owner g !! f = Some (Z.of_nat i) ∧ g_neighbour g !! f = Some (Z.of_nat j) ∧ g_weights g !! f = Some w.
Proof.
  intros Hf. apply lookup_lt_is_Some in Hf as [o Ho].
  destruct (v_cells _ _ Hg f o Ho) as (i & j & Hi & Hj & Hne & -> & Hn).
  assert (f < length (g_weights g)) as [w Hw]%lookup_lt_is_Some
    by (rewrite (v_weights _ _ Hg); by eapply lookup_lt_Some).
  by exists i, j, w.
Qed.

Lemma joins_sym f i j : joins g f i j → joins g f j i.
Proof. intros [?|?]; [by right | by left]. Qed.

Lemma joins_face f i j :
  joins g f i j → i < n ∧ j < n ∧ i ≠ j ∧ f < length (g_owner g) ∧ other g (Z.of_nat i) f = Ok (Z.of_nat j).
Proof.
  assert (∀ o, g_owner g !! f = Some o → f < length (g_owner g)) as Hlt
    by (intros o; apply lookup_lt_Some).
  intros [[Ho Hn]|[Ho Hn]]; destruct (v_cells _ _ Hg f _ Ho) as (a & b & ? & ? & ? & ? & Hb);
    rewrite Hn in Hb; injection Hb as ?; assert (a = i ∧ b = j ∨ a = j ∧ b = i) by lia;
    (split; [lia|]; split; [lia|]; split; [lia|]; split; [by eapply Hlt|]); unfold other, getitem; rewrite Ho; cbn.
  - rewrite Z.eqb_refl. by rewrite Hn.
  - destruct (Z.eqb_spec (Z.of_nat j) (Z.of_nat i)); [lia|done].
Qed.

(** The faces listed for a cell are those that join it to another. *)
Lemma incidence_spec :
  ∃ inc, incidence g = Ok inc ∧
    ∀ i f, f ∈ default [] (inc !! Z.of_nat i) ↔ ∃ j, joins g f i j.
Proof.
  assert (∃ inc, incidence g = Ok inc ∧ ∀ i f, f ∈ default [] (inc !! Z.of_nat i) ↔
    f < length (g_owner g) ∧ ∃ j, joins g f i j) as (inc & E & Hinc).
  { unfold incidence. apply (foldR_seq (λ k inc, ∀ i f, f ∈ default [] (inc !! Z.of_nat i) ↔
      f < k ∧ ∃ j, joins g f i j) _ 0).
    - intros i f. rewrite lookup_empty. cbn. split; [by intros ?%not_elem_of_nil | lia].
    - intros k inc Hk Hinc. destruct (valid_face k ltac:(lia)) as (a & b & w & Ha & Hb & Hne & Ho & Hn & _).
      unfold incident_step, getitem. rewrite Ho. cbn [from_opt mbind res_mbind].
      rewrite Hn. cbn [from_opt mbind res_mbind]. eexists; split; [done|].
      assert (∀ i, (∃ j, joins g k i j) ↔ i = a ∨ i = b) as Hj.
      { intros i. unfold joins. rewrite Ho, Hn. split.
        - intros (j & [[[= ?] _]|[_ [= ?]]]); lia.
        - intros [->| ->]; [exists b; by left | exists a; by right]. }
      intros i f. rewrite (lookup_insert_ne _ (Z.of_nat a) (Z.of_nat b)) by lia.
      assert ((f < Datatypes.S k ∧ ∃ j, joins g f i j) ↔
        (f < k ∧ ∃ j, joins g f i j) ∨ (f = k ∧ (i = a ∨ i = b))) as ->.
      { rewrite <- (Hj i). split.
        - intros [Hf HJ]. destruct (decide (f = k)) as [->|]; [by right | left; split; [lia|done]].
        - intros [[? ?]|[-> ?]]; (split; [lia|done]). }
      destruct (decide (i = b)) as [->|Hib].
      + rewrite lookup_insert_eq. cbn. rewrite elem_of_app, Hinc, list_elem_of_singleton. naive_solver.
      + rewrite lookup_insert_ne by lia. destruct (decide (i = a)) as [->|Hia].
        * rewrite lookup_insert_eq. cbn. rewrite elem_of_app, Hinc, list_elem_of_singleton. naive_solver.
        * rewrite lookup_insert_ne by lia. rewrite Hinc. naive_solver. }
  exists inc. split; [done|]. intros i f. rewrite Hinc. split; [by intros [_ ?]|].
  intros [j Hj]. split; [by apply joins_face in Hj as (_ & _ & _ & ? & _) | eauto].
Qed.

(** ** The best face *)
Lemma best_face_spec m wanted i faces :
  length m = n → i < n → (∀ f, f ∈ faces → ∃ j, joins g f i j) →
  ∃ b, best_face g m wanted (Z.of_nat i) faces = Ok b ∧
    match b with
    | Some (f, e) => ∃ j, joins g f i j ∧ m !! j = Some e ∧ wanted e = true
    | None => ∀ f j e w, f ∈ faces → joins g f i j → m !! j = Some e → wanted e = true →
                g_weights g !! f = Some w → ltb (lit (-1) 0) w = false
    end.
Proof.
  intros Hm Hi Hfaces. unfold best_face.
  assert (∀ best : option (nat * Z) * F,
    (match best.1 with Some (f, e) => ∃ j, joins g f i j ∧ m !! j = Some e ∧ wanted e = true | None => True end) →
    ∃ b w, foldR (best_step g m wanted (Z.of_nat i)) faces best = Ok (b, w) ∧
    match b with
    | Some (f, e) => ∃ j, joins g f i j ∧ m !! j = Some e ∧ wanted e = true
    | None => best = (None, w) ∧ ∀ f j e v, f ∈ faces → joins g f i j → m !! j = Some e → wanted e = true →
                g_weights g !! f = Some v → ltb w v = false
    end) as HF.
  { induction faces as [|f faces IH]; intros best Hb.
    { exists best.1, best.2. cbn. split; [by destruct best|]. destruct best as [[[f e]|] w]; [done|].
      split; [done|]. by intros ? ? ? ? ?%not_elem_of_nil. }
    destruct (Hfaces f ltac:(left)) as [j Hj].
    destruct (joins_face f i j Hj) as (_ & Hjn & _ & Hf & Eo).
    destruct (lookup_lt_is_Some_2 m j ltac:(lia)) as [e He].
    assert (∃ b', best_step g m wanted (Z.of_nat i) best f = Ok b' ∧
      (match b'.1 with Some (f, e) => ∃ j, joins g f i j ∧ m !! j = Some e ∧ wanted e = true | None => True end) ∧
      (b'.1 = None → b' = best ∧ ∀ v, wanted e = true → g_weights g !! f = Some v → ltb best.2 v = false))
      as (b' & Eb & Hb1 & Hb2).
    { unfold best_step. rewrite Eo. cbn [mbind res_mbind]. rewrite (get_nat _ _ _ He).
      cbn [mbind res_mbind]. destruct (wanted e) eqn:Ew; [|exists best; split; [done|]; split; [done|];
        intros _; split; [done|]; by intros v [=]].
      destruct (valid_face f Hf) as (a & b & w & _ & _ & _ & _ & _ & Hw).
      unfold getitem. rewrite Hw. cbn [from_opt mbind res_mbind]. eexists; split; [done|].
      destruct (ltb best.2 w) eqn:El; cbn.
      - split; [|done]. by exists j.
      - split; [done|]. intros _. split; [done|]. intros v _ [= <-]. done. }
    cbn [foldR]. rewrite Eb. cbn [mbind res_mbind].
    destruct (IH ltac:(intros; apply Hfaces; by right) b' Hb1) as (b & w & E & Hbw).
    exists b, w. split; [done|]. destruct b as [[f' e']|]; [done|].
    destruct Hbw as [-> Hbw]. destruct (Hb2 eq_refl) as [<- Hf']. split; [done|].
    intros f2 j2 e2 v [->|Hin]%elem_of_cons Hj2 He2 Hw2 Hv; [|by eapply Hbw].
    destruct (joins_face f i j2 Hj2) as (_ & _ & _ & _ & Eo2).
    rewrite Eo in Eo2. injection Eo2 as ?%Nat2Z.inj. subst j2.
    rewrite He in He2. injection He2 as <-. by apply Hf'. }
  destruct (HF (None, lit (-1) 0) I) as (b & w & E & Hb). rewrite E. cbn [mbind res_mbind].
  exists b. split; [done|]. destruct b as [[f e]|]; [done|]. destruct Hb as [[= <-] Hb]. exact Hb.
Qed.

(** ** The invariant of the loop *)

(** The cells mapped so far. *)
Definition mapped (m : list Z) : Z := Z.of_nat (length (List.filter (λ e, negb (free e)) m)).

Lemma mapped_insert m i v :
  m !! i = Some (-1)%Z → (0 ≤ v)%Z → mapped (<[i := v]> m) = (mapped m + 1)%Z.
Proof.
  unfold mapped. revert i; induction m as [|e m IH]; intros [|i]; [done..| |].
  - intros [= ->] Hv. change (<[0 := v]> (_ :: m)) with (v :: m). cbn [List.filter].
    assert (free v = false) as -> by (apply Z.ltb_ge; lia). change (free (-1)) with true. cbn [negb length]. lia.
  - intros Hi Hv. change (<[S i := v]> (e :: m)) with (e :: <[i := v]> m). cbn [List.filter].
    specialize (IH i Hi Hv). destruct (negb (free e)); cbn [length]; lia.
Qed.
Lemma mapped_full m : (∀ i e, m !! i = Some e → (0 ≤ e)%Z) → mapped m = Z.of_nat (length m).
Proof.
  intros Hm. unfold mapped. f_equal. f_equal. induction m as [|e m IH]; [done|].
  cbn [List.filter]. unfold free at 1. rewrite (proj2 (Z.ltb_ge e 0) (Hm 0 e eq_refl)). cbn [negb].
  f_equal. apply IH. intros i. apply (Hm (S i)).
Qed.

(** Before the cell [c] is treated: entries are -1 or aggregates below [nc], each
    aggregate has a cell, cells of one aggregate are connected, the cells before [c]
    are mapped; there are at most as many aggregates as mapped cells, and fewer once a
    cell from [c] on is mapped or a cell before [c] had a face to merge across. *)
Record inv (c : nat) (m : list Z) (nc : Z) : Prop := {
  i_len : length m = n;
  i_rng : ∀ i e, m !! i = Some e → e = (-1)%Z ∨ (0 ≤ e < nc)%Z;
  i_nc : (0 ≤ nc)%Z;
  i_hit : ∀ k, (0 ≤ k < nc)%Z → ∃ i, m !! i = Some k;
  i_conn : ∀ i j k, m !! i = Some k → m !! j = Some k → (0 ≤ k)%Z → rtc (adjacent g) i j;
  i_done : ∀ i, i < c → m !! i ≠ Some (-1)%Z;
  i_le : (nc ≤ mapped m)%Z;
  i_late : ∀ i k, c ≤ i → m !! i = Some k → (0 ≤ k)%Z → (nc < mapped m)%Z;
  i_edge : ∀ i j, i < c → mergeable g i j → (nc < mapped m)%Z;
}.

Lemma inv_start : inv 0 (repeat (-1)%Z n) 0.
Proof.
  assert (∀ i e, repeat (-1)%Z n !! i = Some e → e = (-1)%Z) as Hr.
  { intros i e He%list_elem_of_lookup_2. apply list_elem_of_In in He. by apply repeat_spec in He. }
  split.
  - apply repeat_length.
  - intros i e He. left. by eapply Hr.
  - lia.
  - lia.
  - intros i j k Hi%Hr _. lia.
  - lia.
  - unfold mapped. lia.
  - intros i k _ Hk%Hr. lia.
  - lia.
Qed.

Lemma adjacent_sym i j : adjacent g i j → adjacent g j i.
Proof. intros [f Hf]. exists f. by apply joins_sym. Qed.
Lemma connected_sym i j : rtc (adjacent g) i j → rtc (adjacent g) j i.
Proof.
  induction 1 as [|i k j Hik _ IH]; [done|]. eapply rtc_r; [exact IH|]. by apply adjacent_sym.
Qed.

(** The step when the cell is already mapped. *)
Lemma inv_skip c m nc e :
  inv c m nc → m !! c = Some e → (0 ≤ e)%Z → inv (S c) m nc.
Proof.
  intros [Hlen Hrng Hnc Hhit Hconn Hdone Hle Hlate Hedge] He He0.
  assert (nc < mapped m)%Z as Hlt by (eapply Hlate; [|done|done]; lia).
  split; try done.
  intros i Hi. destruct (decide (i = c)) as [->|]; [rewrite He; intros [= ->]; lia | apply Hdone; lia].
Qed.

(** The step that maps [c] to an aggregate: a new one, or that of a neighbour. *)
Lemma inv_join c m nc k j e :
  inv c m nc → m !! c = Some (-1)%Z → (0 ≤ k)%Z →
  adjacent g c j → m !! j = Some e → e = k → inv (S c) (<[c := k]> m) nc.
Proof.
  intros [Hlen Hrng Hnc Hhit Hconn Hdone Hle Hlate Hedge] Hc Hk Hadj Hj ->.
  pose proof (lookup_lt_Some _ _ _ Hc) as Hcl.
  assert (j ≠ c) as Hjc by (intros ->; rewrite Hc in Hj; injection Hj as ?; lia).
  assert (0 ≤ k < nc)%Z as Hkn by (destruct (Hrng _ _ Hj); lia).
  assert (∀ i e, <[c := k]> m !! i = Some e → (i = c ∧ e = k) ∨ (i ≠ c ∧ m !! i = Some e)) as Hlook.
  { intros i e [(-> & -> & _)|[Hne Hi]]%list_lookup_insert_Some; [by left | by right]. }
  pose proof (mapped_insert m c k Hc Hk) as Hmap.
  split; rewrite ?length_insert, ?Hmap; try lia; try done.
  - intros i e [[-> ->]|[_ Hi]]%Hlook; [by right | by eapply Hrng].
  - intros k' Hk'. destruct (Hhit k' Hk') as [i Hi]. destruct (decide (i = c)) as [->|].
    + rewrite Hc in Hi. injection Hi as <-. lia.
    + exists i. by rewrite list_lookup_insert_ne.
  - assert (∀ i, m !! i = Some k → rtc (adjacent g) c i) as Hci.
    { intros i Hi. eapply rtc_l; [exact Hadj | by apply (Hconn j i k)]. }
    intros a b k' [[-> ->]|[Ha' Ha]]%Hlook [[-> E]|[Hb' Hb]]%Hlook Hk'; subst; try done.
    + by apply Hci.
    + apply connected_sym. by apply Hci.
    + by eapply Hconn.
  - intros i Hi [[-> ?]|[Hne Hi']]%Hlook; [lia|]. eapply Hdone; [|exact Hi']. lia.
Qed.

Lemma inv_alone c m nc :
  inv c m nc → m !! c = Some (-1)%Z → (∀ j, ¬ mergeable g c j) → inv (S c) (<[c := nc]> m) (nc + 1).
Proof.
  intros [Hlen Hrng Hnc Hhit Hconn Hdone Hle Hlate Hedge] Hc Hno.
  pose proof (lookup_lt_Some _ _ _ Hc) as Hcl.
  assert (∀ i e, <[c := nc]> m !! i = Some e → (i = c ∧ e = nc) ∨ (i ≠ c ∧ m !! i = Some e)) as Hlook.
  { intros i e [(-> & -> & _)|[Hne Hi]]%list_lookup_insert_Some; [by left | by right]. }
  assert (∀ i, m !! i ≠ Some nc) as Hfresh by (intros i Hi; destruct (Hrng _ _ Hi); lia).
  pose proof (mapped_insert m c nc Hc Hnc) as Hmap.
  split; rewrite ?length_insert, ?Hmap; try lia; try done.
  - intros i e [[-> ->]|[_ Hi]]%Hlook; [right; lia|]. destruct (Hrng _ _ Hi); [by left | right; lia].
  - intros k Hk. destruct (decide (k = nc)) as [->|].
    + exists c. by rewrite list_lookup_insert_eq.
    + destruct (Hhit k ltac:(lia)) as [i Hi]. exists i. rewrite list_lookup_insert_ne; [done|].
      intros <-. rewrite Hc in Hi. injection Hi as <-. lia.
  - intros a b k [[-> ->]|[Ha' Ha]]%Hlook [[-> E]|[Hb' Hb]]%Hlook Hk; subst; try done.
    + by destruct (Hfresh b).
    + by destruct (Hfresh a).
    + by eapply Hconn.
  - intros i Hi [[-> ?]|[Hne Hi']]%Hlook; [lia|]. eapply Hdone; [|exact Hi']. lia.
  - intros i k Hi [[-> ->]|[_ Hi']]%Hlook Hk; [lia|]. specialize (Hlate i k ltac:(lia) Hi' Hk). lia.
  - intros i j Hi Hm. destruct (decide (i = c)) as [->|]; [by destruct (Hno j)|].
    specialize (Hedge i j ltac:(lia) Hm). lia.
Qed.

Lemma inv_pair c m nc j :
  inv c m nc → m !! c = Some (-1)%Z → m !! j = Some (-1)%Z → adjacent g c j → j ≠ c →
  inv (S c) (<[j := nc]> (<[c := nc]> m)) (nc + 1).
Proof.
  intros [Hlen Hrng Hnc Hhit Hconn Hdone Hle Hlate Hedge] Hc Hj Hadj Hjc.
  pose proof (lookup_lt_Some _ _ _ Hc) as Hcl. pose proof (lookup_lt_Some _ _ _ Hj) as Hjl.
  set (m' := <[j := nc]> (<[c := nc]> m)).
  assert (∀ i e, m' !! i = Some e → ((i = c ∨ i = j) ∧ e = nc) ∨ (i ≠ c ∧ i ≠ j ∧ m !! i = Some e)) as Hlook.
  { intros i e [(-> & -> & _)|[Hne Hi]]%list_lookup_insert_Some; [auto|].
    apply list_lookup_insert_Some in Hi as [(-> & -> & _)|[Hne' Hi]]; auto. }
  assert (∀ i, m !! i ≠ Some nc) as Hfresh by (intros i Hi; destruct (Hrng _ _ Hi); lia).
  assert (mapped m' = mapped m + 2)%Z as Hmap.
  { unfold m'. rewrite !mapped_insert; [lia|done|lia| |lia]. by rewrite list_lookup_insert_ne. }
  split; rewrite ?Hmap; unfold m'; rewrite ?length_insert; fold m'; try lia; try done.
  - intros i e [[_ ->]|(_ & _ & Hi)]%Hlook; [right; lia|]. destruct (Hrng _ _ Hi); [by left | right; lia].
  - intros k Hk. destruct (decide (k = nc)) as [->|].
    + exists j. unfold m'. apply list_lookup_insert_eq. by rewrite length_insert.
    + destruct (Hhit k ltac:(lia)) as [i Hi]. exists i. unfold m'.
      rewrite !list_lookup_insert_ne; [done|..]; intros <-; rewrite Hi in *; simplify_eq; lia.
  - assert (∀ a b, (a = c ∨ a = j) → (b = c ∨ b = j) → rtc (adjacent g) a b) as Hab.
    { intros a b [->| ->] [->| ->]; [done|by apply rtc_once|apply rtc_once, adjacent_sym, Hadj|done]. }
    intros a b k [[Ha ->]|(? & ? & Ha)]%Hlook [[Hb E]|(? & ? & Hb)]%Hlook Hk; subst.
    + by apply Hab.
    + by destruct (Hfresh b).
    + by destruct (Hfresh a).
    + by eapply Hconn.
  - intros i Hi [[_ ?]|(Hic & _ & Hi')]%Hlook; [lia|]. eapply Hdone; [|exact Hi']. lia.
Qed.

(** ** The loop *)
Lemma aggregate_step_inv inc c m nc :
  (∀ i f, f ∈ default [] (inc !! Z.of_nat i) ↔ ∃ j, joins g f i j) → c < n → inv c m nc →
  ∃ s', aggregate_step g inc (m, nc) c = Ok s' ∧ inv (S c) s'.1 s'.2.
Proof.
  intros Hinc Hc Hi. pose proof (i_len _ _ _ Hi) as Hlen.
  destruct (lookup_lt_is_Some_2 m c ltac:(lia)) as [e He].
  unfold aggregate_step. rewrite (get_nat _ _ _ He). cbn [mbind res_mbind].
  destruct (Z.leb_spec 0 e) as [He0|He0].
  { exists (m, nc). split; [done|]. by eapply inv_skip. }
  assert (e = (-1)%Z) as -> by (destruct (i_rng _ _ _ Hi _ _ He); lia).
  assert (∀ f, f ∈ default [] (inc !! Z.of_nat c) → ∃ j, joins g f c j) as Hfaces by (intros f; apply Hinc).
  destruct (best_face_spec m free c _ Hlen Hc Hfaces) as (b & Eb & Hb). rewrite Eb. cbn [mbind res_mbind].
  destruct b as [[f e]|].
  { destruct Hb as (j & Hj & He' & Hfree). unfold free in Hfree. apply Z.ltb_lt in Hfree.
    assert (e = (-1)%Z) as -> by (destruct (i_rng _ _ _ Hi _ _ He'); lia).
    destruct (joins_face f c j Hj) as (_ & Hjn & Hne & _ & Eo). rewrite Eo. cbn [mbind res_mbind].
    rewrite put_nat by lia. cbn [mbind res_mbind]. rewrite put_nat by (rewrite length_insert; lia).
    cbn [mbind res_mbind]. eexists; split; [done|]. cbn [fst snd].
    apply inv_pair; [done..| by exists f | lia]. }
  destruct (best_face_spec m (λ e, negb (free e)) c _ Hlen Hc Hfaces) as (a & Ea & Ha). rewrite Ea.
  cbn [mbind res_mbind]. destruct a as [[f k]|].
  { destruct Ha as (j & Hj & He' & Hfree). unfold free in Hfree.
    apply negb_true_iff, Z.ltb_ge in Hfree. rewrite put_nat by lia. cbn [mbind res_mbind].
    eexists; split; [done|]. cbn [fst snd]. eapply inv_join; [done|done|done| |exact He'|done]. by exists f. }
  rewrite put_nat by lia. cbn [mbind res_mbind]. eexists; split; [done|]. cbn [fst snd].
  apply inv_alone; [done|done|]. intros j (f & w & Hj & Hw & Hlt).
  destruct (joins_face f c j Hj) as (_ & Hjn & _ & _ & _).
  assert (f ∈ default [] (inc !! Z.of_nat c)) as Hin by (apply Hinc; by exists j).
  destruct (lookup_lt_is_Some_2 m j ltac:(lia)) as [e' He'].
  destruct (free e') eqn:Ef.
  - rewrite (Hb f j e' w Hin Hj He' Ef Hw) in Hlt. done.
  - assert (negb (free e') = true) as Ef' by (by rewrite Ef).
    rewrite (Ha f j e' w Hin Hj He' Ef' Hw) in Hlt. done.
Qed.

Lemma pairwise_inv : ∃ m nc, pairwise_aggregate g n = Ok (m, nc) ∧ inv n m nc.
Proof.
  unfold pairwise_aggregate. destruct incidence_spec as (inc & -> & Hinc). cbn [mbind res_mbind].
  destruct (foldR_seq (λ c s, inv c s.1 s.2) (aggregate_step g inc) 0 n (repeat (-1)%Z n, 0%Z))
    as ([m nc] & E & Hi); [apply inv_start| |by exists m, nc].
  intros c [m nc] Hc Hi. apply aggregate_step_inv; [done|lia|done].
Qed.
End valid.

(** C22: pairwise aggregation returns a partition.  On a graph whose faces join two
    different cells below [n], it gives each of the [n] cells an aggregate below the
    number it returns, no aggregate is empty, two cells of one aggregate are connected
    by faces, and when some face can merge cells (its weight is above the -1 the
    search starts from) there are fewer aggregates than cells. *)
Theorem pairwise_partition (g : graph F) (n : nat) :
  valid g n →
  ∃ m nc, pairwise_aggregate g n = Ok (m, nc) ∧ length m = n ∧ (0 ≤ nc ≤ Z.of_nat n)%Z ∧
    (∀ i e, m !! i = Some e → (0 ≤ e < nc)%Z) ∧
    (∀ k, (0 ≤ k < nc)%Z → ∃ i, m !! i = Some k) ∧
    (∀ i j k, m !! i = Some k → m !! j = Some k → rtc (adjacent g) i j) ∧
    ((∃ i j, mergeable g i j) → (nc < Z.of_nat n)%Z).
Proof.
  intros Hg. destruct (pairwise_inv g n Hg) as (m & nc & E & [Hlen Hrng Hnc Hhit Hconn Hdone Hle _ Hedge]).
  assert (∀ i e, m !! i = Some e → (0 ≤ e < nc)%Z) as Hall.
  { intros i e Hi. destruct (Hrng i e Hi) as [->|]; [|done]. exfalso. eapply Hdone; [|exact Hi].
    rewrite <- Hlen. by eapply lookup_lt_Some. }
  assert (mapped m = Z.of_nat n) as Hm by (rewrite <- Hlen; apply mapped_full; intros i e He; by apply (Hall i)).
  exists m, nc. split; [done|]. split; [done|]. split; [lia|]. split; [done|]. split; [done|]. split.
  - intros i j k Hi Hj. by apply (Hconn i j k Hi Hj), (Hall i).
  - intros (i & j & Hm'). destruct Hm' as (f & w & Hf & Hw & Hlt).
    destruct (joins_face g n Hg f i j Hf) as (Hin & _). rewrite <- Hm. apply (Hedge i j); [done|]. by exists f, w.
Qed.
End aggregate.
End Aggregate.
