(* ===== verification/AmgLevels.v ===== *)
(** * demo/amgpcg/make_steps.py: the levels

    [build_levels] ends on every input; on a valid graph it returns a hierarchy whose
    shapes agree, or one cut short; brae's V-cycle returns on the first and raises on
    the second. *)
From stdpp Require Import gmap.
From S2P Require Export AmgAggregate.

Module Levels.
Import Amg Aggregate.

Section levels.
Context {F : Type} `{NumOps F}.
Abbreviation vec := (list F).
Abbreviation mat := (NumPy.mat F).

(** ** The bound of the loop *)
Lemma within_position n i : within (position n i).
Proof. unfold position. by repeat within_step. Qed.
Lemma within_getitem {A} (l : list A) i : within (getitem l i).
Proof. by apply within_from_opt. Qed.
Lemma within_get {A} (l : list A) i : within (get l i).
Proof. unfold get. apply within_bind; [apply within_position | intros; apply within_getitem]. Qed.
Lemma within_put {A} (l : list A) i v : within (put l i v).
Proof. unfold put. apply within_bind; [apply within_position | done]. Qed.
#[local] Hint Resolve within_position within_get within_put : within.

Lemma within_other (g : graph F) c f : within (other g c f).
Proof. unfold other. within. Qed.
#[local] Hint Resolve within_other : within.
Lemma within_best_face (g : graph F) m wanted c faces : within (best_face g m wanted c faces).
Proof.
  unfold best_face. apply within_bind; [|by intros [? ?]]. apply within_foldR. intros f best _.
  unfold best_step. within.
Qed.
#[local] Hint Resolve within_best_face : within.
Lemma within_pairwise (g : graph F) n : within (pairwise_aggregate g n).
Proof.
  unfold pairwise_aggregate, incidence. apply within_bind; [|intros inc _]; apply within_foldR.
  - intros f inc _. unfold incident_step. within.
  - intros c [m nc] _. unfold aggregate_step. within.
Qed.
Lemma within_injection n m nc : within (injection (F := F) n m nc).
Proof.
  assert (∀ k, within (injection_row (F := F) nc k)) as Hrow by (intros k; unfold injection_row; within).
  unfold injection. destruct (nc <? 0)%Z; [done|]. destruct (length m =? n).
  - apply within_bind; [|done]. by apply within_mapR.
  - destruct m as [|k [|k2 m]]; [done| |done]. apply within_bind; [apply Hrow | done].
Qed.
Lemma within_galerkin (A : mat) m nc : within (galerkin A m nc).
Proof.
  unfold galerkin, matmul. apply within_bind; [apply within_injection|]. intros P _. within.
Qed.
Lemma within_pairs (g : graph F) m : within (pairs_of g m).
Proof. unfold pairs_of. apply within_foldR. intros f pairs _. unfold pair_step. within. Qed.
Lemma within_next (g : graph F) (A : mat) maps target k : within (next_map g A maps target k).
Proof.
  unfold next_map. destruct maps as [maps|].
  - destruct (maps !! k) as [m|]; [|done]. unfold n_coarse_of. by destruct m.
  - destruct (_ <=? _); [done|]. apply within_bind; [apply within_pairwise | by intros [? ?]].
Qed.

Lemma galerkin_nrows (A : mat) m nc A_c P : galerkin A m nc = Ok (A_c, P) → nrows A_c = Z.to_nat nc.
Proof.
  unfold galerkin. intros (P' & HP & H')%bind_Ok. apply bind_Ok in H' as (PA & HPA & H').
  apply bind_Ok in H' as (A' & HA & [= <- <-]).
  assert (ncols P' = Z.to_nat nc) as HPc.
  { unfold injection in HP. destruct (nc <? 0)%Z; [done|]. destruct (length m =? nrows A).
    - by apply bind_Ok in HP as (r & _ & [= <-]).
    - destruct m as [|k [|k2 m]]; [done| |done]. by apply bind_Ok in HP as (r & _ & [= <-]). }
  unfold matmul in *. repeat (case_match; [|done]). simplify_eq. unfold nrows. cbn.
  by rewrite !length_map, length_seq, HPc.
Qed.

(** What is left to do: the cells, or the maps. *)
Definition left_over (A : mat) (maps : option (list (list Z))) (k : nat) : nat :=
  match maps with Some maps => length maps - k | None => nrows A end.

Lemma levels_loop_within fuel (g : graph F) (A : mat) maps target k :
  left_over A maps k < fuel → within (levels_loop fuel g A maps target k).
Proof.
  revert g A k; induction fuel as [|fuel IH]; intros g A k Hf; [lia|]. cbn [levels_loop].
  apply within_bind; [apply within_next|]. intros [[m nc]|] Hn; [|done].
  apply within_bind; [apply within_galerkin|]. intros [A_c P] Hg.
  apply within_bind; [apply within_pairs|]. intros pairs _. case_bool_decide; [done|].
  apply within_bind; [|done]. apply IH. unfold left_over, next_map in *. destruct maps as [maps|].
  - destruct (maps !! k) eqn:E; [|done]. apply lookup_lt_Some in E. lia.
  - destruct (Nat.leb_spec (nrows A) target); [done|]. apply bind_Ok in Hn as ([m' nc'] & _ & [= Hn]).
    destruct (Z.leb_spec (Z.of_nat (nrows A)) nc'); [done|]. injection Hn as -> ->.
    rewrite (galerkin_nrows _ _ _ _ _ Hg). lia.
Qed.

(** building the levels ends on every input, also on a graph, an operator and maps
    that do not fit: the loop stops because the cells get fewer (the check
    [n_coarse >= n]) or the maps run out, and the bound of the model is never hit. *)
Theorem build_levels_ends (A : mat) (g : graph F) maps target :
  build_levels A g maps target ≠ Raise OutOfFuel.
Proof. apply levels_loop_within. unfold left_over. destruct maps; lia. Qed.

(** ** Shapes *)
Definition square (A : mat) (n : nat) : Prop := nrows A = n ∧ ncols A = n.
Definition tall (P : mat) (n nc : nat) : Prop := nrows P = n ∧ ncols P = nc.

(** A hierarchy whose shapes agree, the finest level of [n] cells. *)
Inductive shaped : nat → list (level F) → Prop :=
  | Shaped_last n A : square A n → shaped n [{| l_A := A; l_next := None |}]
  | Shaped_cons n nc A m P ls :
      square A n → length m = n → tall P n nc → nc < n →
      (∀ i e, m !! i = Some e → (0 ≤ e < Z.of_nat nc)%Z) → shaped nc ls →
      shaped n ({| l_A := A; l_next := Some (m, P) |} :: ls).
(** A hierarchy whose last operator is that of the level above. *)
Inductive cut : nat → list (level F) → Prop :=
  | Cut_last n nc A m P :
      square A n → length m = n → tall P n nc → nc < n →
      cut n [{| l_A := A; l_next := Some (m, P) |}; {| l_A := A; l_next := None |}]
  | Cut_cons n nc A m P ls :
      square A n → length m = n → tall P n nc → nc < n → cut nc ls →
      cut n ({| l_A := A; l_next := Some (m, P) |} :: ls).

Lemma matmul_total (A B : mat) :
  ncols A = nrows B → ∃ C, matmul A B = Ok C ∧ nrows C = nrows A ∧ ncols C = ncols B.
Proof.
  intros E. unfold matmul. rewrite E, Nat.eqb_refl. eexists; split; [done|]. cbn.
  unfold nrows. cbn. by rewrite length_map.
Qed.

Lemma galerkin_total (A : mat) m nc n :
  square A n → length m = n → (0 ≤ nc)%Z → (∀ i e, m !! i = Some e → (0 ≤ e < nc)%Z) →
  ∃ A_c P, galerkin A m nc = Ok (A_c, P) ∧ square A_c (Z.to_nat nc) ∧ tall P n (Z.to_nat nc).
Proof.
  intros [Hr Hc] Hm Hnc He. unfold galerkin, injection.
  rewrite (proj2 (Z.ltb_ge nc 0) Hnc), Hm, Hr, Nat.eqb_refl.
  destruct (mapR_total (injection_row (F := F) nc) m) as [r Er].
  { intros e [i Hi]%list_elem_of_lookup_1. unfold injection_row. rewrite position_in; [by eexists|].
    specialize (He i e Hi). lia. }
  rewrite Er. cbn [mbind res_mbind].
  assert (length r = n) as Hlr by (apply mapR_Ok, Forall2_length in Er; lia).
  set (P := {| ncols := Z.to_nat nc; rows := r |}).
  destruct (matmul_total (transpose P) A) as (PA & -> & H1 & H2); [cbn; by rewrite Hr|].
  cbn [mbind res_mbind]. destruct (matmul_total PA P) as (A_c & -> & H3 & H4); [rewrite H2, Hc; done|].
  cbn [mbind res_mbind]. exists A_c, P. split; [done|].
  assert (nrows (transpose P) = Z.to_nat nc) as HT
    by (unfold nrows, transpose; cbn; by rewrite length_map, length_seq).
  split; [|done]. split; [by rewrite H3, H1 | by rewrite H4].
Qed.

(** ** The coarse graph *)
Lemma pairs_valid (g : graph F) n m nc :
  valid g n → length m = n → (∀ i e, m !! i = Some e → (0 ≤ e < Z.of_nat nc)%Z) →
  ∃ pairs, pairs_of g m = Ok pairs ∧ valid (coarse_graph pairs) nc.
Proof.
  intros Hg Hm He.
  assert (∃ pairs, pairs_of g m = Ok pairs ∧
    ∀ k w, pairs !! k = Some w → (0 ≤ k.1 < Z.of_nat nc)%Z ∧ (0 ≤ k.2 < Z.of_nat nc)%Z ∧ k.1 ≠ k.2) as (pairs & E & Hp).
  { unfold pairs_of. apply (foldR_seq (λ _ (pairs : gmap (Z * Z) F), ∀ k w, pairs !! k = Some w →
      (0 ≤ k.1 < Z.of_nat nc)%Z ∧ (0 ≤ k.2 < Z.of_nat nc)%Z ∧ k.1 ≠ k.2) _ 0).
    - intros k w. rewrite lookup_empty. done.
    - intros f pairs Hf Hp.
      destruct (valid_face g n Hg f ltac:(lia)) as (a & b & w & Ha & Hb & Hne & Ho & Hn & Hw).
      destruct (lookup_lt_is_Some_2 m a ltac:(lia)) as [ea Hea].
      destruct (lookup_lt_is_Some_2 m b ltac:(lia)) as [eb Heb].
      unfold pair_step, getitem. rewrite Ho. cbn [from_opt mbind res_mbind].
      rewrite (get_nat _ _ _ Hea), Hn. cbn [from_opt mbind res_mbind].
      rewrite (get_nat _ _ _ Heb), Hw. cbn [from_opt mbind res_mbind].
      pose proof (He _ _ Hea). pose proof (He _ _ Heb).
      destruct (Z.eqb_spec ea eb); [by eexists|]. eexists; split; [done|].
      intros k v [[<- _]|[_ Hk]]%lookup_insert_Some; [cbn; lia | by eapply Hp]. }
  exists pairs. split; [done|]. unfold coarse_graph. set (ordered := sort_by pair_leb _).
  assert (∀ f e, ordered !! f = Some e → (0 ≤ e.1.1 < Z.of_nat nc)%Z ∧ (0 ≤ e.1.2 < Z.of_nat nc)%Z ∧ e.1.1 ≠ e.1.2) as Ho.
  { intros f [k w] Hin%list_elem_of_lookup_2. unfold ordered in Hin. rewrite elem_of_sort_by in Hin.
    apply elem_of_map_to_list in Hin. cbn. by eapply Hp. }
  split; cbn [g_owner g_neighbour g_weights]; rewrite ?length_map; [done|done|].
  intros f o. rewrite !list_lookup_fmap. intros (e & He' & ->)%fmap_Some.
  destruct (Ho f e He') as (H1 & H2 & H3). rewrite He'. cbn.
  exists (Z.to_nat e.1.1), (Z.to_nat e.1.2). rewrite !Z2Nat.id by lia. repeat split; lia.
Qed.

(** ** The hierarchy *)
Lemma levels_loop_shape fuel (g : graph F) (A : mat) target k n :
  n < fuel → valid g n → square A n →
  ∃ ls, levels_loop fuel g A None target k = Ok ls ∧ (shaped n ls ∨ cut n ls).
Proof.
  revert g A k n; induction fuel as [|fuel IH]; intros g A k n Hf Hg HA; [lia|].
  cbn [levels_loop next_map]. pose proof HA as [Hr Hc]. rewrite Hr.
  destruct (Nat.leb_spec n target).
  { cbn [mbind res_mbind]. eexists; split; [done|]. left. by constructor. }
  destruct (pairwise_partition g n Hg) as (m & nc & E & Hm & Hnc & He & _ & _ & _).
  rewrite E. cbn [mbind res_mbind]. destruct (Z.leb_spec (Z.of_nat n) nc).
  { eexists; split; [done|]. left. by constructor. }
  destruct (galerkin_total A m nc n HA Hm) as (A_c & P & Eg & HAc & HP); [lia|done|].
  rewrite Eg. cbn [mbind res_mbind].
  destruct (pairs_valid g n m (Z.to_nat nc) Hg Hm) as (pairs & Ep & Hv).
  { intros i e Hi. rewrite Z2Nat.id by lia. by eapply He. }
  rewrite Ep. cbn [mbind res_mbind]. assert (Z.to_nat nc < n) by lia.
  case_bool_decide.
  { eexists; split; [done|]. right. by eapply Cut_last. }
  destruct (IH (coarse_graph pairs) A_c (S k) (Z.to_nat nc)) as (ls & -> & Hls); [lia|done|done|].
  cbn [mbind res_mbind]. eexists; split; [done|].
  destruct Hls; [left | right; by eapply Cut_cons].
  eapply Shaped_cons; [done..| |done]. intros i e Hi. rewrite Z2Nat.id by lia. by eapply He.
Qed.

(** ** V-cycles on a hierarchy *)
Lemma lift_total op (a b : vec) n : length a = n → length b = n → ∃ c, lift op a b = Ok c ∧ length c = n.
Proof.
  intros <- Hb. unfold lift. rewrite Hb, Nat.eqb_refl. eexists; split; [done|].
  rewrite length_zip_with. lia.
Qed.
Lemma matvec_total (A : mat) n m (x : vec) :
  nrows A = n → ncols A = m → length x = m → ∃ y, matvec A x = Ok y ∧ length y = n.
Proof.
  intros <- <- Hx. unfold matvec. rewrite Hx, Nat.eqb_refl. eexists; split; [done|].
  by rewrite length_map.
Qed.
Lemma matvec_mismatch (A : mat) (x : vec) : ncols A ≠ length x → matvec A x = Raise ValueError.
Proof. intros Hx. unfold matvec. by rewrite (proj2 (Nat.eqb_neq _ _) Hx). Qed.

Lemma residual_total (A : mat) n (b x : vec) :
  square A n → length b = n → length x = n → ∃ r, residual_of A b x = Ok r ∧ length r = n.
Proof.
  intros [Hr Hc] Hb Hx. unfold residual_of.
  destruct (matvec_total A n n x Hr Hc Hx) as (y & -> & Hy). cbn [mbind res_mbind].
  by apply lift_total.
Qed.
Lemma jacobi_total (A : mat) n (b x : vec) omega :
  square A n → length b = n → length x = n → ∃ y, jacobi_sweep A b x omega = Ok y ∧ length y = n.
Proof.
  intros HA Hb Hx. unfold jacobi_sweep, vdiv, vadd.
  destruct (residual_total A n b x HA Hb Hx) as (r & -> & Hr). cbn [mbind res_mbind].
  destruct (lift_total div (scale omega r) (diag_of A) n) as (d & -> & Hd).
  - unfold scale. by rewrite length_map.
  - unfold diag_of. rewrite length_map, length_seq. destruct HA. lia.
  - cbn [mbind res_mbind]. by apply lift_total.
Qed.
Lemma times_total {S} (P : S → Prop) n f (s : S) :
  P s → (∀ s, P s → ∃ s', f s = Ok s' ∧ P s') → ∃ s', times n f s = Ok s' ∧ P s'.
Proof.
  intros Hs Hf; revert s Hs; induction n as [|n IH]; intros s Hs; [by exists s|]. cbn [times].
  destruct (Hf s Hs) as (s1 & -> & H1). cbn [mbind res_mbind]. by apply IH.
Qed.
Lemma emit_total (rec : recorder F) iter ph grid (x r : vec) resnorm :
  length r = length x → ∃ rec', emit rec iter ph grid x r resnorm = Ok rec'.
Proof.
  intros Hr. unfold emit, cell_rows.
  match goal with |- context [mapR ?f ?l] => destruct (mapR_total f l) as [rows Er] end.
  - intros i Hi%elem_of_seq.
    destruct (lookup_lt_is_Some_2 x i ltac:(lia)) as [v Hv].
    destruct (lookup_lt_is_Some_2 r i ltac:(lia)) as [w Hw].
    unfold getitem. rewrite Hv. cbn [from_opt mbind res_mbind]. rewrite Hw. by eexists.
  - rewrite Er. by eexists.
Qed.
Lemma smooth_total (A : mat) n b omega ph grid iter resnorm (s : vec * recorder F) :
  square A n → length b = n → length s.1 = n →
  ∃ s', smooth A b omega ph grid iter resnorm s = Ok s' ∧ length s'.1 = n.
Proof.
  intros HA Hb Hs. unfold smooth.
  destruct (jacobi_total A n b s.1 omega HA Hb Hs) as (x & -> & Hx). cbn [mbind res_mbind].
  destruct (residual_total A n b x HA Hb Hx) as (r & -> & Hr). cbn [mbind res_mbind].
  destruct (emit_total s.2 iter ph grid x r resnorm) as [rec ->]; [lia|]. by eexists.
Qed.

Section cycle.
Context (omega : F) (npre npost : nat) (coarse : mat → vec → res vec).
Notation cycle := (vcycle omega npre npost coarse).

(** A level passes on what the cycle below it does: its exception, or a result of
    the right length. *)
Lemma vcycle_level n nc A m P ls grid (b : vec) iter resnorm rec :
  square A n → tall P n nc → length b = n →
  ∃ b_c rec_c, length b_c = nc ∧
    (∀ e, cycle ls (S grid) b_c iter resnorm rec_c = Raise e →
       cycle ({| l_A := A; l_next := Some (m, P) |} :: ls) grid b iter resnorm rec = Raise e) ∧
    (∀ x_c rec', cycle ls (S grid) b_c iter resnorm rec_c = Ok (x_c, rec') → length x_c = nc →
       ∃ x rec'', cycle ({| l_A := A; l_next := Some (m, P) |} :: ls) grid b iter resnorm rec = Ok (x, rec'') ∧
                  length x = n).
Proof.
  intros HA [HPr HPc] Hb. cbn [vcycle l_next l_A].
  destruct (times_total (λ s : vec * recorder F, length s.1 = n) npre
    (smooth A b omega presmooth grid iter resnorm) (zeros (length b), rec)) as ([x rec1] & -> & Hx).
  { cbn. unfold zeros. by rewrite repeat_length. }
  { intros s Hs. by apply smooth_total. }
  cbn [mbind res_mbind fst] in *.
  destruct (residual_total A n b x HA Hb Hx) as (r & -> & Hr). cbn [mbind res_mbind].
  destruct (emit_total rec1 iter residual grid x r resnorm) as [rec2 ->]; [lia|]. cbn [mbind res_mbind].
  destruct (matvec_total (transpose P) nc n r) as (b_c & -> & Hbc); [|done|done|].
  { unfold nrows, transpose. cbn. by rewrite length_map, length_seq. }
  cbn [mbind res_mbind].
  destruct (emit_total rec2 iter restrict (S grid) (zeros (length b_c)) b_c resnorm) as [rec3 ->].
  { unfold zeros. by rewrite repeat_length. }
  cbn [mbind res_mbind]. exists b_c, rec3. split; [done|]. split; [by intros e ->|].
  intros x_c rec4 -> Hxc. cbn [mbind res_mbind].
  destruct (matvec_total P n nc x_c HPr HPc Hxc) as (Px & -> & HPx). cbn [mbind res_mbind].
  destruct (lift_total add x Px n Hx HPx) as (x2 & Ex2 & Hx2). unfold vadd. rewrite Ex2. cbn [mbind res_mbind].
  destruct (residual_total A n b x2 HA Hb Hx2) as (r2 & -> & Hr2). cbn [mbind res_mbind].
  destruct (emit_total rec4 iter prolong grid x2 r2 resnorm) as [rec5 ->]; [lia|]. cbn [mbind res_mbind].
  destruct (times_total (λ s : vec * recorder F, length s.1 = n) npost
    (smooth A b omega postsmooth grid iter resnorm) (x2, rec5)) as ([x3 rec6] & -> & Hx3); [done| |].
  { intros s Hs'. by apply smooth_total. }
  by exists x3, rec6.
Qed.

Lemma vcycle_total n ls grid (b : vec) iter resnorm rec :
  (∀ A n b, square A n → length b = n → ∃ x, coarse A b = Ok x ∧ length x = n) →
  shaped n ls → length b = n →
  ∃ x rec', cycle ls grid b iter resnorm rec = Ok (x, rec') ∧ length x = n.
Proof.
  intros Hcoarse Hs; revert grid b rec; induction Hs as [n A HA|n nc A m P ls HA Hm HP Hlt _ Hls IH];
    intros grid b rec Hb.
  - cbn [vcycle l_next l_A]. destruct (Hcoarse A n b HA Hb) as (x & -> & Hx). cbn [mbind res_mbind].
    destruct (residual_total A n b x HA Hb Hx) as (r & -> & Hr). cbn [mbind res_mbind].
    destruct (emit_total rec iter coarse_solve grid x r resnorm) as [rec' ->]; [lia|]. by eexists _, _.
  - destruct (vcycle_level n nc A m P ls grid b iter resnorm rec HA HP Hb) as (b_c & rec_c & Hbc & _ & Hok).
    destruct (IH (S grid) b_c rec_c Hbc) as (x_c & rec' & E & Hx). by eapply Hok.
Qed.

Lemma vcycle_cut n ls grid (b : vec) iter resnorm rec e :
  (∀ A n b, square A n → length b < n → coarse A b = Raise e) →
  cut n ls → length b = n → cycle ls grid b iter resnorm rec = Raise e.
Proof.
  intros Hcoarse Hs; revert grid b rec; induction Hs as [n nc A m P HA Hm HP Hlt|n nc A m P ls HA Hm HP Hlt Hls IH];
    intros grid b rec Hb.
  - destruct (vcycle_level n nc A m P [{| l_A := A; l_next := None |}] grid b iter resnorm rec HA HP Hb)
      as (b_c & rec_c & Hbc & He & _).
    apply He. cbn [vcycle l_next l_A]. rewrite (Hcoarse A n b_c HA) by lia. done.
  - destruct (vcycle_level n nc A m P ls grid b iter resnorm rec HA HP Hb) as (b_c & rec_c & Hbc & He & _).
    apply He. by apply IH.
Qed.
End cycle.

Lemma coarse_brae_total (A : mat) n b : square A n → length b = n → ∃ x, coarse_brae A b = Ok x ∧ length x = n.
Proof.
  intros HA Hb. unfold coarse_brae. apply (times_total (λ x : vec, length x = n)).
  - unfold zeros. by rewrite repeat_length.
  - intros x Hx. by apply jacobi_total.
Qed.

Lemma coarse_brae_mismatch (A : mat) n (b : vec) :
  square A n → length b < n → coarse_brae A b = Raise ValueError.
Proof.
  intros [_ Hc] Hb. unfold coarse_brae. change 200 with (S 199). cbn [times].
  unfold jacobi_sweep, residual_of. rewrite matvec_mismatch; [done|].
  unfold zeros. rewrite repeat_length. lia.
Qed.

(** C23: the levels of a valid graph.  With a square operator [build_levels] returns a
    hierarchy of fewer and fewer cells: either its shapes agree from level to level,
    and then brae's V-cycle returns a vector of the right length for every right-hand
    side, or it is cut, its last operator being that of the level above, and then
    the V-cycle raises a ValueError on every right-hand side. *)
Theorem build_levels_hierarchy (A : mat) (g : graph F) (n target : nat) :
  valid g n → square A n →
  ∃ ls, build_levels A g None target = Ok ls ∧
    (shaped n ls ∧ (∀ b iter resnorm rec, length b = n →
        ∃ x rec', vcycle_brae ls 0 b iter resnorm rec = Ok (x, rec') ∧ length x = n) ∨
     cut n ls ∧ (∀ b iter resnorm rec, length b = n →
        vcycle_brae ls 0 b iter resnorm rec = Raise ValueError)).
Proof.
  intros Hg HA. unfold build_levels. destruct (proj1 HA).
  destruct (levels_loop_shape (S (nrows A)) g A target 0 (nrows A)) as (ls & E & Hls); [lia|done|done|].
  exists ls. split; [done|]. destruct Hls as [Hs|Hc]; [left|right]; (split; [done|]); intros b iter resnorm rec Hb.
  - eapply vcycle_total; [|done|done]. apply coarse_brae_total.
  - eapply vcycle_cut; [|done|done]. apply coarse_brae_mismatch.
Qed.

(** a level whose aggregates take in every face cuts the hierarchy.  When every
    face of a graph joins two cells of one aggregate (as when a connected graph
    becomes one aggregate) the loop stops before it takes the coarse operator: the
    last level holds the operator of the fine cells. *)
Theorem build_levels_cut (A : mat) (g : graph F) (n target : nat) m nc :
  valid g n → square A n → target < n → pairwise_aggregate g n = Ok (m, nc) → (nc < Z.of_nat n)%Z →
  (∀ i j, adjacent g i j → m !! i = m !! j) →
  ∃ P, build_levels A g None target =
    Ok [{| l_A := A; l_next := Some (m, P) |}; {| l_A := A; l_next := None |}] ∧ ncols P = Z.to_nat nc.
Proof.
  intros Hg HA Ht E Hlt Hall. pose proof HA as [Hr _].
  destruct (pairwise_partition g n Hg) as (m' & nc' & E' & Hm & Hnc & He & _).
  rewrite E in E'. injection E' as <- <-.
  destruct (galerkin_total A m nc n HA Hm) as (A_c & P & Eg & _ & HP); [lia|done|].
  exists P. split; [|apply HP]. unfold build_levels. rewrite Hr. cbn [levels_loop next_map].
  rewrite Hr, (proj2 (Nat.leb_gt n target) Ht), E. cbn [mbind res_mbind].
  rewrite (proj2 (Z.leb_gt _ _) Hlt). rewrite Eg. cbn [mbind res_mbind].
  assert (pairs_of g m = Ok ∅) as ->; [|done]. unfold pairs_of.
  destruct (foldR_seq (λ _ (pairs : gmap (Z * Z) F), pairs = ∅) (pair_step g m) 0 (length (g_owner g)) ∅)
    as (pairs & -> & ->); [done| |done].
  intros f pairs Hf ->. destruct (valid_face g n Hg f ltac:(lia)) as (a & b & w & Ha & Hb & Hne & Ho & Hn & _).
  destruct (lookup_lt_is_Some_2 m a ltac:(lia)) as [ea Hea].
  assert (m !! b = Some ea) as Heb by (rewrite <- Hea; symmetry; apply Hall; exists f; left; done).
  unfold pair_step, getitem. rewrite Ho. cbn [from_opt mbind res_mbind].
  rewrite (get_nat _ _ _ Hea), Hn. cbn [from_opt mbind res_mbind]. rewrite (get_nat _ _ _ Heb).
  cbn [mbind res_mbind]. rewrite Z.eqb_refl. by eexists.
Qed.
End levels.
End Levels.
