(* ===== verification/AmgTrace.v ===== *)
(** * demo/amgpcg/make_steps.py: the trace and the arithmetic

    The frames a run records, in order; and, in exact arithmetic, the Galerkin
    operator's entries and the residual the conjugate gradient loop carries. *)
From stdpp Require Import gmap.
From S2P Require Export AmgLevels.

Module Trace.
Import Amg Aggregate Levels.

Section trace.
Context {F : Type} `{NumOps F}.
Abbreviation vec := (list F).
Abbreviation mat := (NumPy.mat F).

(** ** What is appended to a recorder *)
Definition label (f : frame F) : nat * phase * nat := (f_iter f, f_phase f, f_grid f).
Definition cells_of (f : frame F) : list (nat * nat * nat) :=
  map (λ i, (f_step f, f_grid f, i)) (seq 0 (f_ngrid f)).

(** The frames [l] are appended, numbered on from the recorder's count, and the state
    holds one row for each cell of each frame. *)
Definition extends (rec : recorder F) (l : list (nat * phase * nat)) (rec' : recorder F) : Prop :=
  ∃ frames cells,
    steps rec' = steps rec ++ frames ∧ map label frames = l ∧
    map f_step frames = seq (step rec) (length l) ∧ step rec' = step rec + length l ∧
    state rec' = state rec ++ cells ∧
    map (λ c, (c_step c, c_grid c, c_cell c)) cells = flat_map cells_of frames.

Lemma extends_refl rec : extends rec [] rec.
Proof. exists [], []. rewrite !app_nil_r. repeat split. cbn. lia. Qed.
Lemma extends_trans rec1 rec2 rec3 l1 l2 :
  extends rec1 l1 rec2 → extends rec2 l2 rec3 → extends rec1 (l1 ++ l2) rec3.
Proof.
  intros (f1 & c1 & S1 & L1 & N1 & T1 & C1 & K1) (f2 & c2 & S2 & L2 & N2 & T2 & C2 & K2).
  exists (f1 ++ f2), (c1 ++ c2).
  rewrite S2, S1, C2, C1, !app_assoc, !map_app, L1, L2, N1, N2, T2, T1, K1, K2, flat_map_app, length_app, seq_app.
  repeat split. lia.
Qed.

Lemma emit_extends rec iter ph grid (x r : vec) resnorm rec' :
  emit rec iter ph grid x r resnorm = Ok rec' → extends rec [(iter, ph, grid)] rec'.
Proof.
  unfold emit. intros (rows & Hr & [= <-])%bind_Ok. eexists [_], rows. cbn [steps state step].
  split; [done|]. split; [done|]. split; [done|]. split; [cbn; lia|]. split; [done|].
  unfold cells_of; cbn [flat_map f_step f_grid f_ngrid]. rewrite app_nil_r.
  unfold cell_rows in Hr. apply mapR_Ok in Hr. induction Hr as [|i c l rows Hc _ IH]; [done|].
  cbn [map]. rewrite IH. f_equal. apply bind_Ok in Hc as (v & _ & Hc).
  by apply bind_Ok in Hc as (w & _ & [= <-]).
Qed.

(** ** The frames of a cycle *)
Fixpoint shape (npre npost : nat) (ls : list (level F)) (grid : nat) : list (phase * nat) :=
  match ls with
  | [] => []
  | l :: ls =>
      match l_next l with
      | None => [(coarse_solve, grid)]
      | Some _ =>
          repeat (presmooth, grid) npre ++ [(residual, grid); (restrict, S grid)]
          ++ shape npre npost ls (S grid) ++ [(prolong, grid)] ++ repeat (postsmooth, grid) npost
      end
  end.
Definition at_iter (iter : nat) (l : list (phase * nat)) : list (nat * phase * nat) :=
  map (λ e, (iter, e.1, e.2)) l.

Lemma smooth_extends (A : mat) b omega ph grid iter resnorm s s' :
  smooth A b omega ph grid iter resnorm s = Ok s' → extends s.2 [(iter, ph, grid)] s'.2.
Proof.
  unfold smooth. intros (x & _ & (r & _ & (rec & He & [= <-])%bind_Ok)%bind_Ok)%bind_Ok.
  by eapply emit_extends.
Qed.
Lemma times_extends n f (s s' : vec * recorder F) l :
  times n f s = Ok s' → (∀ s s', f s = Ok s' → extends s.2 [l] s'.2) →
  extends s.2 (repeat l n) s'.2.
Proof.
  intros Hs Hf; revert s Hs; induction n as [|n IH]; intros s; cbn [times repeat].
  - intros [= <-]. apply extends_refl.
  - intros (s1 & H1 & Hs)%bind_Ok. apply (extends_trans _ s1.2 _ [l]); [by apply Hf | by apply IH].
Qed.

Lemma vcycle_extends omega npre npost coarse ls grid (b : vec) iter resnorm rec x rec' :
  vcycle omega npre npost coarse ls grid b iter resnorm rec = Ok (x, rec') →
  extends rec (at_iter iter (shape npre npost ls grid)) rec'.
Proof.
  revert grid b rec x rec'; induction ls as [|[A [[m P]|]] ls IH]; intros grid b rec x rec';
    cbn [vcycle shape l_next l_A]; [done| |].
  - intros ([x1 rec1] & Hpre & E)%bind_Ok. apply bind_Ok in E as (r1 & _ & E).
    apply bind_Ok in E as (rec2 & H2 & E). apply bind_Ok in E as (b_c & _ & E).
    apply bind_Ok in E as (rec3 & H3 & E). apply bind_Ok in E as ([x_c rec4] & Hc & E).
    apply bind_Ok in E as (Px & _ & E). apply bind_Ok in E as (x2 & _ & E).
    apply bind_Ok in E as (r2 & _ & E). apply bind_Ok in E as (rec5 & H5 & Hpost).
    unfold at_iter. rewrite !map_app, !map_repeat. cbn [map fst snd].
    eapply extends_trans.
    { eapply (times_extends _ _ _ _ (iter, presmooth, grid) Hpre). intros s s'. apply smooth_extends. }
    eapply (extends_trans _ rec3).
    { eapply (extends_trans _ rec2 _ [_] [_]); by eapply emit_extends. }
    eapply extends_trans; [by apply IH in Hc|]. eapply extends_trans; [by eapply emit_extends|].
    eapply (times_extends _ _ (x2, rec5) (x, rec') (iter, postsmooth, grid) Hpost).
    intros s s'. apply smooth_extends.
  - intros (x1 & _ & E)%bind_Ok. apply bind_Ok in E as (r & _ & E).
    apply bind_Ok in E as (rec1 & H1 & [= <- <-]). by eapply emit_extends.
Qed.

(** ** The frames of a run *)
Definition iteration_frames (npre npost : nat) (ls : list (level F)) (i : nat) : list (nat * phase * nat) :=
  (i, krylov_start, 0) :: at_iter i (shape npre npost ls 0) ++ [(i, krylov_update, 0)].

Lemma cg_step_extends omega npre npost coarse ls (A : mat) nf s i s' :
  cg_step (vcycle omega npre npost coarse) ls A nf s i = Ok s' →
  extends (g_rec s) (iteration_frames npre npost ls i) (g_rec s') ∧
  length (g_history s') = S (length (g_history s)).
Proof.
  unfold cg_step. intros (rec1 & H1 & E)%bind_Ok. apply bind_Ok in E as ([z rec2] & Hc & E).
  do 7 apply bind_Ok in E as (? & _ & E). apply bind_Ok in E as (rec3 & H3 & [= <-]). cbn [g_rec g_history].
  split; [|rewrite length_app; cbn; lia]. unfold iteration_frames.
  eapply (extends_trans _ rec1 _ [_]); [by eapply emit_extends|].
  eapply extends_trans; [by eapply vcycle_extends | by eapply emit_extends].
Qed.

(** The frames of the two preconditioned conjugate gradient runs. *)
Definition run_frames (npre npost : nat) (ls : list (level F)) (n_iter : nat) : list (nat * phase * nat) :=
  flat_map (iteration_frames npre npost ls) (seq 1 n_iter).

Lemma cg_fold_extends omega npre npost coarse ls (A : mat) nf l s s' :
  foldR (cg_step (vcycle omega npre npost coarse) ls A nf) l s = Ok s' →
  extends (g_rec s) (flat_map (iteration_frames npre npost ls) l) (g_rec s') ∧
  length (g_history s') = length (g_history s) + length l.
Proof.
  revert s; induction l as [|i l IH]; intros s; cbn [foldR flat_map].
  - intros [= <-]. split; [apply extends_refl | cbn; lia].
  - intros (s1 & [H1 L1]%cg_step_extends & [H2 L2]%IH)%bind_Ok.
    split; [by eapply extends_trans | cbn [length]; lia].
Qed.

(** What a run of [n_iter] iterations leaves: the frames, numbered from 0; a row of
    the state for each cell of each frame, in order; the norms. *)
Definition recorded (npre npost : nat) (ls : list (level F)) (n_iter : nat) (s : cg F) : Prop :=
  map label (steps (g_rec s)) = run_frames npre npost ls n_iter ∧
  map f_step (steps (g_rec s)) = seq 0 (length (steps (g_rec s))) ∧
  map (λ c, (c_step c, c_grid c, c_cell c)) (state (g_rec s)) = flat_map cells_of (steps (g_rec s)) ∧
  length (g_history s) = S n_iter.

Lemma run_pcg_recorded omega npre npost coarse ls (A : mat) b n_iter s :
  run_pcg (vcycle omega npre npost coarse) ls A b n_iter new_recorder = Ok s →
  recorded npre npost ls n_iter s.
Proof.
  unfold run_pcg, cg_start. intros (s0 & (r & _ & [= <-])%bind_Ok & [Hx Hh]%cg_fold_extends)%bind_Ok.
  destruct Hx as (frames & cells & Hs & Hl & Hn & _ & Hc & Hk). cbn in Hs, Hc, Hn, Hh.
  unfold recorded. rewrite Hs, Hc, Hl, Hn, Hk, Hh, length_seq. split; [done|]. split; [|done].
  f_equal. by rewrite <- (length_map label frames), Hl.
Qed.
End trace.

(** C24: the animation's frames.  A run of brae's or AMGX's solver that ends records
    exactly one V-cycle per Krylov iteration: for each iteration the start, the
    pre-smoothing sweeps, the residual and the restriction of each grid going down,
    the coarse solve, the prolongation and the post-smoothing sweeps going up, and the
    update; the frames are numbered from 0 without a gap, and the state holds one row
    for each cell of each frame, in order. *)
Theorem run_trace {F} `{NumOps F} (solve : NumPy.mat F → list F → res (list F)) ls A b n_iter s :
  (run_brae ls A b n_iter new_recorder = Ok s → recorded NPRE_BRAE NPOST_BRAE ls n_iter s) ∧
  (run_amgx solve ls A b n_iter new_recorder = Ok s → recorded NPRE_AMGX NPOST_AMGX ls n_iter s).
Proof. split; apply run_pcg_recorded. Qed.

(** ** Exact arithmetic *)
Section exact.
Context {F : Type} `{NumLaws F}.
Abbreviation vec := (list F).
Abbreviation mat := (NumPy.mat F).
Add Ring num_ring_of_F : (num_ring (F := F)).

Definition bigsum (n : nat) (f : nat → F) : F := foldr add zero (map f (seq 0 n)).

Lemma bigsum_S n f : bigsum (S n) f = add (f 0) (bigsum n (λ k, f (S k))).
Proof. unfold bigsum. cbn [seq map foldr]. by rewrite <- seq_shift, map_map. Qed.
Lemma bigsum_ext n f g : (∀ k, k < n → f k = g k) → bigsum n f = bigsum n g.
Proof.
  revert f g; induction n as [|n IH]; intros f g Hfg; [done|]. rewrite !bigsum_S, Hfg by lia.
  f_equal. apply IH. intros k Hk. apply Hfg. lia.
Qed.

Lemma dot_bigsum (a b : vec) n :
  length a = n → length b = n → dot a b = bigsum n (λ k, mul (nth k a zero) (nth k b zero)).
Proof.
  rewrite dot_spec. revert b n; induction a as [|x a IH]; intros [|y b] n; cbn [length zip_with foldr];
    intros <-; [done..|]. intros [= E]. rewrite bigsum_S. cbn [nth]. by rewrite (IH b (length a)).
Qed.

(** ** The Galerkin operator *)
Definition wf_mat (A : mat) : Prop := Forall (λ row, length row = ncols A) (rows A).

Lemma at_transpose (A : mat) i j : i < ncols A → at_ (transpose A) i j = at_ A j i.
Proof.
  intros Hi. unfold at_, transpose. cbn [rows].
  rewrite (nth_indep _ [] (map (λ row, nth 0 row zero) (rows A))) by (by rewrite length_map, length_seq).
  rewrite (map_nth (λ j, map (λ row, nth j row zero) (rows A)) (seq 0 (ncols A)) 0 i), seq_nth by done.
  cbn [Nat.add]. destruct (decide (j < length (rows A))) as [Hj|Hj].
  - rewrite (nth_indep _ zero (nth i [] zero)) by (by rewrite length_map).
    by rewrite (map_nth (λ row, nth i row zero)).
  - rewrite !nth_overflow; [done| |]; rewrite ?length_map; try lia.
    rewrite nth_overflow by lia. cbn. lia.
Qed.

Lemma at_matmul (A B C : mat) i j :
  wf_mat A → matmul A B = Ok C → i < nrows A → j < ncols B →
  at_ C i j = bigsum (nrows B) (λ k, mul (at_ A i k) (at_ B k j)).
Proof.
  unfold matmul. intros HA. destruct (Nat.eqb_spec (ncols A) (nrows B)) as [E|]; [|done].
  remember (rows (transpose B)) as cols eqn:Ecols.
  intros [= <-] Hi Hj. unfold at_ at 1. cbn [rows]. subst cols.
  rewrite (nth_indep _ [] (map (dot []) (rows (transpose B)))) by (by rewrite length_map).
  rewrite (map_nth (λ row, map (dot row) (rows (transpose B))) (rows A) [] i).
  set (row := nth i (rows A) []).
  assert (length row = nrows B) as Hrow.
  { rewrite <- E. unfold wf_mat in HA. rewrite Forall_forall in HA. apply HA, list_elem_of_In.
    by apply nth_In. }
  assert (j < length (rows (transpose B))) as Hj' by (cbn; by rewrite length_map, length_seq).
  rewrite (nth_indep _ zero (dot row [])) by (by rewrite length_map).
  rewrite (map_nth (dot row)).
  assert (length (nth j (rows (transpose B)) []) = nrows B) as Hcol.
  { cbn [transpose rows]. rewrite (nth_indep _ [] (map (λ row, nth 0 row zero) (rows B)))
      by (by rewrite length_map, length_seq).
    rewrite (map_nth (λ j, map (λ row, nth j row zero) (rows B))). by rewrite length_map. }
  rewrite (dot_bigsum _ _ (nrows B)) by done. apply bigsum_ext. intros k Hk.
  unfold row. fold (at_ A i k). fold (at_ (transpose B) j k). by rewrite at_transpose.
Qed.

Lemma wf_matmul (A B C : mat) : matmul A B = Ok C → wf_mat C.
Proof.
  unfold matmul. case_match; [|done]. intros [= <-]. unfold wf_mat; cbn.
  apply Forall_forall. intros row (r & -> & _)%list_elem_of_fmap.
  by rewrite !length_map, length_seq.
Qed.
Lemma wf_transpose (A : mat) : wf_mat (transpose A).
Proof.
  unfold wf_mat; cbn. apply Forall_forall. intros row (r & -> & _)%list_elem_of_fmap.
  by rewrite length_map.
Qed.

(** The entries of the prolongator. *)
Definition in_aggregate (m : list Z) (k i : nat) : bool := bool_decide (m !! k = Some (Z.of_nat i)).

Lemma at_injection n m nc P k i :
  length m = n → (∀ k e, m !! k = Some e → (0 ≤ e < nc)%Z) → injection n m nc = Ok P →
  k < n → i < Z.to_nat nc → at_ P k i = if in_aggregate m k i then one else zero.
Proof.
  intros Hm He. unfold injection. destruct (nc <? 0)%Z; [done|]. rewrite Hm, Nat.eqb_refl.
  intros (r & Hr%mapR_Ok & [= <-])%bind_Ok Hk Hi. unfold at_. cbn [rows].
  destruct (lookup_lt_is_Some_2 m k ltac:(lia)) as [e Hek].
  destruct (Forall2_lookup_l _ _ _ _ _ Hr Hek) as (row & Hrow & Erow).
  rewrite (nth_lookup_Some _ _ _ _ Hrow). unfold injection_row in Erow.
  rewrite position_in in Erow by (specialize (He _ _ Hek); lia). injection Erow as <-.
  rewrite (nth_indep _ zero ((λ j, if j =? Z.to_nat e then one else zero) 0))
    by (by rewrite length_map, length_seq).
  rewrite (map_nth (λ j, if j =? Z.to_nat e then one else zero)), seq_nth by done. cbn [Nat.add].
  unfold in_aggregate. rewrite Hek. specialize (He _ _ Hek).
  destruct (Nat.eqb_spec i (Z.to_nat e)); case_bool_decide as Eb; try done.
  - exfalso. apply Eb. f_equal. lia.
  - injection Eb as ->. lia.
Qed.

(** the coarse operator is the Galerkin one.  In exact arithmetic each entry of
    [P.T @ A @ P] is the sum of the entries of [A] between the cells of the two
    aggregates: what brae's face scatter and OpenFOAM's coarsening add up. *)
Theorem galerkin_entries (A A_c P : mat) m nc n i j :
  square A n → wf_mat A → length m = n → (∀ k e, m !! k = Some e → (0 ≤ e < nc)%Z) →
  galerkin A m nc = Ok (A_c, P) → i < Z.to_nat nc → j < Z.to_nat nc →
  at_ A_c i j = bigsum n (λ k, if in_aggregate m k j
                  then bigsum n (λ l, if in_aggregate m l i then at_ A l k else zero) else zero).
Proof.
  intros [Hr Hc] HA Hm He. unfold galerkin. intros (P' & HP & E)%bind_Ok Hi Hj.
  apply bind_Ok in E as (PA & HPA & E). apply bind_Ok in E as (C & HC & [= <- <-]).
  rewrite Hr in HP. assert (∀ k i, k < n → i < Z.to_nat nc → at_ P' k i = if in_aggregate m k i then one else zero)
    as HPe by (intros k i'; by apply at_injection).
  assert (nrows P' = n ∧ ncols P' = Z.to_nat nc) as [HPr HPc].
  { unfold injection in HP. destruct (nc <? 0)%Z; [done|]. rewrite Hm, Nat.eqb_refl in HP.
    apply bind_Ok in HP as (r & Hr'%mapR_Ok & [= <-]). split; [|done]. unfold nrows. cbn.
    apply Forall2_length in Hr'. lia. }
  assert (nrows (transpose P') = Z.to_nat nc) as HT by (unfold nrows, transpose; cbn; by rewrite length_map, length_seq).
  assert (nrows PA = Z.to_nat nc) as HPAr.
  { revert HPA. unfold matmul. case_match; [|done]. intros [= <-]. unfold nrows; cbn. by rewrite length_map. }
  rewrite (at_matmul PA P' C i j (wf_matmul _ _ _ HPA) HC) by (rewrite ?HPAr, ?HPc; done).
  rewrite HPr. apply bigsum_ext. intros k Hk. rewrite HPe by done.
  destruct (in_aggregate m k j); [|ring].
  rewrite (at_matmul (transpose P') A PA i k (wf_transpose _) HPA) by (rewrite ?HT, ?Hc; done).
  rewrite Hr. replace (mul (bigsum n (λ k0, mul (at_ (transpose P') i k0) (at_ A k0 k))) one)
    with (bigsum n (λ k0, mul (at_ (transpose P') i k0) (at_ A k0 k))) by ring.
  apply bigsum_ext. intros l Hl. rewrite at_transpose by (by rewrite HPc). rewrite HPe by done.
  destruct (in_aggregate m l i); ring.
Qed.

(** ** The residual of the conjugate gradient loop *)
Lemma dot_axpy row (x p : vec) alpha :
  length x = length row → length p = length row →
  dot row (zip_with add x (scale alpha p)) = add (dot row x) (mul alpha (dot row p)).
Proof.
  rewrite !dot_spec. unfold scale. revert x p; induction row as [|a row IH]; intros [|b x] [|c p];
    cbn [length zip_with foldr map]; try done; [intros _ _; ring|].
  intros [= Hx] [= Hp]. rewrite IH by done. ring.
Qed.

Lemma lift_same op (a b c : vec) : length a = length b → lift op a b = Ok c → c = zip_with op a b.
Proof. intros Hab. unfold lift. rewrite Hab, Nat.eqb_refl. by intros [= <-]. Qed.

(** [b - A @ x] moves with the update. *)
Lemma residual_update (A : mat) n (b x r p Ap x' r' : vec) alpha :
  square A n → wf_mat A → length b = n → length x = n → length p = n →
  residual_of A b x = Ok r → matvec A p = Ok Ap →
  vadd x (scale alpha p) = Ok x' → vsub r (scale alpha Ap) = Ok r' →
  residual_of A b x' = Ok r' ∧ length x' = n ∧ length r' = n.
Proof.
  intros [HAr HAc] HA Hb Hx Hp. unfold residual_of, matvec. rewrite HAc, Hx, Hp, Nat.eqb_refl.
  cbn [mbind res_mbind]. unfold vsub, vadd.
  assert (∀ y : vec, length (map (λ row, dot row y) (rows A)) = n) as Hl by (intros y; by rewrite length_map).
  assert (∀ y : vec, length (scale alpha y) = length y) as Hsc by (intros y; apply length_map).
  intros Hr [= <-] Hx' Hr'.
  apply lift_same in Hr; [|by rewrite Hl]. subst r.
  apply lift_same in Hx'; [|by rewrite Hsc, Hp]. subst x'.
  apply lift_same in Hr'; [|rewrite Hsc, Hl, length_zip_with, Hl; lia]. subst r'.
  rewrite length_zip_with, Hsc, Hx, Hp, Nat.min_id, Nat.eqb_refl. cbn [mbind res_mbind].
  split; [|split; [done|]].
  2: { rewrite !length_zip_with, Hsc, !Hl. lia. }
  unfold lift. rewrite Hl, Hb, Nat.eqb_refl. f_equal.
  unfold wf_mat in HA. rewrite HAc in HA. clear HAr Hl. revert b Hb. generalize n at 1.
  induction HA as [|row R Hrow _ IH]; intros k [|b0 b] Hb; cbn [map zip_with scale]; [done..|].
  rewrite dot_axpy by (rewrite Hrow; done). f_equal; [ring|]. by apply (IH (length b)).
Qed.

Lemma cg_step_residual cycle ls (A : mat) n (b : vec) nf i s s' :
  square A n → wf_mat A → length b = n →
  cg_step cycle ls A nf s i = Ok s' →
  residual_of A b (g_x s) = Ok (g_r s) ∧ length (g_x s) = n ∧ length (g_r s) = n ∧
    (∀ p, g_p s = Some p → length p = n) →
  residual_of A b (g_x s') = Ok (g_r s') ∧ length (g_x s') = n ∧ length (g_r s') = n ∧
    (∀ p, g_p s' = Some p → length p = n).
Proof.
  intros HA Hwf Hb Hs (Hres & Hx & Hr & Hp). unfold cg_step in Hs.
  apply bind_Ok in Hs as (rec1 & _ & Hs). apply bind_Ok in Hs as ([z rec2] & _ & Hs).
  apply bind_Ok in Hs as (rho & Hrho & Hs). apply bind_Ok in Hs as (p & Hdir & Hs).
  apply bind_Ok in Hs as (Ap & HAp & Hs). apply bind_Ok in Hs as (pAp & _ & Hs).
  apply bind_Ok in Hs as (alpha & _ & Hs). apply bind_Ok in Hs as (x' & Hx' & Hs).
  apply bind_Ok in Hs as (r' & Hr' & Hs). apply bind_Ok in Hs as (rec3 & _ & [= <-]).
  cbn [g_x g_r g_p].
  assert (length p = n) as Hpn.
  { unfold matvec in HAp. destruct HA as [_ HAc]. rewrite HAc in HAp.
    destruct (Nat.eqb_spec n (length p)); [done|discriminate]. }
  destruct (residual_update A n b (g_x s) (g_r s) p Ap x' r' alpha) as (H1 & H2 & H3); [done..|].
  do 3 (split; [done|]). by intros p' [= <-].
Qed.

(** C25: the carried residual is the true one.  In exact arithmetic the vector the
    conjugate gradient loops update by [r -= alpha * A p] is [b - A x] after every
    number of iterations, whatever the preconditioner returns: the residual norms the
    trace shows are those of the iterates it shows. *)
Theorem cg_residual cycle ls (A : mat) n (b : vec) n_iter rec s :
  square A n → wf_mat A → length b = n →
  run_pcg cycle ls A b n_iter rec = Ok s →
  residual_of A b (g_x s) = Ok (g_r s).
Proof.
  intros HA Hwf Hb. unfold run_pcg, cg_start. intros (s0 & (r & Hr & [= <-])%bind_Ok & Hf)%bind_Ok.
  eapply (foldR_ind (λ s, residual_of A b (g_x s) = Ok (g_r s) ∧ length (g_x s) = n ∧ length (g_r s) = n ∧
    (∀ p, g_p s = Some p → length p = n))) in Hf; [by destruct Hf| |].
  - cbn [g_x g_r g_p]. assert (length (zeros (F := F) (length b)) = n) as Hz by (unfold zeros; by rewrite repeat_length).
    destruct (residual_total A n b (zeros (length b)) HA Hb Hz) as (r' & E & Hl).
    rewrite E in Hr. injection Hr as <-. by repeat split.
  - intros i s1 s2 _ Hs1 Hstep. by eapply cg_step_residual.
Qed.
End exact.
End Trace.
