(* ===== verification/AmgWitness.v ===== *)
(** * demo/amgpcg/make_steps.py: the theorems on a chain of cells

    The system of a chain of cells in rational arithmetic, and each theorem of the
    aggregation, the levels and the trace at it. *)
From Stdlib Require Import QArith Qcanon.
From stdpp Require Import gmap.
From S2P Require Import AmgTrace.

Module AmgWitness.
Import Amg Aggregate Levels Trace.
Open Scope nat_scope.

Definition chain3 : graph Qc :=
  {| g_owner := [0; 1]%Z; g_neighbour := [1; 2]%Z; g_weights := [1; 1]%Qc |}.
Definition q (z : Z) : Qc := Q2Qc (z # 1).
Definition lap3 : NumPy.mat Qc :=
  {| ncols := 3; rows := [[q 3; q (-1); q 0]; [q (-1); q 3; q (-1)]; [q 0; q (-1); q 3]] |}.
Definition rhs3 : list Qc := [q 1; q 0; q 0].

Lemma chain3_valid : valid chain3 3.
Proof.
  split; [done|done|]. intros f o. destruct f as [|[|f]]; cbn; intros Hf; simplify_eq.
  - exists 0, 1. repeat split; lia || reflexivity.
  - exists 1, 2. repeat split; lia || reflexivity.
Qed.
Lemma lap3_square : square lap3 3.
Proof. done. Qed.
Lemma lap3_wf : wf_mat lap3.
Proof. by repeat constructor. Qed.

(** Cells 0 and 1 are paired, cell 2 joins them. *)
Lemma chain3_aggregate : pairwise_aggregate chain3 3 = Ok ([0; 0; 0]%Z, 1%Z).
Proof. vm_compute. reflexivity. Qed.

Lemma pairwise_partition_witness :
  ∃ m nc, pairwise_aggregate chain3 3 = Ok (m, nc) ∧ (nc < 3)%Z ∧
    ∀ i j k, m !! i = Some k → m !! j = Some k → rtc (adjacent chain3) i j.
Proof.
  destruct (pairwise_partition chain3 3 chain3_valid) as (m & nc & E & _ & _ & _ & _ & Hc & Hlt).
  exists m, nc. split; [exact E|]. split; [|exact Hc]. apply Hlt. exists 0, 1, 0, 1%Qc.
  split; [by left|]. split; [done|]. vm_compute. reflexivity.
Defined.

Lemma build_levels_hierarchy_witness :
  ∃ ls, build_levels lap3 chain3 None 3 = Ok ls ∧
    ∀ iter resnorm rec, ∃ x rec', vcycle_brae ls 0 rhs3 iter resnorm rec = Ok (x, rec') ∧ length x = 3.
Proof.
  destruct (build_levels_hierarchy lap3 chain3 3 3 chain3_valid lap3_square) as (ls & E & Hls).
  exists ls. split; [exact E|].
  assert (build_levels lap3 chain3 None 3 = Ok [{| l_A := lap3; l_next := None |}]) as E'
    by (vm_compute; reflexivity).
  rewrite E' in E. injection E as <-.
  destruct Hls as [[_ H]|[H _]]; [intros; by apply H | inversion H].
Defined.

Lemma build_levels_cut_witness :
  ∃ P, build_levels lap3 chain3 None 2 =
    Ok [{| l_A := lap3; l_next := Some ([0; 0; 0]%Z, P) |}; {| l_A := lap3; l_next := None |}] ∧ ncols P = 1.
Proof.
  refine (build_levels_cut lap3 chain3 3 2 [0; 0; 0]%Z 1%Z chain3_valid lap3_square _ chain3_aggregate _ _).
  - lia.
  - lia.
  - intros i j [f Hf]. destruct (joins_face chain3 3 chain3_valid f i j Hf) as (Hi & Hj & _).
    destruct i as [|[|[|i]]], j as [|[|[|j]]]; cbn; done || lia.
Defined.

(** A coarse solve for the witness: the right-hand side itself. *)
Definition w_solve (A : NumPy.mat Qc) (b : list Qc) : res (list Qc) := Ok b.
Definition w_levels : list (level Qc) := [{| l_A := lap3; l_next := None |}].
Definition ran (r : res (cg Qc)) : bool := match r with Ok _ => true | Raise _ => false end.
Lemma ran_spec r : ran r = true → ∃ s, r = Ok s.
Proof. destruct r as [s|]; [by exists s | done]. Qed.

Lemma run_trace_witness :
  ∃ s, run_amgx w_solve w_levels lap3 rhs3 1 new_recorder = Ok s ∧
    map label (steps (g_rec s)) = [(1, krylov_start, 0); (1, coarse_solve, 0); (1, krylov_update, 0)].
Proof.
  assert (ran (run_amgx w_solve w_levels lap3 rhs3 1 new_recorder) = true) as E by (vm_compute; reflexivity).
  apply ran_spec in E as [s E]. exists s. split; [exact E|].
  exact (proj1 (proj2 (run_trace w_solve w_levels lap3 rhs3 1 s) E)).
Defined.

Lemma cg_residual_witness :
  ∃ s, run_amgx w_solve w_levels lap3 rhs3 2 new_recorder = Ok s ∧ residual_of lap3 rhs3 (g_x s) = Ok (g_r s).
Proof.
  assert (ran (run_amgx w_solve w_levels lap3 rhs3 2 new_recorder) = true) as E by (vm_compute; reflexivity).
  apply ran_spec in E as [s E]. exists s. split; [exact E|].
  exact (cg_residual (vcycle_amgx w_solve) w_levels lap3 3 rhs3 2 new_recorder s lap3_square lap3_wf eq_refl E).
Defined.

Definition w_map : list Z := [0; 0; 1]%Z.
Definition coarse_of (r : res (NumPy.mat Qc * NumPy.mat Qc)) : bool := match r with Ok _ => true | Raise _ => false end.
Lemma galerkin_entries_witness :
  ∃ A_c P, galerkin lap3 w_map 2 = Ok (A_c, P) ∧ at_ A_c 0 1 = q (-1).
Proof.
  destruct (galerkin lap3 w_map 2) as [[A_c P]|e] eqn:E.
  2: { assert (coarse_of (galerkin lap3 w_map 2) = true) as H by (vm_compute; reflexivity).
       rewrite E in H. discriminate H. }
  exists A_c, P. split; [done|].
  rewrite (galerkin_entries lap3 A_c P w_map 2 3 0 1 lap3_square lap3_wf eq_refl); [vm_compute; reflexivity| |exact E|lia|lia].
  intros k e. destruct k as [|[|[|k]]]; cbn; intros Hk; simplify_eq; lia.
Defined.
End AmgWitness.
