(* ===== verification/AmgTables.v ===== *)
(** * demo/amgpcg/make_steps.py: the tables as text

    The rows of steps.csv, state.csv, grids.csv and aggregates.csv, with the numbers
    written out.  [show] is the formatting of a number to twelve digits and
    [to_float] its reading: the class [Format] has them, and [FormatLaws] says that
    what is written is read back as the rounded number.  The wording of a frame's
    detail is a parameter. *)
From stdpp Require Import gmap.
From S2P Require Export Amg.

(** [f'{x:.12e}'] and [float(s)] *)
Class Format (F : Type) := { show : F → str; to_float : str → res F }.
Class FormatLaws (F : Type) `{NumOps F, !Format F} := {
  read_show : ∀ x, to_float (show x) = Ok (printed x);
  show_text : ∀ x, show x ≠ [];
}.

Module Tables.
Import Amg.
Abbreviation row := (gmap str str).

Definition phase_name (p : phase) : str :=
  match p with
  | krylov_start => "krylov_start" | presmooth => "presmooth" | residual => "residual"
  | restrict => "restrict" | coarse_solve => "coarse_solve" | prolong => "prolong"
  | postsmooth => "postsmooth" | krylov_update => "krylov_update"
  end.

Section tables.
Context {F : Type} `{NumOps F, !Format F} (detail : frame F → str).

Definition num (n : nat) : str := dec (Z.of_nat n).
(** What [DictReader] gives for a row [DictWriter] has written. *)
Definition mk_row (l : list (str * str)) : row := list_to_map l.

Definition step_row (solver : str) (f : frame F) : row :=
  mk_row [("solver" : str, solver); ("step" : str, num (f_step f)); ("iter" : str, num (f_iter f));
          ("phase" : str, phase_name (f_phase f)); ("grid" : str, num (f_grid f));
          ("ngrid" : str, num (f_ngrid f)); ("detail" : str, detail f);
          ("resnorm" : str, show (f_resnorm f))].
Definition state_row (solver : str) (c : cell (F := F)) : row :=
  mk_row [("solver" : str, solver); ("step" : str, num (c_step c)); ("grid" : str, num (c_grid c));
          ("cell" : str, num (c_cell c)); ("x" : str, show (c_x c)); ("r" : str, show (c_r c))].
Definition grid_row (solver : str) (z : nonzero (F := F)) : row :=
  mk_row [("solver" : str, solver); ("grid" : str, num (z_grid z)); ("row" : str, num (z_row z));
          ("col" : str, num (z_col z)); ("value" : str, show (z_value z))].
Definition aggregate_row (solver : str) (a : nat * nat * Z) : row :=
  mk_row [("solver" : str, solver); ("grid" : str, num a.1.1); ("finest_cell" : str, num a.1.2);
          ("grid_cell" : str, dec a.2)].

(** The four files, for the solvers in the order they are run. *)
Definition all_rows {A} (mk : str → A → row) (of_result : result F → list A) (runs : list (str * result F)) :
    list row := flat_map (λ nr, map (mk nr.1) (of_result nr.2)) runs.
Definition steps_table := all_rows step_row (λ r, steps (r_frames r)).
Definition state_table := all_rows state_row (λ r, state (r_frames r)).
Definition grids_table := all_rows grid_row r_grids.
Definition aggregates_table := all_rows aggregate_row r_aggregates.

(** The names of the runs of [main]. *)
Definition runs_of (r : result F * result F * result F) : list (str * result F) :=
  let '(o, a, b) := r in [("of_gamg" : str, o); ("amgx" : str, a); ("brae" : str, b)].
End tables.
End Tables.
