(* ===== verification/Replay.v ===== *)
(** * demo/amgpcg/make_compare.py and replay.py

    The two programs that read a trace directory: make_compare.py, which recomputes
    each solver's residual from the dumped iterates and writes compare.csv, and
    replay.py, which loads the tables and hands one picture after the other to
    matplotlib.  A picture is the record of what is drawn; colours, fonts, labels of
    cells and the encoding of the video are matplotlib's.  [np.linalg.solve] and
    [np.round] are parameters. *)
From stdpp Require Import gmap.
From S2P Require Export AmgTables.

(** ** make_compare.py *)
Module Compare.
Import Amg Tables.

Record work := { w_key : str; w_sweeps : Z; w_spmv : Z; w_label : str }.
Definition WORK_PER_CYCLE : list work :=
  [{| w_key := "of_gamg"; w_sweeps := 4; w_spmv := 4; w_label := "OpenFOAM GAMG" |};
   {| w_key := "amgx"; w_sweeps := 4; w_spmv := 4; w_label := "AMGX (PCG+AGGREGATION)" |};
   {| w_key := "brae"; w_sweeps := 2; w_spmv := 3; w_label := "brae AMG-PCG" |};
   {| w_key := "brae_cheb"; w_sweeps := 4; w_spmv := 5; w_label := "brae AMG-PCG (Chebyshev deg 2)" |};
   {| w_key := "brae_gs"; w_sweeps := 2; w_spmv := 3; w_label := "brae AMG-PCG (multicolor GS)" |};
   {| w_key := "brae_soc"; w_sweeps := 2; w_spmv := 3; w_label := "brae AMG-PCG (strength filter)" |}].

Section compare.
Context {F : Type} `{NumOps F, !Format F}.
Context (solve : NumPy.mat F → list F → res (list F)).  (* np.linalg.solve *)
Abbreviation vec := (list F).
Abbreviation mat := (NumPy.mat F).

(** The diagonal by cell and the faces in the order of the table. *)
Record face := { a_upper : bool; a_owner : Z; a_neighbour : Z; a_value : F }.
Definition system_step (s : gmap Z F * list face) (r : row) : res (gmap Z F * list face) :=
  value ← float_field to_float r "value";
  owner ← int_field r "owner";
  neighbour ← int_field r "neighbour";
  kind ← field r "kind";
  Ok (if bool_decide (kind = "diag" :> str) then (<[owner := value]> s.1, s.2)
      else (s.1, s.2 ++ [{| a_upper := bool_decide (kind = "upper" :> str); a_owner := owner;
                            a_neighbour := neighbour; a_value := value |}])).
Definition put_face (A : mat) (f : face) : res mat :=
  if a_upper f then set_entry A (a_owner f) (a_neighbour f) (a_value f)
  else set_entry A (a_neighbour f) (a_owner f) (a_value f).
Definition zero_mat (n : nat) : mat := {| ncols := n; rows := repeat (zeros n) n |}.
Definition read_system (matrix rhs : list row) : res (mat * vec) :=
  '(diag, faces) ← foldR system_step matrix (∅, []);
  let n := size diag in
  A ← foldR (λ A e, set_entry A e.1 e.1 e.2) (map_to_list diag) (zero_mat n);
  A ← foldR put_face faces A;
  b ← read_rhs to_float rhs n;
  Ok (A, b).

(** cycle -> psi *)
Definition read_cycles (table : list row) (n : nat) : res (gmap Z vec) :=
  foldR (reference_step to_float n) table ∅.

(** A row of compare.csv, with the numbers before they are written. *)
Record entry := {
  e_solver : str; e_label : str; e_cycle : Z; e_resnorm : F; e_err_inf : F;
  e_fine_sweeps : Z; e_fine_spmv : Z;
}.
(** [np.abs(b - A @ x).sum() / norm_factor] and [np.abs(x - x_exact).max()] *)
Definition entry_of (A : mat) (b x_exact : vec) (w : work) (e : Z * vec) : res entry :=
  r ← residual_of A b e.2;
  d ← vsub e.2 x_exact;
  worst ← vmax (map absf d);
  Ok {| e_solver := w_key w; e_label := w_label w; e_cycle := e.1;
        e_resnorm := div (norm1 r) (norm1 b); e_err_inf := worst;
        e_fine_sweeps := e.1 * w_sweeps w; e_fine_spmv := e.1 * w_spmv w |}.
(** The rows of one solver; none when its dump is not there. *)
Definition entries_of (cycles : str → option (list row)) (A : mat) (b x_exact : vec) (w : work) :
    res (list entry) :=
  match cycles (w_key w) with
  | None => Ok []
  | Some table =>
      psi ← read_cycles table (length b);
      mapR (entry_of A b x_exact w) (by_key (map_to_list psi))
  end.
Definition entry_row (e : entry) : row :=
  mk_row [("solver" : str, e_solver e); ("label" : str, e_label e); ("cycle" : str, dec (e_cycle e));
    ("resnorm" : str, show (e_resnorm e)); ("err_inf" : str, show (e_err_inf e));
    ("fine_sweeps" : str, dec (e_fine_sweeps e)); ("fine_spmv" : str, dec (e_fine_spmv e))].

(** The line of the summary: nothing without rows, and the first cycle whose written
    residual is below 1e-8, with the products spent. *)
Inductive reached := NotReached | Reached (cycle spmv : Z).
Definition first_min (e : entry) (l : list entry) : entry :=
  fold_left (λ m e, if (e_cycle e <? e_cycle m)%Z then e else m) l e.
Definition summary_of (rows : list entry) (w : work) : option reached :=
  match List.filter (λ e, bool_decide (e_solver e = w_key w)) rows with
  | [] => None
  | matching =>
      match List.filter (λ e, ltb (printed (e_resnorm e)) (lit 1 8)) matching with
      | [] => Some NotReached
      | e :: l => let m := first_min e l in Some (Reached (e_cycle m) (e_fine_spmv m))
      end
  end.

(** The rows of compare.csv and the summary.  [cycles key] is the file
    [<key>_cycles.csv] if it is there. *)
Definition main (matrix rhs : list row) (cycles : str → option (list row)) :
    res (list entry * list (str * reached)) :=
  '(A, b) ← read_system matrix rhs;
  x_exact ← solve A b;
  _ ← (if nrows A =? 0 then Raise ValueError else Ok tt);  (* the least eigenvalue *)
  l ← mapR (entries_of cycles A b x_exact) WORK_PER_CYCLE;
  let rows := concat l in
  Ok (rows, omap (λ w, pair (w_label w) <$> summary_of rows w) WORK_PER_CYCLE).
Definition compare_table (rows : list entry) : list row := map entry_row rows.
End compare.
Arguments entry : clear implicits.
End Compare.

(** ** replay.py *)
Module Replay.
Import Amg Tables.

(** The titles of the solvers and the wording of the phases. *)
Definition SOLVER_LABEL : list (str * str) :=
  [("of_gamg" : str, "OpenFOAM GAMG" : str); ("amgx" : str, "AMGX  (PCG + AGGREGATION)" : str);
   ("brae" : str, "brae  AMG-PCG" : str); ("brae_cheb" : str, "brae AMG-PCG (Chebyshev)" : str);
   ("brae_gs" : str, "brae AMG-PCG (multicolor GS)" : str);
   ("brae_soc" : str, "brae AMG-PCG (strength filter)" : str)].
Definition PHASE_TEXT : list (str * str) :=
  [("krylov_start" : str, "iteration begins" : str); ("presmooth" : str, "pre-smoothing sweep" : str);
   ("residual" : str, "compute residual  r = b - A x" : str);
   ("restrict" : str, "RESTRICT  r down to the coarse grid" : str);
   ("coarse_solve" : str, "solve the coarsest grid" : str);
   ("prolong" : str, "PROLONG  the correction back up" : str);
   ("postsmooth" : str, "post-smoothing sweep" : str);
   ("krylov_update" : str, "Krylov update  x += alpha p" : str)].
Definition PHASE_COLOUR : list (str * str) :=
  [("krylov_start" : str, "#8d99ae" : str); ("presmooth" : str, "#f4a259" : str); ("residual" : str, "#8d99ae" : str);
   ("restrict" : str, "#e4572e" : str); ("coarse_solve" : str, "#9b5de5" : str); ("prolong" : str, "#3f8efc" : str);
   ("postsmooth" : str, "#f4a259" : str); ("krylov_update" : str, "#43aa8b" : str)].
(** [d.get(k, d)] *)
Definition colour_of (phase : str) : str :=
  match List.find (λ e, bool_decide (e.1 = phase)) PHASE_COLOUR with Some e => e.2 | None => "#333333" end.
(** [d.get(k, k)] *)
Definition wording (d : list (str * str)) (k : str) : str :=
  match List.find (λ e, bool_decide (e.1 = k)) d with Some e => e.2 | None => k end.

(** The solvers that are drawn. *)
Definition SOLVER_COLOUR : list str := ["of_gamg" : str; "amgx" : str; "brae" : str].

Section replay.
Context {F : Type} `{NumOps F, !Format F}.
Context (round9 : F → F).  (* np.round(x, 9) *)
Abbreviation vec := (list F).
Abbreviation mat := (NumPy.mat F).

(** ** Loading *)
Definition dense_list {A} (cells : gmap Z A) : res (list A) := entries cells (size cells).

(** [np.unique] and [np.searchsorted], for an ordered array without NaN. *)
Definition unique (l : vec) : vec :=
  fold_right (λ x acc, match acc with y :: _ => if ltb x y then x :: acc else acc | [] => [x] end) []
    (sort_by leb l).
Definition searchsorted (u : vec) (x : F) : nat := length (List.filter (λ y, ltb y x) u).

Record mesh := { m_n : nat; m_col : list nat; m_row : list nat; m_ncol : nat; m_nrow : nat }.
Definition mesh_step (cells : gmap Z (F * F)) (r : row) : res (gmap Z (F * F)) :=
  x ← float_field to_float r "x";
  y ← float_field to_float r "y";
  c ← int_field r "cell";
  Ok (<[c := (x, y)]> cells).
Definition load_mesh (table : list row) : res mesh :=
  cells ← foldR mesh_step table ∅;
  l ← dense_list cells;
  let xs := map (λ c, round9 c.1) l in
  let ys := map (λ c, round9 c.2) l in
  Ok {| m_n := length l; m_col := map (searchsorted (unique xs)) xs; m_row := map (searchsorted (unique ys)) ys;
        m_ncol := length (unique xs); m_nrow := length (unique ys) |}.

(** A row of steps.csv; [None] is NaN. *)
Record rstep := {
  q_step : Z; q_iter : Z; q_phase : str; q_grid : Z; q_ngrid : Z; q_detail : str; q_resnorm : option F;
}.
Definition resnorm_field (r : row) : res (option F) :=
  t ← field r "resnorm"; match t with [] => Ok None | _ => Some <$> to_float t end.
Definition rstep_of (r : row) : res rstep :=
  step ← int_field r "step";
  iter ← int_field r "iter";
  phase ← field r "phase";
  grid ← int_field r "grid";
  ngrid ← int_field r "ngrid";
  detail ← field r "detail";
  resnorm ← resnorm_field r;
  Ok {| q_step := step; q_iter := iter; q_phase := phase; q_grid := grid; q_ngrid := ngrid;
        q_detail := detail; q_resnorm := resnorm |}.
Definition steps_step (m : gmap str (list rstep)) (r : row) : res (gmap str (list rstep)) :=
  solver ← field r "solver";
  s ← rstep_of r;
  Ok (<[solver := default [] (m !! solver) ++ [s]]> m).
Definition load_steps (table : list row) : res (gmap str (list rstep)) := foldR steps_step table ∅.

(** (solver, step) -> cell -> (x, r), and the two arrays of each. *)
Definition state_step (m : gmap (str * Z) (gmap Z (F * F))) (r : row) : res (gmap (str * Z) (gmap Z (F * F))) :=
  solver ← field r "solver";
  step ← int_field r "step";
  x ← float_field to_float r "x";
  y ← float_field to_float r "r";
  cell ← int_field r "cell";
  Ok (<[(solver, step) := <[cell := (x, y)]> (default ∅ (m !! (solver, step)))]> m).
Definition pack {K} `{Countable K} {A B} (g : A → res B) (m : gmap K A) : res (gmap K B) :=
  l ← mapR (λ e : K * A, b ← g e.2; Ok (e.1, b)) (map_to_list m); Ok (list_to_map l).
Definition load_state (table : list row) : res (gmap (str * Z) (list (F * F))) :=
  m ← foldR state_step table ∅; pack dense_list m.

(** (solver, grid) -> operator *)
Definition grids_step (m : gmap (str * Z) (list (Z * Z * F))) (r : row) : res (gmap (str * Z) (list (Z * Z * F))) :=
  solver ← field r "solver";
  grid ← int_field r "grid";
  i ← int_field r "row";
  j ← int_field r "col";
  v ← float_field to_float r "value";
  Ok (<[(solver, grid) := default [] (m !! (solver, grid)) ++ [(i, j, v)]]> m).
Definition grid_of (triples : list (Z * Z * F)) : res mat :=
  match map (λ t, Z.max t.1.1 t.1.2) triples with
  | [] => Raise ValueError
  | k :: l =>
      let size := fold_left Z.max l k + 1 in
      if (size <? 0)%Z then Raise ValueError
      else foldR (λ A t, set_entry A t.1.1 t.1.2 t.2) triples (Compare.zero_mat (Z.to_nat size))
  end%Z.
Definition load_grids (table : list row) : res (gmap (str * Z) mat) :=
  m ← foldR grids_step table ∅; pack grid_of m.

(** (solver, grid) -> the cell of that grid each finest cell belongs to *)
Definition aggregates_step (m : gmap (str * Z) (gmap Z Z)) (r : row) : res (gmap (str * Z) (gmap Z Z)) :=
  grid_cell ← int_field r "grid_cell";
  solver ← field r "solver";
  grid ← int_field r "grid";
  finest ← int_field r "finest_cell";
  Ok (<[(solver, grid) := <[finest := grid_cell]> (default ∅ (m !! (solver, grid)))]> m).
Definition load_aggregates (table : list row) : res (gmap (str * Z) (list Z)) :=
  m ← foldR aggregates_step table ∅; pack dense_list m.

(** The residual norms of each solver by cycle: from compare.csv if it is there,
    else from the updates of steps.csv, with 1 for the start. *)
Definition compare_step (m : gmap str (gmap Z F)) (r : row) : res (gmap str (gmap Z F)) :=
  v ← float_field to_float r "resnorm";
  solver ← field r "solver";
  cycle ← int_field r "cycle";
  Ok (<[solver := <[cycle := v]> (default ∅ (m !! solver))]> m).
Definition update_step (m : gmap str (gmap Z F)) (r : row) : res (gmap str (gmap Z F)) :=
  phase ← field r "phase";
  if bool_decide (phase = "krylov_update" :> str) then
    t ← field r "resnorm";
    match t with
    | [] => Ok m
    | _ =>
        v ← to_float t;
        solver ← field r "solver";
        iter ← int_field r "iter";
        Ok (<[solver := <[iter := v]> (default ∅ (m !! solver))]> m)
    end
  else Ok m.
Definition with_start (e : gmap Z F) : gmap Z F :=
  match e !! 0%Z with Some _ => e | None => <[0%Z := one]> e end.
Definition load_histories (compare : option (list row)) (steps : list row) : res (gmap str (gmap Z F)) :=
  match compare with
  | Some table => foldR compare_step table ∅
  | None =>
      match foldR update_step steps ∅ with Ok m => Ok (with_start <$> m) | Raise e => Raise e end
  end.
Definition drawn_histories (m : gmap str (gmap Z F)) : gmap str vec :=
  (λ e : gmap Z F, map snd (by_key (map_to_list e))) <$> filter (λ ne, ne.1 ∈ SOLVER_COLOUR) m.
Definition build_histories (compare : option (list row)) (steps : list row) : res (gmap str vec) :=
  match load_histories compare steps with Ok m => Ok (drawn_histories m) | Raise e => Raise e end.

(** ** What is drawn *)

(** The thick edges: the pairs of a cell and its neighbour to the right or above that
    belong to different aggregates. *)
Definition cell_at (m : mesh) (i j : nat) : option nat :=
  last (List.filter (λ c, (nth c (m_col m) 0 =? i) && (nth c (m_row m) 0 =? j)) (seq 0 (length (m_col m)))).
Definition edge (m : mesh) (agg : list Z) (cell : nat) (other : option nat) : res (list (nat * nat)) :=
  match other with
  | None => Ok []
  | Some o => a ← getitem agg cell; b ← getitem agg o; Ok (if (a =? b)%Z then [] else [(cell, o)])
  end.
Definition edges_of (m : mesh) (agg : list Z) (c : nat) : res (list (nat * nat)) :=
  let i := nth c (m_col m) 0 in
  let j := nth c (m_row m) 0 in
  r ← edge m agg c (cell_at m (S i) j);
  u ← edge m agg c (cell_at m i (S j));
  Ok (r ++ u).
(** The mesh panel: the value of each cell and the edges. *)
Definition limit_of (values : vec) : res F := vmax (map absf values).
Definition draw_mesh (m : mesh) (agg : list Z) (values : vec) : res (vec * list (nat * nat)) :=
  _ ← limit_of values;
  cells ← mapR (getitem values) (seq 0 (length (m_col m)));
  l ← mapR (edges_of m agg) (seq 0 (length (m_col m)));
  Ok (cells, concat l).

(** The mark on the V-cycle: on the way down for the phases before the coarse solve,
    else on the way up. *)
Definition DESCENDING : list str := ["presmooth" : str; "residual" : str; "restrict" : str; "krylov_start" : str].
Definition position_of (n_levels : Z) (s : rstep) : Z * Z :=
  if bool_decide (q_phase s ∈ DESCENDING) then (q_grid s, - q_grid s)%Z
  else (2 * n_levels - 2 - q_grid s, - q_grid s)%Z.

(** The panel of the V-cycle: the nodes of the path from the finest grid to the coarsest and
    back, the mark with its colour and the cells of its grid, and the grids named on the left. *)
Record cycle_panel := {
  cp_path : list (Z * Z); cp_active : Z * Z; cp_colour : str; cp_ngrid : Z; cp_grids : list Z;
}.
Definition draw_cycle (n_levels : Z) (s : rstep) : cycle_panel :=
  let ks := map Z.of_nat (seq 0 (Z.to_nat n_levels)) in
  let down := map (λ k, (k, - k)%Z) ks in
  let up := map (λ k, (2 * n_levels - 2 - k, - k)%Z) ks in
  {| cp_path := down ++ rev up; cp_active := position_of n_levels s; cp_colour := colour_of (q_phase s);
     cp_ngrid := q_ngrid s; cp_grids := ks |}.

(** The panel of the operator: its size, how many entries are not zero, and, of an
    operator that is small enough, these entries. *)
Record matrix_panel := { mp_size : nat; mp_count : nat; mp_entries : list (nat * nat * F) }.
Definition entries_not_zero (A : mat) : list (nat * nat * F) :=
  flat_map (λ i, flat_map (λ j, if is_zero (at_ A i j) then [] else [(i, j, at_ A i j)]) (seq 0 (ncols A)))
    (seq 0 (nrows A)).
Definition draw_matrix (A : mat) : matrix_panel :=
  {| mp_size := nrows A; mp_count := length (entries_not_zero A);
     mp_entries := if nrows A <=? 24 then entries_not_zero A else [] |}.

(** The banner: the phase, and the step's detail where it says more. *)
Definition banner (s : rstep) : str :=
  let phase_text := wording PHASE_TEXT (q_phase s) in
  if bool_decide (q_detail s = []) || bool_decide (q_detail s = phase_text) then phase_text
  else phase_text ++ ("  --  " : str) ++ q_detail s.

(** The mark on the curve of residuals. *)
Definition mark (histories : gmap str vec) (solver : str) (iteration : Z) : res (option F) :=
  match histories !! solver with
  | Some h => if (iteration <? Z.of_nat (length h))%Z then Some <$> get h iteration else Ok None
  | None => Ok None
  end.

(** The tables of a trace directory. *)
Record tables := {
  t_mesh : list row; t_steps : list row; t_state : list row; t_grids : list row;
  t_aggregates : list row; t_compare : option (list row);
}.
Inductive field_choice := Fx | Fr.
Definition chosen (fc : field_choice) (v : list (F * F)) : vec :=
  map (match fc with Fx => fst | Fr => snd end) v.

(** One picture of [render]. *)
Record view := {
  v_title : str; v_banner : str; v_frame : rstep; v_painted : vec; v_boundaries : list (nat * nat); v_limit : F;
  v_operator : option matrix_panel; v_cycle : cycle_panel; v_mark : option F;
}.

(** Everything that is loaded; the operators only for [render]. *)
Record loaded := {
  d_mesh : mesh; d_steps : gmap str (list rstep); d_state : gmap (str * Z) (list (F * F));
  d_grids : gmap (str * Z) mat; d_aggregates : gmap (str * Z) (list Z); d_histories : gmap str vec;
}.
Definition load (with_grids : bool) (t : tables) : res loaded :=
  m ← load_mesh (t_mesh t);
  steps ← load_steps (t_steps t);
  state ← load_state (t_state t);
  grids ← (if with_grids then load_grids (t_grids t) else Ok ∅);
  aggs ← load_aggregates (t_aggregates t);
  h ← build_histories (t_compare t) (t_steps t);
  Ok {| d_mesh := m; d_steps := steps; d_state := state; d_grids := grids; d_aggregates := aggs; d_histories := h |}.

(** The vector of a step and the values painted on the finest cells. *)
Definition values_of (d : loaded) (fc : field_choice) (solver : str) (s : rstep) : res vec :=
  v ← from_opt KeyError (d_state d !! (solver, q_step s)); Ok (chosen fc v).
Definition painted_of (d : loaded) (solver : str) (s : rstep) (values : vec) : res (list Z * vec) :=
  agg ← from_opt KeyError (d_aggregates d !! (solver, q_grid s));
  painted ← mapR (get values) agg;
  Ok (agg, painted).

(** The largest value of each grid over the run. *)
Definition norms_step (d : loaded) (fc : field_choice) (solver : str) (norms : gmap Z F) (s : rstep) :
    res (gmap Z F) :=
  values ← values_of d fc solver s;
  limit ← limit_of values;
  Ok (<[q_grid s := pmax (default zero (norms !! q_grid s)) limit]> norms).

Definition draw (d : loaded) (norms : gmap Z F) (n_levels : Z)
    (fc : field_choice) (solver : str) (s : rstep) : res view :=
  values ← values_of d fc solver s;
  '(agg, painted) ← painted_of d solver s values;
  limit ← from_opt KeyError (norms !! q_grid s);
  '(cells, edges) ← draw_mesh (d_mesh d) agg painted;
  k ← mark (d_histories d) solver (q_iter s);
  Ok {| v_title := wording SOLVER_LABEL solver; v_banner := banner s; v_frame := s; v_painted := cells; v_boundaries := edges; v_limit := limit;
        v_operator := draw_matrix <$> d_grids d !! (solver, q_grid s); v_cycle := draw_cycle n_levels s; v_mark := k |}.

(** The exit status and the pictures. *)
Definition render (t : tables) (solver : str) (fc : field_choice) : res (Z * list view) :=
  d ← load true t;
  match d_steps d !! solver with
  | None => Ok (1%Z, [])
  | Some frames =>
      n_levels ← n_coarse_of (map q_grid frames);
      norms ← foldR (norms_step d fc solver) frames ∅;
      views ← mapR (draw d norms n_levels fc solver) frames;
      Ok (0%Z, views)
  end.

(** One picture of [render_compare]: for each solver its step, and the mark of brae. *)
Definition clamp_index (frames : list rstep) (index : nat) : Z :=
  Z.min (Z.of_nat index) (Z.of_nat (length frames) - 1).
Definition draw_solver (d : loaded) (fc : field_choice) (index : nat) (solver : str) : res (rstep * vec) :=
  s ← get (default [] (d_steps d !! solver)) (clamp_index (default [] (d_steps d !! solver)) index);
  values ← values_of d fc solver s;
  '(agg, painted) ← painted_of d solver s values;
  '(cells, _) ← draw_mesh (d_mesh d) agg painted;
  Ok (s, cells).
Definition draw_compare (d : loaded) (fc : field_choice) (solvers : list str) (index : nat) :
    res (list (rstep * vec) * option F) :=
  panels ← mapR (draw_solver d fc index) solvers;
  let brae := default [] (d_steps d !! ("brae" : str)) in
  s ← get brae (clamp_index brae index);
  k ← mark (d_histories d) ("brae" : str) (q_iter s);
  Ok (panels, k).
Definition render_compare (t : tables) (fc : field_choice) : res (Z * list (list (rstep * vec) * option F)) :=
  d ← load false t;
  let solvers := List.filter (λ s, bool_decide (is_Some (d_steps d !! s))) SOLVER_COLOUR in
  n_frames ← match map (λ s, length (default [] (d_steps d !! s))) solvers with
             | [] => Raise ValueError
             | k :: l => Ok (fold_left Nat.max l k)
             end;
  all_values ← mapR (λ s, mapR (values_of d fc s) (default [] (d_steps d !! s))) solvers;
  limit ← limit_of (concat (concat all_values));
  views ← mapR (draw_compare d fc solvers) (seq 0 n_frames);
  Ok (0%Z, views).

(** [main]: the arguments and the file written. *)
Record args := { x_case : str; x_solver : str; x_compare : bool; x_field : field_choice; x_gif : bool; x_output : option str }.
Definition out_path (a : args) : str :=
  match x_output a with
  | Some ((_ :: _) as o) => o
  | _ =>
      let name := (if x_compare a then ("compare" : str) else x_solver a)
                  ++ (if x_gif a then (".gif" : str) else (".mp4" : str)) in
      match x_case a with
      | [] => name
      | c => if ends "/" c then c ++ name else c ++ ("/" : str) ++ name
      end
  end.
Inductive film :=
  | One (views : list view)
  | Three (views : list (list (rstep * vec) * option F)).
Definition main (t : tables) (a : args) : res (Z * film) :=
  if x_compare a then '(st, v) ← render_compare t (x_field a); Ok (st, Three v)
  else '(st, v) ← render t (x_solver a) (x_field a); Ok (st, One v).
End replay.
End Replay.
