(* ===== verification/ReplayLoad.v ===== *)
(** * demo/amgpcg: the tables are read back

    The text of an integer is read back; a table grouped by its keys; and what
    replay.py loads from the tables make_steps.py writes: each solver's frames in
    order, the vectors of each frame, the aggregates of each grid. *)
From stdpp Require Import gmap.
From S2P Require Export AmgTrace Replay.

Module Load.
Import Amg Tables Replay.

(** ** The text of an integer *)
Fixpoint value_acc (acc : N) (u : Decimal.uint) : N :=
  match u with
  | Decimal.Nil => acc
  | Decimal.D0 u => value_acc (acc * 10) u | Decimal.D1 u => value_acc (acc * 10 + 1) u
  | Decimal.D2 u => value_acc (acc * 10 + 2) u | Decimal.D3 u => value_acc (acc * 10 + 3) u
  | Decimal.D4 u => value_acc (acc * 10 + 4) u | Decimal.D5 u => value_acc (acc * 10 + 5) u
  | Decimal.D6 u => value_acc (acc * 10 + 6) u | Decimal.D7 u => value_acc (acc * 10 + 7) u
  | Decimal.D8 u => value_acc (acc * 10 + 8) u | Decimal.D9 u => value_acc (acc * 10 + 9) u
  end%N.

Lemma value_acc_pos u p : value_acc (N.pos p) u = N.pos (Pos.of_uint_acc u p).
Proof.
  revert p; induction u as [|u IH|u IH|u IH|u IH|u IH|u IH|u IH|u IH|u IH|u IH]; intros p;
    cbn [value_acc Pos.of_uint_acc]; [done|..].
  all: rewrite <- IH; f_equal; lia.
Qed.
Lemma value_acc_uint u : value_acc 0 u = N.of_uint u.
Proof.
  unfold N.of_uint. induction u as [|u IH|u IH|u IH|u IH|u IH|u IH|u IH|u IH|u IH|u IH];
    cbn [value_acc Pos.of_uint]; [done|exact IH|..].
  all: apply value_acc_pos.
Qed.

Fixpoint nb (u : Decimal.uint) : nat :=
  match u with
  | Decimal.Nil => 0
  | Decimal.D0 u | Decimal.D1 u | Decimal.D2 u | Decimal.D3 u | Decimal.D4 u
  | Decimal.D5 u | Decimal.D6 u | Decimal.D7 u | Decimal.D8 u | Decimal.D9 u => S (nb u)
  end.
Abbreviation utext u := (String.list_ascii_of_string (DecimalString.NilEmpty.string_of_uint u)).

Lemma digits_go_utext u acc n b : digits_go acc n b (utext u) = (value_acc acc u, n + nb u, []).
Proof.
  revert acc n b; induction u as [|u IH|u IH|u IH|u IH|u IH|u IH|u IH|u IH|u IH|u IH]; intros acc n b.
  { cbn. by rewrite Nat.add_0_r. }
  all: cbn [DecimalString.NilEmpty.string_of_uint String.list_ascii_of_string digits_go value_acc nb].
  all: match goal with |- context [is_digit ?c] => change (is_digit c) with true end; cbn iota.
  all: rewrite IH; rewrite Nat.add_succ_r; cbn [Nat.add].
  all: repeat f_equal; try (change (digit_val _) with 0%N; lia); vm_compute; try reflexivity.
Qed.

Lemma utext_digits u : Forall (λ c, is_digit c = true) (utext u).
Proof.
  induction u as [|u IH|u IH|u IH|u IH|u IH|u IH|u IH|u IH|u IH|u IH];
    cbn [DecimalString.NilEmpty.string_of_uint String.list_ascii_of_string]; constructor; done.
Qed.
Lemma lstrip_id s : Forall (λ c, is_space c = false) s → lstrip s = s.
Proof. intros H. destruct H as [|c s Hc _]; [done|]. cbn. by rewrite Hc. Qed.
Lemma strip_id s : Forall (λ c, is_space c = false) s → strip s = s.
Proof.
  intros H. unfold strip, rstrip. rewrite (lstrip_id s H), lstrip_id by (by apply Forall_rev).
  apply rev_involutive.
Qed.
Lemma digit_not_space c : is_digit c = true → is_space c = false.
Proof. destruct c as [[] [] [] [] [] [] [] []]; vm_compute; congruence. Qed.
Lemma take_sign_utext u : 0 < nb u → take_sign (utext u) = (false, utext u).
Proof. destruct u; cbn [nb]; [lia|..]; intros _; reflexivity. Qed.

Lemma ztext_cases d : ∃ u, String.list_ascii_of_string (DecimalString.NilZero.string_of_uint d) = utext u ∧
  value_acc 0 u = N.of_uint d ∧ 0 < nb u.
Proof.
  destruct d eqn:E; [exists (Decimal.D0 Decimal.Nil); split; [done|]; cbn; split; [done|lia]|..].
  all: exists d; subst d; split; [done|]; split; [apply value_acc_uint | cbn; lia].
Qed.

Lemma int_of_str_dec z : int_of_str (dec z) = Ok z.
Proof.
  unfold int_of_str, dec. rewrite <- (DecimalZ.of_to z) at 2.
  destruct (Z.to_int z) as [d|d]; cbn [DecimalString.NilZero.string_of_int String.list_ascii_of_string];
    destruct (ztext_cases d) as (u & -> & Hv & Hn).
  - rewrite strip_id by (eapply Forall_impl; [apply utext_digits | exact digit_not_space]).
    rewrite take_sign_utext, digits_go_utext by done.
    destruct (0 + nb u) as [|k] eqn:E; [lia|]. rewrite Hv. done.
  - rewrite strip_id.
    2: { constructor; [done|]. eapply Forall_impl; [apply utext_digits | exact digit_not_space]. }
    cbn [take_sign]. rewrite digits_go_utext.
    destruct (0 + nb u) as [|k] eqn:E; [lia|]. rewrite Hv. done.
Qed.
Lemma int_of_str_num n : int_of_str (num n) = Ok (Z.of_nat n).
Proof. apply int_of_str_dec. Qed.

(** ** Tables grouped by their keys *)
Section group.
Context {K X : Type} `{Countable K} {A : Type}.

(** The rows of one key. *)
Definition of_key (key : X → K) (k : K) (l : list X) : list X :=
  List.filter (λ x, bool_decide (key x = k)) l.

(** A loop that appends each row's value to its key's list. *)
Lemma group_append (f : gmap K (list A) → X → res (gmap K (list A))) key val l m :
  (∀ m x, x ∈ l → f m x = Ok (<[key x := default [] (m !! key x) ++ [val x]]> m)) →
  ∃ m', foldR f l m = Ok m' ∧ ∀ k, m' !! k =
    match of_key key k l with [] => m !! k | l' => Some (default [] (m !! k) ++ map val l') end.
Proof.
  revert m; induction l as [|x l IH]; intros m Hf; [by exists m|]. cbn [foldR].
  rewrite Hf by left. cbn [mbind res_mbind].
  destruct (IH (<[key x := default [] (m !! key x) ++ [val x]]> m)) as (m' & E & Hm).
  { intros m1 y Hy. apply Hf. by right. }
  exists m'. split; [done|]. intros k. rewrite Hm. unfold of_key. cbn [List.filter].
  destruct (decide (key x = k)) as [<-|Hne].
  - rewrite bool_decide_true, lookup_insert_eq by done. cbn [from_option]. unfold id at 1.
    destruct (List.filter _ l); [done|]. cbn [map]. unfold id. by rewrite <- app_assoc.
  - by rewrite bool_decide_false, lookup_insert_ne by done.
Qed.

(** A loop that enters each row's value into its key's dictionary. *)
Lemma group_insert (f : gmap K (gmap Z A) → X → res (gmap K (gmap Z A))) key sub val l m :
  (∀ m x, x ∈ l → f m x = Ok (<[key x := <[sub x := val x]> (default ∅ (m !! key x))]> m)) →
  ∃ m', foldR f l m = Ok m' ∧ ∀ k, m' !! k =
    match of_key key k l with
    | [] => m !! k
    | l' => Some (fold_left (λ d x, <[sub x := val x]> d) l' (default ∅ (m !! k)))
    end.
Proof.
  revert m; induction l as [|x l IH]; intros m Hf; [by exists m|]. cbn [foldR].
  rewrite Hf by left. cbn [mbind res_mbind].
  destruct (IH (<[key x := <[sub x := val x]> (default ∅ (m !! key x))]> m)) as (m' & E & Hm).
  { intros m1 y Hy. apply Hf. by right. }
  exists m'. split; [done|]. intros k. rewrite Hm. unfold of_key. cbn [List.filter].
  destruct (decide (key x = k)) as [<-|Hne].
  - rewrite bool_decide_true, lookup_insert_eq by done. cbn [from_option fold_left].
    by destruct (List.filter _ l).
  - by rewrite bool_decide_false, lookup_insert_ne by done.
Qed.
End group.

(** A dictionary entered at 0, 1, 2, ... is the list. *)
Lemma fold_insert_seq {X A} (sub : X → Z) (val : X → A) l s (d : gmap Z A) :
  map sub l = map Z.of_nat (seq s (length l)) →
  (∀ k, is_Some (d !! k) → (k < Z.of_nat s)%Z) →
  let d' := fold_left (λ d x, <[sub x := val x]> d) l d in
  size d' = size d + length l ∧
  (∀ k, (k < Z.of_nat s)%Z → d' !! k = d !! k) ∧
  ∀ i x, l !! i = Some x → d' !! Z.of_nat (s + i) = Some (val x).
Proof.
  revert s d; induction l as [|x l IH]; intros s d Hs Hd; cbn [fold_left length map seq] in *.
  { split; [lia|]. split; [done|]. by intros i x. }
  injection Hs as Hx Hs.
  destruct (IH (S s) (<[sub x := val x]> d) Hs) as (H1 & H2 & H3).
  { intros k Hk. destruct (decide (sub x = k)) as [<-|]; [lia|].
    rewrite lookup_insert_ne in Hk by done. specialize (Hd _ Hk). lia. }
  assert (d !! sub x = None) as Hn.
  { destruct (d !! sub x) eqn:E; [|done]. specialize (Hd (sub x) ltac:(eauto)). lia. }
  split; [rewrite H1, map_size_insert_None by done; lia|]. split.
  - intros k Hk. rewrite H2 by lia. rewrite lookup_insert_ne; [done|]. lia.
  - intros [|i] y Hy; cbn in Hy.
    + injection Hy as ->. rewrite Nat.add_0_r, H2 by lia. by rewrite Hx, lookup_insert_eq.
    + rewrite Nat.add_succ_r. by apply (H3 i y).
Qed.
Lemma dense_list_fold {X A} (sub : X → Z) (val : X → A) l :
  map sub l = map Z.of_nat (seq 0 (length l)) →
  dense_list (fold_left (λ d x, <[sub x := val x]> d) l ∅) = Ok (map val l).
Proof.
  intros Hs. destruct (fold_insert_seq sub val l 0 ∅ Hs) as (H1 & _ & H3).
  { intros k [? Hk]. by rewrite lookup_empty in Hk. }
  unfold dense_list, entries. rewrite H1, map_size_empty. cbn [Nat.add].
  apply mapR_Ok, Forall2_same_length_lookup. split; [by rewrite length_seq, length_map|].
  intros i j y Hi Hy. apply lookup_seq in Hi as [-> Hi]. rewrite list_lookup_fmap in Hy.
  apply fmap_Some in Hy as (x & Hx & ->). rewrite Nat.add_0_l.
  specialize (H3 i x Hx). rewrite Nat.add_0_l in H3. by rewrite H3.
Qed.

(** What [pack] does to each entry. *)
Lemma pack_spec {K} `{Countable K} {A B} (g : A → res B) (m : gmap K A) :
  (∀ k a, m !! k = Some a → ∃ b, g a = Ok b) →
  ∃ m', pack g m = Ok m' ∧ (∀ k, m !! k = None → m' !! k = None) ∧
    ∀ k a b, m !! k = Some a → g a = Ok b → m' !! k = Some b.
Proof.
  intros Hg. unfold pack.
  destruct (mapR_total (λ e : K * A, b ← g e.2; Ok (e.1, b)) (map_to_list m)) as [l El].
  { intros [k a] Hin%elem_of_map_to_list. destruct (Hg k a Hin) as [b Hb]. exists (k, b). cbn. by rewrite Hb. }
  rewrite El. cbn [mbind res_mbind]. eexists. split; [reflexivity|].
  apply mapR_Ok in El.
  assert (map fst l = map fst (map_to_list m)) as Ef.
  { clear Hg. induction El as [|e e' l1 l2 He _ IH]; [done|]. cbn [map]. rewrite IH.
    apply bind_Ok in He as (b & _ & [= <-]). done. }
  assert (NoDup l.*1) as Hnd by (change (l.*1) with (map fst l); rewrite Ef; apply NoDup_fst_map_to_list).
  split.
  - intros k Hk. apply not_elem_of_list_to_map_1. change (l.*1) with (map fst l). rewrite Ef.
    intros ([k' a] & -> & Hin%elem_of_map_to_list)%list_elem_of_fmap. cbn in Hk. congruence.
  - intros k a b Hk Hb. apply elem_of_list_to_map_1; [done|].
    apply elem_of_map_to_list, list_elem_of_lookup_1 in Hk as [i Hi].
    destruct (Forall2_lookup_l _ _ _ _ _ El Hi) as (e & He & Ee). cbn in Ee.
    rewrite Hb in Ee. injection Ee as <-. by eapply list_elem_of_lookup_2.
Qed.

(** ** The fields of a written row *)
Fixpoint assoc (l : list (str * str)) (k : str) : option str :=
  match l with
  | [] => None
  | (k', v) :: l => if bool_decide (k' = k) then Some v else assoc l k
  end.
Lemma field_mk_row l k : field (mk_row l) k = from_opt KeyError (assoc l k).
Proof.
  unfold field, mk_row. f_equal. induction l as [|[k' v] l IH]; [done|]. cbn [list_to_map foldr fst snd assoc].
  case_bool_decide as E; [subst k'; apply lookup_insert_eq|]. by rewrite lookup_insert_ne.
Qed.

Section load.
Context {F : Type} `{FormatLaws F} (detail : frame F → str).
Abbreviation vec := (list F).
Abbreviation mat := (NumPy.mat F).

Lemma int_field_dec r k z : field r k = Ok (dec z) → int_field r k = Ok z.
Proof. intros E. unfold int_field. rewrite E. cbn [mbind res_mbind]. apply int_of_str_dec. Qed.
Lemma float_field_show r k x : field r k = Ok (show x) → float_field to_float r k = Ok (printed x).
Proof. intros E. unfold float_field. rewrite E. cbn [mbind res_mbind]. apply read_show. Qed.

(** A frame as replay.py has it. *)
Definition loaded_step (f : frame F) : rstep :=
  {| q_step := Z.of_nat (f_step f); q_iter := Z.of_nat (f_iter f); q_phase := phase_name (f_phase f);
     q_grid := Z.of_nat (f_grid f); q_ngrid := Z.of_nat (f_ngrid f); q_detail := detail f;
     q_resnorm := Some (printed (f_resnorm f)) |}.
Lemma rstep_of_row name f : rstep_of (step_row detail name f) = Ok (loaded_step f).
Proof.
  unfold rstep_of, step_row.
  erewrite !int_field_dec by (rewrite field_mk_row; reflexivity).
  rewrite !field_mk_row. cbn [mbind res_mbind].
  unfold resnorm_field. rewrite field_mk_row.
  change (assoc _ ("phase" : str)) with (Some (phase_name (f_phase f))).
  change (assoc _ ("detail" : str)) with (Some (detail f)).
  change (assoc _ ("resnorm" : str)) with (Some (show (f_resnorm f))).
  cbn [from_opt mbind res_mbind]. rewrite read_show. cbn [fmap res_fmap].
  destruct (show (f_resnorm f)) eqn:E; [by apply show_text in E|]. done.
Qed.

Lemma step_row_solver name f : field (step_row detail name f) "solver" = Ok name.
Proof. unfold step_row. by rewrite field_mk_row. Qed.

(** ** steps.csv *)
Definition named_steps (runs : list (str * result F)) : list (str * frame F) :=
  flat_map (λ nr, map (pair nr.1) (steps (r_frames nr.2))) runs.
Lemma all_rows_map {A} (mk : str → A → row) (of_result : result F → list A) runs :
  all_rows mk of_result runs =
    map (λ p, mk p.1 p.2) (flat_map (λ nr, map (pair nr.1) (of_result nr.2)) runs).
Proof.
  unfold all_rows. induction runs as [|[n r] runs IH]; [done|]. cbn [flat_map fst snd].
  by rewrite map_app, map_map, IH.
Qed.
Lemma foldR_map {X Y S} (g : Y → X) (f : S → X → res S) l s :
  foldR f (map g l) s = foldR (λ s y, f s (g y)) l s.
Proof. revert s; induction l as [|y l IH]; intros s; [done|].
  cbn [foldR map]. destruct (f s (g y)) as [s'|e]; cbn [mbind res_mbind]; [apply IH | done].
Qed.

(** The rows of a run are those under its name. *)
Lemma of_key_runs {A} (of_result : result F → list A) (runs : list (str * result F)) name r :
  NoDup runs.*1 → (name, r) ∈ runs →
  List.filter (λ p, bool_decide (p.1 = name)) (flat_map (λ nr, map (pair nr.1) (of_result nr.2)) runs)
    = map (pair name) (of_result r).
Proof.
  assert (∀ n l, n ≠ name → List.filter (λ p : str * A, bool_decide (p.1 = name)) (map (pair n) l) = []) as Hno.
  { intros n l Hn. apply filter_nil. intros p (x & -> & _)%list_elem_of_fmap.
    by apply bool_decide_eq_false. }
  induction runs as [|[n r'] runs IH]; intros Hnd Hin; [by apply not_elem_of_nil in Hin|].
  cbn [flat_map fst snd]. rewrite List.filter_app. rewrite fmap_cons in Hnd. cbn [fst] in Hnd.
  apply NoDup_cons in Hnd as [Hn Hnd].
  apply elem_of_cons in Hin as [[= <- <-]|Hin].
  - rewrite filter_all by (intros p (x & -> & _)%list_elem_of_fmap; by apply bool_decide_eq_true).
    rewrite (proj2 (filter_nil _ _)); [by rewrite app_nil_r|].
    intros p ([n' r2] & Hin & Hp)%elem_of_flat_map. apply list_elem_of_fmap in Hp as (x & -> & _). cbn.
    apply bool_decide_eq_false. intros ->. apply Hn. apply list_elem_of_fmap. by exists (name, r2).
  - rewrite Hno; [by apply IH|]. intros ->. apply Hn, list_elem_of_fmap. by exists (name, r).
Qed.

Lemma load_steps_written runs :
  NoDup runs.*1 → ∃ m, load_steps (steps_table detail runs) = Ok m ∧
    ∀ name r, (name, r) ∈ runs → m !! name =
      match steps (r_frames r) with [] => None | l => Some (map loaded_step l) end.
Proof.
  intros Hnd. unfold load_steps, steps_table. rewrite all_rows_map, foldR_map.
  destruct (group_append (λ m p, steps_step m (step_row detail p.1 p.2)) fst (λ p, loaded_step p.2)
    (flat_map (λ nr, map (pair nr.1) (steps (r_frames nr.2))) runs) ∅) as (m & E & Hm).
  { intros m p _. unfold steps_step. rewrite step_row_solver. cbn [mbind res_mbind]. by rewrite rstep_of_row. }
  exists m. split; [exact E|]. intros name r Hin. rewrite Hm. unfold of_key.
  rewrite (of_key_runs (λ r, steps (r_frames r)) runs name r Hnd Hin).
  destruct (steps (r_frames r)) as [|f l]; [apply lookup_empty|]. rewrite lookup_empty. cbn [map from_option app].
  by rewrite map_map.
Qed.

(** ** state.csv *)

(** The recorder numbers its frames from 0 and has a row for each of their cells. *)
Definition complete (rec : recorder F) : Prop :=
  map f_step (steps rec) = seq 0 (length (steps rec)) ∧
  map (λ c, (c_step c, c_grid c, c_cell c)) (state rec) = flat_map Trace.cells_of (steps rec).
Definition cells_at (rec : recorder F) (k : nat) : list (cell (F := F)) :=
  List.filter (λ c, c_step c =? k) (state rec).

Lemma filter_map {X Y} (p : Y → bool) (g : X → Y) l :
  List.filter p (map g l) = map g (List.filter (λ x, p (g x)) l).
Proof. induction l as [|x l IH]; [done|]. cbn. rewrite IH. by destruct (p (g x)). Qed.

Lemma lfilter_lfilter {X} (p q : X → bool) l :
  List.filter p (List.filter q l) = List.filter (λ x, q x && p x) l.
Proof. induction l as [|x l IH]; [done|]. cbn. destruct (q x); cbn; [|done]. by rewrite IH. Qed.

Lemma cells_of_frames (frames : list (frame F)) s i f :
  map f_step frames = seq s (length frames) → frames !! i = Some f →
  List.filter (λ t : nat * nat * nat, t.1.1 =? s + i) (flat_map Trace.cells_of frames) = Trace.cells_of f.
Proof.
  assert (∀ (f : frame F) k, f_step f = k →
    List.filter (λ t : nat * nat * nat, t.1.1 =? k) (Trace.cells_of f) = Trace.cells_of f) as Hall.
  { intros g k <-. apply filter_all. intros t (j & -> & _)%list_elem_of_fmap. apply Nat.eqb_refl. }
  assert (∀ (f : frame F) k, f_step f ≠ k →
    List.filter (λ t : nat * nat * nat, t.1.1 =? k) (Trace.cells_of f) = []) as Hno.
  { intros g k Hk. apply filter_nil. intros t (j & -> & _)%list_elem_of_fmap. by apply Nat.eqb_neq. }
  revert s i; induction frames as [|g frames IH]; intros s i; [done|]. cbn [map length seq flat_map].
  intros [= Hg Hs] Hi. rewrite List.filter_app. destruct i as [|i]; cbn in Hi.
  - injection Hi as ->. rewrite Hall by lia. rewrite (proj2 (filter_nil _ _)); [apply app_nil_r|].
    intros t (h & Hh & Ht)%elem_of_flat_map. apply list_elem_of_fmap in Ht as (j & -> & _). cbn.
    apply Nat.eqb_neq. assert (f_step h ∈ seq (S s) (length frames)) as Hin
      by (rewrite <- Hs; by apply list_elem_of_fmap_2).
    apply elem_of_seq in Hin. lia.
  - rewrite Hno by lia. rewrite Nat.add_succ_r, <- Nat.add_succ_l. by apply IH.
Qed.
Lemma cells_at_frame rec k f :
  complete rec → steps rec !! k = Some f → map c_cell (cells_at rec k) = seq 0 (f_ngrid f).
Proof.
  intros [Hs Hc] Hk. unfold cells_at.
  transitivity (map snd (List.filter (λ t : nat * nat * nat, t.1.1 =? k)
    (map (λ c, (c_step c, c_grid c, c_cell c)) (state rec)))).
  { rewrite filter_map, map_map. done. }
  rewrite Hc. pose proof (cells_of_frames (steps rec) 0 k f Hs Hk) as E. rewrite Nat.add_0_l in E.
  rewrite E. unfold Trace.cells_of.
  rewrite map_map. cbn. apply map_id.
Qed.
Lemma cell_has_frame rec c :
  complete rec → c ∈ state rec → ∃ f, steps rec !! c_step c = Some f.
Proof.
  intros [Hs Hc] Hin.
  assert ((c_step c, c_grid c, c_cell c) ∈ flat_map Trace.cells_of (steps rec)) as Ht
    by (rewrite <- Hc; apply list_elem_of_fmap; by exists c).
  apply elem_of_flat_map in Ht as (f & Hf & Ht). apply list_elem_of_fmap in Ht as (j & [= -> _ _] & _).
  apply list_elem_of_lookup_1 in Hf as [i Hi]. exists f.
  assert (map f_step (steps rec) !! i = Some (f_step f)) as Ei by (rewrite list_lookup_fmap, Hi; done).
  rewrite Hs in Ei. apply lookup_seq in Ei as [-> _]. by rewrite Nat.add_0_l.
Qed.

Definition loaded_cell (c : cell (F := F)) : F * F := (printed (c_x c), printed (c_r c)).

Lemma load_state_written runs :
  NoDup runs.*1 → (∀ name r, (name, r) ∈ runs → complete (r_frames r)) →
  ∃ m, load_state (state_table runs) = Ok m ∧
    ∀ name r k f, (name, r) ∈ runs → steps (r_frames r) !! k = Some f → 0 < f_ngrid f →
      m !! (name, Z.of_nat k) = Some (map loaded_cell (cells_at (r_frames r) k)).
Proof.
  intros Hnd Hcomp. unfold load_state, state_table. rewrite all_rows_map, foldR_map.
  set (l := flat_map (λ nr, map (pair nr.1) (state (r_frames nr.2))) runs).
  set (key := λ p : str * cell (F := F), (p.1, Z.of_nat (c_step p.2))).
  destruct (group_insert (λ m p, state_step m (state_row p.1 p.2)) key
    (λ p, Z.of_nat (c_cell p.2)) (λ p, loaded_cell p.2) l ∅) as (m & E & Hm).
  { intros m p _. unfold state_step. unfold state_row.
    erewrite !float_field_show by (rewrite field_mk_row; reflexivity).
    erewrite !int_field_dec by (rewrite field_mk_row; reflexivity).
    rewrite field_mk_row. done. }
  assert (∀ name r k, (name, r) ∈ runs →
    of_key key (name, Z.of_nat k) l = map (pair name) (cells_at (r_frames r) k)) as Hof.
  { intros name r k Hin. unfold of_key, cells_at.
    transitivity (List.filter (λ p : str * cell, c_step p.2 =? k) (List.filter (λ p, bool_decide (p.1 = name)) l)).
    - rewrite lfilter_lfilter. apply List.filter_ext. intros [n c]. unfold key. cbn.
      destruct (Nat.eqb_spec (c_step c) k) as [->|Hk]; case_bool_decide as E1; case_bool_decide as E2; try done;
        exfalso; simplify_eq; auto.
    - unfold l. rewrite (of_key_runs (λ r, state (r_frames r)) runs name r Hnd Hin). by rewrite filter_map. }
  assert (∀ name r k f, (name, r) ∈ runs → steps (r_frames r) !! k = Some f → 0 < f_ngrid f →
    ∃ d, m !! (name, Z.of_nat k) = Some d ∧ dense_list d = Ok (map loaded_cell (cells_at (r_frames r) k))) as Hat.
  { intros name r k f Hin Hk Hpos. rewrite Hm, (Hof name r k Hin).
    pose proof (cells_at_frame _ k f (Hcomp name r Hin) Hk) as Hc.
    destruct (cells_at (r_frames r) k) as [|c0 cs] eqn:Ec.
    { cbn in Hc. destruct (f_ngrid f); [lia|discriminate]. }
    rewrite <- Ec in *. destruct (map (pair name) (cells_at (r_frames r) k)) eqn:Em;
      [rewrite Ec in Em; discriminate|]. rewrite <- Em. eexists. split; [reflexivity|].
    rewrite lookup_empty. cbn [from_option]. rewrite dense_list_fold.
    - by rewrite map_map.
    - rewrite map_map, length_map. cbn [snd]. rewrite <- (map_map c_cell Z.of_nat), Hc.
      f_equal. f_equal. by rewrite <- (length_map c_cell), Hc, length_seq. }
  destruct (pack_spec dense_list m) as (m' & Ep & _ & Hp).
  - intros [n z] d Hd. rewrite Hm in Hd. destruct (of_key key (n, z) l) as [|[n' c] ps] eqn:Eo.
    { by rewrite lookup_empty in Hd. }
    assert ((n', c) ∈ of_key key (n, z) l) as Hin by (rewrite Eo; left).
    unfold of_key in Hin. apply elem_of_lfilter in Hin as [Hin Hk]. apply bool_decide_eq_true in Hk.
    unfold key in Hk. cbn in Hk. injection Hk as <- <-.
    apply elem_of_flat_map in Hin as ([name r] & Hr & Hin). apply list_elem_of_fmap in Hin as (c' & [= -> ->] & Hc).
    cbn [fst snd] in *. destruct (cell_has_frame _ _ (Hcomp name r Hr) Hc) as [f Hf].
    assert (0 < f_ngrid f) as Hpos.
    { pose proof (cells_at_frame _ _ _ (Hcomp name r Hr) Hf) as Hce. destruct (f_ngrid f); [|lia].
      exfalso. apply (not_elem_of_nil c'). apply map_eq_nil in Hce. rewrite <- Hce.
      apply elem_of_lfilter. split; [done | apply Nat.eqb_refl]. }
    destruct (Hat name r (c_step c') f Hr Hf Hpos) as (d' & Hd' & Ed). rewrite Hm, Eo in Hd'.
    rewrite Hd in Hd'. injection Hd' as ->. eauto.
  - exists m'. split.
    + match goal with |- context [foldR ?g l ∅] => change (foldR g l ∅) with
        (foldR (λ m p, state_step m (state_row p.1 p.2)) l ∅) end. by rewrite E.
    + intros name r k f Hin Hk Hpos. destruct (Hat name r k f Hin Hk Hpos) as (d & Hd & Ed). by eapply Hp.
Qed.

(** ** aggregates.csv *)

(** The aggregate of each finest cell on each grid: the first is the cells
    themselves, each next one what the map of the grid makes of it. *)
Inductive follows : list (level F) → list Z → list (list Z) → Prop :=
  | follows_nil ch : follows [] ch []
  | follows_last l ls ch chs : l_next l = None → follows ls ch chs → follows (l :: ls) ch (ch :: chs)
  | follows_map l ls ch ch' chs m P :
      l_next l = Some (m, P) → mapR (get m) ch = Ok ch' → follows ls ch' chs → follows (l :: ls) ch (ch :: chs).

Fixpoint agg_rows (grid : nat) (chains : list (list Z)) : list (nat * nat * Z) :=
  match chains with
  | [] => []
  | ch :: chains => imap (λ c k, ((grid, c), k)) ch ++ agg_rows (S grid) chains
  end.
Lemma agg_rows_ge s chains a : a ∈ agg_rows s chains → s ≤ a.1.1.
Proof.
  revert s; induction chains as [|ch chs IH]; intros s; cbn [agg_rows]; [by intros ?%not_elem_of_nil|].
  intros [(i & k & -> & _)%elem_of_lookup_imap|H1]%elem_of_app; [done|]. specialize (IH _ H1). lia.
Qed.

Lemma agg_rows_elem s chains a :
  a ∈ agg_rows s chains → ∃ g ch, chains !! g = Some ch ∧ a.1.1 = s + g ∧ ch ≠ [].
Proof.
  revert s; induction chains as [|ch chs IH]; intros s; cbn [agg_rows]; [by intros ?%not_elem_of_nil|].
  intros [(i & k & -> & Hi)%elem_of_lookup_imap|H1]%elem_of_app.
  - exists 0, ch. split; [done|]. split; [cbn; lia|]. by intros ->.
  - destruct (IH _ H1) as (g & ch' & Hg & E & Hne). exists (S g), ch'. split; [done|]. split; [lia|done].
Qed.

Lemma chain_rows grid n (chain : list Z) :
  length chain = n → mapR (B := nat * nat * Z) (λ c, k ← getitem chain c; Ok (grid, c, k)) (seq 0 n) = Ok (imap (λ c k, ((grid, c), k)) chain).
Proof.
  intros <-. apply mapR_Ok, Forall2_same_length_lookup. split; [by rewrite length_seq, length_imap|].
  intros i j y [-> Hi]%lookup_seq Hy. rewrite list_lookup_imap in Hy.
  apply fmap_Some in Hy as (k & Hk & ->). cbn. unfold getitem. by rewrite Hk.
Qed.
Lemma aggregates_follows ls grid n chain rows :
  length chain = n → aggregates grid n chain ls = Ok rows →
  ∃ chains, rows = agg_rows grid chains ∧ follows ls chain chains.
Proof.
  revert grid chain rows; induction ls as [|l ls IH]; intros grid chain rows Hl; cbn [aggregates].
  - intros [= <-]. exists []. split; [done | constructor].
  - rewrite chain_rows by done. cbn [mbind res_mbind].
    intros (chain' & Hc & (rest & Hr & [= <-])%bind_Ok)%bind_Ok.
    destruct (l_next l) as [[m P]|] eqn:El.
    + assert (length chain' = n) as Hl' by (apply mapR_Ok, Forall2_length in Hc; lia).
      destruct (IH _ _ _ Hl' Hr) as (chs & -> & Hf). exists (chain :: chs).
      split; [done | by eapply follows_map].
    + injection Hc as <-. destruct (IH _ _ _ Hl Hr) as (chs & -> & Hf). exists (chain :: chs).
      split; [done | by eapply follows_last].
Qed.

Lemma agg_rows_grid chains s g ch :
  chains !! g = Some ch →
  List.filter (λ a : nat * nat * Z, a.1.1 =? s + g) (agg_rows s chains) = imap (λ c k, ((s + g, c), k)) ch.
Proof.
  assert (∀ (ch : list Z) (h k : nat), h ≠ k →
    List.filter (λ a : nat * nat * Z, a.1.1 =? k) (imap (λ c e, ((h, c), e)) ch) = []) as Hno.
  { intros c h k Hk. apply filter_nil. intros a (i & e & -> & _)%elem_of_lookup_imap. by apply Nat.eqb_neq. }
  revert s g; induction chains as [|ch0 chs IH]; intros s g; [done|]. cbn [agg_rows]. rewrite List.filter_app.
  destruct g as [|g]; cbn [lookup list_lookup]; intros Hg.
  - injection Hg as ->. rewrite Nat.add_0_r. rewrite filter_all.
    2: { intros a (i & e & -> & _)%elem_of_lookup_imap. apply Nat.eqb_refl. }
    rewrite (proj2 (filter_nil _ _)); [apply app_nil_r|].
    intros a Ha%agg_rows_ge. apply Nat.eqb_neq. lia.
  - rewrite Hno by lia. rewrite Nat.add_succ_r, <- Nat.add_succ_l. by apply IH.
Qed.

Lemma of_key_agg (runs : list (str * result F)) name r chains g ch :
  NoDup runs.*1 → (name, r) ∈ runs → r_aggregates r = agg_rows 0 chains → chains !! g = Some ch →
  of_key (λ p : str * (nat * nat * Z), (p.1, Z.of_nat p.2.1.1)) (name, Z.of_nat g)
    (flat_map (λ nr, map (pair nr.1) (r_aggregates nr.2)) runs)
  = map (pair name) (imap (λ c k, ((g, c), k)) ch).
Proof.
  intros Hnd Hin Hr Hg. unfold of_key.
  transitivity (List.filter (λ p : str * (nat * nat * Z), p.2.1.1 =? g)
    (List.filter (λ p, bool_decide (p.1 = name)) (flat_map (λ nr, map (pair nr.1) (r_aggregates nr.2)) runs))).
  - rewrite lfilter_lfilter. apply List.filter_ext. intros [n [[g' c] k]]. cbn.
    destruct (Nat.eqb_spec g' g) as [->|Hk]; case_bool_decide as E1; case_bool_decide as E2; try done;
      exfalso; simplify_eq; auto.
  - rewrite (of_key_runs r_aggregates runs name r Hnd Hin), filter_map, Hr.
    pose proof (agg_rows_grid chains 0 g ch Hg) as E. rewrite Nat.add_0_l in E.
    exact (f_equal (map (pair name)) E).
Qed.

Lemma load_aggregates_written (runs : list (str * result F)) :
  NoDup runs.*1 → (∀ name r, (name, r) ∈ runs → ∃ chains, r_aggregates r = agg_rows 0 chains) →
  ∃ m, load_aggregates (aggregates_table runs) = Ok m ∧
    ∀ name r chains g ch, (name, r) ∈ runs → r_aggregates r = agg_rows 0 chains →
      chains !! g = Some ch → ch ≠ [] → m !! (name, Z.of_nat g) = Some ch.
Proof.
  intros Hnd Hch. unfold load_aggregates, aggregates_table. rewrite all_rows_map, foldR_map.
  set (l := flat_map (λ nr, map (pair nr.1) (r_aggregates nr.2)) runs).
  set (key := λ p : str * (nat * nat * Z), (p.1, Z.of_nat p.2.1.1)).
  destruct (group_insert (λ m p, aggregates_step m (aggregate_row p.1 p.2)) key
    (λ p, Z.of_nat p.2.1.2) (λ p, p.2.2) l ∅) as (m & E & Hm).
  { intros m p _. unfold aggregates_step, aggregate_row.
    erewrite !int_field_dec by (rewrite field_mk_row; reflexivity). rewrite field_mk_row. done. }
  assert (∀ name r chains g ch, (name, r) ∈ runs → r_aggregates r = agg_rows 0 chains →
    chains !! g = Some ch → ch ≠ [] → ∃ d, m !! (name, Z.of_nat g) = Some d ∧ dense_list d = Ok ch) as Hat.
  { intros name r chains g ch Hin Hr Hg Hne. rewrite Hm. unfold key, l.
    rewrite (of_key_agg runs name r chains g ch Hnd Hin Hr Hg).
    destruct ch as [|k0 ch0] eqn:Ech; [done|]. rewrite <- Ech in *.
    destruct (map (pair name) _) as [|x xs] eqn:Em; [by rewrite Ech in Em|]. rewrite <- Em.
    eexists. split; [reflexivity|]. rewrite lookup_empty. cbn [from_option]. rewrite dense_list_fold.
    - rewrite map_map. f_equal. apply list_eq. intros i. change (map ?g ?l) with (g <$> l).
      rewrite list_lookup_fmap, list_lookup_imap. by destruct (ch !! i).
    - rewrite map_map, length_map, length_imap. apply list_eq. intros i. change (map ?g ?l) with (g <$> l).
      rewrite !list_lookup_fmap, list_lookup_imap. destruct (ch !! i) as [k|] eqn:Ei.
      + rewrite (proj2 (lookup_seq 0 (length ch) i i)); [done|]. split; [done|]. by apply lookup_lt_Some in Ei.
      + apply lookup_ge_None in Ei. rewrite (proj2 (lookup_ge_None (seq 0 (length ch)) i)); [done|].
        by rewrite length_seq. }
  destruct (pack_spec dense_list m) as (m' & Ep & _ & Hp).
  - intros [n z] d Hd. rewrite Hm in Hd. destruct (of_key key (n, z) l) as [|[n' a] ps] eqn:Eo.
    { by rewrite lookup_empty in Hd. }
    assert ((n', a) ∈ of_key key (n, z) l) as Hin by (rewrite Eo; left).
    unfold of_key in Hin. apply elem_of_lfilter in Hin as [Hin Hk]. apply bool_decide_eq_true in Hk.
    unfold key in Hk. cbn in Hk. injection Hk as <- <-.
    apply elem_of_flat_map in Hin as ([name r] & Hr & Hin). apply list_elem_of_fmap in Hin as (a' & [= -> ->] & Ha).
    cbn [fst snd] in *. destruct (Hch name r Hr) as [chains Hc]. rewrite Hc in Ha.
    destruct (agg_rows_elem 0 chains a' Ha) as (g & ch & Hg & Eg & Hne). cbn in Eg.
    destruct (Hat name r chains g ch Hr Hc Hg Hne) as (d' & Hd' & Ed). rewrite Hm in Hd'.
    rewrite Eg in Eo, Hd. rewrite Eo in Hd'. rewrite Hd in Hd'. injection Hd' as ->. eauto.
  - exists m'. split.
    + match goal with |- context [foldR ?g l ∅] => change (foldR g l ∅) with
        (foldR (λ m p, aggregates_step m (aggregate_row p.1 p.2)) l ∅) end. by rewrite E.
    + intros name r chains g ch Hin Hr Hg Hne.
      destruct (Hat name r chains g ch Hin Hr Hg Hne) as (d & Hd & Ed). by eapply Hp.
Qed.

(** ** grids.csv *)
Lemma fold_max_ge l k x : x ∈ k :: l → (x ≤ fold_left Z.max l k)%Z.
Proof.
  revert k x; induction l as [|y l IH]; intros k x; cbn [fold_left].
  - by intros ->%list_elem_of_singleton.
  - intros [->|Hx]%elem_of_cons; [etrans; [|apply IH; left]; lia|].
    apply elem_of_cons in Hx as [->|Hx]; [etrans; [|apply IH; left]; lia|]. apply IH. by right.
Qed.
Lemma set_entry_total (A : mat) i j v n :
  nrows A = n → ncols A = n → (0 ≤ i < Z.of_nat n)%Z → (0 ≤ j < Z.of_nat n)%Z →
  ∃ A', set_entry A i j v = Ok A' ∧ nrows A' = n ∧ ncols A' = n.
Proof.
  intros Hr Hc Hi Hj. unfold set_entry. rewrite Hr, (Aggregate.position_in n i Hi). cbn [mbind res_mbind].
  destruct (lookup_lt_is_Some_2 (rows A) (Z.to_nat i)) as [row Hrow]; [unfold nrows in Hr; lia|].
  unfold getitem. rewrite Hrow. cbn [from_opt mbind res_mbind]. rewrite Hc, (Aggregate.position_in n j Hj).
  eexists. split; [reflexivity|]. unfold nrows in *. cbn. by rewrite length_insert.
Qed.
Lemma grid_of_total (l : list (Z * Z * F)) :
  l ≠ [] → (∀ t, t ∈ l → (0 ≤ t.1.1)%Z ∧ (0 ≤ t.1.2)%Z) → ∃ A, grid_of l = Ok A.
Proof.
  intros Hne Hl. unfold grid_of. destruct (map _ l) as [|k ks] eqn:Em; [by destruct l|].
  assert (∀ t, t ∈ l → (Z.max t.1.1 t.1.2 ≤ fold_left Z.max ks k)%Z) as Hle.
  { intros t Ht. apply fold_max_ge. rewrite <- Em. apply list_elem_of_fmap. by exists t. }
  assert (0 ≤ fold_left Z.max ks k)%Z as H0'.
  { destruct l as [|t l]; [done|]. specialize (Hle t ltac:(left)). destruct (Hl t ltac:(left)). lia. }
  rewrite (proj2 (Z.ltb_ge _ _)) by lia. set (n := Z.to_nat (fold_left Z.max ks k + 1)).
  assert (∀ t, t ∈ l → (0 ≤ t.1.1 < Z.of_nat n)%Z ∧ (0 ≤ t.1.2 < Z.of_nat n)%Z) as Hb.
  { intros t Ht. specialize (Hle t Ht). destruct (Hl t Ht). unfold n. rewrite Z2Nat.id by lia. lia. }
  assert (nrows (Compare.zero_mat (F := F) n) = n ∧ ncols (Compare.zero_mat (F := F) n) = n) as Hz
    by (split; [apply repeat_length | done]).
  clear Hle Hl Hne Em. revert Hz. generalize (Compare.zero_mat (F := F) n).
  induction l as [|t l IH]; intros A [Hr Hc]; [by eexists|]. cbn [foldR].
  destruct (Hb t ltac:(left)) as [Hi Hj].
  destruct (set_entry_total A t.1.1 t.1.2 t.2 n Hr Hc Hi Hj) as (A' & -> & Hz). cbn [mbind res_mbind].
  apply IH; [intros t' Ht'; apply Hb; by right | done].
Qed.
Lemma load_grids_written (runs : list (str * result F)) : ∃ m, load_grids (grids_table runs) = Ok m.
Proof.
  unfold load_grids, grids_table. rewrite all_rows_map, foldR_map.
  set (l := flat_map (λ nr, map (pair nr.1) (r_grids nr.2)) runs).
  set (val := λ p : str * nonzero (F := F), (Z.of_nat (z_row p.2), Z.of_nat (z_col p.2), printed (z_value p.2))).
  destruct (group_append (λ m p, grids_step m (grid_row p.1 p.2)) (λ p, (p.1, Z.of_nat (z_grid p.2))) val l ∅)
    as (m & E & Hm).
  { intros m p _. unfold grids_step, grid_row.
    erewrite !int_field_dec by (rewrite field_mk_row; reflexivity).
    erewrite !float_field_show by (rewrite field_mk_row; reflexivity). rewrite field_mk_row. done. }
  destruct (pack_spec grid_of m) as (m' & Ep & _).
  - intros k ts Hk. rewrite Hm, lookup_empty in Hk. destruct (of_key _ _ _) as [|p ps]; [done|].
    cbn [from_option] in Hk. injection Hk as <-. apply grid_of_total; [done|].
    intros t Ht. change (t ∈ map val (p :: ps)) in Ht. apply list_elem_of_fmap in Ht as (q & -> & _).
    unfold val. cbn. lia.
  - exists m'. match goal with |- context [foldR ?g l ∅] => change (foldR g l ∅) with
        (foldR (λ m p, grids_step m (grid_row p.1 p.2)) l ∅) end. by rewrite E.
Qed.

(** ** The residual norms *)
Lemma histories_written runs (rows : option (list (Compare.entry F))) :
  ∃ h, build_histories (Compare.compare_table <$> rows) (steps_table detail runs) = Ok h.
Proof.
  unfold build_histories, load_histories. destruct rows as [rows|]; cbn [fmap option_fmap option_map].
  - unfold Compare.compare_table. rewrite foldR_map.
    destruct (group_insert (λ m e, compare_step m (Compare.entry_row e)) Compare.e_solver
      Compare.e_cycle (λ e, printed (Compare.e_resnorm e)) rows ∅) as (m & E & _).
    { intros m e _. unfold compare_step, Compare.entry_row.
      erewrite !float_field_show by (rewrite field_mk_row; reflexivity).
      erewrite !int_field_dec by (rewrite field_mk_row; reflexivity). rewrite field_mk_row. done. }
    match goal with |- context [foldR ?g rows ∅] => change (foldR g rows ∅) with
        (foldR (λ m e, compare_step m (Compare.entry_row e)) rows ∅) end. rewrite E. eauto.
  - unfold steps_table. rewrite all_rows_map, foldR_map.
    match goal with |- context [foldR ?g ?l ∅] =>
      assert (∃ m, foldR g l ∅ = Ok m) as [m Em]; [|rewrite Em; eauto] end.
    generalize (∅ : gmap str (gmap Z F)).
    induction (flat_map _ runs) as [|p l IH]; intros m; [by eexists|]. cbn [foldR].
    assert (∃ m', update_step m (step_row detail p.1 p.2) = Ok m') as [m' ->]; [|apply IH].
    unfold update_step. unfold step_row.
    erewrite !int_field_dec by (rewrite field_mk_row; reflexivity). rewrite !field_mk_row.
    change (assoc _ ("phase" : str)) with (Some (phase_name (f_phase p.2))).
    change (assoc _ ("resnorm" : str)) with (Some (show (f_resnorm p.2))).
    change (assoc _ ("solver" : str)) with (Some p.1). cbn [from_opt mbind res_mbind].
    case_bool_decide; [|by eexists]. destruct (show (f_resnorm p.2)) eqn:E; [by eexists|].
    rewrite <- E, read_show. by eexists.
Qed.
End load.
End Load.
