(* ===== verification/ReplaySizes.v ===== *)
(** * demo/amgpcg: the sizes of the recorded frames

    Every frame of a preconditioned conjugate gradient run belongs to one of the levels
    and has a value for each cell of its operator. *)
From stdpp Require Import gmap.
From S2P Require Export ReplayLoad.

(** ** The sizes of the frames *)
Module Sized.
Import Amg Levels Trace.

Section sized.
Context {F : Type} `{NumOps F}.
Abbreviation vec := (list F).
Abbreviation mat := (NumPy.mat F).

(** A frame of one of the levels, the first of which is the grid [grid], with a value
    for each of its cells. *)
Definition sized_from (grid : nat) (ls : list (level F)) (f : frame F) : Prop :=
  ∃ k l, f_grid f = grid + k ∧ ls !! k = Some l ∧ f_ngrid f = nrows (l_A l).

(** Frames with the property are appended. *)
Definition adds (P : frame F → Prop) (rec rec' : recorder F) : Prop :=
  ∃ frames, steps rec' = steps rec ++ frames ∧ Forall P frames.
Lemma adds_refl P rec : adds P rec rec.
Proof. exists []. by rewrite app_nil_r. Qed.
Lemma adds_trans P rec1 rec2 rec3 : adds P rec1 rec2 → adds P rec2 rec3 → adds P rec1 rec3.
Proof.
  intros (f1 & E1 & H1) (f2 & E2 & H2). exists (f1 ++ f2). rewrite E2, E1, app_assoc.
  split; [done | by apply Forall_app].
Qed.
Lemma adds_impl (P Q : frame F → Prop) rec rec' : (∀ f, P f → Q f) → adds P rec rec' → adds Q rec rec'.
Proof. intros HPQ (f & E & HP). exists f. split; [done | by eapply Forall_impl]. Qed.

Lemma emit_adds (P : frame F → Prop) rec iter ph grid (x r : vec) resnorm rec' :
  emit rec iter ph grid x r resnorm = Ok rec' →
  (∀ f, f_grid f = grid → f_ngrid f = length x → P f) → adds P rec rec'.
Proof.
  unfold emit. intros (rows & _ & [= <-])%bind_Ok HP. eexists [_]. split; [done|].
  constructor; [by apply HP | done].
Qed.

(** What holds of one turn holds of [times]. *)
Lemma times_adds (P : frame F → Prop) n m f (s s' : vec * recorder F) :
  times m f s = Ok s' → length s.1 = n →
  (∀ s s', length s.1 = n → f s = Ok s' → length s'.1 = n ∧ adds P s.2 s'.2) →
  length s'.1 = n ∧ adds P s.2 s'.2.
Proof.
  intros Hs Hl Hf; revert s Hs Hl; induction m as [|m IH]; intros s; cbn [times].
  - intros [= <-] Hl. split; [done | apply adds_refl].
  - intros (s1 & H1 & Hs)%bind_Ok Hl. destruct (Hf s s1 Hl H1) as [Hl1 Ha].
    destruct (IH s1 Hs Hl1) as [Hl2 Ha2]. split; [done | by eapply adds_trans].
Qed.

Lemma smooth_adds (P : frame F → Prop) (A : mat) n b omega ph grid iter resnorm s s' :
  square A n → length b = n → (∀ f, f_grid f = grid → f_ngrid f = n → P f) →
  length s.1 = n → smooth A b omega ph grid iter resnorm s = Ok s' →
  length s'.1 = n ∧ adds P s.2 s'.2.
Proof.
  intros HA Hb HP Hs Es. destruct (smooth_total A n b omega ph grid iter resnorm s HA Hb Hs) as (s2 & E & Hl).
  rewrite Es in E. injection E as <-. split; [done|]. revert Es. unfold smooth.
  intros (x & _ & (r & _ & (rec & He & [= <-])%bind_Ok)%bind_Ok)%bind_Ok. cbn in *.
  eapply emit_adds; [done|]. intros f Hg Hn. apply HP; [done | congruence].
Qed.

Lemma residual_length (A : mat) n (b x r : vec) :
  square A n → length b = n → length x = n → residual_of A b x = Ok r → length r = n.
Proof.
  intros HA Hb Hx Hr. destruct (residual_total A n b x HA Hb Hx) as (r' & E & Hl). congruence.
Qed.
Lemma matvec_length (A : mat) (x y : vec) : matvec A x = Ok y → length y = nrows A ∧ length x = ncols A.
Proof.
  unfold matvec. destruct (Nat.eqb_spec (ncols A) (length x)); [|done]. intros [= <-].
  by rewrite length_map.
Qed.
Lemma lift_length op n (a b c : vec) : length a = n → length b = n → lift op a b = Ok c → length c = n.
Proof. intros Ha Hb E. destruct (lift_total op a b n Ha Hb) as (c' & E' & Hl). congruence. Qed.

Lemma shaped_head n (ls : list (level F)) : shaped n ls → ∃ l, ls !! 0 = Some l ∧ nrows (l_A l) = n.
Proof. intros Hs. destruct Hs as [n A [HA _]|n nc A m P ls [HA _]]; eexists; by split. Qed.

Lemma vcycle_sized omega npre npost coarse n ls grid (b : vec) iter resnorm rec x rec' :
  (∀ A n b x, square A n → length b = n → coarse A b = Ok x → length x = n) →
  shaped n ls → length b = n →
  vcycle omega npre npost coarse ls grid b iter resnorm rec = Ok (x, rec') →
  length x = n ∧ adds (sized_from grid ls) rec rec'.
Proof.
  intros Hco Hsh; revert grid b rec x rec'; induction Hsh as [n A HA|n nc A m P ls HA Hm HP Hlt _ Hls IH];
    intros grid b rec x rec' Hb; cbn [vcycle l_next l_A].
  - intros (x1 & Hx & E)%bind_Ok. apply bind_Ok in E as (r & _ & E).
    apply bind_Ok in E as (rec1 & H1 & [= <- <-]). pose proof (Hco A n b x1 HA Hb Hx) as Hl.
    split; [done|]. eapply emit_adds; [done|]. intros f Hg Hn. exists 0. eexists. rewrite Nat.add_0_r.
    split; [done|]. split; [done|]. cbn. destruct HA. lia.
  - assert (∀ f : frame F, f_grid f = grid → f_ngrid f = n →
      sized_from grid ({| l_A := A; l_next := Some (m, P) |} :: ls) f) as Hhere.
    { intros f Hg Hn. exists 0. eexists. rewrite Nat.add_0_r. split; [done|]. split; [done|]. cbn. destruct HA. lia. }
    assert (∀ f : frame F, sized_from (S grid) ls f →
      sized_from grid ({| l_A := A; l_next := Some (m, P) |} :: ls) f) as Hbelow.
    { intros f (k & l & Hg & Hk & Hn). exists (S k), l. split; [lia|]. by split. }
    intros ([x1 rec1] & Hpre & E)%bind_Ok. apply bind_Ok in E as (r1 & Hr1 & E).
    apply bind_Ok in E as (rec2 & H2 & E). apply bind_Ok in E as (b_c & Hbc & E).
    apply bind_Ok in E as (rec3 & H3 & E). apply bind_Ok in E as ([x_c rec4] & Hc & E).
    apply bind_Ok in E as (Px & HPx & E). apply bind_Ok in E as (x2 & Hx2 & E).
    apply bind_Ok in E as (r2 & _ & E). apply bind_Ok in E as (rec5 & H5 & Hpost).
    destruct (times_adds (sized_from grid ({| l_A := A; l_next := Some (m, P) |} :: ls)) n _ _ _ _ Hpre) as [Hl1 A1].
    { unfold zeros. cbn. by rewrite repeat_length. }
    { intros s s' Hs. by apply (smooth_adds _ A n b). }
    cbn [fst snd] in *.
    destruct HP as [HPr HPc]. destruct (matvec_length _ _ _ Hbc) as [Hbcl _].
    unfold nrows, transpose in Hbcl. cbn in Hbcl. rewrite length_map, length_seq, HPc in Hbcl.
    destruct (IH (S grid) b_c rec3 x_c rec4 Hbcl Hc) as [Hlc Ac].
    destruct (matvec_length _ _ _ HPx) as [HPxl _]. rewrite HPr in HPxl.
    pose proof (lift_length _ n _ _ _ Hl1 HPxl Hx2) as Hl2.
    destruct (times_adds (sized_from grid ({| l_A := A; l_next := Some (m, P) |} :: ls)) n _ _ _ _ Hpost) as [Hl3 A3]; [done| |].
    { intros s s' Hs. by apply (smooth_adds _ A n b). }
    split; [exact Hl3|]. cbn [fst snd] in *.
    eapply adds_trans; [exact A1|]. eapply adds_trans.
    { eapply emit_adds; [exact H2|]. intros f Hg Hn. apply Hhere; [done | congruence]. }
    eapply adds_trans.
    { eapply emit_adds; [exact H3|]. intros f Hg Hn. apply Hbelow.
      destruct (shaped_head nc ls Hls) as (l & Hl & Hr). exists 0, l. rewrite Nat.add_0_r.
      split; [done|]. split; [done|]. rewrite Hn, Hr. unfold zeros. by rewrite repeat_length. }
    eapply adds_trans; [eapply adds_impl; [exact Hbelow | exact Ac]|].
    eapply adds_trans; [|exact A3]. eapply emit_adds; [exact H5|]. intros f Hg Hn.
    apply Hhere; [done | congruence].
Qed.

(** Each iteration of the conjugate gradient keeps the sizes and records frames of
    the levels. *)
Lemma cg_step_sized omega npre npost coarse n ls (A : mat) nf s i s' :
  (∀ A n b x, square A n → length b = n → coarse A b = Ok x → length x = n) →
  shaped n ls → square A n → length (g_x s) = n → length (g_r s) = n →
  cg_step (vcycle omega npre npost coarse) ls A nf s i = Ok s' →
  (length (g_x s') = n ∧ length (g_r s') = n) ∧ adds (sized_from 0 ls) (g_rec s) (g_rec s').
Proof.
  intros Hco Hls [HAr HAc] Hx Hr. unfold cg_step. intros (rec1 & H1 & E)%bind_Ok.
  apply bind_Ok in E as ([z rec2] & Hc & E). apply bind_Ok in E as (rho & _ & E).
  apply bind_Ok in E as (p & Hp & E). apply bind_Ok in E as (Ap & HAp & E).
  apply bind_Ok in E as (pAp & _ & E). apply bind_Ok in E as (alpha & _ & E).
  apply bind_Ok in E as (x & Ex & E). apply bind_Ok in E as (r & Er & E).
  apply bind_Ok in E as (rec3 & H3 & [= <-]). cbn [g_x g_r g_rec].
  destruct (vcycle_sized _ _ _ _ n ls 0 _ _ _ _ _ _ Hco Hls Hr Hc) as [Hz Ac].
  destruct (matvec_length _ _ _ HAp) as [HApl Hpl].
  assert (length x = n) as Hxl.
  { eapply lift_length; [exact Hx| |exact Ex]. unfold scale. rewrite length_map. lia. }
  assert (length r = n) as Hrl.
  { eapply lift_length; [exact Hr| |exact Er]. unfold scale. rewrite length_map. lia. }
  split; [done|].
  assert (∀ f : frame F, f_grid f = 0 → f_ngrid f = n → sized_from 0 ls f) as H0.
  { intros f Hg Hn. destruct (shaped_head n ls Hls) as (l & Hl & Hlr). exists 0, l.
    rewrite Hn, Hlr. done. }
  eapply adds_trans; [|eapply adds_trans; [exact Ac|]].
  - eapply emit_adds; [exact H1|]. intros f Hg Hn. apply H0; [done | congruence].
  - eapply emit_adds; [exact H3|]. intros f Hg Hn. apply H0; [done | congruence].
Qed.

(** Every frame of a run belongs to a level and has a value for each of its cells. *)
Lemma run_pcg_sized omega npre npost coarse n ls (A : mat) b n_iter s :
  (∀ A n b x, square A n → length b = n → coarse A b = Ok x → length x = n) →
  shaped n ls → square A n → length b = n →
  run_pcg (vcycle omega npre npost coarse) ls A b n_iter new_recorder = Ok s →
  Forall (sized_from 0 ls) (steps (g_rec s)).
Proof.
  intros Hco Hls HA Hb. unfold run_pcg, cg_start. intros (s0 & (r & Hr & [= <-])%bind_Ok & Hs)%bind_Ok.
  assert (length (zeros (F := F) (length b)) = n) as Hz by (unfold zeros; by rewrite repeat_length).
  pose proof (residual_length A n b _ r HA Hb Hz Hr) as Hrl.
  assert (∀ l (s0 s : cg F), length (g_x s0) = n → length (g_r s0) = n →
    foldR (cg_step (vcycle omega npre npost coarse) ls A (norm1 b)) l s0 = Ok s →
    adds (sized_from 0 ls) (g_rec s0) (g_rec s)) as Hfold.
  { induction l as [|i l IH]; intros s0 s1 Hx0 Hr0; cbn [foldR]; [intros [= <-]; apply adds_refl|].
    intros (s2 & H2 & H3)%bind_Ok.
    apply cg_step_sized with (n := n) in H2 as [[Hx2 Hr2] A2]; [|done..].
    eapply adds_trans; [exact A2 | by eapply IH]. }
  edestruct Hfold as (fs & E & HF); [| |exact Hs|]; [exact Hz|exact Hrl|].
  cbn in E. by rewrite E.
Qed.

Lemma coarse_brae_length (A : mat) n (b x : vec) :
  square A n → length b = n → coarse_brae A b = Ok x → length x = n.
Proof. intros HA Hb E. destruct (coarse_brae_total A n b HA Hb) as (x' & E' & Hl). congruence. Qed.
Lemma run_brae_sized n ls (A : mat) b n_iter s :
  shaped n ls → square A n → length b = n → run_brae ls A b n_iter new_recorder = Ok s →
  Forall (sized_from 0 ls) (steps (g_rec s)).
Proof. intros. eapply run_pcg_sized; [|done..]. intros. by eapply coarse_brae_length. Qed.
End sized.
End Sized.
