(* ===== verification/ReplayRuns.v ===== *)
(** * demo/amgpcg: what a run of make_steps.py leaves for the replay

    All three solvers' recorders number their frames and have a row for each cell; the
    aggregates that are written follow the maps of the levels; the levels built from a
    hierarchy of fitting maps have shapes that agree. *)
From stdpp Require Import gmap.
From S2P Require Export ReplaySizes.

Module Runs.
Import Amg Levels Trace Tables Load Sized.

Section runs.
Context {F : Type} `{NumOps F}.
Abbreviation vec := (list F).
Abbreviation mat := (NumPy.mat F).

(** ** The recorder of OpenFOAM's run *)
Definition grows (rec rec' : recorder F) : Prop := ∃ l, extends rec l rec'.
Lemma grown_refl rec : grows rec rec.
Proof. exists []. apply extends_refl. Qed.
Lemma grown_trans rec1 rec2 rec3 : grows rec1 rec2 → grows rec2 rec3 → grows rec1 rec3.
Proof. intros [l1 H1] [l2 H2]. exists (l1 ++ l2). by eapply extends_trans. Qed.
Lemma emit_grows rec iter ph grid (x r : vec) resnorm rec' :
  emit rec iter ph grid x r resnorm = Ok rec' → grows rec rec'.
Proof. intros E. eexists. by eapply emit_extends. Qed.
Lemma grows_complete rec : grows new_recorder rec → complete rec.
Proof.
  intros (l & frames & cells & Hs & Hl & Hn & _ & Hc & Hk). cbn in Hs, Hc, Hn. split.
  - rewrite Hs, Hn. f_equal. by rewrite <- (length_map label frames), Hl.
  - by rewrite Hs, Hc.
Qed.

(** A loop grows the recorder if each of its turns does. *)
Lemma foldR_grows {S X} (rec : S → recorder F) (f : S → X → res S) l s s' :
  foldR f l s = Ok s' → (∀ s x s', f s x = Ok s' → grows (rec s) (rec s')) → grows (rec s) (rec s').
Proof.
  intros E Hf; revert s E; induction l as [|x l IH]; intros s; cbn [foldR]; [intros [= <-]; apply grown_refl|].
  intros (s1 & H1 & H2)%bind_Ok. eapply grown_trans; [by eapply Hf | by apply IH].
Qed.
Lemma times_grows n f (s s' : vec * recorder F) :
  times n f s = Ok s' → (∀ s s', f s = Ok s' → grows s.2 s'.2) → grows s.2 s'.2.
Proof.
  intros E Hf; revert s E; induction n as [|n IH]; intros s; cbn [times]; [intros [= <-]; apply grown_refl|].
  intros (s1 & H1 & H2)%bind_Ok. eapply grown_trans; [by eapply Hf | by apply IH].
Qed.
Lemma gs_smooth_grows (A : mat) b grid iter resnorm s s' :
  gs_smooth A b grid iter resnorm s = Ok s' → grows s.2 s'.2.
Proof.
  unfold gs_smooth. intros (x & _ & (r & _ & (rec & E & [= <-])%bind_Ok)%bind_Ok)%bind_Ok.
  by eapply emit_grows.
Qed.
Lemma of_down_grows levels iter resnorm s k s' :
  of_down (F := F) levels iter resnorm s k = Ok s' → grows s.2 s'.2.
Proof.
  destruct s as [[source current] rec]. unfold of_down.
  intros (P & _ & (cur & _ & (rec' & E & [= <-])%bind_Ok)%bind_Ok)%bind_Ok. by eapply emit_grows.
Qed.
Lemma of_up_grows levels source iter resnorm s k s' :
  of_up (F := F) levels source iter resnorm s k = Ok s' → grows s.2 s'.2.
Proof.
  destruct s as [correction rec]. unfold of_up.
  intros (l & _ & (P & _ & (field & _ & (sk & _ & E)%bind_Ok)%bind_Ok)%bind_Ok)%bind_Ok.
  apply bind_Ok in E as ([field' sf] & _ & E). apply bind_Ok in E as (r & _ & E).
  apply bind_Ok in E as (rec' & He & E). eapply grown_trans; [by eapply emit_grows|].
  exact (times_grows _ _ (field', rec') s' E (gs_smooth_grows _ _ _ _ _)).
Qed.

Lemma of_step_grows solve levels (A : mat) b anchor nf s iteration s' :
  of_step solve levels A b anchor nf s iteration = Ok s' → grows (o_rec s) (o_rec s').
Proof.
  unfold of_step. intros ([x resid] & _ & E)%bind_Ok. apply bind_Ok in E as (rec1 & H1 & E).
  apply bind_Ok in E as ([[source cur] rec2] & H2 & E). apply bind_Ok in E as (l & _ & E).
  apply bind_Ok in E as (b_c & _ & E). apply bind_Ok in E as (x_c & _ & E).
  apply bind_Ok in E as (r & _ & E). apply bind_Ok in E as (rec3 & H3 & E).
  apply bind_Ok in E as ([correction rec4] & H4 & E). apply bind_Ok in E as (P0 & _ & E).
  apply bind_Ok in E as (finest & _ & E). apply bind_Ok in E as ([finest' sf] & _ & E).
  apply bind_Ok in E as (x2 & _ & E). apply bind_Ok in E as (r2 & _ & E).
  apply bind_Ok in E as (rec5 & H5 & E). apply bind_Ok in E as ([x3 rec6] & H6 & E).
  apply bind_Ok in E as (resid' & _ & E). apply bind_Ok in E as (rec7 & H7 & [= <-]). cbn [o_rec].
  eapply grown_trans; [by eapply emit_grows|].
  eapply grown_trans; [exact (foldR_grows snd _ _ _ _ H2 (of_down_grows _ _ _))|].
  eapply grown_trans; [by eapply emit_grows|].
  eapply grown_trans; [exact (foldR_grows snd _ _ _ _ H4 (of_up_grows _ _ _ _))|].
  eapply grown_trans; [by eapply emit_grows|].
  eapply grown_trans; [exact (times_grows _ _ _ _ H6 (gs_smooth_grows _ _ _ _ _)) | by eapply emit_grows].
Qed.
Lemma run_of_complete solve levels (A : mat) b n_iter anchor s :
  run_of solve levels A b n_iter new_recorder anchor = Ok s → complete (o_rec s).
Proof.
  unfold run_of. intros (r & _ & E)%bind_Ok. apply grows_complete.
  exact (foldR_grows o_rec _ _ _ _ E (of_step_grows _ _ _ _ _ _)).
Qed.
Lemma run_pcg_complete omega npre npost coarse ls (A : mat) b n_iter s :
  run_pcg (vcycle omega npre npost coarse) ls A b n_iter new_recorder = Ok s → complete (g_rec s).
Proof. intros (_ & Hn & Hc & _)%run_pcg_recorded. by split. Qed.

(** ** What is concluded *)

(** A result with a complete recorder whose aggregates are the rows of some chains. *)
Definition written (r : result F) : Prop :=
  complete (r_frames r) ∧ ∃ chains, r_aggregates r = agg_rows 0 chains.

(** The finest cells as they stand, before any map. *)
Definition cells (n : nat) : list Z := map Z.of_nat (seq 0 n).
Lemma conclude_chains n iters ls reference rec r :
  conclude n iters ls reference rec = Ok r →
  r_frames r = rec ∧ ∃ chains, r_aggregates r = agg_rows 0 chains ∧ follows ls (cells n) chains.
Proof.
  unfold conclude. intros (v & _ & ([grids aggs] & Ht & [= <-])%bind_Ok)%bind_Ok.
  split; [done|]. cbn [r_aggregates]. unfold tables in Ht. apply bind_Ok in Ht as (a & Ha & [= _ <-]).
  apply aggregates_follows in Ha; [done|]. by rewrite length_map, length_seq.
Qed.
Lemma conclude_written n iters ls reference rec r :
  conclude n iters ls reference rec = Ok r → complete rec → written r.
Proof. intros (Hr & chains & Ha & _)%conclude_chains Hc. split; [by rewrite Hr | by exists chains]. Qed.

(** The cell of each grid a finest cell belongs to is a cell of the grid. *)
Definition on_grid (n : nat) (l : level F) (ch : list Z) : Prop :=
  length ch = n ∧ ∀ e, e ∈ ch → (0 ≤ e < Z.of_nat (nrows (l_A l)))%Z.
Lemma follows_on_grid n nl ls ch chains :
  shaped nl ls → follows ls ch chains → length ch = n → (∀ e, e ∈ ch → (0 ≤ e < Z.of_nat nl)%Z) →
  Forall2 (on_grid n) ls chains.
Proof.
  intros Hs; revert ch chains; induction Hs as [nl A [HA _]|nl nc A m P ls [HA _] Hm _ _ He _ IH];
    intros ch chains Hf Hl Hch; inversion Hf as [|l' ls' ch' chs Hn Hf'|l' ls' ch' ch2 chs m' P' Hn Hg Hf']; subst;
    cbn [l_next] in Hn; try done.
  - inversion Hf'; subst. constructor; [|constructor]. split; [done|]. by cbn [l_A].
  - injection Hn as <- <-. constructor; [split; [done|]; by cbn [l_A]|].
    apply IH with (ch := ch2); [done| |].
    + apply mapR_Ok, Forall2_length in Hg. lia.
    + intros e [j Hj]%list_elem_of_lookup_1. apply mapR_Ok in Hg.
      destruct (Forall2_lookup_r _ _ _ _ _ Hg Hj) as (c & Hc & Ec).
      apply list_elem_of_lookup_2, Hch in Hc. unfold get in Ec. rewrite Aggregate.position_in in Ec by lia.
      cbn in Ec. unfold getitem in Ec. destruct (m !! Z.to_nat c) as [e'|] eqn:Em; [|done].
      injection Ec as ->. by eapply He.
Qed.

(** ** The levels of a hierarchy of maps *)

(** Each map is of the cells the map before makes, and makes fewer. *)
Inductive fitting : nat → list (list Z) → Prop :=
  | fitting_nil n : fitting n []
  | fitting_cons n nc m maps :
      length m = n → Forall (λ e, 0 ≤ e)%Z m → n_coarse_of m = Ok (Z.of_nat nc) → nc < n →
      fitting nc maps → fitting n (m :: maps).

Lemma n_coarse_bound m nc e : n_coarse_of m = Ok nc → e ∈ m → (e < nc)%Z.
Proof.
  unfold n_coarse_of. destruct m as [|k m]; [done|]. intros [= <-] He%fold_max_ge. lia.
Qed.
Lemma levels_fit fuel (g : graph F) (A : mat) maps target k n ls :
  fitting n (drop k maps) → square A n → levels_loop fuel g A (Some maps) target k = Ok ls →
  shaped n ls ∨ cut n ls.
Proof.
  revert g A k n ls; induction fuel as [|fuel IH]; intros g A k n ls Hf HA; [done|]. cbn [levels_loop next_map].
  destruct (maps !! k) as [m|] eqn:Em; cbn [mbind res_mbind].
  2: { intros [= <-]. left. by constructor. }
  rewrite (drop_S maps m k Em) in Hf. inversion Hf as [|n' nc m' ms Hm He Hnc Hlt Hf']; subst n' m' ms.
  rewrite Hnc. cbn [mbind res_mbind]. rewrite Forall_forall in He.
  assert (∀ i e, m !! i = Some e → (0 ≤ e < Z.of_nat nc)%Z) as Hb.
  { intros i e Hi%list_elem_of_lookup_2. split; [by apply He | by eapply n_coarse_bound]. }
  destruct (galerkin_total A m (Z.of_nat nc) n HA Hm) as (A_c & P & -> & HAc & HP); [lia|done|].
  rewrite Nat2Z.id in HAc, HP. cbn [mbind res_mbind]. intros (pairs & _ & E)%bind_Ok.
  case_bool_decide; [injection E as <-; right; by eapply Cut_last|].
  apply bind_Ok in E as (rest & Hr & [= <-]).
  destruct (IH _ _ _ _ _ Hf' HAc Hr); [left; by eapply Shaped_cons | right; by eapply Cut_cons].
Qed.

(** ** The system *)
Lemma put_length {A} (l l' : list A) i v : put l i v = Ok l' → length l' = length l.
Proof. unfold put. intros (p & _ & [= <-])%bind_Ok. apply length_insert. Qed.
Lemma set_entry_square (A A' : mat) i j v n : square A n → set_entry A i j v = Ok A' → square A' n.
Proof.
  intros [Hr Hc]. unfold set_entry. intros (p & _ & (row & _ & (q & _ & [= <-])%bind_Ok)%bind_Ok)%bind_Ok.
  unfold square, nrows in *. cbn. by rewrite length_insert.
Qed.
Lemma dense_square s (A : mat) : dense s = Ok A → square A (nrows A).
Proof.
  unfold dense. assert (square (diag_mat (diag s)) (length (diag s))) as H0.
  { split; [|done]. unfold nrows. cbn. by rewrite length_map, length_seq. }
  revert H0. generalize (diag_mat (diag s)) (length (diag s)). intros A0 n.
  generalize (seq 0 (length (owner s))). intros l. revert A0. induction l as [|f l IH]; intros A0 H0; cbn [foldR].
  - intros [= <-]. destruct H0. split; [done | congruence].
  - intros (A1 & H1 & H2)%bind_Ok. apply (IH A1); [|done]. unfold dense_step in H1.
    apply bind_Ok in H1 as (o & _ & H1). apply bind_Ok in H1 as (k & _ & H1).
    apply bind_Ok in H1 as (u & _ & H1). apply bind_Ok in H1 as (A2 & Hu & H1).
    apply bind_Ok in H1 as (l' & _ & H1). by repeat (eapply set_entry_square; [|done]).
Qed.
Lemma read_rhs_length to_float table n (b : vec) : read_rhs to_float table n = Ok b → length b = n.
Proof.
  unfold read_rhs. assert (length (zeros (F := F) n) = n) as H0 by (unfold zeros; apply repeat_length).
  revert H0. generalize (zeros (F := F) n). induction table as [|r table IH]; intros b0 H0; cbn [foldR].
  - by intros [= <-].
  - intros (b1 & H1 & H2)%bind_Ok. apply (IH b1); [|done]. unfold rhs_step in H1.
    apply bind_Ok in H1 as (v & _ & H1). apply bind_Ok in H1 as (c & _ & H1).
    apply put_length in H1. lia.
Qed.

(** ** main *)

(** The hierarchy of brae in the trace directory fits the system. *)
Definition brae_fits (to_float : str → res F) (t : trace) (n : nat) : Prop :=
  ∀ s A maps, read_ldu to_float (t_matrix t) = Ok s → dense s = Ok A →
    read_hierarchy (t_brae_hierarchy t) = Ok maps → nrows A = n ∧ fitting n maps.

(** The frames of a run on a hierarchy of levels with the chains of aggregates. *)
Definition drawable (n : nat) (r : result F) : Prop :=
  ∃ chains, r_aggregates r = agg_rows 0 chains ∧
    ∀ f, f ∈ steps (r_frames r) → ∃ ch, chains !! f_grid f = Some ch ∧ length ch = n ∧
      ∀ e, e ∈ ch → (0 ≤ e < Z.of_nat (f_ngrid f))%Z.

Lemma sized_drawable n ls iters reference rec r :
  shaped n ls → Forall (sized_from 0 ls) (steps rec) → conclude n iters ls reference rec = Ok r → drawable n r.
Proof.
  intros Hls Hsz (Hr & chains & Ha & Hf)%conclude_chains. exists chains. split; [done|].
  apply follows_on_grid with (n := n) (nl := n) in Hf; [|done|unfold cells; by rewrite length_map, length_seq|].
  2: { intros e (i & -> & Hi%elem_of_seq)%list_elem_of_fmap. lia. }
  intros f Hin. rewrite Hr in Hin. rewrite Forall_forall in Hsz.
  destruct (Hsz f Hin) as (k & l & Hg & Hk & Hn). cbn in Hg. subst k.
  destruct (Forall2_lookup_l _ _ _ _ _ Hf Hk) as (ch & Hch & Hl & He). exists ch.
  split; [done|]. split; [done|]. intros e. rewrite Hn. apply He.
Qed.
Lemma pcg_drawable omega npre npost coarse n ls (A : mat) b iters reference s r :
  (∀ A n b x, square A n → length b = n → coarse A b = Ok x → length x = n) →
  shaped n ls → square A n → length b = n →
  run_pcg (vcycle omega npre npost coarse) ls A b iters new_recorder = Ok s →
  conclude n iters ls reference (g_rec s) = Ok r → drawable n r.
Proof. intros Hco Hls HA Hb Hs. apply sized_drawable; [done|]. by eapply run_pcg_sized. Qed.

(** A run on a hierarchy that is cut does not end. *)
Lemma run_pcg_cut omega npre npost coarse n ls (A : mat) b iters s :
  (∀ A n b, square A n → length b < n → coarse A b = Raise ValueError) →
  cut n ls → square A n → length b = n → 0 < iters →
  run_pcg (vcycle omega npre npost coarse) ls A b iters new_recorder ≠ Ok s.
Proof.
  intros Hco Hc HA Hb Hi. unfold run_pcg, cg_start.
  intros (s0 & (r & Hr & [= <-])%bind_Ok & Hs)%bind_Ok. destruct iters as [|iters]; [lia|].
  cbn [seq foldR] in Hs. apply bind_Ok in Hs as (s1 & H1 & _). unfold cg_step in H1. cbn [g_r g_rec] in H1.
  apply bind_Ok in H1 as (rec1 & _ & H1). apply bind_Ok in H1 as ([z rec2] & Hz & _).
  rewrite (vcycle_cut _ _ _ _ n ls 0 r 1 _ rec1 ValueError) in Hz; [done|done|done|].
  eapply residual_length; [exact HA|exact Hb| |exact Hr]. unfold zeros. by rewrite repeat_length.
Qed.
Lemma run_brae_cut n ls (A : mat) b iters s :
  cut n ls → square A n → length b = n → 0 < iters → run_brae ls A b iters new_recorder ≠ Ok s.
Proof. apply run_pcg_cut, coarse_brae_mismatch. Qed.

Lemma main_written solve to_float t iters n o a b :
  main solve to_float t iters = Ok (o, a, b) → brae_fits to_float t n → 0 < iters →
  written o ∧ written a ∧ written b ∧ drawable n b.
Proof.
  unfold main. intros E Hfit Hi. apply bind_Ok in E as (s & Hs & E). apply bind_Ok in E as (A & HA & E).
  apply bind_Ok in E as (rhs & Hrhs & E). apply bind_Ok in E as (of_maps & _ & E).
  apply bind_Ok in E as (maps & Hmaps & E). apply bind_Ok in E as (of_levels & _ & E).
  apply bind_Ok in E as (amgx_levels & _ & E). apply bind_Ok in E as (ls & Hls & E).
  apply bind_Ok in E as (of_ref & _ & E). apply bind_Ok in E as (so & Ho & E).
  apply bind_Ok in E as (ro & Hro & E). apply bind_Ok in E as (amgx_ref & _ & E).
  apply bind_Ok in E as (sa & Ha & E). apply bind_Ok in E as (ra & Hra & E).
  apply bind_Ok in E as (brae_ref & _ & E). apply bind_Ok in E as (sb & Hb & E).
  apply bind_Ok in E as (rb & Hrb & [= <- <- <-]).
  destruct (Hfit s A maps Hs HA Hmaps) as [Hn Hf]. pose proof (dense_square _ _ HA) as Hsq.
  apply read_rhs_length in Hrhs. rewrite Hn in *.
  split; [by eapply conclude_written, run_of_complete|].
  split; [by eapply conclude_written, run_pcg_complete|].
  split; [by eapply conclude_written, run_pcg_complete|].
  unfold build_levels in Hls. destruct (levels_fit _ _ _ _ _ 0 n _ Hf Hsq Hls) as [Hsh|Hcut].
  - eapply pcg_drawable; [|exact Hsh|exact Hsq|exact Hrhs|exact Hb|exact Hrb].
    intros. by eapply coarse_brae_length.
  - by destruct (run_brae_cut n ls A rhs iters sb Hcut Hsq Hrhs Hi).
Qed.

(** The frames of the run are there. *)
Lemma main_frames solve to_float t iters o a b :
  main solve to_float t iters = Ok (o, a, b) → 0 < iters → steps (r_frames b) ≠ [].
Proof.
  unfold main. intros E Hi. do 15 (apply bind_Ok in E as (? & _ & E)).
  apply bind_Ok in E as (sb & Hb & E). apply bind_Ok in E as (rb & Hrb & [= _ _ <-]).
  apply conclude_chains in Hrb as [-> _]. apply run_pcg_recorded in Hb as [Hl _].
  intros E. rewrite E in Hl. destruct iters; [lia|]. done.
Qed.
End runs.
End Runs.
