(* ===== verification/ReplayProofs.v ===== *)
(** * demo/amgpcg: the replay shows what was recorded

    The tables make_steps.py writes load, and [render] then draws one picture for each
    frame of the run, in order, each finest cell painted with the value recorded for
    the cell of the frame's grid it belongs to. *)
From stdpp Require Import gmap.
From S2P Require Export ReplayRuns.

Module Shown.
Import Amg Tables Replay Load Runs.

Section shown.
Context {F : Type} `{FormatLaws F} (detail : frame F → str) (round9 : F → F).
Abbreviation vec := (list F).

(** ** Loading the written tables *)

(** The trace directory after make_steps.py and, where its rows are there,
    make_compare.py. *)
Definition written_tables (mesh : list row) (runs : list (str * result F))
    (rows : option (list (Compare.entry F))) : tables :=
  {| t_mesh := mesh; t_steps := steps_table detail runs; t_state := state_table runs;
     t_grids := grids_table runs; t_aggregates := aggregates_table runs;
     t_compare := Compare.compare_table <$> rows |}.

(** What the loaded data hold of a run. *)
Record holds (d : loaded (F := F)) (name : str) (r : result F) : Prop := {
  holds_steps : d_steps d !! name =
    match steps (r_frames r) with [] => None | l => Some (map (loaded_step detail) l) end;
  holds_state : ∀ k f, steps (r_frames r) !! k = Some f → 0 < f_ngrid f →
    d_state d !! (name, Z.of_nat k) = Some (map loaded_cell (cells_at (r_frames r) k));
  holds_aggregates : ∀ chains g ch, r_aggregates r = agg_rows 0 chains → chains !! g = Some ch → ch ≠ [] →
    d_aggregates d !! (name, Z.of_nat g) = Some ch;
}.
Lemma load_written mesh runs rows m b :
  NoDup runs.*1 → (∀ name r, (name, r) ∈ runs → written r) → load_mesh round9 mesh = Ok m →
  ∃ d, load round9 b (written_tables mesh runs rows) = Ok d ∧ d_mesh d = m ∧
    ∀ name r, (name, r) ∈ runs → holds d name r.
Proof.
  intros Hnd Hw Hm. unfold load, written_tables.
  cbn [t_mesh t_steps t_state t_grids t_aggregates t_compare]. rewrite Hm. cbn [mbind res_mbind].
  destruct (load_steps_written detail runs Hnd) as (ss & -> & Hss). cbn [mbind res_mbind].
  destruct (load_state_written runs Hnd) as (st & -> & Hst).
  { intros name r Hin. by apply (Hw name r Hin). }
  cbn [mbind res_mbind].
  assert (∃ g, (if b then load_grids (grids_table runs) else Ok ∅) = Ok g) as [g ->].
  { destruct b; [apply load_grids_written | by eexists]. }
  cbn [mbind res_mbind].
  destruct (load_aggregates_written runs Hnd) as (ag & -> & Hag).
  { intros name r Hin. by apply (Hw name r Hin). }
  cbn [mbind res_mbind]. destruct (histories_written detail runs rows) as [h ->]. cbn [mbind res_mbind].
  eexists. split; [reflexivity|]. split; [done|]. intros name r Hin. split; cbn [d_steps d_state d_aggregates].
  - by apply Hss.
  - intros k f. by apply Hst.
  - intros chains g' ch. by apply Hag.
Qed.

(** ** The values of a frame *)
Definition read_value (fc : field_choice) (c : cell (F := F)) : F :=
  printed (match fc with Fx => c_x c | Fr => c_r c end).
Lemma chosen_cells fc (l : list (cell (F := F))) : chosen fc (map loaded_cell l) = map (read_value fc) l.
Proof. unfold chosen. rewrite map_map. by destruct fc. Qed.

Section run.
Context (d : loaded (F := F)) (name : str) (r : result F) (fc : field_choice).
Context (Hd : holds d name r) (Hw : complete (r_frames r)).

Lemma frame_step k f : steps (r_frames r) !! k = Some f → f_step f = k.
Proof.
  intros Hk. destruct Hw as [Hs _].
  assert (map f_step (steps (r_frames r)) !! k = Some (f_step f)) as E by (rewrite list_lookup_fmap, Hk; done).
  rewrite Hs in E. by apply lookup_seq in E as [-> _].
Qed.
Lemma values_frame k f :
  steps (r_frames r) !! k = Some f → 0 < f_ngrid f →
  values_of d fc name (loaded_step detail f) = Ok (map (read_value fc) (cells_at (r_frames r) k)).
Proof.
  intros Hk Hn. unfold values_of, loaded_step. cbn [q_step]. rewrite (frame_step k f Hk).
  rewrite (holds_state _ _ _ Hd k f Hk Hn). cbn [from_opt mbind res_mbind]. by rewrite chosen_cells.
Qed.
Lemma cell_of_frame k f e :
  steps (r_frames r) !! k = Some f → (0 ≤ e < Z.of_nat (f_ngrid f))%Z →
  ∃ c, c ∈ state (r_frames r) ∧ c_step c = f_step f ∧ Z.of_nat (c_cell c) = e ∧
    get (map (read_value fc) (cells_at (r_frames r) k)) e = Ok (read_value fc c).
Proof.
  intros Hk He. pose proof (cells_at_frame _ k f Hw Hk) as Hc.
  assert (length (cells_at (r_frames r) k) = f_ngrid f) as Hl
    by (rewrite <- (length_map c_cell), Hc; apply length_seq).
  destruct (lookup_lt_is_Some_2 (cells_at (r_frames r) k) (Z.to_nat e)) as [c Hce]; [lia|].
  exists c. pose proof (list_elem_of_lookup_2 _ _ _ Hce) as Hin. unfold cells_at in Hin.
  apply elem_of_lfilter in Hin as [Hin Hst]. apply Nat.eqb_eq in Hst.
  split; [done|]. split; [by rewrite (frame_step k f Hk)|]. split.
  - assert (map c_cell (cells_at (r_frames r) k) !! Z.to_nat e = Some (c_cell c)) as E
      by (rewrite list_lookup_fmap, Hce; done).
    rewrite Hc in E. apply lookup_seq in E as [-> _]. lia.
  - unfold get. rewrite length_map, Hl, Aggregate.position_in by done. cbn [mbind res_mbind].
    unfold getitem. rewrite list_lookup_fmap, Hce. done.
Qed.
End run.

(** ** The mesh panel *)
Abbreviation column m c := (nth c (m_col m) 0).
Abbreviation line m c := (nth c (m_row m) 0).

(** No two cells are at one place. *)
Definition distinct (m : mesh) : Prop :=
  ∀ c o, c < m_n m → o < m_n m → column m c = column m o → line m c = line m o → c = o.
(** The cell [o] is the neighbour of [c] to the right or above. *)
Definition beside (m : mesh) (c o : nat) : Prop :=
  o < m_n m ∧ (column m o = S (column m c) ∧ line m o = line m c ∨
               column m o = column m c ∧ line m o = S (line m c)).

Lemma load_mesh_length table m : load_mesh round9 table = Ok m → length (m_col m) = m_n m.
Proof. unfold load_mesh. intros (cells & _ & (l & _ & [= <-])%bind_Ok)%bind_Ok. cbn. by rewrite !length_map. Qed.

Lemma cell_at_spec m i j o :
  distinct m → length (m_col m) = m_n m → cell_at m i j = Some o ↔ o < m_n m ∧ column m o = i ∧ line m o = j.
Proof.
  intros Hd Hl. unfold cell_at. rewrite Hl. set (l := List.filter _ _).
  assert (∀ c, c ∈ l ↔ c < m_n m ∧ column m c = i ∧ line m c = j) as Hel.
  { intros c. unfold l. rewrite elem_of_lfilter, elem_of_seq, andb_true_iff, !Nat.eqb_eq. naive_solver lia. }
  rewrite <- Hel. split; [apply last_Some_elem_of|]. intros Ho.
  destruct (last l) as [c|] eqn:E; [|apply last_None in E; rewrite E in Ho; by apply not_elem_of_nil in Ho].
  apply last_Some_elem_of, Hel in E as (Hc & Hi & Hj). apply Hel in Ho as (Ho & Hi' & Hj').
  f_equal. apply Hd; congruence.
Qed.
Lemma edge_spec m (agg : list Z) c other :
  c < length agg → (∀ o, other = Some o → o < length agg) →
  ∃ l, edge m agg c other = Ok l ∧
    ∀ p, p ∈ l ↔ ∃ o a b, other = Some o ∧ p = (c, o) ∧ agg !! c = Some a ∧ agg !! o = Some b ∧ a ≠ b.
Proof.
  intros Hc Ho. unfold edge. destruct other as [o|].
  2: { exists []. split; [done|]. intros p. split; [by intros ?%not_elem_of_nil | by intros (? & ? & ? & ? & _)]. }
  destruct (lookup_lt_is_Some_2 agg c Hc) as [a Ea].
  destruct (lookup_lt_is_Some_2 agg o (Ho o eq_refl)) as [b Eb].
  unfold getitem. rewrite Ea, Eb. cbn [from_opt mbind res_mbind]. eexists. split; [reflexivity|]. intros p.
  destruct (Z.eqb_spec a b) as [->|Hne].
  - split; [by intros ?%not_elem_of_nil|]. intros (? & ? & ? & [= <-] & _ & Ha & Hb & Hab). congruence.
  - rewrite list_elem_of_singleton. split; [intros ->; by exists o, a, b|].
    by intros (? & ? & ? & [= <-] & -> & _).
Qed.

(** The pairs of neighbours of different aggregates. *)
Definition boundary (m : mesh) (agg : list Z) (c o : nat) : Prop :=
  c < m_n m ∧ beside m c o ∧ ∃ a b, agg !! c = Some a ∧ agg !! o = Some b ∧ a ≠ b.
Lemma draw_mesh_spec m (agg : list Z) (values : vec) :
  distinct m → length (m_col m) = m_n m → 0 < m_n m → length agg = m_n m → length values = m_n m →
  ∃ edges, draw_mesh m agg values = Ok (values, edges) ∧ ∀ c o, (c, o) ∈ edges ↔ boundary m agg c o.
Proof.
  intros Hd Hl Hn Ha Hv. unfold draw_mesh, limit_of, vmax. rewrite Hl.
  destruct values as [|v0 vs] eqn:Ev; [cbn in Hv; lia|]. cbn [map mbind res_mbind]. rewrite <- Ev in *. clear Ev.
  assert (mapR (getitem values) (seq 0 (m_n m)) = Ok values) as ->.
  { apply mapR_Ok, Forall2_same_length_lookup. split; [by rewrite length_seq|].
    intros i j y [-> Hi]%lookup_seq Hy. rewrite Nat.add_0_l. unfold getitem. by rewrite Hy. }
  cbn [mbind res_mbind].
  assert (∀ c, c < m_n m → ∃ l, edges_of m agg c = Ok l ∧ ∀ o, (c, o) ∈ l ↔ boundary m agg c o) as He.
  { intros c Hc. unfold edges_of.
    assert (∀ i j o, cell_at m i j = Some o → o < length agg) as Hb.
    { intros i j o Ho. apply cell_at_spec in Ho as [Ho _]; [lia|done|done]. }
    destruct (edge_spec m agg c (cell_at m (S (column m c)) (line m c))) as (l1 & -> & H1); [lia|apply Hb|].
    cbn [mbind res_mbind].
    destruct (edge_spec m agg c (cell_at m (column m c) (S (line m c)))) as (l2 & -> & H2); [lia|apply Hb|].
    cbn [mbind res_mbind]. eexists. split; [reflexivity|]. intros o. rewrite elem_of_app, H1, H2.
    unfold boundary, beside. setoid_rewrite cell_at_spec; [|done..]. split.
    - intros [(o' & a & b & H' & [= <-] & Hr)|(o' & a & b & H' & [= <-] & Hr)]; naive_solver.
    - intros (_ & (Ho & Hp) & a & b & Hr). destruct Hp; [left|right]; exists o, a, b; naive_solver. }
  destruct (mapR_total (edges_of m agg) (seq 0 (m_n m))) as [ls Els].
  { intros c Hc%elem_of_seq. destruct (He c) as (l & El & _); [lia|]. eauto. }
  rewrite Els. cbn [mbind res_mbind]. eexists. split; [reflexivity|]. intros c o.
  rewrite (mapR_concat_elem _ _ _ _ Els). split.
  - intros (x & bs & Hx%elem_of_seq & Eb & Hin). destruct (He x) as (l & El & Hi); [lia|].
    rewrite El in Eb. injection Eb as <-.
    enough (x = c) as -> by (by apply Hi). clear -El Hin. unfold edges_of in El.
    apply bind_Ok in El as (r1 & E1 & El). apply bind_Ok in El as (r2 & E2 & [= <-]).
    assert (∀ other l, edge m agg x other = Ok l → (c, o) ∈ l → x = c) as Hx.
    { intros other l. unfold edge. destruct other as [y|]; [|by intros [= <-] ?%not_elem_of_nil].
      intros (a & _ & (b & _ & [= <-])%bind_Ok)%bind_Ok. destruct (a =? b)%Z; [by intros ?%not_elem_of_nil|].
      intros [= ->]%list_elem_of_singleton. done. }
    apply elem_of_app in Hin as [Hin|Hin]; [exact (Hx _ _ E1 Hin) | exact (Hx _ _ E2 Hin)].
  - intros Hb. destruct (He c) as (l & El & Hi); [apply Hb|]. exists c, l. split; [apply elem_of_seq; destruct Hb; lia|].
    split; [done|]. by apply Hi.
Qed.

(** ** A picture *)

(** Each finest cell is painted with the value recorded for the cell it belongs to on
    the grid of the frame [f] of the run [r]. *)
Definition paints (m : mesh) (r : result F) (fc : field_choice) (f : frame F) (painted : vec) : Prop :=
  length painted = m_n m ∧
  ∀ c, c < m_n m → ∃ k, k ∈ state (r_frames r) ∧ c_step k = f_step f ∧
    (f_grid f, c, Z.of_nat (c_cell k)) ∈ r_aggregates r ∧ painted !! c = Some (read_value fc k).
(** The picture [v] shows the frame [f]: the cells are painted, and the edges drawn are
    those between neighbours that belong to different cells of the frame's grid; and the
    mark on the V-cycle is one of the nodes of its path, at the depth of that grid. *)
Definition shows (m : mesh) (r : result F) (fc : field_choice) (f : frame F) (v : view (F := F)) : Prop :=
  v_frame v = loaded_step detail f ∧ paints m r fc f (v_painted v) ∧
  (∀ c o, (c, o) ∈ v_boundaries v ↔ c < m_n m ∧ beside m c o ∧
    ∃ a b, (f_grid f, c, a) ∈ r_aggregates r ∧ (f_grid f, o, b) ∈ r_aggregates r ∧ a ≠ b) ∧
  cp_active (v_cycle v) ∈ cp_path (v_cycle v) ∧ (cp_active (v_cycle v)).2 = (- Z.of_nat (f_grid f))%Z.

Lemma active_on_path n (s : rstep (F := F)) : (0 ≤ q_grid s < n)%Z → cp_active (draw_cycle n s) ∈ cp_path (draw_cycle n s).
Proof.
  intros Hs. assert (q_grid s ∈ map Z.of_nat (seq 0 (Z.to_nat n))) as Hk.
  { apply list_elem_of_fmap. exists (Z.to_nat (q_grid s)). split; [lia|]. apply elem_of_seq. lia. }
  unfold draw_cycle, position_of. cbn [cp_active cp_path]. apply elem_of_app.
  case_bool_decide; [left | right; rewrite rev_alt; apply elem_of_reverse]; apply list_elem_of_fmap; by exists (q_grid s).
Qed.

Lemma agg_rows_lookup (chains : list (list Z)) g ch c a :
  chains !! g = Some ch → (g, c, a) ∈ agg_rows 0 chains ↔ ch !! c = Some a.
Proof.
  intros Hg. pose proof (agg_rows_grid chains 0 g ch Hg) as E. rewrite Nat.add_0_l in E.
  transitivity ((g, c, a) ∈ List.filter (λ x : nat * nat * Z, x.1.1 =? g) (agg_rows 0 chains)).
  - rewrite elem_of_lfilter. cbn. rewrite Nat.eqb_refl. naive_solver.
  - rewrite E, elem_of_lookup_imap. split; [by intros (i & e & [= -> ->] & Hi)|]. intros Hc. by exists c, a.
Qed.

Lemma mark_total h solver i : ∃ k, mark (F := F) h solver (Z.of_nat i) = Ok k.
Proof.
  unfold mark. destruct (h !! solver) as [l|]; [|by eexists].
  destruct (Z.ltb_spec (Z.of_nat i) (Z.of_nat (length l))); [|by eexists].
  unfold get. rewrite Aggregate.position_in by lia. cbn [mbind res_mbind]. rewrite Nat2Z.id. unfold getitem.
  destruct (lookup_lt_is_Some_2 l i ltac:(lia)) as [v ->]. by eexists.
Qed.

Section draw.
Context (d : loaded (F := F)) (name : str) (r : result F) (fc : field_choice).
Context (Hd : holds d name r) (Hw : complete (r_frames r)) (Hr : drawable (m_n (d_mesh d)) r).
Context (Hdist : distinct (d_mesh d)) (Hlen : length (m_col (d_mesh d)) = m_n (d_mesh d)).
Context (Hpos : 0 < m_n (d_mesh d)).

Lemma frame_nonempty f : f ∈ steps (r_frames r) → 0 < f_ngrid f.
Proof.
  destruct Hr as (chains & _ & Hf). intros (ch & _ & Hl & He)%Hf.
  destruct ch as [|e ch]; [cbn in Hl; lia|]. specialize (He e ltac:(left)). lia.
Qed.
Lemma values_nonempty f :
  f ∈ steps (r_frames r) → ∃ v vs, values_of d fc name (loaded_step detail f) = Ok (v :: vs).
Proof.
  intros Hin. pose proof (frame_nonempty f Hin) as Hn. apply list_elem_of_lookup_1 in Hin as [k Hk].
  rewrite (values_frame d name r fc Hd Hw k f Hk Hn). pose proof (cells_at_frame _ k f Hw Hk) as Hc.
  destruct (cells_at (r_frames r) k) as [|c l]; [|by eexists _, _].
  cbn in Hc. destruct (f_ngrid f); [lia | done].
Qed.

(** The limits of the grids. *)
Lemma norms_total (l : list (frame F)) norms :
  (∀ f, f ∈ l → f ∈ steps (r_frames r)) →
  ∃ norms', foldR (norms_step d fc name) (map (loaded_step detail) l) norms = Ok norms' ∧
    (∀ g, is_Some (norms !! g) → is_Some (norms' !! g)) ∧
    ∀ f, f ∈ l → is_Some (norms' !! Z.of_nat (f_grid f)).
Proof.
  revert norms; induction l as [|f l IH]; intros norms Hl; cbn [map foldR].
  { exists norms. split; [done|]. split; [done|]. by intros f ?%not_elem_of_nil. }
  destruct (values_nonempty f) as (v & vs & Ev); [apply Hl; left|].
  assert (∃ limit, norms_step d fc name norms (loaded_step detail f) =
    Ok (<[Z.of_nat (f_grid f) := limit]> norms)) as [limit ->].
  { unfold norms_step. rewrite Ev. by eexists. }
  cbn [mbind res_mbind].
  destruct (IH (<[Z.of_nat (f_grid f) := limit]> norms)) as (norms' & -> & Hk & Hg).
  { intros f' Hf'. apply Hl. by right. }
  exists norms'. split; [done|]. split.
  - intros g Hs. apply Hk. rewrite lookup_insert_is_Some'. by right.
  - intros f' [->|Hf']%elem_of_cons; [|by apply Hg]. apply Hk. apply lookup_insert_is_Some'. by left.
Qed.

(** The mesh panel of a frame. *)
Lemma panel_spec f :
  f ∈ steps (r_frames r) →
  ∃ values agg painted edges, values_of d fc name (loaded_step detail f) = Ok values ∧
    painted_of d name (loaded_step detail f) values = Ok (agg, painted) ∧
    draw_mesh (d_mesh d) agg painted = Ok (painted, edges) ∧ paints (d_mesh d) r fc f painted ∧
    ∀ c o, (c, o) ∈ edges ↔ c < m_n (d_mesh d) ∧ beside (d_mesh d) c o ∧
      ∃ a b, (f_grid f, c, a) ∈ r_aggregates r ∧ (f_grid f, o, b) ∈ r_aggregates r ∧ a ≠ b.
Proof.
  intros Hin. pose proof (frame_nonempty f Hin) as Hn.
  destruct Hr as (chains & Ha & Hf). destruct (Hf f Hin) as (ch & Hch & Hl & He).
  pose proof Hin as [k Hk]%list_elem_of_lookup_1.
  exists (map (read_value fc) (cells_at (r_frames r) k)), ch.
  destruct (mapR_total (get (map (read_value fc) (cells_at (r_frames r) k))) ch) as [painted Ep].
  { intros e Hin'. destruct (cell_of_frame r fc Hw k f e Hk (He e Hin')) as (c & _ & _ & _ & E). by eexists. }
  pose proof Ep as Ep'%mapR_Ok. pose proof (Forall2_length _ _ _ Ep') as Hpl.
  destruct (draw_mesh_spec (d_mesh d) ch painted) as (edges & Hm & Hedges); [done|done|done|done|lia|].
  exists painted, edges. split; [by apply (values_frame d name r fc Hd Hw k f Hk Hn)|]. split.
  { unfold painted_of. cbn [q_grid loaded_step].
    rewrite (holds_aggregates _ _ _ Hd chains (f_grid f) ch Ha Hch) by (intros ->; cbn in Hl; lia).
    cbn [from_opt mbind res_mbind]. by rewrite Ep. }
  split; [done|]. split; [split; [lia|]|].
  - intros c Hc. destruct (lookup_lt_is_Some_2 ch c ltac:(lia)) as [e Hce].
    destruct (Forall2_lookup_l _ _ _ _ _ Ep' Hce) as (v & Hv & Eg).
    destruct (cell_of_frame r fc Hw k f e Hk) as (kc & H1 & H2 & H3 & H4).
    { apply He. by eapply list_elem_of_lookup_2. }
    exists kc. split; [done|]. split; [done|]. split; [|congruence].
    rewrite Ha, (agg_rows_lookup chains _ ch) by done. congruence.
  - intros c o. rewrite Hedges. unfold boundary. rewrite Ha. by setoid_rewrite (agg_rows_lookup chains _ ch _ _ Hch).
Qed.

Lemma draw_shows norms n_levels f :
  f ∈ steps (r_frames r) → is_Some (norms !! Z.of_nat (f_grid f)) → (Z.of_nat (f_grid f) < n_levels)%Z →
  ∃ v, draw d norms n_levels fc name (loaded_step detail f) = Ok v ∧ shows (d_mesh d) r fc f v.
Proof.
  intros Hin [limit Hlim] Hgrid. destruct (panel_spec f Hin) as (values & agg & painted & edges & Hv & Hp & Hm & Hps & He).
  unfold draw. rewrite Hv. cbn [mbind res_mbind]. rewrite Hp. cbn [mbind res_mbind q_grid q_iter loaded_step].
  rewrite Hlim. cbn [from_opt mbind res_mbind]. rewrite Hm. cbn [mbind res_mbind].
  destruct (mark_total (d_histories d) name (f_iter f)) as [mk ->]. cbn [mbind res_mbind].
  eexists. split; [reflexivity|]. split; [done|]. split; [done|]. split; [done|]. cbn [v_cycle]. split.
  - apply active_on_path. cbn [q_grid loaded_step]. lia.
  - cbn [cp_active draw_cycle]. unfold position_of. by case_bool_decide.
Qed.
End draw.

Lemma render_shown mesh runs rows m name r fc :
  NoDup runs.*1 → (∀ name r, (name, r) ∈ runs → written r) → load_mesh round9 mesh = Ok m →
  distinct m → 0 < m_n m → (name, r) ∈ runs → drawable (m_n m) r → steps (r_frames r) ≠ [] →
  ∃ views, render round9 (written_tables mesh runs rows) name fc = Ok (0%Z, views) ∧
    Forall2 (shows m r fc) (steps (r_frames r)) views.
Proof.
  intros Hnd Hw Hm Hdist Hpos Hin Hdr Hne. unfold render.
  destruct (load_written mesh runs rows m true Hnd Hw Hm) as (d & -> & <- & Hh). cbn [mbind res_mbind].
  specialize (Hh name r Hin). pose proof (load_mesh_length _ _ Hm) as Hl. destruct (Hw name r Hin) as [Hc _].
  rewrite (holds_steps _ _ _ Hh). destruct (steps (r_frames r)) as [|f0 fs] eqn:Es; [done|].
  rewrite <- Es. clear Hne.
  assert (∃ k, n_coarse_of (map q_grid (map (loaded_step detail) (steps (r_frames r)))) = Ok k) as [k Hk]
    by (rewrite Es; by eexists).
  rewrite Hk.
  cbn [mbind res_mbind].
  destruct (norms_total d name r fc Hh Hc Hdr Hl Hpos (steps (r_frames r)) ∅) as (norms & -> & _ & Hnorms); [done|].
  cbn [mbind res_mbind].
  assert (∃ views, mapR (draw d norms k fc name) (map (loaded_step detail) (steps (r_frames r))) = Ok views ∧
    Forall2 (shows (d_mesh d) r fc) (steps (r_frames r)) views) as (views & -> & HF); [|by exists views].
  assert (∀ f, f ∈ steps (r_frames r) → ∃ v, draw d norms k fc name (loaded_step detail f) = Ok v ∧
    shows (d_mesh d) r fc f v) as Hall.
  { intros f Hf. apply draw_shows; auto. eapply n_coarse_bound; [exact Hk|].
    apply list_elem_of_fmap. exists (loaded_step detail f). split; [done|]. apply list_elem_of_fmap. by exists f. }
  clear -Hall. induction (steps (r_frames r)) as [|f l IH]; cbn [map mapR]; [by exists []|].
  destruct (Hall f) as (v & -> & Hv); [left|]. cbn [mbind res_mbind].
  destruct IH as (vs & -> & Hvs); [intros f' Hf'; apply Hall; by right|]. exists (v :: vs). split; [done|].
  by constructor.
Qed.
End shown.

(** C26: the animation shows what was recorded.  When make_steps.py ends with at least
    one iteration, the hierarchy of brae fits the system and replay.py can load the mesh,
    of distinct cells, then it loads the tables written, with or without compare.csv, and
    draws brae's run: one picture for each
    recorded frame, in order, each finest cell painted with the value (the iterate or
    the residual, to twelve digits) recorded for the cell it belongs to on the frame's
    grid, the edges drawn exactly between the neighbouring cells that belong to
    different cells of the grid, and the mark on the V-cycle on a node of its path at
    the depth of the grid. *)
Theorem replay_trace {F} `{FormatLaws F} (detail : frame F → str) (round9 : F → F)
    (solve : NumPy.mat F → list F → res (list F)) t iters o a b mesh m rows fc :
  Amg.main solve to_float t iters = Ok (o, a, b) → 0 < iters → brae_fits to_float t (m_n m) →
  load_mesh round9 mesh = Ok m → distinct m → 0 < m_n m →
  ∃ views, render round9 (written_tables detail mesh (runs_of (o, a, b)) rows) ("brae" : str) fc = Ok (0%Z, views) ∧
    Forall2 (shows detail m b fc) (steps (r_frames b)) views.
Proof.
  intros Hmain Hi Hfit Hm Hd Hpos.
  destruct (main_written _ _ _ _ _ _ _ _ Hmain Hfit Hi) as (Ho & Ha & Hb & Hdr).
  apply render_shown; [| |done..| |done|by eapply main_frames].
  - apply (bool_decide_unpack _). vm_compute. exact I.
  - intros name r [[= -> ->]|[[= -> ->]|[[= -> ->]|[]%not_elem_of_nil]%elem_of_cons]%elem_of_cons]%elem_of_cons; done.
  - right. right. left.
Qed.
End Shown.
