(* ===== verification/ReplayCompare.v ===== *)
(** * demo/amgpcg: make_compare.py, and the three solvers side by side

    What a row of compare.csv is, what the summary of make_compare.py says, and what
    [render_compare] needs. *)
From stdpp Require Import gmap.
From S2P Require Export ReplayProofs.

Module Summary.
Import Amg Tables Compare Load.

Section summary.
Context {F : Type} `{NumOps F, !Format F} (solve : NumPy.mat F → list F → res (list F)).
Abbreviation vec := (list F).

(** The rows of one solver's cycles are about that solver. *)
Definition row_of (A : NumPy.mat F) (b x_exact : vec) (cycles : str → option (list row)) (w : work) (e : entry F) : Prop :=
  ∃ table psi x, cycles (w_key w) = Some table ∧ read_cycles table (length b) = Ok psi ∧
    psi !! e_cycle e = Some x ∧ entry_of A b x_exact w (e_cycle e, x) = Ok e.

Lemma entry_of_fields A b x_exact w c (e : entry F) :
  entry_of A b x_exact w c = Ok e →
  e_solver e = w_key w ∧ e_label e = w_label w ∧ e_cycle e = c.1 ∧
  e_fine_sweeps e = (c.1 * w_sweeps w)%Z ∧ e_fine_spmv e = (c.1 * w_spmv w)%Z.
Proof. unfold entry_of. by intros (r & _ & (d & _ & (v & _ & [= <-])%bind_Ok)%bind_Ok)%bind_Ok. Qed.
Lemma entries_of_spec cycles A b x_exact w l :
  entries_of cycles A b x_exact w = Ok l → ∀ e, e ∈ l ↔ row_of A b x_exact cycles w e.
Proof.
  unfold entries_of, row_of. destruct (cycles (w_key w)) as [table|] eqn:Et.
  2: { intros [= <-] e. split; [by intros ?%not_elem_of_nil | by intros (t & psi & x & ? & _)]. }
  intros (psi & Hp & Hl)%bind_Ok e. apply mapR_Ok in Hl. split.
  - intros [i Hi]%list_elem_of_lookup_1. destruct (Forall2_lookup_r _ _ _ _ _ Hl Hi) as ([c x] & Hc & He).
    pose proof (entry_of_fields _ _ _ _ _ _ He) as (_ & _ & Ec & _). cbn in Ec. subst c.
    apply list_elem_of_lookup_2 in Hc. unfold by_key in Hc. rewrite elem_of_sort_by in Hc.
    apply elem_of_map_to_list in Hc. by exists table, psi, x.
  - intros (t & psi' & x & [= <-] & Hp' & Hx & He). rewrite Hp in Hp'. injection Hp' as <-.
    assert ((e_cycle e, x) ∈ by_key (map_to_list psi)) as [i Hi]%list_elem_of_lookup_1
      by (unfold by_key; by rewrite elem_of_sort_by; apply elem_of_map_to_list).
    destruct (Forall2_lookup_l _ _ _ _ _ Hl Hi) as (e' & He' & Ee). rewrite He in Ee. injection Ee as <-.
    by eapply list_elem_of_lookup_2.
Qed.

(** The cycles of the rows, with the first. *)
Definition below (e : entry F) : bool := ltb (printed (e_resnorm e)) (lit 1 8).
Lemma first_min_spec (e : entry F) l :
  first_min e l ∈ e :: l ∧ ∀ e', e' ∈ e :: l → (e_cycle (first_min e l) ≤ e_cycle e')%Z.
Proof.
  revert e; induction l as [|e1 l IH]; intros e.
  - split; [left|]. intros e' [->|?%not_elem_of_nil]%elem_of_cons; [done|done].
  - unfold first_min. cbn [fold_left]. destruct (Z.ltb_spec (e_cycle e1) (e_cycle e)) as [Hlt|Hge];
      [destruct (IH e1) as [H1 H2]|destruct (IH e) as [H1 H2]]; unfold first_min in H1, H2; (split; [set_solver|]);
      intros e' He'.
    + apply elem_of_cons in He' as [->|He']; [|by apply H2]. specialize (H2 e1 ltac:(left)). lia.
    + apply elem_of_cons in He' as [->|He']; [apply H2; left|].
      apply elem_of_cons in He' as [->|He']; [specialize (H2 e ltac:(left)); lia|]. apply H2. by right.
Qed.

(** What the line of a solver says of the rows. *)
Definition verdict (rows : list (entry F)) (w : work) (v : reached) : Prop :=
  match v with
  | Reached c spmv => spmv = (c * w_spmv w)%Z ∧
      (∃ e, e ∈ rows ∧ e_solver e = w_key w ∧ below e = true ∧ e_cycle e = c) ∧
      ∀ e, e ∈ rows → e_solver e = w_key w → below e = true → (c ≤ e_cycle e)%Z
  | NotReached => (∃ e, e ∈ rows ∧ e_solver e = w_key w) ∧
      ∀ e, e ∈ rows → e_solver e = w_key w → below e = false
  end.

Lemma summary_verdict (rows : list (entry F)) w v :
  (∀ e, e ∈ rows → e_solver e = w_key w → e_fine_spmv e = (e_cycle e * w_spmv w)%Z) →
  summary_of rows w = Some v ↔ verdict rows w v.
Proof.
  intros Hspmv. unfold summary_of. set (matching := List.filter _ rows).
  assert (∀ e, e ∈ matching ↔ e ∈ rows ∧ e_solver e = w_key w) as Hm.
  { intros e. unfold matching. by rewrite elem_of_lfilter, bool_decide_eq_true. }
  assert (∀ e, e ∈ List.filter below matching ↔ e ∈ rows ∧ e_solver e = w_key w ∧ below e = true) as Hb.
  { intros e. rewrite elem_of_lfilter, Hm. naive_solver. }
  destruct matching as [|e0 l0] eqn:Em.
  { split; [done|]. intros Hv. exfalso. destruct v; cbn in Hv.
    - destruct Hv as [(e & He & Hs) _]. apply (not_elem_of_nil e). by apply Hm.
    - destruct Hv as (_ & (e & He & Hs & _) & _). apply (not_elem_of_nil e). by apply Hm. }
  match goal with |- context [List.filter ?p (e0 :: l0)] => change p with below end.
  destruct (List.filter below (e0 :: l0)) as [|e l].
  - assert (∀ e, e ∈ rows → e_solver e = w_key w → below e = false) as Hall.
    { intros e He Hs. destruct (below e) eqn:E; [|done]. exfalso. apply (not_elem_of_nil e). by apply Hb. }
    split; [intros Hv; injection Hv as <-; split; [exists e0; apply Hm; left | done]|].
    destruct v as [|c k]; [done|]. intros (_ & (e & He & Hs & E & _) & _). by rewrite Hall in E.
  - destruct (first_min_spec e l) as [Hin Hle]. pose proof Hin as (Hr & Hs & E)%Hb.
    set (m := first_min e l) in *. split.
    + intros Hv. injection Hv as <-. cbn. split; [by apply Hspmv|]. split; [by exists m|].
      intros e' H1 H2 H3. apply Hle, Hb. done.
    + destruct v as [|c k]; cbn.
      * intros [_ Hn]. by rewrite Hn in E.
      * intros (-> & (e' & H1 & H2 & H3 & <-) & Hmin).
        assert (e_cycle m = e_cycle e') as Ec.
        { specialize (Hle e' (proj2 (Hb e') (conj H1 (conj H2 H3)))). specialize (Hmin _ Hr Hs E). lia. }
        f_equal. f_equal; [done|]. by rewrite (Hspmv _ Hr Hs), Ec.
Qed.

Lemma Ok_pair {A B} (a a' : A) (b b' : B) : Ok (a, b) = Ok (a', b') → a = a' ∧ b = b'.
Proof. by intros [= -> ->]. Qed.
Lemma work_keys w w' : w ∈ WORK_PER_CYCLE → w' ∈ WORK_PER_CYCLE → w_key w = w_key w' → w = w'.
Proof.
  intros Hw Hw' E. unfold WORK_PER_CYCLE in Hw, Hw'. rewrite !elem_of_cons, elem_of_nil in Hw, Hw'.
  repeat destruct Hw as [->|Hw]; try done; repeat destruct Hw' as [->|Hw']; try done; discriminate E.
Qed.
Lemma work_labels w w' : w ∈ WORK_PER_CYCLE → w' ∈ WORK_PER_CYCLE → w_label w = w_label w' → w = w'.
Proof.
  intros Hw Hw' E. unfold WORK_PER_CYCLE in Hw, Hw'. rewrite !elem_of_cons, elem_of_nil in Hw, Hw'.
  repeat destruct Hw as [->|Hw]; try done; repeat destruct Hw' as [->|Hw']; try done; discriminate E.
Qed.

(** C28: the comparison of the solvers.  When make_compare.py ends, compare.csv has a row
    for each cycle of each solver whose dump is there and no other, with the residual
    of the dumped iterate in one norm for all of them and the work of that many cycles;
    and the summary has a line for each of these solvers with a cycle: the first cycle
    whose written residual is below 1e-8 with the products it cost, or that none is. *)
Theorem compare_summary matrix rhs cycles rows lines :
  Compare.main solve matrix rhs cycles = Ok (rows, lines) →
  ∃ A b x_exact, read_system matrix rhs = Ok (A, b) ∧ solve A b = Ok x_exact ∧
    (∀ e, e ∈ rows ↔ ∃ w, w ∈ WORK_PER_CYCLE ∧ row_of A b x_exact cycles w e) ∧
    ∀ w v, w ∈ WORK_PER_CYCLE → (w_label w, v) ∈ lines ↔ verdict rows w v.
Proof.
  unfold Compare.main. intros ([A b] & HA & E)%bind_Ok. apply bind_Ok in E as (x_exact & Hx & E).
  apply bind_Ok in E as (? & _ & E). apply bind_Ok in E as (l & Hl & [<- <-]%Ok_pair).
  exists A, b, x_exact. split; [done|]. split; [done|].
  assert (∀ e, e ∈ concat l ↔ ∃ w, w ∈ WORK_PER_CYCLE ∧ row_of A b x_exact cycles w e) as Hrows.
  { intros e. rewrite (mapR_concat_elem _ _ _ _ Hl). split.
    - intros (w & es & Hw & He & Hin). exists w. split; [done|]. by eapply entries_of_spec.
    - intros (w & Hw & Hr). pose proof Hl as Hl'%mapR_Ok. pose proof Hw as [i Hi]%list_elem_of_lookup_1.
      destruct (Forall2_lookup_l _ _ _ _ _ Hl' Hi) as (es & _ & He). exists w, es.
      split; [done|]. split; [done|]. by apply (entries_of_spec _ _ _ _ _ _ He). }
  split; [exact Hrows|]. intros w v Hw. rewrite <- summary_verdict.
  - rewrite list_elem_of_omap. split.
    + intros (w' & Hw' & Hs). apply fmap_Some in Hs as (v' & Hv' & [= El ->]).
      by rewrite (work_labels w w' Hw Hw' El).
    + intros Hs. exists w. split; [done|]. by rewrite Hs.
  - intros e (w' & Hw' & (table & psi & y & _ & _ & _ & He))%Hrows Hk.
    destruct (entry_of_fields _ _ _ _ _ _ He) as (Hs & _ & _ & _ & Hf). rewrite Hf.
    by rewrite (work_keys w w' Hw Hw') by congruence.
Qed.
End summary.
End Summary.

Module Lockstep.
Import Amg Tables Replay Load Runs Shown.

Section lockstep.
Context {F : Type} `{FormatLaws F} (detail : frame F → str) (round9 : F → F).

(** A result that can be drawn on [n] cells. *)
Definition ready (n : nat) (r : result F) : Prop := written r ∧ drawable n r ∧ steps (r_frames r) ≠ [].

Lemma get_clamped {X} (g : X → rstep (F := F)) (l : list X) index :
  l ≠ [] → ∃ x, l !! Nat.min index (length l - 1) = Some x ∧
    get (map g l) (clamp_index (map g l) index) = Ok (g x).
Proof.
  intros Hne. assert (0 < length l) as Hl by (destruct l; [done | cbn; lia]).
  destruct (lookup_lt_is_Some_2 l (Nat.min index (length l - 1))) as [x Hx]; [lia|]. exists x. split; [done|].
  unfold clamp_index, get. rewrite length_map, Aggregate.position_in by lia. cbn [mbind res_mbind].
  replace (Z.to_nat _) with (Nat.min index (length l - 1)) by lia. unfold getitem.
  rewrite list_lookup_fmap, Hx. done.
Qed.

Section loaded.
Context (d : loaded (F := F)) (fc : field_choice) (runs : list (str * result F)).
Context (Hh : ∀ name r, (name, r) ∈ runs → holds detail d name r).
Context (Hr : ∀ name r, (name, r) ∈ runs → ready (m_n (d_mesh d)) r).
Context (Hdist : distinct (d_mesh d)) (Hlen : length (m_col (d_mesh d)) = m_n (d_mesh d)).
Context (Hpos : 0 < m_n (d_mesh d)).

Lemma steps_of name r :
  (name, r) ∈ runs → d_steps d !! name = Some (map (loaded_step detail) (steps (r_frames r))).
Proof.
  intros Hin. rewrite (holds_steps _ _ _ _ (Hh name r Hin)). destruct (Hr name r Hin) as (_ & _ & Hne).
  by destruct (steps (r_frames r)).
Qed.

(** What is drawn of one solver at [index]: its frame there, or its last. *)
Definition panel (index : nat) (r : result F) (p : rstep (F := F) * list F) : Prop :=
  ∃ f, steps (r_frames r) !! Nat.min index (length (steps (r_frames r)) - 1) = Some f ∧
    p.1 = loaded_step detail f ∧ paints (d_mesh d) r fc f p.2.

Lemma draw_solver_panel name r index :
  (name, r) ∈ runs → ∃ p, draw_solver d fc index name = Ok p ∧ panel index r p.
Proof.
  intros Hin. destruct (Hr name r Hin) as ([Hc _] & Hdr & Hne). unfold draw_solver.
  rewrite (steps_of name r Hin). cbn [from_option]. unfold id.
  destruct (get_clamped (loaded_step detail) (steps (r_frames r)) index Hne) as (f & Hf & ->).
  cbn [mbind res_mbind].
  destruct (panel_spec detail round9 d name r fc (Hh name r Hin) Hc Hdr Hdist Hlen Hpos f) as (values & agg & painted & edges & Hv & Hp & Hm & Hps & _).
  { by eapply list_elem_of_lookup_2. }
  rewrite Hv. cbn [mbind res_mbind]. rewrite Hp. cbn [mbind res_mbind]. rewrite Hm. cbn [mbind res_mbind].
  eexists. split; [reflexivity|]. exists f. by split.
Qed.

Lemma draw_solvers l index :
  (∀ nr, nr ∈ l → nr ∈ runs) →
  ∃ ps, mapR (draw_solver d fc index) (map fst l) = Ok ps ∧ Forall2 (panel index) (map snd l) ps.
Proof.
  induction l as [|[name r] l IH]; intros Hl; cbn [map mapR fst snd]; [by exists []|].
  destruct (draw_solver_panel name r index) as (p & -> & Hp); [apply Hl; left|]. cbn [mbind res_mbind].
  destruct IH as (ps & -> & Hps); [intros nr Hin; apply Hl; by right|]. exists (p :: ps).
  split; [done|]. by constructor.
Qed.

Lemma all_values_total l :
  (∀ nr, nr ∈ l → nr ∈ runs) → l ≠ [] →
  ∃ vs, mapR (λ s, mapR (values_of d fc s) (default [] (d_steps d !! s))) (map fst l) = Ok vs ∧
    ∃ limit, limit_of (concat (concat vs)) = Ok limit.
Proof.
  intros Hl Hne.
  assert (∀ name r, (name, r) ∈ l → ∃ v vs rest, mapR (values_of d fc name) (default [] (d_steps d !! name)) = Ok ((v :: vs) :: rest)) as Hv.
  { intros name r Hin%Hl. destruct (Hr name r Hin) as ([Hc _] & Hdr & Hn). rewrite (steps_of name r Hin).
    cbn [from_option]. unfold id.
    assert (∀ f, f ∈ steps (r_frames r) → ∃ v vs, values_of d fc name (loaded_step detail f) = Ok (v :: vs)) as Hvf.
    { intros f Hf. by eapply (values_nonempty detail d name r fc (Hh name r Hin) Hc Hdr Hlen Hpos). }
    destruct (steps (r_frames r)) as [|f fs]; [done|]. cbn [map mapR].
    destruct (Hvf f) as (v & vs & ->); [left|]. cbn [mbind res_mbind].
    destruct (mapR_total (values_of d fc name) (map (loaded_step detail) fs)) as [rest ->]; [|by exists v, vs, rest].
    intros s (f' & -> & Hf')%list_elem_of_fmap. destruct (Hvf f') as (v' & vs' & E); [by right|]. by eexists. }
  destruct l as [|[name r] l]; [done|]. cbn [map mapR fst].
  destruct (Hv name r) as (v & vs & rest & ->); [left|]. cbn [mbind res_mbind].
  destruct (mapR_total (λ s, mapR (values_of d fc s) (default [] (d_steps d !! s))) (map fst l)) as [more ->].
  { intros s ([name' r'] & -> & Hin)%list_elem_of_fmap. cbn [fst].
    destruct (Hv name' r') as (v' & vs' & rest' & ->); [by right|]. by eexists. }
  cbn [mbind res_mbind]. eexists. split; [reflexivity|]. by eexists.
Qed.
End loaded.

(** The longest of the runs. *)
Definition longest (l : list (result F)) : nat := foldr (λ r, Nat.max (length (steps (r_frames r)))) 0 l.
Lemma fold_left_max (l : list nat) k : fold_left Nat.max l k = foldr Nat.max 0 (k :: l).
Proof.
  revert k; induction l as [|x l IH]; intros k; cbn [fold_left foldr]; [lia|]. rewrite IH. cbn [foldr]. lia.
Qed.

(** the three solvers side by side.  From tables in which all three solvers have
    frames, [render_compare] draws as many pictures as the longest run has frames;
    the picture at an index has for each solver, in the order of OpenFOAM, AMGX and
    brae, its frame at that index or, once it has ended, its last, painted on the
    finest cells. *)
Theorem compare_lockstep mesh m o a b rows fc :
  load_mesh round9 mesh = Ok m → distinct m → 0 < m_n m →
  ready (m_n m) o → ready (m_n m) a → ready (m_n m) b →
  ∃ d views, load round9 false (written_tables detail mesh (runs_of (o, a, b)) rows) = Ok d ∧ d_mesh d = m ∧
    render_compare round9 (written_tables detail mesh (runs_of (o, a, b)) rows) fc = Ok (0%Z, views) ∧
    length views = longest [o; a; b] ∧
    ∀ index v, views !! index = Some v → Forall2 (panel d fc index) [o; a; b] v.1.
Proof.
  intros Hm Hdist Hpos Ho Ha Hb. set (runs := runs_of (o, a, b)).
  assert (∀ name r, (name, r) ∈ runs → ready (m_n m) r) as Hr.
  { intros name r [[= -> ->]|[[= -> ->]|[[= -> ->]|[]%not_elem_of_nil]%elem_of_cons]%elem_of_cons]%elem_of_cons; done. }
  destruct (load_written detail round9 mesh runs rows m false) as (d & Hd & <- & Hh); [|by apply Hr|done|].
  { apply (bool_decide_unpack _). vm_compute. exact I. }
  pose proof (load_mesh_length _ _ _ Hm) as Hlen.
  assert (∀ name r, (name, r) ∈ runs → d_steps d !! name = Some (map (loaded_step detail) (steps (r_frames r)))) as Hst.
  { intros name r Hin. by eapply steps_of. }
  unfold render_compare. exists d. rewrite Hd. cbn [mbind res_mbind].
  rewrite filter_all.
  2: { intros s Hs. apply bool_decide_eq_true.
       change SOLVER_COLOUR with (map fst runs) in Hs. apply list_elem_of_fmap in Hs as ([name r] & -> & Hin).
       cbn [fst]. rewrite (Hst name r Hin). by eexists. }
  assert (map (λ s, length (default [] (d_steps d !! s))) SOLVER_COLOUR
    = map (λ r, length (steps (r_frames r))) [o; a; b]) as ->.
  { change SOLVER_COLOUR with (map fst runs). change [o; a; b] with (map snd runs). rewrite !map_map.
    apply map_ext_in. intros [name r] Hin%list_elem_of_In. cbn [fst snd]. rewrite (Hst name r Hin).
    cbn [from_option]. unfold id. by rewrite length_map. }
  cbn [map]. cbn [mbind res_mbind].
  destruct (all_values_total d fc runs Hh Hr Hlen Hpos runs) as (vs & Evs & limit & El); [done|done|].
  change (map fst runs) with SOLVER_COLOUR in Evs. rewrite Evs. cbn [mbind res_mbind]. rewrite El.
  cbn [mbind res_mbind].
  assert (∀ index, ∃ v, draw_compare d fc SOLVER_COLOUR index = Ok v ∧ Forall2 (panel d fc index) [o; a; b] v.1) as Hv.
  { intros index. unfold draw_compare.
    destruct (draw_solvers d fc runs Hh Hr Hdist Hlen Hpos runs index) as (ps & Eps & Hps); [done|].
    change (map fst runs) with SOLVER_COLOUR in Eps. rewrite Eps. cbn [mbind res_mbind].
    rewrite (Hst ("brae" : str) b) by (right; right; left). cbn [from_option]. unfold id.
    destruct (get_clamped (loaded_step detail) (steps (r_frames b)) index) as (f & _ & ->); [apply Hb|].
    cbn [mbind res_mbind q_iter loaded_step].
    destruct (mark_total (d_histories d) ("brae" : str) (f_iter f)) as [mk ->]. cbn [mbind res_mbind].
    by eexists. }
  destruct (mapR_total (draw_compare d fc SOLVER_COLOUR) (seq 0 (longest [o; a; b]))) as [views Ev].
  { intros i _. destruct (Hv i) as (v & E & _). by eexists. }
  exists views. rewrite fold_left_max. change (foldr Nat.max 0 _) with (longest [o; a; b]). rewrite Ev.
  cbn [mbind res_mbind]. split; [done|]. split; [done|]. split; [done|]. apply mapR_Ok in Ev.
  split; [by rewrite <- (Forall2_length _ _ _ Ev), length_seq|]. intros index v Hi.
  destruct (Forall2_lookup_r _ _ _ _ _ Ev Hi) as (j & Hj & E). apply lookup_seq in Hj as [-> _].
  rewrite Nat.add_0_l in E. destruct (Hv index) as (v' & E' & HF). rewrite E in E'. by injection E' as <-.
Qed.

(** ** Without brae *)
Lemma load_steps_nonempty table m name l : load_steps (F := F) table = Ok m → m !! name = Some l → l ≠ [].
Proof.
  unfold load_steps. intros Hm. revert name l.
  assert (∀ name l, (∅ : gmap str (list (rstep (F := F)))) !! name = Some l → l ≠ []) as H0'
    by (intros name l; by rewrite lookup_empty).
  revert Hm H0'. generalize (∅ : gmap str (list (rstep (F := F)))).
  induction table as [|row table IH]; intros m0; cbn [foldR]; [by intros [= <-]|].
  intros (m1 & H1 & H2)%bind_Ok H0'. apply (IH m1 H2). unfold steps_step in H1.
  apply bind_Ok in H1 as (solver & _ & (s & _ & [= <-])%bind_Ok). intros name l.
  intros [[<- <-]|[_ Hl]]%lookup_insert_Some; [|by eapply H0']. by destruct (default [] _).
Qed.
End lockstep.

(** the comparison cannot do without brae.  [render_compare] picks the solvers the
    trace has frames of, but marks the curve of brae in every picture: on a trace
    without brae it never returns. *)
Theorem compare_needs_brae {F} `{FormatLaws F} (round9 : F → F) (t : tables) fc m r :
  load_steps (F := F) (t_steps t) = Ok m → m !! ("brae" : str) = None →
  render_compare round9 t fc ≠ Ok r.
Proof.
  intros Hm Hb. unfold render_compare, load. rewrite Hm. intros (d & Hd & E)%bind_Ok.
  assert (d_steps d = m) as Hst.
  { apply bind_Ok in Hd as (? & _ & Hd). cbn [mbind res_mbind] in Hd. apply bind_Ok in Hd as (? & _ & Hd).
    cbn [mbind res_mbind] in Hd. apply bind_Ok in Hd as (? & _ & (? & _ & [= <-])%bind_Ok). done. }
  rewrite Hst in E. set (solvers := List.filter _ SOLVER_COLOUR) in E.
  destruct (map (λ s, length (default [] (m !! s))) solvers) as [|k l] eqn:El; [done|].
  cbn [mbind res_mbind] in E. apply bind_Ok in E as (vs & _ & (limit & _ & E)%bind_Ok).
  assert (0 < fold_left Nat.max l k) as Hpos.
  { destruct solvers as [|s solvers'] eqn:Es; [done|]. injection El as <- _.
    assert (s ∈ List.filter (λ s, bool_decide (is_Some (m !! s))) SOLVER_COLOUR) as Hs
      by (fold solvers; rewrite Es; left).
    apply elem_of_lfilter in Hs as [_ Hs]. apply bool_decide_eq_true in Hs as [fs Hfs].
    rewrite fold_left_max, Hfs. cbn [from_option foldr]. unfold id.
    pose proof (load_steps_nonempty _ _ _ _ Hm Hfs). destruct fs; [done | cbn; lia]. }
  destruct (fold_left Nat.max l k) as [|n]; [lia|]. cbn [seq mapR] in E.
  apply bind_Ok in E as (views & (v & Hv & _)%bind_Ok & _). unfold draw_compare in Hv.
  apply bind_Ok in Hv as (panels & _ & Hv). rewrite Hst, Hb in Hv. done.
Qed.
End Lockstep.
