(* ===== verification/ReplayOf.v ===== *)
(** * demo/amgpcg: the runs of OpenFOAM and AMGX, and the comparison film end to end

    The frames of OpenFOAM's GAMG cycles belong to the levels and have a value for each
    cell, as those of the conjugate gradient runs do; on a hierarchy that is cut neither
    run ends.  So what a run of make_steps.py writes can always be compared. *)
From stdpp Require Import gmap.
From S2P Require Export ReplayProofs ReplayCompare.

Module OfRun.
Import Amg Levels Trace Tables Load Sized Runs Aggregate Shown Lockstep.

(** ** Folds over the levels *)
Lemma foldR_up {S} (P : nat → S → Prop) (f : S → nat → res S) a m s s' :
  foldR f (seq a m) s = Ok s' → P a s →
  (∀ k s s', a ≤ k < a + m → P k s → f s k = Ok s' → P (1 + k) s') → P (a + m) s'.
Proof.
  revert a s; induction m as [|m IH]; intros a s; cbn [seq foldR]; [rewrite Nat.add_0_r; by intros [= <-]|].
  intros (s1 & H1 & H2)%bind_Ok Hs Hf. replace (a + Datatypes.S m) with (1 + a + m) by lia.
  apply (IH (1 + a) s1 H2); [apply (Hf a s); [lia|done|done]|]. intros k t t' Hk. apply Hf. lia.
Qed.
Lemma foldR_down {S} (P : nat → S → Prop) (f : S → nat → res S) m s s' :
  foldR f (rev (seq 1 m)) s = Ok s' → P (1 + m) s →
  (∀ k s s', 1 ≤ k ≤ m → P (1 + k) s → f s k = Ok s' → P k s') → P 1 s'.
Proof.
  revert s; induction m as [|m IH]; intros s; [by intros [= <-]|].
  rewrite seq_S, rev_app_distr. cbn [rev app foldR]. intros (s1 & H1 & H2)%bind_Ok Hs Hf.
  apply (IH s1 H2); [apply (Hf (1 + m) s); [lia|done|done]|]. intros k t t' Hk. apply Hf. lia.
Qed.

Section run.
Context {F : Type} `{NumOps F} (solve : NumPy.mat F → list F → res (list F)).
Abbreviation vec := (list F).
Abbreviation mat := (NumPy.mat F).

(** What is used of [np.linalg.solve]: a solution has the size of the matrix, and a
    right-hand side of another size raises. *)
Record solves_sized : Prop := {
  solve_length : ∀ (A : mat) n (b x : vec), square A n → length b = n → solve A b = Ok x → length x = n;
  solve_mismatch : ∀ (A : mat) n (b : vec), square A n → length b < n → solve A b = Raise ValueError;
}.
Context (Hsolve : solves_sized).

(** The sizes of the levels: [d k] cells at the level [k].  The operator of the last
    level has them too, or, on a hierarchy that is cut, is larger. *)
Record ladder (ls : list (level F)) (d : nat → nat) (whole : bool) : Prop := {
  ladder_some : ls ≠ [];
  ladder_rung : ∀ k l, ls !! k = Some l → S k < length ls →
    square (l_A l) (d k) ∧ ∃ m P, l_next l = Some (m, P) ∧ tall P (d k) (d (S k));
  ladder_last : ∀ l, ls !! (length ls - 1) = Some l →
    if whole then square (l_A l) (d (length ls - 1)) else ∃ e, square (l_A l) e ∧ d (length ls - 1) < e;
}.
Lemma ladder_cons l ls n m P d whole :
  square (l_A l) n → l_next l = Some (m, P) → tall P n (d 0) → ladder ls d whole →
  ladder (l :: ls) (λ k, match k with 0 => n | S k => d k end) whole.
Proof.
  intros HA Hl HP [Hne Hr Hlast]. split; [done|..].
  - intros [|k] l' Hk Hlt; cbn in Hk, Hlt; [injection Hk as <-; split; [done | by exists m, P]|].
    apply (Hr k l' Hk). lia.
  - assert (length (l :: ls) - 1 = S (length ls - 1)) as -> by (destruct ls; [done | cbn; lia]). exact Hlast.
Qed.
Lemma shaped_ladder n ls : shaped n ls → ∃ d, d 0 = n ∧ ladder ls d true.
Proof.
  induction 1 as [n A HA|n nc A m P ls HA Hm HP Hlt _ _ (d & Hd & Hl)].
  - exists (λ _, n). split; [done|]. split; [done|..]; [intros [|k] l; cbn; [lia|done]|]. by intros l [= <-].
  - eexists. split; [|eapply ladder_cons; [exact HA|done|rewrite Hd; exact HP|exact Hl]]. done.
Qed.
Lemma cut_ladder n ls : cut n ls → ∃ d, d 0 = n ∧ ladder ls d false.
Proof.
  induction 1 as [n nc A m P HA Hm HP Hlt|n nc A m P ls HA Hm HP Hlt _ (d & Hd & Hl)].
  - exists (λ k, if k =? 0 then n else nc). split; [done|]. split; [done|..].
    + intros [|[|k]] l; cbn; [intros [= <-] _; split; [done | by exists m, P]|lia|done].
    + intros l [= <-]. by exists n.
  - eexists. split; [|eapply ladder_cons; [exact HA|done|rewrite Hd; exact HP|exact Hl]]. done.
Qed.

(** ** Sizes *)
Lemma getitem_lookup {A} (l : list A) k x : getitem l k = Ok x → l !! k = Some x.
Proof. apply getitem_Ok. Qed.
Lemma prolongator_tall ls d whole k P :
  ladder ls d whole → S k < length ls → prolongator ls k = Ok P → tall P (d k) (d (S k)).
Proof.
  intros Hl Hk. unfold prolongator. intros (l & Hg%getitem_Ok & E)%bind_Ok.
  destruct (ladder_rung _ _ _ Hl k l Hg Hk) as (_ & m & P' & En & HP). rewrite En in E. by injection E as <-.
Qed.
Lemma transpose_length (P : mat) n nc (x y : vec) : tall P n nc → matvec (transpose P) x = Ok y → length y = nc.
Proof.
  intros [_ Hc] E. apply matvec_length in E as [Hl _]. unfold nrows, transpose in Hl. cbn in Hl.
  by rewrite length_map, length_seq, Hc in Hl.
Qed.
Lemma prolong_length (P : mat) n nc (x y : vec) : tall P n nc → matvec P x = Ok y → length y = n.
Proof. intros [Hr _] E. apply matvec_length in E as [Hl _]. congruence. Qed.
Lemma residual_size (A : mat) n (b x r : vec) : square A n → residual_of A b x = Ok r → length x = n.
Proof.
  intros [_ Hc]. unfold residual_of. intros (Ax & E & _)%bind_Ok. apply matvec_length in E as [_ Hx]. congruence.
Qed.
Lemma gauss_seidel_length (A : mat) (b x y : vec) rv : gauss_seidel_sweep A b x rv = Ok y → length y = length x.
Proof.
  unfold gauss_seidel_sweep. generalize ((if rv then @rev nat else id) (seq 0 (length x))). intros l.
  revert x; induction l as [|i l IH]; intros x; cbn [foldR]; [by intros [= <-]|].
  intros (x1 & H1 & H2)%bind_Ok. rewrite (IH x1 H2). unfold gs_step in H1. do 5 (apply bind_Ok in H1 as (? & _ & H1)).
  injection H1 as <-. apply length_insert.
Qed.
Lemma scale_correction_length (A : mat) n (field source v : vec) sf :
  square A n → length field = n → length source = n → scale_correction A field source = Ok (v, sf) → length v = n.
Proof.
  intros [Hr Hc] Hf Hs. unfold scale_correction. intros (Acf & HA & E)%bind_Ok.
  do 3 (apply bind_Ok in E as (? & _ & E)). apply bind_Ok in E as (r & Er & E). apply bind_Ok in E as (w & Ew & E).
  apply bind_Ok in E as (u & Eu & [= <- _]). apply matvec_length in HA as [HA _]. unfold nrows in Hr.
  assert (length r = n) as Hlr by (eapply lift_length; [exact Hs| |exact Er]; unfold scale; rewrite length_map, HA; exact Hr).
  assert (length w = n) as Hlw.
  { eapply lift_length; [exact Hlr| |exact Ew]. unfold diag_of, nrows. rewrite length_map, length_seq. lia. }
  eapply lift_length; [|exact Hlw|exact Eu]. unfold scale. by rewrite length_map.
Qed.

(** ** The way down *)
Definition source_sized (d : nat → nat) (k : nat) (source : list vec) : Prop :=
  length source = k ∧ ∀ i v, source !! i = Some v → length v = d (S i).
Lemma of_down_spec ls d whole iter resnorm source cur rec k s' :
  ladder ls d whole → S k < length ls → source_sized d k source →
  of_down ls iter resnorm (source, cur, rec) k = Ok s' →
  source_sized d (S k) s'.1.1 ∧ length s'.1.2 = d (S k) ∧
  ∃ l, ls !! S k = Some l ∧ (square (l_A l) (d (S k)) → adds (sized_from 0 ls) rec s'.2).
Proof.
  intros Hl Hk [Hs Hsz]. unfold of_down. intros (P & HP & (cur' & Hc & (rec' & He & [= <-])%bind_Ok)%bind_Ok)%bind_Ok.
  cbn [fst snd]. pose proof (prolongator_tall _ _ _ _ _ Hl Hk HP) as Ht. pose proof (transpose_length _ _ _ _ _ Ht Hc) as Hlc.
  split; [|split; [done|]].
  - split; [rewrite length_app, Hs; cbn; lia|]. intros i v. rewrite lookup_app_Some, list_lookup_singleton_Some.
    intros [Hi|(Hi & Hi0 & <-)]; [by apply Hsz|]. by replace i with k by lia.
  - destruct (lookup_lt_is_Some_2 ls (S k) Hk) as [l Hlk]. exists l. split; [done|]. intros [Hr _].
    eapply emit_adds; [exact He|]. intros f Hg Hn. exists (S k), l. split; [done|]. split; [done|].
    rewrite Hn, Hr. unfold zeros. by rewrite repeat_length.
Qed.
Lemma rung_square ls d k l : ladder ls d true → ls !! k = Some l → square (l_A l) (d k).
Proof.
  intros Hl Hk. pose proof (lookup_lt_Some _ _ _ Hk). destruct (decide (S k < length ls)) as [Hlt|Hge].
  - apply (ladder_rung _ _ _ Hl k l Hk Hlt).
  - assert (k = length ls - 1) as E by lia. rewrite E in Hk. pose proof (ladder_last _ _ _ Hl l Hk) as Hlast.
    cbn in Hlast. by rewrite E.
Qed.
Lemma descend_spec ls d whole iter resnorm (resid : vec) rec s' :
  ladder ls d whole → length resid = d 0 →
  foldR (of_down ls iter resnorm) (seq 0 (length ls - 1)) ([], resid, rec) = Ok s' →
  source_sized d (length ls - 1) s'.1.1 ∧ (whole = true → adds (sized_from 0 ls) rec s'.2).
Proof.
  intros Hl Hr E.
  apply (foldR_up (λ k s, source_sized d k s.1.1 ∧ (whole = true → adds (sized_from 0 ls) rec s.2)) _ 0 _ _ _ E).
  - split; [split; [done|]; intros i v Hi; discriminate Hi | intros _; apply adds_refl].
  - intros k [[source cur] rec1] s2 Hk [Hs Ha] Hstep. cbn [fst snd] in Hs, Ha.
    destruct (of_down_spec ls d whole iter resnorm source cur rec1 k s2 Hl ltac:(lia) Hs Hstep) as (H1 & _ & l & Hlk & H2).
    split; [done|]. intros Hw. eapply adds_trans; [by apply Ha|]. apply H2. subst whole. by apply (rung_square ls d (S k)).
Qed.

(** ** The way up *)
Lemma sized_at ls d k l (f : frame F) :
  ladder ls d true → ls !! k = Some l → f_grid f = k → f_ngrid f = d k → sized_from 0 ls f.
Proof.
  intros Hl Hk Hg Hn. exists k, l. split; [done|]. split; [done|]. rewrite Hn. symmetry.
  by apply (rung_square ls d k l Hl Hk).
Qed.
Lemma gs_times_spec ls d k l (A : mat) m (b : vec) iter resnorm (s s' : vec * recorder F) :
  ladder ls d true → ls !! k = Some l → length s.1 = d k →
  times m (gs_smooth A b k iter resnorm) s = Ok s' →
  length s'.1 = d k ∧ adds (sized_from 0 ls) s.2 s'.2.
Proof.
  intros Hl Hk Hs E. apply (times_adds _ (d k) _ _ _ _ E Hs). intros t t' Ht.
  unfold gs_smooth. intros (x & Hx & (r & _ & (rec & He & [= <-])%bind_Ok)%bind_Ok)%bind_Ok. cbn [fst snd].
  apply gauss_seidel_length in Hx. split; [congruence|]. eapply emit_adds; [exact He|]. intros f Hg Hn.
  apply (sized_at ls d k l); [done|done|done|congruence].
Qed.
Lemma of_up_spec ls d source iter resnorm (s s' : vec * recorder F) k :
  ladder ls d true → source_sized d (length ls - 1) source → 1 ≤ k → S k < length ls →
  of_up ls source iter resnorm s k = Ok s' →
  length s'.1 = d k ∧ adds (sized_from 0 ls) s.2 s'.2.
Proof.
  intros Hl [_ Hsrc] Hk1 Hk. destruct s as [correction rec]. unfold of_up.
  intros (l & Hg%getitem_Ok & E)%bind_Ok. apply bind_Ok in E as (P & HP & E). apply bind_Ok in E as (field & Hf & E).
  apply bind_Ok in E as (sk & Hsk%from_opt_Ok & E). apply bind_Ok in E as ([field' sf] & Hsc & E).
  apply bind_Ok in E as (r & _ & E). apply bind_Ok in E as (rec' & He & E).
  pose proof (rung_square ls d k l Hl Hg) as HA.
  pose proof (prolong_length _ _ _ _ _ (prolongator_tall _ _ _ _ _ Hl Hk HP) Hf) as Hlf.
  pose proof (Hsrc _ _ Hsk) as Hls. replace (S (k - 1)) with k in Hls by lia.
  pose proof (scale_correction_length _ _ _ _ _ _ HA Hlf Hls Hsc) as Hl'.
  destruct (gs_times_spec ls d k l (l_A l) NPOST_OF sk iter resnorm (field', rec') s' Hl Hg Hl' E) as [H1 H2].
  split; [done|]. eapply adds_trans; [|exact H2]. eapply emit_adds; [exact He|]. intros f Hgf Hn.
  apply (sized_at ls d k l); [done|done|done|congruence].
Qed.
Lemma ascend_spec ls d source iter resnorm c (x_c : vec) rec s' :
  ladder ls d true → source_sized d (length ls - 1) source → c = length ls - 1 → 1 ≤ c → length x_c = d c →
  foldR (of_up ls source iter resnorm) (rev (seq 1 (c - 1))) (x_c, rec) = Ok s' →
  length s'.1 = d 1 ∧ adds (sized_from 0 ls) rec s'.2.
Proof.
  intros Hl Hsrc Hc Hc1 Hx E.
  apply (foldR_down (λ k s, length s.1 = d k ∧ adds (sized_from 0 ls) rec s.2) _ _ _ _ E).
  - replace (1 + (c - 1)) with c by lia. split; [done | apply adds_refl].
  - intros k s s2 Hk [_ Ha] Hstep.
    destruct (of_up_spec ls d source iter resnorm s s2 k Hl Hsrc ltac:(lia) ltac:(lia) Hstep) as [H1 H2].
    split; [done | by eapply adds_trans].
Qed.

(** ** A cycle and a run *)
Lemma of_start_spec (A : mat) n (b : vec) anchor s i x r :
  square A n → length b = n → length (o_x s) = n → length (o_residual s) = n →
  of_start A b anchor s i = Ok (x, r) → length x = n ∧ length r = n.
Proof.
  intros HA Hb Hx Hr. unfold of_start. destruct (anchor ≫= _) as [y|]; [|by intros [= <- <-]].
  intros (r' & Er & [= <- <-])%bind_Ok. pose proof (residual_size _ _ _ _ _ HA Er) as Hy.
  split; [done|]. by apply (residual_length A n b y).
Qed.
Lemma of_step_sized ls d (A : mat) (b : vec) anchor nf s i s' :
  ladder ls d true → square A (d 0) → length b = d 0 → length (o_x s) = d 0 → length (o_residual s) = d 0 →
  of_step solve ls A b anchor nf s i = Ok s' →
  (length (o_x s') = d 0 ∧ length (o_residual s') = d 0) ∧ adds (sized_from 0 ls) (o_rec s) (o_rec s').
Proof.
  intros Hl HA Hb Hx Hr. unfold of_step. intros ([x resid] & Hst & E)%bind_Ok.
  destruct (of_start_spec A (d 0) b anchor s i x resid HA Hb Hx Hr Hst) as [Hlx Hlr].
  apply bind_Ok in E as (rec1 & H1 & E). apply bind_Ok in E as ([[source cur] rec2] & H2 & E).
  apply bind_Ok in E as (l & Hll%getitem_Ok & E). apply bind_Ok in E as (b_c & Hbc%from_opt_Ok & E).
  destruct (length ls - 1 =? 0) eqn:Ec; [done|]. apply Nat.eqb_neq in Ec.
  apply bind_Ok in E as (x_c & Hxc & E). apply bind_Ok in E as (rr & _ & E). apply bind_Ok in E as (rec3 & H3 & E).
  apply bind_Ok in E as ([correction rec4] & H4 & E). apply bind_Ok in E as (P0 & HP0 & E).
  apply bind_Ok in E as (finest & Hf & E). apply bind_Ok in E as ([finest' sf] & Hsc & E).
  apply bind_Ok in E as (x2 & Hx2 & E). apply bind_Ok in E as (r2 & _ & E). apply bind_Ok in E as (rec5 & H5 & E).
  apply bind_Ok in E as ([x3 rec6] & H6 & E). apply bind_Ok in E as (resid' & Hres & E).
  apply bind_Ok in E as (rec7 & H7 & [= <-]). cbn [o_x o_residual o_rec].
  destruct (descend_spec ls d true _ _ resid rec1 _ Hl Hlr H2) as [Hsrc A2]. cbn [fst snd] in Hsrc, A2.
  destruct (lookup_lt_is_Some_2 ls 0 ltac:(lia)) as [l0 Hl0].
  assert (length x_c = d (length ls - 1)) as Hlxc.
  { eapply (solve_length Hsolve); [by apply (rung_square ls d (length ls - 1))| |exact Hxc].
    rewrite (proj2 Hsrc _ _ Hbc). f_equal. lia. }
  destruct (ascend_spec ls d source _ _ (length ls - 1) x_c rec3 _ Hl Hsrc eq_refl ltac:(lia) Hlxc H4) as [_ A4].
  pose proof (prolong_length _ _ _ _ _ (prolongator_tall ls d true 0 P0 Hl ltac:(lia) HP0) Hf) as Hlf.
  pose proof (scale_correction_length _ _ _ _ _ _ HA Hlf Hlr Hsc) as Hlf'.
  pose proof (lift_length _ _ _ _ _ Hlx Hlf' Hx2) as Hlx2.
  destruct (gs_times_spec ls d 0 l0 A _ b _ _ (x2, rec5) _ Hl Hl0 Hlx2 H6) as [Hlx3 A6]. cbn [fst snd] in Hlx3, A6.
  split; [split; [done | by apply (residual_length A (d 0) b x3)]|].
  assert (∀ f : frame F, f_grid f = 0 → f_ngrid f = d 0 → sized_from 0 ls f) as H0 by (intros f; by apply (sized_at ls d 0 l0)).
  eapply adds_trans; [eapply emit_adds; [exact H1|]; intros f Hg Hn; apply H0; congruence|].
  eapply adds_trans; [by apply A2|].
  eapply adds_trans; [eapply emit_adds; [exact H3|]; intros f Hg Hn; apply (sized_at ls d _ l f Hl Hll Hg); congruence|].
  eapply adds_trans; [exact A4|].
  eapply adds_trans; [eapply emit_adds; [exact H5|]; intros f Hg Hn; apply H0; congruence|].
  eapply adds_trans; [exact A6|]. eapply emit_adds; [exact H7|]. intros f Hg Hn. apply H0; congruence.
Qed.
Lemma run_of_sized n ls (A : mat) (b : vec) iters anchor s :
  shaped n ls → square A n → length b = n → run_of solve ls A b iters new_recorder anchor = Ok s →
  Forall (sized_from 0 ls) (steps (o_rec s)).
Proof.
  intros (d & <- & Hl)%shaped_ladder HA Hb. unfold run_of. intros (r & Hr & E)%bind_Ok.
  assert (length (zeros (F := F) (length b)) = d 0) as Hz by (unfold zeros; by rewrite repeat_length).
  apply (foldR_ind (λ s, (length (o_x s) = d 0 ∧ length (o_residual s) = d 0) ∧ Forall (sized_from 0 ls) (steps (o_rec s)))) in E;
    [by destruct E| |].
  - cbn [o_x o_residual o_rec]. split; [split; [done | exact (residual_length _ _ _ _ _ HA Hb Hz Hr)]|]. constructor.
  - intros i s1 s2 _ [[Hx Hres] HF] Hstep.
    destruct (of_step_sized ls d A b anchor _ s1 i s2 Hl HA Hb Hx Hres Hstep) as (H1 & fs & E2 & HF2).
    split; [done|]. rewrite E2. by apply Forall_app.
Qed.

(** On a hierarchy that is cut the coarsest solve raises. *)
Lemma of_step_cut ls d (A : mat) (b : vec) anchor nf s i s' :
  ladder ls d false → square A (d 0) → length b = d 0 → length (o_x s) = d 0 → length (o_residual s) = d 0 →
  of_step solve ls A b anchor nf s i ≠ Ok s'.
Proof.
  intros Hl HA Hb Hx Hr. unfold of_step. intros ([x resid] & Hst & E)%bind_Ok.
  destruct (of_start_spec A (d 0) b anchor s i x resid HA Hb Hx Hr Hst) as [Hlx Hlr].
  apply bind_Ok in E as (rec1 & H1 & E). apply bind_Ok in E as ([[source cur] rec2] & H2 & E).
  apply bind_Ok in E as (l & Hll%getitem_Ok & E). apply bind_Ok in E as (b_c & Hbc%from_opt_Ok & E).
  destruct (length ls - 1 =? 0) eqn:Ec; [done|]. apply Nat.eqb_neq in Ec.
  apply bind_Ok in E as (x_c & Hxc & _).
  destruct (descend_spec ls d false _ _ resid rec1 _ Hl Hlr H2) as [[_ Hsrc] _]. cbn [fst snd] in Hsrc.
  destruct (ladder_last _ _ _ Hl l Hll) as (e & He & Hlt).
  rewrite (solve_mismatch Hsolve (l_A l) e b_c He) in Hxc; [done|].
  rewrite (Hsrc _ _ Hbc). by replace (S (length ls - 1 - 1)) with (length ls - 1) by lia.
Qed.
Lemma run_of_cut n ls (A : mat) (b : vec) iters anchor s :
  cut n ls → square A n → length b = n → 0 < iters → run_of solve ls A b iters new_recorder anchor ≠ Ok s.
Proof.
  intros (d & <- & Hl)%cut_ladder HA Hb Hi. unfold run_of. intros (r & Hr & E)%bind_Ok.
  destruct iters as [|iters]; [lia|]. cbn [seq foldR] in E. apply bind_Ok in E as (s1 & H1 & _). revert H1.
  assert (length (zeros (F := F) (length b)) = d 0) as Hz by (unfold zeros; by rewrite repeat_length).
  apply (of_step_cut ls d A b anchor); [done|done|done|done|exact (residual_length _ _ _ _ _ HA Hb Hz Hr)].
Qed.

(** ** A run has frames *)
Lemma emit_frames rec iter ph grid (x r : vec) resnorm rec' :
  emit rec iter ph grid x r resnorm = Ok rec' → steps rec' ≠ [].
Proof. intros (frames & cells & Hs & Hl & _)%emit_extends. rewrite Hs. by destruct frames, (steps rec). Qed.
Lemma of_step_frames ls (A : mat) (b : vec) anchor nf s i s' :
  of_step solve ls A b anchor nf s i = Ok s' → steps (o_rec s') ≠ [].
Proof.
  unfold of_step. intros ([x resid] & _ & E)%bind_Ok. do 1 (apply bind_Ok in E as (? & _ & E)).
  apply bind_Ok in E as ([[? ?] ?] & _ & E). do 5 (apply bind_Ok in E as (? & _ & E)).
  apply bind_Ok in E as ([? ?] & _ & E). do 2 (apply bind_Ok in E as (? & _ & E)).
  apply bind_Ok in E as ([? ?] & _ & E). do 3 (apply bind_Ok in E as (? & _ & E)).
  apply bind_Ok in E as ([? ?] & _ & E). apply bind_Ok in E as (? & _ & E).
  apply bind_Ok in E as (?rec & H7 & [= <-]). by eapply emit_frames.
Qed.
Lemma cg_step_frames cycle ls (A : mat) nf s i s' :
  cg_step cycle ls A nf s i = Ok s' → steps (g_rec s') ≠ [].
Proof.
  unfold cg_step. intros (? & _ & ([z rec2] & _ & E)%bind_Ok)%bind_Ok.
  do 7 (apply bind_Ok in E as (? & _ & E)). apply bind_Ok in E as (rec & Hr & [= <-]). by eapply emit_frames.
Qed.
Lemma foldR_last {S X} (P : S → Prop) (f : S → X → res S) l s s' :
  l ≠ [] → foldR f l s = Ok s' → (∀ s x s', f s x = Ok s' → P s') → P s'.
Proof.
  intros Hl E Hf. destruct l as [|x l _] using rev_ind; [done|]. rewrite foldR_app in E.
  apply bind_Ok in E as (s1 & _ & E). cbn [foldR] in E. apply bind_Ok in E as (s2 & E & [= <-]). by eapply Hf.
Qed.
Lemma run_of_frames ls (A : mat) (b : vec) iters anchor s :
  0 < iters → run_of solve ls A b iters new_recorder anchor = Ok s → steps (o_rec s) ≠ [].
Proof.
  intros Hi. unfold run_of. intros (r & _ & E)%bind_Ok. eapply (foldR_last (λ s, steps (o_rec s) ≠ [])); [|exact E|].
  - by destruct iters; [lia|].
  - intros. by eapply of_step_frames.
Qed.
Lemma run_pcg_frames cycle ls (A : mat) (b : vec) iters s :
  0 < iters → run_pcg cycle ls A b iters new_recorder = Ok s → steps (g_rec s) ≠ [].
Proof.
  intros Hi. unfold run_pcg. intros (s0 & _ & E)%bind_Ok. eapply (foldR_last (λ s, steps (g_rec s) ≠ [])); [|exact E|].
  - by destruct iters; [lia|].
  - intros. by eapply cg_step_frames.
Qed.

(** ** What can be compared *)
Lemma of_ready n ls (A : mat) b iters reference anchor s r :
  shaped n ls ∨ cut n ls → square A n → length b = n → 0 < iters →
  run_of solve ls A b iters new_recorder anchor = Ok s →
  conclude n iters ls reference (o_rec s) = Ok r → ready n r.
Proof.
  intros [Hls|Hls] HA Hb Hi Hs Hr; [|by destruct (run_of_cut n ls A b iters anchor s Hls HA Hb Hi)].
  split; [by eapply conclude_written, run_of_complete|]. split.
  - eapply sized_drawable; [exact Hls | by eapply run_of_sized | exact Hr].
  - rewrite (proj1 (conclude_chains _ _ _ _ _ _ Hr)). by eapply run_of_frames.
Qed.
Lemma pcg_ready omega npre npost coarse n ls (A : mat) b iters reference s r :
  (∀ A n b x, square A n → length b = n → coarse A b = Ok x → length x = n) →
  (∀ A n b, square A n → length b < n → coarse A b = Raise ValueError) →
  shaped n ls ∨ cut n ls → square A n → length b = n → 0 < iters →
  run_pcg (vcycle omega npre npost coarse) ls A b iters new_recorder = Ok s →
  conclude n iters ls reference (g_rec s) = Ok r → ready n r.
Proof.
  intros Hco Hmis [Hls|Hls] HA Hb Hi Hs Hr; [|by destruct (run_pcg_cut omega npre npost coarse n ls A b iters s Hmis Hls HA Hb Hi)].
  split; [by eapply conclude_written, run_pcg_complete|]. split.
  - by eapply (pcg_drawable omega npre npost coarse).
  - rewrite (proj1 (conclude_chains _ _ _ _ _ _ Hr)). by eapply run_pcg_frames.
Qed.

(** The trace directory belongs together: its faces are between two of the [n] cells,
    and both dumped hierarchies group these cells. *)
Definition trace_fits (to_float : str → res F) (t : trace) (n : nat) : Prop :=
  ∀ s A of_maps maps, read_ldu to_float (t_matrix t) = Ok s → dense s = Ok A →
    read_hierarchy (t_of_hierarchy t) = Ok of_maps → read_hierarchy (t_brae_hierarchy t) = Ok maps →
    nrows A = n ∧ fitting n of_maps ∧ fitting n maps ∧
    valid {| g_owner := owner s; g_neighbour := neighbour s; g_weights := repeat one (length (owner s)) |} n.

Lemma main_ready to_float t iters n o a b :
  main solve to_float t iters = Ok (o, a, b) → trace_fits to_float t n → 0 < iters →
  ready n o ∧ ready n a ∧ ready n b.
Proof.
  unfold main. intros E Hfit Hi. apply bind_Ok in E as (s & Hs & E). apply bind_Ok in E as (A & HA & E).
  apply bind_Ok in E as (rhs & Hrhs & E). apply bind_Ok in E as (of_maps & Hof & E).
  apply bind_Ok in E as (maps & Hmaps & E). apply bind_Ok in E as (of_levels & Hol & E).
  apply bind_Ok in E as (amgx_levels & Hal & E). apply bind_Ok in E as (ls & Hls & E).
  apply bind_Ok in E as (of_ref & _ & E). apply bind_Ok in E as (so & Ho & E).
  apply bind_Ok in E as (ro & Hro & E). apply bind_Ok in E as (amgx_ref & _ & E).
  apply bind_Ok in E as (sa & Ha & E). apply bind_Ok in E as (ra & Hra & E).
  apply bind_Ok in E as (brae_ref & _ & E). apply bind_Ok in E as (sb & Hb & E).
  apply bind_Ok in E as (rb & Hrb & [= <- <- <-]).
  destruct (Hfit s A of_maps maps Hs HA Hof Hmaps) as (Hn & Hfo & Hf & Hg). pose proof (dense_square _ _ HA) as Hsq.
  apply read_rhs_length in Hrhs. rewrite Hn in *. split; [|split].
  - eapply of_ready; [|done..]. by eapply (levels_fit _ _ _ of_maps _ 0).
  - eapply pcg_ready; [exact (solve_length Hsolve)|exact (solve_mismatch Hsolve)| |done..].
    destruct (levels_loop_shape (S (nrows A)) _ A 2 0 n ltac:(lia) Hg Hsq) as (ls' & E & Hls').
    unfold build_levels in Hal. rewrite E in Hal. by injection Hal as <-.
  - eapply pcg_ready; [|exact (coarse_brae_mismatch)| |done..].
    + intros. by eapply coarse_brae_length.
    + by eapply (levels_fit _ _ _ maps _ 0).
Qed.
End run.

(** C27: from the trace to the film.  What make_steps.py writes can be compared: when its
    main ends on a trace whose faces and hierarchies belong to the cells of the mesh,
    with at least one iteration, [render_compare] on the tables it has written draws as many
    pictures as the longest of the three runs has frames; the picture at an index has
    for OpenFOAM, AMGX and brae the frame of its run at that index or, once it has ended,
    its last, painted on the finest cells. *)
Theorem compare_end_to_end {F} `{FormatLaws F} (solve : NumPy.mat F → list F → res (list F)) (detail : frame F → str)
    (round9 : F → F) (t : trace) iters o a b mesh m rows fc :
  solves_sized solve → main solve to_float t iters = Ok (o, a, b) → 0 < iters → trace_fits to_float t (Replay.m_n m) →
  Replay.load_mesh round9 mesh = Ok m → distinct m → 0 < Replay.m_n m →
  ∃ d views, Replay.load round9 false (written_tables detail mesh (runs_of (o, a, b)) rows) = Ok d ∧ Replay.d_mesh d = m ∧
    Replay.render_compare round9 (written_tables detail mesh (runs_of (o, a, b)) rows) fc = Ok (0%Z, views) ∧
    length views = longest [o; a; b] ∧ 0 < length views ∧
    ∀ index v, views !! index = Some v → Forall2 (panel detail d fc index) [o; a; b] v.1.
Proof.
  intros Hsolve Hmain Hi Hfit Hm Hdist Hpos.
  destruct (main_ready solve Hsolve to_float t iters (Replay.m_n m) o a b Hmain Hfit Hi) as (Ho & Ha & Hb).
  destruct (compare_lockstep detail round9 mesh m o a b rows fc Hm Hdist Hpos Ho Ha Hb) as (d & views & H1 & H2 & H3 & H4 & H5).
  exists d, views. split; [done|]. split; [done|]. split; [done|]. split; [done|]. split; [|done].
  destruct Ho as (_ & _ & Hne). rewrite H4. unfold longest. cbn [foldr]. destruct (steps (r_frames o)); [done | cbn; lia].
Qed.
End OfRun.
