(* ===== verification/Fixed.v ===== *)
(** * Fixed-point numbers

    An instance of the arithmetic of NumPy that is quick to evaluate, for the runs of
    whole programs on small inputs.  Nothing is claimed of it. *)
From S2P Require Export NumPy.
Open Scope nat_scope.

(** A number as the multiple of [10^-10] it is. *)
Definition fixed : Type := Z.
#[export] Instance FixedOps : NumOps fixed := {|
  zero := 0; one := 10 ^ 10; add := Z.add; sub := Z.sub; mul := λ a b, a * b / 10 ^ 10; div := λ a b, a * 10 ^ 10 / b;
  neg := Z.opp; absf := Z.abs; ltb := Z.ltb; leb := Z.leb; maximum := Z.max;
  lit := λ m e, m * 10 ^ 10 / 10 ^ Z.of_nat e; is_zero := Z.eqb 0;
  dot := λ a b, foldr Z.add 0 (zip_with (λ x y, x * y / 10 ^ 10) a b); sum := foldr Z.add 0; printed := id |}%Z.
