(* ===== verification/ReplayWitness.v ===== *)
(** * demo/amgpcg: the replay of a chain of four cells

    A trace directory in fixed-point arithmetic with ten decimals, and the theorems of
    the replay at it. *)
From stdpp Require Import gmap.
From S2P Require Import ReplayOf Fixed.

Module ReplayWitness.
Import Amg Levels Tables Load Runs Replay Shown Lockstep OfRun.
Open Scope nat_scope.

#[export] Instance FixedFormat : Format fixed := {| show := dec; to_float := int_of_str |}.
#[export] Instance FixedFormatLaws : FormatLaws fixed.
Proof.
  split; [apply int_of_str_dec|]. intros x E. pose proof (int_of_str_dec x) as Hx. cbn in E. by rewrite E in Hx.
Qed.

Definition q (z : Z) : fixed := (z * 10 ^ 10)%Z.
Definition diag_row (i : nat) : row :=
  mk_row [("kind" : str, "diag" : str); ("index" : str, num i); ("owner" : str, num i);
          ("neighbour" : str, num i); ("value" : str, show (q 3))].
Definition face_row (kind : str) (f : nat) : row :=
  mk_row [("kind" : str, kind); ("index" : str, num f); ("owner" : str, num f);
          ("neighbour" : str, num (S f)); ("value" : str, show (q (-1)))].
Definition map_row (i k : nat) : row :=
  mk_row [("level" : str, num 0); ("fine_cell" : str, num i); ("coarse_cell" : str, num k)].
Definition halves : list row := [map_row 0 0; map_row 1 0; map_row 2 1; map_row 3 1].
Definition chain4 : trace := {|
  t_matrix := map diag_row (seq 0 4) ++ flat_map (λ f, [face_row "upper" f; face_row "lower" f]) (seq 0 3);
  t_rhs := [mk_row [("cell" : str, num 0); ("b" : str, show (q 1))]];
  t_of_hierarchy := halves; t_brae_hierarchy := halves;
  t_of_cycles := None; t_amgx_cycles := None; t_brae_cycles := None |}.
Definition mesh4 : list row :=
  map (λ i, mk_row [("cell" : str, num i); ("x" : str, show (q (Z.of_nat i mod 2)));
                    ("y" : str, show (q (Z.of_nat i / 2)))]) (seq 0 4).
Definition square4 : mesh :=
  {| m_n := 4; m_col := [0; 1; 0; 1]; m_row := [0; 0; 1; 1]; m_ncol := 2; m_nrow := 2 |}.

(** A solver that is right on the identity only, but has the sizes of [np.linalg.solve]. *)
Definition coarse (A : NumPy.mat fixed) (b : list fixed) : res (list fixed) :=
  if length b =? NumPy.nrows A then Ok b else Raise ValueError.
Lemma coarse_sized : solves_sized coarse.
Proof.
  split; intros A n b; unfold coarse.
  - intros x [Hn _] Hb. rewrite Hn, Hb, Nat.eqb_refl. by intros [= <-].
  - intros [Hn _] Hb. rewrite Hn. destruct (Nat.eqb_spec (length b) n); [lia | done].
Qed.
Definition ok {A} (r : res A) : bool := match r with Ok _ => true | Raise _ => false end.
Lemma chain4_runs : ok (Amg.main coarse to_float chain4 1) = true.
Proof. vm_compute. reflexivity. Qed.
Lemma mesh4_loads : load_mesh (F := fixed) id mesh4 = Ok square4.
Proof. vm_compute. reflexivity. Qed.

Definition fits4 : bool :=
  match read_ldu (F := fixed) to_float (t_matrix chain4), read_hierarchy (t_brae_hierarchy chain4) with
  | Ok s, Ok maps =>
      match dense s with Ok A => (nrows A =? 4) && bool_decide (maps = [[0; 0; 1; 1]]%Z) | Raise _ => false end
  | _, _ => false
  end.
Lemma chain4_fits : brae_fits (F := fixed) to_float chain4 4.
Proof.
  intros s A maps Hs HA Hm. assert (fits4 = true) as E by (vm_compute; reflexivity).
  unfold fits4 in E. rewrite Hs, Hm, HA in E. apply andb_true_iff in E as [En Em].
  apply Nat.eqb_eq in En. apply bool_decide_eq_true in Em. subst maps. split; [done|].
  apply (fitting_cons 4 2); [done| |done|lia|constructor]. repeat constructor; lia.
Qed.
Lemma fitting_halves : fitting 4 [[0; 0; 1; 1]]%Z.
Proof. apply (fitting_cons 4 2); [done| |done|lia|constructor]. repeat constructor; lia. Qed.
Definition belongs4 : bool :=
  match read_ldu (F := fixed) to_float (t_matrix chain4), read_hierarchy (t_brae_hierarchy chain4) with
  | Ok s, Ok maps => match dense s with Ok A => (nrows A =? 4) && bool_decide (maps = [[0; 0; 1; 1]]%Z)
      && bool_decide (owner s = [0; 1; 2]%Z) && bool_decide (neighbour s = [1; 2; 3]%Z) | Raise _ => false end
  | _, _ => false
  end.
Lemma chain4_valid (w : list fixed) :
  length w = 3 → Aggregate.valid {| g_owner := [0; 1; 2]%Z; g_neighbour := [1; 2; 3]%Z; g_weights := w |} 4.
Proof.
  intros Hw. split; [reflexivity|exact Hw|]. cbn [g_owner g_neighbour].
  intros [|[|[|f]]] o Hf; [| | |discriminate Hf]; injection Hf as <-.
  - exists 0, 1. repeat split; lia.
  - exists 1, 2. repeat split; lia.
  - exists 2, 3. repeat split; lia.
Qed.
Lemma chain4_trace_fits : trace_fits (F := fixed) to_float chain4 4.
Proof.
  intros s A of_maps maps Hs HA Ho Hm. assert (belongs4 = true) as E by (vm_compute; reflexivity).
  unfold belongs4 in E. rewrite Hs, Hm, HA in E. change (read_hierarchy (t_of_hierarchy chain4)) with
    (read_hierarchy (t_brae_hierarchy chain4)) in Ho. rewrite Hm in Ho. injection Ho as <-.
  apply andb_true_iff in E as [E En%bool_decide_eq_true]. apply andb_true_iff in E as [E Eo%bool_decide_eq_true].
  apply andb_true_iff in E as [E ->%bool_decide_eq_true]. apply Nat.eqb_eq in E.
  split; [done|]. split; [exact fitting_halves|]. split; [exact fitting_halves|]. rewrite Eo, En.
  by apply chain4_valid.
Qed.
Lemma square4_distinct : distinct square4.
Proof.
  intros c o Hc Ho. cbn in Hc, Ho. destruct c as [|[|[|[|c]]]], o as [|[|[|[|o]]]]; cbn; lia.
Qed.

Definition no_detail (f : frame fixed) : str := [].
Lemma replay_trace_witness :
  ∃ o a b views, Amg.main coarse to_float chain4 1 = Ok (o, a, b) ∧
    render id (written_tables no_detail mesh4 (runs_of (o, a, b)) None) ("brae" : str) Fx = Ok (0%Z, views) ∧
    Forall2 (shows no_detail square4 b Fx) (steps (r_frames b)) views.
Proof.
  destruct (Amg.main coarse to_float chain4 1) as [[[o a] b]|e] eqn:E.
  2: { pose proof chain4_runs as H. rewrite E in H. discriminate H. }
  destruct (replay_trace no_detail id coarse chain4 1 o a b mesh4 square4 None Fx E ltac:(lia)
    chain4_fits mesh4_loads square4_distinct ltac:(cbn; lia)) as (views & H1 & H2).
  exists o, a, b, views. exact (conj eq_refl (conj H1 H2)).
Defined.

Lemma compare_end_to_end_witness :
  ∃ o a b d views, Amg.main coarse to_float chain4 1 = Ok (o, a, b) ∧
    render_compare id (written_tables no_detail mesh4 (runs_of (o, a, b)) None) Fr = Ok (0%Z, views) ∧
    0 < length views ∧ ∀ index v, views !! index = Some v → Forall2 (panel no_detail d Fr index) [o; a; b] v.1.
Proof.
  destruct (Amg.main coarse to_float chain4 1) as [[[o a] b]|e] eqn:E.
  2: { pose proof chain4_runs as H. rewrite E in H. discriminate H. }
  destruct (compare_end_to_end coarse no_detail id chain4 1 o a b mesh4 square4 None Fr coarse_sized E ltac:(lia)
    chain4_trace_fits mesh4_loads square4_distinct ltac:(cbn; lia)) as (d & views & _ & _ & H1 & _ & H2 & H3).
  exists o, a, b, d, views. exact (conj eq_refl (conj H1 (conj H2 H3))).
Defined.

(** A run of one frame. *)
Definition one_frame : result fixed := {|
  r_frames := {|
    steps := [{| f_step := 0; f_iter := 1; f_phase := krylov_start; f_grid := 0; f_ngrid := 4; f_resnorm := q 1 |}];
    state := map (λ i, {| c_step := 0; c_grid := 0; c_cell := i; c_x := q (Z.of_nat i); c_r := q 0 |}) (seq 0 4);
    step := 1 |};
  r_validation := None; r_grids := []; r_aggregates := agg_rows 0 [cells 4] |}.
Lemma one_frame_ready : ready (m_n square4) one_frame.
Proof.
  split; [split; [done | by exists [cells 4]]|]. split; [|done]. exists [cells 4]. split; [done|].
  intros f ->%list_elem_of_singleton. exists (cells 4). split; [done|]. split; [done|].
  intros e (i & -> & Hi%elem_of_seq)%list_elem_of_fmap. cbn. lia.
Qed.
Lemma compare_lockstep_witness :
  ∃ d views, d_mesh d = square4 ∧
    render_compare id (written_tables no_detail mesh4 (runs_of (one_frame, one_frame, one_frame)) None) Fr
      = Ok (0%Z, views) ∧ length views = 1 ∧
    ∀ index v, views !! index = Some v → Forall2 (panel no_detail d Fr index) [one_frame; one_frame; one_frame] v.1.
Proof.
  destruct (compare_lockstep no_detail id mesh4 square4 one_frame one_frame one_frame None Fr mesh4_loads
    square4_distinct ltac:(cbn; lia) one_frame_ready one_frame_ready one_frame_ready) as (d & views & _ & Hd & H1 & H2 & H3).
  exists d, views. exact (conj Hd (conj H1 (conj H2 H3))).
Defined.

(** The tables of a run of OpenFOAM alone. *)
Definition without_brae : Replay.tables :=
  written_tables no_detail mesh4 [("of_gamg" : str, one_frame)] None.
Definition lacks_brae (r : res (gmap str (list (rstep (F := fixed))))) : bool :=
  match r with Ok m => match m !! ("brae" : str) with None => true | Some _ => false end | Raise _ => false end.
Lemma compare_needs_brae_witness :
  ∃ m, load_steps (F := fixed) (t_steps without_brae) = Ok m ∧ ∀ r, render_compare (F := fixed) id without_brae Fx ≠ Ok r.
Proof.
  assert (lacks_brae (load_steps (t_steps without_brae)) = true) as E by (vm_compute; reflexivity).
  destruct (load_steps (F := fixed) (t_steps without_brae)) as [m|e] eqn:Em; [|discriminate E].
  exists m. split; [done|]. intros r. apply (compare_needs_brae id without_brae Fx m r Em).
  cbn [lacks_brae] in E. by destruct (m !! ("brae" : str)).
Defined.

(** ** make_compare.py: brae reaches the solution in its first cycle *)
Definition rhs4 : list row :=
  [mk_row [("cell" : str, num 0); ("b" : str, show (q 3))]; mk_row [("cell" : str, num 1); ("b" : str, show (q (-1)))]].
Definition psi_row (cycle i : nat) (v : Z) : row :=
  mk_row [("cycle" : str, num cycle); ("cell" : str, num i); ("psi" : str, show (q v))].
Definition dumps (key : str) : option (list row) :=
  if bool_decide (key = "brae") then Some [psi_row 0 0 0; psi_row 1 0 1] else None.
Definition brae_work : Compare.work :=
  {| Compare.w_key := "brae"; Compare.w_sweeps := 2; Compare.w_spmv := 3; Compare.w_label := "brae AMG-PCG" |}.
Definition reached_in_one (r : res (list (Compare.entry fixed) * list (str * Compare.reached))) : bool :=
  match r with
  | Ok (_, lines) => match lines with
      | [(label, Compare.Reached 1 3)] => bool_decide (label = Compare.w_label brae_work) | _ => false end
  | Raise _ => false
  end.
Lemma compare_summary_witness :
  ∃ rows lines, Compare.main coarse (t_matrix chain4) rhs4 dumps = Ok (rows, lines) ∧
    Summary.verdict rows brae_work (Compare.Reached 1 3).
Proof.
  assert (reached_in_one (Compare.main coarse (t_matrix chain4) rhs4 dumps) = true) as H by (vm_compute; reflexivity).
  destruct (Compare.main coarse (t_matrix chain4) rhs4 dumps) as [[rows lines]|e] eqn:E; [|discriminate H].
  exists rows, lines. split; [done|].
  destruct (Summary.compare_summary coarse (t_matrix chain4) rhs4 dumps rows lines E) as (A & b & x & _ & _ & _ & Hv).
  apply Hv; [right; right; left|]. clear -H. cbn in H.
  destruct lines as [|[label [|c k]] [|l ls]]; try done; [|by destruct c as [|[]|], k as [|[[]| |]|]].
  destruct c as [|[| |]|], k as [|[[]| |]|]; try done.
  apply bool_decide_eq_true in H as ->. left.
Defined.
End ReplayWitness.
