(* ===== verification/Precond.v ===== *)
(** * bench/rhoSimpleFoam: the preconditioner experiments

    eps_precond_experiment.py and u_precond_experiment.py: reading the face lists of a
    mesh, the two-colouring of its cells, the preconditioners (Jacobi, the Neumann and
    Chebyshev polynomials, DILU in the order of the faces and on the two colours,
    Gauss-Seidel by colour), BiCGStab stopped by OpenFOAM's rule, and the two runs.

    Arithmetic is the class [NumOps]; sums, sweeps over the faces and scatters are
    written in the order the code does them.  SciPy's product of a sparse matrix and a
    vector is the class [Sparse]; [np.loadtxt], [np.linalg.norm], the random vector of
    the power iteration, [x ** 2] and [spsolve] are parameters.  The vectors have the
    number of cells as their length once the sizes are checked, so that operations on
    two of them are written with [zip_with]; times and printing are not modelled. *)
From S2P Require Export PyRe PyOs NumPy Amg.

(** ** The product of a sparse matrix *)

(** The entries of a matrix: row, column, value; two at one place add up. *)
Abbreviation triples F := (list (nat * nat * F)).
Class Sparse (F : Type) := { spmv : nat → triples F → list F → list F }.

Module Mesh.

(** ** Reading a face list *)

(** The classes of a bytes pattern. *)
Definition bspace : list citem := [CRange "009" "013"; CChar " "].
Definition bword : list citem := [CRange "a" "z"; CRange "A" "Z"; CDigit; CChar "_"].
Definition size_re : re :=
  seqs [chr nl; RGroup 1 (many1 (cls [CDigit])); many (cls bspace); chr nl; chr "("].
Definition format_re : re := seqs [txt "format"; many1 (cls bspace); RGroup 1 (many1 (cls bword))].

(** [bytes.split()] *)
Fixpoint bytes_words (cur : str) (s : str) : list str :=
  match s with
  | [] => match cur with [] => [] | _ => [rev cur] end
  | a :: s =>
      if existsb (λ i, citem_in i a) bspace
      then match cur with [] => bytes_words [] s | _ => rev cur :: bytes_words [] s end
      else bytes_words (a :: cur) s
  end.
(** [int(b)] of bytes without white space. *)
Definition int_of_bytes (b : str) : res Z :=
  let '(neg, s) := take_sign b in
  match digits_go 0 0 false s with
  | (v, S _, []) => Ok (if neg then - Z.of_N v else Z.of_N v)%Z
  | _ => Raise ValueError
  end.
(** [np.frombuffer(b, '<i4')] *)
Definition int32 (z : Z) : Z := if (z <? 2 ^ 31)%Z then z else (z - 2 ^ 32)%Z.
Fixpoint int32s (b : str) : res (list Z) :=
  match b with
  | [] => Ok []
  | c0 :: c1 :: c2 :: c3 :: b => l ← int32s b; Ok (int32 (le_decode [c0; c1; c2; c3]) :: l)
  | _ => Raise ValueError
  end.
(** [np.array(l, dtype=np.int64)] *)
Definition int64 (z : Z) : res Z :=
  if (- 2 ^ 63 <=? z)%Z && (z <? 2 ^ 63)%Z then Ok z else Raise OverflowError.

Definition readlist (b : str) : res (list Z) :=
  m ← from_opt AttributeError (search size_re b 0);
  n ← int_of_bytes (group_d 1 b m);
  let body := drop (m_end m) b in
  let head := take 800 b in
  f ← from_opt AttributeError (search format_re head 0);
  if bool_decide (group_d 1 head f = "binary") then int32s (ztake (n * 4)%Z body)
  else l ← mapR int_of_bytes (bytes_words [] (split1 ")" body).1); mapR int64 l.

(** The cells of the two sides of each internal face, and the number of cells. *)
Definition list_max (l : list Z) : res Z :=
  match l with [] => Raise ValueError | k :: l => Ok (fold_left Z.max l k) end.
Record faces := { f_own : list Z; f_nei : list Z; f_cells : Z }.
Definition faces_of (own nei : list Z) : res faces :=
  let own := take (length nei) own in
  a ← list_max own;
  b ← list_max nei;
  Ok {| f_own := own; f_nei := nei; f_cells := (Z.max a b + 1)%Z |}.

(** [csr_matrix((values, (rows, columns)), shape=(n, n))]: arrays of one length,
    and places inside the matrix. *)
Definition cell (n : Z) (i : Z) : res nat :=
  if (0 <=? i)%Z && (i <? n)%Z then Ok (Z.to_nat i) else Raise ValueError.
Definition coo {F} (n : Z) (rows cols : list Z) (values : list F) : res (triples F) :=
  if (n <? 0)%Z then Raise ValueError
  else if (length rows =? length cols) && (length cols =? length values) then
    mapR (λ e, i ← cell n e.1.1; j ← cell n e.1.2; Ok (i, j, e.2)) (zip (zip rows cols) values)
  else Raise ValueError.

(** ** The colouring *)

(** [np.unique] of cells. *)
Definition unique (l : list nat) : list nat := remove_dups (sort_by Nat.leb l).
(** [np.unique(adj[frontier].nonzero()[1])] *)
Definition neighbours (adj : triples unit) (frontier : list nat) : list nat :=
  unique (flat_map (λ i, map (λ e, e.1.2) (List.filter (λ e, e.1.1 =? i) adj)) frontier).
Abbreviation colour_at c i := (nth i c (-1)%Z).
Fixpoint colour_loop (fuel : nat) (adj : triples unit) (colour : list Z) (frontier : list nat) :
    res (list Z) :=
  match frontier with
  | [] => Ok colour
  | f0 :: _ =>
      match fuel with
      | 0 => Raise OutOfFuel
      | S fuel =>
          let nxt := List.filter (λ j, (colour_at colour j <? 0)%Z) (neighbours adj frontier) in
          let c := (1 - colour_at colour f0)%Z in
          colour_loop fuel adj (foldr (λ j l, <[j := c]> l) colour nxt) nxt
      end
  end.
Definition adjacency (m : faces) : res (triples unit) :=
  coo (f_cells m) (f_own m ++ f_nei m) (f_nei m ++ f_own m) (repeat tt (2 * length (f_nei m))).
(** The colours, and whether they are two-colour all the cells. *)
Record colouring := { colour : list Z; bip : bool }.
Definition proper (m : faces) (c : list Z) : bool :=
  forallb (λ e, negb (colour_at c (Z.to_nat e.1) =? colour_at c (Z.to_nat e.2))%Z) (zip (f_own m) (f_nei m)).
Definition colour_cells (m : faces) : res colouring :=
  adj ← adjacency m;
  let n := Z.to_nat (f_cells m) in
  if n =? 0 then Raise IndexError
  else
    c ← colour_loop (S n) adj (<[0 := 0%Z]> (repeat (-1)%Z n)) [0];
    Ok {| colour := c; bip := proper m c && forallb (λ k, (0 <=? k)%Z) c |}.
Definition red (c : list Z) : list nat := List.filter (λ i, (colour_at c i =? 0)%Z) (seq 0 (length c)).
Definition black (c : list Z) : list nat := List.filter (λ i, (colour_at c i =? 1)%Z) (seq 0 (length c)).
End Mesh.

(** ** The preconditioners *)
Module Prec.
Import Mesh.

Section prec.
Context {F : Type} `{NumOps F, !Sparse F}.
Abbreviation vec := (list F).

(** A system: the number of cells, the diagonal, and the faces with their cells and the
    two coefficients, [fu] of the row of the owner and [fl] of that of the neighbour. *)
Record face := { fo : nat; fn : nat; fu : F; fl : F }.
Record ldu := { n_cells : nat; diag : vec; l_faces : list face }.
Definition entries (s : ldu) : triples F :=
  imap (λ i d, (i, i, d)) (diag s) ++ map (λ f, (fn f, fo f, fl f)) (l_faces s)
    ++ map (λ f, (fo f, fn f, fu f)) (l_faces s).
Definition amul (s : ldu) (x : vec) : vec := spmv (n_cells s) (entries s) x.

Abbreviation vadd := (zip_with add).
Abbreviation vsub := (zip_with sub).
Abbreviation vmul := (zip_with mul).
(** [1.0 / v] *)
Definition recip (v : vec) : vec := map (div one) v.

Definition prec_jacobi (s : ldu) (r : vec) : vec := vmul (recip (diag s)) r.

(** [t -= rD * (A @ t); w += t], [k - 1] times. *)
Fixpoint poly_loop (k : nat) (s : ldu) (w t : vec) : vec :=
  match k with
  | 0 => w
  | S k => let t := vsub t (vmul (recip (diag s)) (amul s t)) in poly_loop k s (vadd w t) t
  end.
Definition prec_poly (s : ldu) (k : nat) (r : vec) : vec :=
  let w := vmul (recip (diag s)) r in poly_loop (k - 1) s w w.

Section cheb.
Context (norm2 : vec → F) (square : F → res F).  (* np.linalg.norm, x ** 2 *)
Fixpoint power_loop (k : nat) (s : ldu) (v : vec) : vec :=
  match k with
  | 0 => v
  | S k =>
      let v := vmul (recip (diag s)) (amul s v) in
      let nv := norm2 v in
      if is_zero nv then v else power_loop k s (map (λ x, div x nv) v)
  end.
(** [1.2 * float(v @ (rD * (A @ v)) / (v @ v))] after 30 turns from [v0]. *)
Definition lambda_max (s : ldu) (v0 : vec) : F :=
  let v := power_loop 30 s v0 in
  mul (lit 12 1) (div (dot v (vmul (recip (diag s)) (amul s v))) (dot v v)).

Record chebs := { ch_x : vec; ch_r : vec; ch_p : vec; ch_alpha : F }.
Definition cheb_step (s : ldu) (d0 c : F) (st : chebs) (i : nat) : res chebs :=
  let z := vmul (recip (diag s)) (ch_r st) in
  '(p, alpha) ← (match i with
    | 0 => alpha ← pydiv one d0; Ok (z, alpha)
    | _ =>
        beta ← (if i =? 1 then mul (lit 5 1) <$> square (mul c (ch_alpha st))
                else square (div (mul c (ch_alpha st)) (lit 2 0)));
        q ← pydiv beta (ch_alpha st);
        alpha ← pydiv one (sub d0 q);
        Ok (vadd z (scale beta (ch_p st)), alpha)
    end : res (vec * F));
  Ok {| ch_x := vadd (ch_x st) (scale alpha p); ch_r := vsub (ch_r st) (scale alpha (amul s p));
        ch_p := p; ch_alpha := alpha |}.
Definition prec_cheb (s : ldu) (v0 : vec) (deg : nat) (r : vec) : res vec :=
  let lmax := lambda_max s v0 in
  let lmin := mul (div one (lit 30 0)) lmax in
  let d0 := div (add lmax lmin) (lit 2 0) in
  let c := div (sub lmax lmin) (lit 2 0) in
  st ← foldR (cheb_step s d0 c) (seq 0 deg)
         {| ch_x := zeros (n_cells s); ch_r := r; ch_p := zeros (n_cells s); ch_alpha := zero |};
  Ok (ch_x st).
End cheb.

(** DILU in the order of the faces: [calcReciprocalD] and the two sweeps. *)
Abbreviation val w i := (nth i w zero).
Definition dilu_factor (faces : list face) (d : vec) : vec :=
  fold_left (λ rD f, alter (λ v, sub v (div (mul (fu f) (fl f)) (val rD (fo f)))) (fn f) rD) faces d.
Definition dilu_forward (rD : vec) (faces : list face) (w : vec) : vec :=
  fold_left (λ w f, alter (λ v, sub v (mul (mul (val rD (fn f)) (fl f)) (val w (fo f)))) (fn f) w) faces w.
Definition dilu_backward (rD : vec) (faces : list face) (w : vec) : vec :=
  fold_left (λ w f, alter (λ v, sub v (mul (mul (val rD (fo f)) (fu f)) (val w (fn f)))) (fo f) w)
    (rev faces) w.
Definition prec_dilu_natural (s : ldu) (r : vec) : vec :=
  let rD := recip (dilu_factor (l_faces s) (diag s)) in
  dilu_backward rD (l_faces s) (dilu_forward rD (l_faces s) (vmul rD r)).

(** DILU on the two colours.  [np.add.at(a, indices, values)] adds one after the
    other. *)
Definition add_at (a : vec) (l : list (nat * F)) : vec :=
  fold_left (λ a e, alter (λ v, add v e.2) e.1 a) l a.
Definition red_own (c : list Z) (f : face) : bool := (colour_at c (fo f) =? 0)%Z.
Definition rb_factor (s : ldu) (c : list Z) : vec :=
  add_at (diag s) (map (λ f, (if red_own c f then fn f else fo f,
    div (neg (mul (fu f) (fl f))) (val (diag s) (if red_own c f then fo f else fn f)))) (l_faces s)).
Definition rb_forward (s : ldu) (c : list Z) (rD w : vec) : vec :=
  let fRB := List.filter (red_own c) (l_faces s) in
  let fBR := List.filter (λ f, negb (red_own c f)) (l_faces s) in
  let upd := add_at (zeros (n_cells s)) (map (λ f, (fn f, mul (fl f) (val w (fo f)))) fRB) in
  let upd := add_at upd (map (λ f, (fo f, mul (fu f) (val w (fn f)))) fBR) in
  vsub w (vmul rD upd).
Definition rb_backward (s : ldu) (c : list Z) (rD w : vec) : vec :=
  let fRB := List.filter (red_own c) (l_faces s) in
  let fBR := List.filter (λ f, negb (red_own c f)) (l_faces s) in
  let upd := add_at (zeros (n_cells s)) (map (λ f, (fo f, mul (fu f) (val w (fn f)))) fRB) in
  let upd := add_at upd (map (λ f, (fn f, mul (fl f) (val w (fo f)))) fBR) in
  vsub w (vmul rD upd).
Definition prec_dilu_rb (s : ldu) (c : list Z) (r : vec) : vec :=
  let rD := recip (rb_factor s c) in
  rb_backward s c rD (rb_forward s c rD (vmul rD r)).

(** Gauss-Seidel by colour: the cells of one colour at once. *)
Definition half_sweep (s : ldu) (c : list Z) (k : Z) (r w : vec) : vec :=
  let aw := amul s w in
  imap (λ i wi, if (colour_at c i =? k)%Z
                then mul (div one (val (diag s) i)) (add (sub (val r i) (val aw i)) (mul (val (diag s) i) wi))
                else wi) w.
Fixpoint sgs_loop (sweeps : nat) (s : ldu) (c : list Z) (r w : vec) : vec :=
  match sweeps with
  | 0 => w
  | S k =>
      sgs_loop k s c r (half_sweep s c 0 r (half_sweep s c 1 r (half_sweep s c 1 r (half_sweep s c 0 r w))))
  end.
Definition prec_rbsgs (s : ldu) (c : list Z) (sweeps : nat) (r : vec) : vec :=
  sgs_loop sweeps s c r (zeros (n_cells s)).
End prec.
Arguments face : clear implicits.
Arguments ldu : clear implicits.
End Prec.

(** ** The solvers *)
Module Solve.
Import Mesh Prec.

Section solve.
Context {F : Type} `{NumOps F, !Sparse F}.
Abbreviation vec := (list F).
Abbreviation vadd := (zip_with add).
Abbreviation vsub := (zip_with sub).
Abbreviation vmul := (zip_with mul).

(** [b - A @ x]; the sizes of [x] and [b] are checked here. *)
Definition mul_checked (s : ldu F) (x : vec) : res vec :=
  if length x =? n_cells s then Ok (amul s x) else Raise ValueError.
Definition residual (s : ldu F) (b x : vec) : res vec := ax ← mul_checked s x; NumPy.vsub b ax.
Definition normFactor (s : ldu F) (b x : vec) : res F :=
  let xRef := div (sum x) (lit (Z.of_nat (length x)) 0) in
  let A1 := amul s (repeat one (n_cells s)) in
  ax ← mul_checked s x;
  u ← NumPy.vsub ax (scale xRef A1);
  v ← NumPy.vsub b (scale xRef A1);
  w ← NumPy.vadd (map absf u) (map absf v);
  Ok (add (sum w) (lit 1 20)).

Definition MAXIT_EPS : nat := 400.
Definition MAXIT_U : nat := 300.

(** The state of BiCGStab between two turns. *)
Record kst := {
  k_x : vec; k_r : vec; k_p : vec; k_v : vec; k_rho : F; k_alpha : F; k_omega : F; k_res : F; k_n : nat;
}.
Section bicgstab.
Context (s : ldu F) (prec : vec → res vec) (nf : F) (r0 : vec) (tol : F).
(** The direction of a turn. *)
Definition new_p (st : kst) (rho : F) : vec :=
  if k_n st =? 0 then k_r st
  else let beta := mul (div rho (k_rho st)) (div (k_alpha st) (k_omega st)) in
       vadd (k_r st) (scale beta (vsub (k_p st) (scale (k_omega st) (k_v st)))).
(** One turn, and whether it broke off in the middle. *)
Definition kstep (st : kst) : res (kst * bool) :=
  let rho := dot r0 (k_r st) in
  let p := new_p st rho in
  y ← prec p;
  let v := amul s y in
  let alpha := div rho (dot r0 v) in
  let sv := vsub (k_r st) (scale alpha v) in
  let x := vadd (k_x st) (scale alpha y) in
  let rs := div (norm1 sv) nf in
  if ltb rs tol then
    Ok ({| k_x := x; k_r := k_r st; k_p := p; k_v := v; k_rho := k_rho st; k_alpha := alpha;
           k_omega := k_omega st; k_res := rs; k_n := S (k_n st) |}, true)
  else
    z ← prec sv;
    let t := amul s z in
    let omega := div (dot t sv) (dot t t) in
    let x := vadd x (scale omega z) in
    let r := vsub sv (scale omega t) in
    Ok ({| k_x := x; k_r := r; k_p := p; k_v := v; k_rho := rho; k_alpha := alpha; k_omega := omega;
           k_res := div (norm1 r) nf; k_n := S (k_n st) |}, false).
(** [while n < MAXIT and res >= relTol * res0] *)
Fixpoint kloop (maxit fuel : nat) (st : kst) : res kst :=
  match fuel with
  | 0 => Raise OutOfFuel
  | S fuel =>
      if (k_n st <? maxit) && leb tol (k_res st) then
        match kstep st with
        | Ok (st, broken) => if broken then Ok st else kloop maxit fuel st
        | Raise e => Raise e
        end
      else Ok st
  end.
End bicgstab.

(** The iterate, the turns, and the scaled residuals at the start and the end;
    [None] when the initial one is 0. *)
Record outcome := { o_x : vec; o_n : nat; o_res0 : F; o_res : F }.
Definition bicgstab (maxit : nat) (s : ldu F) (b x0 : vec) (prec : vec → res vec) (nf relTol : F) :
    res (option outcome) :=
  r ← residual s b x0;
  let res0 := div (norm1 r) nf in
  if is_zero res0 then Ok (None : option outcome)
  else
    st ← kloop s prec nf r (mul relTol res0) maxit (S maxit)
           {| k_x := x0; k_r := r; k_p := zeros (n_cells s); k_v := zeros (n_cells s); k_rho := one;
              k_alpha := one; k_omega := one; k_res := res0; k_n := 0 |};
    Ok (Some {| o_x := k_x st; o_n := k_n st; o_res0 := res0; o_res := k_res st |}).

(** The sweeps without a Krylov method: Jacobi, or one of each colour. *)
Inductive kind := jacobi | rbgs.
Definition sweep (s : ldu F) (c : list Z) (kd : kind) (b x : vec) : res vec :=
  match kd with
  | jacobi => r ← residual s b x; Ok (vadd x (vmul (recip (diag s)) r))
  | rbgs =>
      if length b =? n_cells s then Ok (half_sweep s c 1 b (half_sweep s c 0 b x)) else Raise IndexError
  end.
Fixpoint sweeps_loop (fuel : nat) (s : ldu F) (c : list Z) (kd : kind) (b : vec) (nf tol : F)
    (x : vec) (rs : F) (n : nat) : res outcome :=
  match fuel with
  | 0 => Raise OutOfFuel
  | S fuel =>
      if (n <? MAXIT_U) && leb tol rs then
        x ← sweep s c kd b x;
        r ← residual s b x;
        sweeps_loop fuel s c kd b nf tol x (div (norm1 r) nf) (S n)
      else Ok {| o_x := x; o_n := n; o_res0 := rs; o_res := rs |}
  end.
Definition sweeps (s : ldu F) (c : list Z) (kd : kind) (b x0 : vec) (nf relTol : F) : res outcome :=
  r ← residual s b x0;
  let res0 := div (norm1 r) nf in
  o ← sweeps_loop (S MAXIT_U) s c kd b nf (mul relTol res0) x0 res0 0;
  Ok {| o_x := o_x o; o_n := o_n o; o_res0 := res0; o_res := o_res o |}.
End solve.
Arguments outcome : clear implicits.
End Solve.

(** ** The two runs *)
Module Run.
Import Mesh Prec Solve.

Section run.
Context {F : Type} `{NumOps F, !Sparse F}.
Context (to_float : str → res F) (read : str → res str) (loadtxt : str → res (list F)).
Abbreviation vec := (list F).

(** The matrix of the diagonal and the coefficients of the faces. *)
Definition matrix (m : faces) (d upper lower : vec) : res (ldu F) :=
  let n := f_cells m in
  let range := map Z.of_nat (seq 0 (Z.to_nat n)) in
  _ ← coo n (range ++ f_nei m ++ f_own m) (range ++ f_own m ++ f_nei m) (d ++ lower ++ upper);
  Ok {| n_cells := Z.to_nat n; diag := d;
        l_faces := map (λ e, {| fo := Z.to_nat e.1.1; fn := Z.to_nat e.1.2; fu := e.2.1; fl := e.2.2 |})
                       (zip (zip (f_own m) (f_nei m)) (zip upper lower)) |}.
Definition read_faces (mesh : str) : res faces :=
  b ← read (mesh ++ ("/owner" : str)); own ← readlist b;
  b ← read (mesh ++ ("/neighbour" : str)); nei ← readlist b;
  faces_of own nei.

(** *** eps_precond_experiment.py *)
Section eps.
Context (norm2 : vec → F) (square : F → res F).  (* np.linalg.norm, x ** 2 *)
Context (v0 : nat → vec).                        (* default_rng(0).standard_normal *)
Context (spsolve : ldu F → vec → res vec).       (* scipy.sparse.linalg.spsolve *)

Record args := { a_dump : str; a_mesh : str; a_relTol : option str; a_prefix : option str }.
Definition candidates (s : ldu F) (c : list Z) : list (str * (vec → res vec)) :=
  [("Jacobi (today)" : str, λ r, Ok (prec_jacobi s r));
   ("Neumann 3" : str, λ r, Ok (prec_poly s 3 r)); ("Neumann 6" : str, λ r, Ok (prec_poly s 6 r));
   ("Neumann 10" : str, λ r, Ok (prec_poly s 10 r)); ("Neumann 16" : str, λ r, Ok (prec_poly s 16 r));
   ("Chebyshev 3" : str, prec_cheb norm2 square s (v0 (n_cells s)) 3);
   ("Chebyshev 6" : str, prec_cheb norm2 square s (v0 (n_cells s)) 6);
   ("Chebyshev 10" : str, prec_cheb norm2 square s (v0 (n_cells s)) 10);
   ("red-black SGS" : str, λ r, Ok (prec_rbsgs s c 1 r));
   ("red-black SGS x2" : str, λ r, Ok (prec_rbsgs s c 2 r));
   ("red-black DILU" : str, λ r, Ok (prec_dilu_rb s c r));
   ("DILU natural (OF)" : str, λ r, Ok (prec_dilu_natural s r))].

(** The system, the right-hand side and the initial guess of the dump. *)
Definition read_system (m : faces) (prefix : str) : res (ldu F * vec * vec) :=
  d ← loadtxt (prefix ++ ("D" : str));
  b ← loadtxt (prefix ++ ("Src" : str));
  upper ← loadtxt (prefix ++ ("Upper" : str));
  lower ← loadtxt (prefix ++ ("Lower" : str));
  x0 ← loadtxt (prefix ++ ("SolveIn" : str));
  if (length upper =? length (f_nei m)) && (length lower =? length (f_nei m))
     && (Z.of_nat (length d) =? f_cells m)%Z
  then s ← matrix m d upper lower; Ok (s, b, x0)
  else Raise AssertionError.

(** The reference solution, whether the mesh has two colours, and where each
    candidate stops. *)
Record report := { p_bip : bool; p_exact : vec; p_solves : list (str * option (outcome F)) }.
Definition eps_main (a : args) : res report :=
  relTol ← match a_relTol a with Some t => to_float t | None => Ok (lit 1 1) end;
  m ← read_faces (a_mesh a);
  let prefix := a_dump a ++ ("/" : str) ++ default ("eps" : str) (a_prefix a) in
  '(s, b, x0) ← read_system m prefix;
  col ← colour_cells m;
  nf ← normFactor s b x0;
  exact ← spsolve s b;
  let tried := List.filter (λ e, bip col || negb (starts "red-black" e.1)) (candidates s (colour col)) in
  l ← mapR (λ e, o ← bicgstab MAXIT_EPS s b x0 e.2 nf relTol; Ok (e.1, o)) tried;
  Ok {| p_bip := bip col; p_exact := exact; p_solves := l |}.
End eps.

(** *** u_precond_experiment.py *)

(** The iterations [bicgstab] returns. *)
Definition u_bicgstab (s : ldu F) (b x0 : vec) (prec : vec → vec) (nf relTol : F) : res nat :=
  o ← bicgstab MAXIT_U s b x0 (λ r, Ok (prec r)) nf relTol;
  Ok (match o with Some o => o_n o | None => 0 end).
Definition u_sweeps (s : ldu F) (c : list Z) (kd : kind) (b x0 : vec) (nf relTol : F) : res nat :=
  o ← sweeps s c kd b x0 nf relTol; Ok (o_n o).

(** The initial guess: one vector, or the columns of a table. *)
Inductive guess := Flat (x : vec) | Columns (l : list vec).
Definition guess_of (u : guess) (ci : nat) : res vec :=
  match u with Flat x => Ok x | Columns l => getitem l ci end.

(** The candidates of one component, with the iterations each takes. *)
Definition u_solves (s : ldu F) (col : colouring) (b x0 : vec) (nf relTol : F) : res (list (str * nat)) :=
  let solve prec := u_bicgstab s b x0 prec nf relTol in
  j ← solve (prec_jacobi s);
  p ← solve (prec_poly s 3);
  rb ← (if bip col then
          g ← solve (prec_rbsgs s (colour col) 1);
          w ← u_sweeps s (colour col) rbgs b x0 nf relTol;
          Ok [("BiCGStab + red-black SGS" : str, g); ("red-black GS sweeps alone" : str, w)]
        else Ok [] : res (list (str * nat)));
  js ← u_sweeps s (colour col) jacobi b x0 nf relTol;
  d ← solve (prec_dilu_natural s);
  Ok ([("BiCGStab + Jacobi" : str, j); ("BiCGStab + 3-step polynomial" : str, p)] ++ rb
      ++ [("Jacobi sweeps alone" : str, js); ("BiCGStab + DILU (OpenFOAM)" : str, d)]).

(** [None] for a component without a dump. *)
Definition component (m : faces) (col : colouring) (upper lower : vec) (u : guess) (dump : str) (relTol : F)
    (e : nat * ascii) : res (ascii * option (list (str * nat))) :=
  let '(ci, comp) := e in
  let dumps :=
    d ← loadtxt (dump ++ ("/UsolveDiag" : str) ++ [comp]);
    b ← loadtxt (dump ++ ("/UsolveB" : str) ++ [comp]);
    Ok (d, b) in
  match dumps with
  | Raise OSError => Ok (comp, None)
  | Raise e => Raise e
  | Ok (d, b) =>
      s ← matrix m d upper lower;
      x0 ← guess_of u ci;
      nf ← normFactor s b x0;
      l ← u_solves s col b x0 nf relTol; Ok (comp, Some l)
  end.
Definition u_main (loadU : str → res guess) (dump mesh : str) (relTolArg : option str) :
    res (list (ascii * option (list (str * nat)))) :=
  relTol ← match relTolArg with Some t => to_float t | None => Ok (lit 1 1) end;
  m ← read_faces mesh;
  upper ← loadtxt (dump ++ ("/UUpper" : str));
  lower ← loadtxt (dump ++ ("/ULower" : str));
  if (length upper =? length (f_nei m)) && (length lower =? length (f_nei m)) then
    col ← colour_cells m;
    u ← loadU (dump ++ ("/Uass" : str));
    mapR (component m col upper lower u dump relTol) [(0, "X"%char); (1, "Y"%char); (2, "Z"%char)]
  else Raise AssertionError.
End run.
End Run.
