(* ===== verification/PrecondColour.v ===== *)
(** * bench/rhoSimpleFoam: the colouring of the cells

    The walk over the fronts ends, reaches the cells connected with the first one, and
    says that a mesh has two colours exactly when it is connected and has. *)
From stdpp Require Import relations.
From S2P Require Export Precond.

Module Colour.
Import Mesh.

Lemma lookup_repeat {A} (x : A) n i : i < n → repeat x n !! i = Some x.
Proof. revert i; induction n as [|n IH]; intros [|i] Hi; [lia|lia|done|]. cbn. apply IH. lia. Qed.
Lemma nth_repeat_lt {A} (x d : A) n i : i < n → nth i (repeat x n) d = x.
Proof. intros Hi. apply nth_lookup_Some with (d := d). by apply lookup_repeat. Qed.

(** ** The graph of the cells *)

(** A mesh whose faces join cells of it. *)
Definition valid (m : faces) (n : nat) : Prop :=
  f_cells m = Z.of_nat n ∧ length (f_own m) = length (f_nei m) ∧
  (∀ i, i ∈ f_own m → (0 ≤ i < Z.of_nat n)%Z) ∧ (∀ i, i ∈ f_nei m → (0 ≤ i < Z.of_nat n)%Z).
Definition face_joins (m : faces) (i j : nat) : Prop :=
  ∃ f, f_own m !! f = Some (Z.of_nat i) ∧ f_nei m !! f = Some (Z.of_nat j).
Definition joined (m : faces) (i j : nat) : Prop := face_joins m i j ∨ face_joins m j i.

Lemma joined_sym m i j : joined m i j → joined m j i.
Proof. intros [H|H]; [by right | by left]. Qed.
Lemma joined_range m n i j : valid m n → joined m i j → i < n ∧ j < n.
Proof.
  intros (_ & _ & Ho & Hn) [(f & Hi & Hj)|(f & Hj & Hi)];
    apply list_elem_of_lookup_2 in Hi, Hj.
  - apply Ho in Hi. apply Hn in Hj. lia.
  - apply Ho in Hj. apply Hn in Hi. lia.
Qed.

Lemma coo_Ok {A} n (rows cols : list Z) (values : list A) :
  length rows = length cols → length cols = length values →
  (∀ i, i ∈ rows → (0 ≤ i < Z.of_nat n)%Z) → (∀ i, i ∈ cols → (0 ≤ i < Z.of_nat n)%Z) →
  coo (Z.of_nat n) rows cols values =
    Ok (map (λ e, (Z.to_nat e.1.1, Z.to_nat e.1.2, e.2)) (zip (zip rows cols) values)).
Proof.
  intros H1 H2 Hr Hc. unfold coo. rewrite (proj2 (Z.ltb_ge _ _)) by lia. rewrite H1, H2, !Nat.eqb_refl. cbn [andb].
  apply mapR_Ok, Forall2_fmap_r, Forall_Forall2_diag, Forall_forall. intros [[i j] v] Hin. cbn.
  assert (i ∈ rows ∧ j ∈ cols) as [Hi Hj].
  { apply elem_of_zip_l in Hin as Hij. split; [by apply elem_of_zip_l in Hij | by apply elem_of_zip_r in Hij]. }
  apply Hr in Hi. apply Hc in Hj. unfold cell.
  rewrite !(proj2 (Z.leb_le _ _)), !(proj2 (Z.ltb_lt _ _)) by lia. done.
Qed.

(** The pattern holds the joined pairs. *)
Lemma adjacency_spec m n :
  valid m n → ∃ adj, adjacency m = Ok adj ∧ ∀ i j, (i, j, tt) ∈ adj ↔ joined m i j.
Proof.
  intros (Hn & Hl & Ho & Hne). unfold adjacency. rewrite Hn.
  rewrite coo_Ok; [|rewrite !length_app; lia|rewrite length_app, repeat_length; lia|..].
  2, 3: intros i [Hi|Hi]%elem_of_app; by (apply Ho in Hi || apply Hne in Hi).
  eexists. split; [done|]. intros i j.
  assert (∀ (l k : list Z) (i j : nat), length l = length k → (∀ x, x ∈ l → (0 ≤ x)%Z) → (∀ x, x ∈ k → (0 ≤ x)%Z) →
    (∃ e, e ∈ zip l k ∧ Z.to_nat e.1 = i ∧ Z.to_nat e.2 = j) ↔ ∃ f, l !! f = Some (Z.of_nat i) ∧ k !! f = Some (Z.of_nat j)) as Hz.
  { clear. intros l k i j Hlen Hpl Hpk. split.
    - intros ([a b] & [f Hf]%list_elem_of_lookup_1 & Ha & Hb). exists f.
      apply lookup_zip_with_Some in Hf as (a' & b' & [= <- <-] & Hfa & Hfb).
      pose proof (Hpl a (list_elem_of_lookup_2 _ _ _ Hfa)). pose proof (Hpk b (list_elem_of_lookup_2 _ _ _ Hfb)).
      cbn in Ha, Hb. rewrite Hfa, Hfb. split; f_equal; lia.
    - intros (f & Hfa & Hfb). exists (Z.of_nat i, Z.of_nat j). cbn. rewrite !Nat2Z.id. split; [|done].
      apply (list_elem_of_lookup_2 _ f), lookup_zip_with_Some. by exists (Z.of_nat i), (Z.of_nat j). }
  assert (∀ x, x ∈ f_own m → (0 ≤ x)%Z) as Hpo by (intros x Hx; apply Ho in Hx; lia).
  assert (∀ x, x ∈ f_nei m → (0 ≤ x)%Z) as Hpn by (intros x Hx; apply Hne in Hx; lia).
  transitivity (∃ e, e ∈ zip (f_own m ++ f_nei m) (f_nei m ++ f_own m) ∧ Z.to_nat e.1 = i ∧ Z.to_nat e.2 = j).
  - rewrite list_elem_of_fmap. split.
    + intros ([e u] & [= Hi Hj] & Hin%elem_of_zip_l). exists e. done.
    + intros ([a b] & [f Hf]%list_elem_of_lookup_1 & <- & <-). exists (a, b, tt). split; [done|].
      apply (list_elem_of_lookup_2 _ f), lookup_zip_with_Some. exists (a, b), tt. split; [done|]. split; [done|].
      apply lookup_lt_Some in Hf. rewrite length_zip_with, !length_app in Hf.
      apply lookup_repeat. lia.
  - rewrite zip_with_app by done. unfold joined, face_joins.
    rewrite <- (Hz (f_own m) (f_nei m) i j), <- (Hz (f_own m) (f_nei m) j i) by done. split.
    + intros (e & [He|He]%elem_of_app & Hi & Hj); [left; by exists e|]. right.
      destruct e as [a b]. exists (b, a). split; [|done]. apply list_elem_of_lookup_1 in He as [f Hf].
      apply lookup_zip_with_Some in Hf as (a' & b' & [= <- <-] & Hfa & Hfb).
      apply (list_elem_of_lookup_2 _ f), lookup_zip_with_Some. by exists b, a.
    + intros [(e & He & Hi & Hj)|([a b] & He & Hi & Hj)].
      * exists e. split; [apply elem_of_app; by left | done].
      * exists (b, a). split; [|done]. apply elem_of_app. right. apply list_elem_of_lookup_1 in He as [f Hf].
        apply lookup_zip_with_Some in Hf as (a' & b' & [= <- <-] & Hfa & Hfb).
        apply (list_elem_of_lookup_2 _ f), lookup_zip_with_Some. by exists b, a.
Qed.

(** ** The walk *)
Section walk.
Context (m : faces) (n : nat) (adj : triples unit).
Context (Hv : valid m n) (Hadj : ∀ i j, (i, j, tt) ∈ adj ↔ joined m i j).

Lemma neighbours_spec frontier j : j ∈ neighbours adj frontier ↔ ∃ i, i ∈ frontier ∧ joined m i j.
Proof.
  unfold neighbours, unique. rewrite elem_of_remove_dups, elem_of_sort_by, elem_of_flat_map. split.
  - intros (i & Hi & ([[i' j'] []] & -> & Hin)%list_elem_of_fmap). apply elem_of_lfilter in Hin as [Hin E].
    apply Nat.eqb_eq in E. cbn in E. subst i'. exists i. split; [done|]. by apply Hadj.
  - intros (i & Hi & Hj). exists i. split; [done|]. apply list_elem_of_fmap. exists (i, j, tt). split; [done|].
    apply elem_of_lfilter. split; [by apply Hadj | apply Nat.eqb_refl].
Qed.

(** The colours after a front is coloured. *)
Abbreviation paint ls c k := (foldr (λ i a, <[i := k]> a) c ls).
Lemma length_paint (l : list nat) (c : list Z) k : length (paint l c k) = length c.
Proof. induction l as [|j l IH]; [done|]. cbn [foldr]. by rewrite length_insert. Qed.
Lemma paint_at (l : list nat) (c : list Z) k i :
  (∀ j, j ∈ l → j < length c) → colour_at (paint l c k) i = if bool_decide (i ∈ l) then k else colour_at c i.
Proof.
  induction l as [|j l IH]; intros Hl; [done|]. cbn [foldr].
  assert (∀ j, j ∈ l → j < length c) as Hl' by (intros j' Hj'; apply Hl; by right).
  destruct (decide (i = j)) as [->|Hne].
  - rewrite bool_decide_true by left. apply nth_lookup_Some, list_lookup_insert_eq.
    rewrite length_paint. apply Hl. left.
  - rewrite (nth_lookup (<[j := k]> _)), list_lookup_insert_ne, <- nth_lookup, IH by done.
    destruct (decide (i ∈ l)); [rewrite !bool_decide_true; [done|by right|done]|].
    rewrite !bool_decide_false; [done|by intros [->|?]%elem_of_cons|done].
Qed.

(** What holds of the colours and the front between two turns. *)
Record inv (c : list Z) (frontier : list nat) : Prop := {
  inv_length : length c = n;
  inv_first : (0 ≤ colour_at c 0)%Z;
  inv_values : ∀ i, i < n → colour_at c i = (-1)%Z ∨ colour_at c i = 0%Z ∨ colour_at c i = 1%Z;
  inv_reach : ∀ i, i < n → (0 ≤ colour_at c i)%Z → rtc (joined m) 0 i;
  inv_front : ∀ i, i ∈ frontier → i < n ∧ (0 ≤ colour_at c i)%Z;
  inv_same : ∀ i j, i ∈ frontier → j ∈ frontier → colour_at c i = colour_at c j;
  inv_closed : ∀ i j, i < n → (0 ≤ colour_at c i)%Z → i ∉ frontier → joined m i j → (0 ≤ colour_at c j)%Z;
  inv_follows : ∀ χ : nat → bool, (∀ i j, joined m i j → χ i ≠ χ j) →
    ∀ i, i < n → (0 ≤ colour_at c i)%Z → colour_at c i = if Bool.eqb (χ i) (χ 0) then 0%Z else 1%Z;
}.
Definition uncoloured (c : list Z) : nat := length (List.filter (λ i, (colour_at c i <? 0)%Z) (seq 0 n)).

Definition front (c : list Z) (frontier : list nat) : list nat :=
  List.filter (λ j, (colour_at c j <? 0)%Z) (neighbours adj frontier).
Lemma front_spec c frontier j :
  j ∈ front c frontier ↔ (colour_at c j < 0)%Z ∧ ∃ i, i ∈ frontier ∧ joined m i j.
Proof. unfold front. rewrite elem_of_lfilter, neighbours_spec, Z.ltb_lt. naive_solver. Qed.
Lemma front_range c frontier j : j ∈ front c frontier → j < n.
Proof. intros (_ & i & _ & Hj)%front_spec. by destruct (joined_range m n i j Hv Hj). Qed.

Lemma inv_step c f0 fs :
  inv c (f0 :: fs) →
  let nxt := front c (f0 :: fs) in inv (paint nxt c (1 - colour_at c f0)%Z) nxt.
Proof.
  intros [Hl H0 Hval Hre Hfr Hsame Hcl Hfol] nxt. set (k := (1 - colour_at c f0)%Z).
  destruct (Hfr f0 ltac:(left)) as [Hf0 Hf0c].
  assert (k = 0 ∨ k = 1)%Z as Hk by (unfold k; destruct (Hval f0 Hf0) as [?|[?|?]]; lia).
  assert (∀ i, colour_at (paint nxt c k) i = if bool_decide (i ∈ nxt) then k else colour_at c i) as Hp.
  { intros i. apply paint_at. intros j Hj. rewrite Hl. by eapply front_range. }
  split.
  - by rewrite length_paint.
  - rewrite Hp. case_bool_decide; [lia | done].
  - intros i Hi. rewrite Hp. case_bool_decide; [lia | by apply Hval].
  - intros i Hi. rewrite Hp. case_bool_decide as Hin; [|by apply Hre]. intros _.
    apply front_spec in Hin as (_ & j & Hj & Hji). destruct (Hfr j Hj) as [Hjn Hjc].
    eapply rtc_r; [by apply (Hre j) | done].
  - intros i Hi. rewrite Hp, bool_decide_true by done. split; [by eapply front_range | lia].
  - intros i j Hi Hj. by rewrite !Hp, !bool_decide_true.
  - intros i j Hi. rewrite !Hp. case_bool_decide as Hin; [done|]. intros Hic _ Hij.
    case_bool_decide as Hjn; [lia|]. destruct (decide (i ∈ f0 :: fs)) as [Hif|Hif].
    + destruct (Z.le_gt_cases 0 (colour_at c j)) as [|Hneg]; [done|]. exfalso. apply Hjn, front_spec.
      split; [done|]. by exists i.
    + by eapply Hcl.
  - intros χ Hχ i Hi. rewrite Hp. case_bool_decide as Hin; [|by apply Hfol]. intros _.
    apply front_spec in Hin as (_ & j & Hj & Hji). destruct (Hfr j Hj) as [Hjn Hjc].
    unfold k. rewrite (Hsame f0 j) by (done || left). rewrite (Hfol χ Hχ j Hjn Hjc).
    specialize (Hχ j i Hji). destruct (χ i), (χ j), (χ 0); done.
Qed.

Lemma uncoloured_step c l k :
  (0 ≤ k)%Z → length c = n → l ≠ [] → (∀ j, j ∈ l → j < n ∧ (colour_at c j < 0)%Z) →
  uncoloured (paint l c k) < uncoloured c.
Proof.
  intros Hk Hl Hne Hin. unfold uncoloured. destruct l as [|j0 l]; [done|]. set (L := j0 :: l) in *.
  assert (∀ i, colour_at (paint L c k) i = if bool_decide (i ∈ L) then k else colour_at c i) as Hp.
  { intros i. apply paint_at. intros j Hj. rewrite Hl. by apply Hin. }
  destruct (Hin j0 ltac:(left)) as [Hj0 Hc0].
  assert (j0 ∈ seq 0 n) as Hj0s by (apply elem_of_seq; lia). apply list_elem_of_split in Hj0s as (s1 & s2 & ->).
  assert (∀ s, length (List.filter (λ i, (colour_at (paint L c k) i <? 0)%Z) s)
             ≤ length (List.filter (λ i, (colour_at c i <? 0)%Z) s)) as Hle.
  { induction s as [|i s IH]; [done|]. cbn [List.filter]. rewrite Hp.
    case_bool_decide; [rewrite (proj2 (Z.ltb_ge _ _)) by lia; destruct (_ <? _)%Z; cbn [length]; lia|].
    destruct (_ <? _)%Z; cbn [length]; lia. }
  rewrite !List.filter_app, !length_app. cbn [List.filter]. rewrite Hp, bool_decide_true by left.
  rewrite (proj2 (Z.ltb_ge k 0)), (proj2 (Z.ltb_lt _ _) Hc0) by lia. cbn [length].
  pose proof (Hle s1). pose proof (Hle s2). lia.
Qed.

Lemma colour_loop_inv fuel c frontier :
  inv c frontier → (frontier ≠ [] → uncoloured c < fuel) →
  ∃ c', colour_loop fuel adj c frontier = Ok c' ∧ inv c' [].
Proof.
  revert c frontier; induction fuel as [|fuel IH]; intros c [|f0 fs] Hi Hf; try (by exists c); [specialize (Hf ltac:(done)); lia|].
  cbn [colour_loop]. fold (front c (f0 :: fs)). pose proof (inv_step c f0 fs Hi) as Hs. cbn zeta in Hs.
  apply IH; [done|]. intros Hne. specialize (Hf ltac:(done)). destruct Hi as [Hl _ Hval _ Hfr _ _ _].
  destruct (Hfr f0 ltac:(left)) as [Hf0 Hf0c].
  assert (uncoloured (paint (front c (f0 :: fs)) c (1 - colour_at c f0)%Z) < uncoloured c); [|lia].
  apply uncoloured_step; [destruct (Hval f0 Hf0) as [?|[?|?]]; lia|done|done|].
  intros j Hj. split; [by eapply front_range | by apply front_spec in Hj as [? _]].
Qed.

Definition start : list Z := <[0 := 0%Z]> (repeat (-1)%Z n).
Lemma walk_inv_start : 0 < n → inv start [0].
Proof.
  intros Hn. assert (∀ i, i < n → colour_at start i = if i =? 0 then 0%Z else (-1)%Z) as Hc.
  { intros i Hi. unfold start. destruct (Nat.eqb_spec i 0) as [->|Hne].
    - apply nth_lookup_Some, list_lookup_insert_eq. by rewrite repeat_length.
    - rewrite nth_lookup, list_lookup_insert_ne by done. by rewrite lookup_repeat. }
  assert (∀ i, i < n → (0 ≤ colour_at start i)%Z → i = 0) as H0.
  { intros i Hi. rewrite Hc by done. destruct (Nat.eqb_spec i 0); [done|lia]. }
  split.
  - unfold start. by rewrite length_insert, repeat_length.
  - by rewrite Hc.
  - intros i Hi. rewrite Hc by done. destruct (i =? 0); lia.
  - intros i Hi H'. rewrite (H0 i Hi H'). constructor.
  - intros i ->%list_elem_of_singleton. by rewrite Hc.
  - by intros i j ->%list_elem_of_singleton ->%list_elem_of_singleton.
  - intros i j Hi H' Hni. exfalso. apply Hni. rewrite (H0 i Hi H'). left.
  - intros χ _ i Hi H'. rewrite (H0 i Hi H'), Hc by done. by rewrite Bool.eqb_reflx.
Qed.
End walk.

(** ** The outcome *)
Definition two_coloured (m : faces) (χ : nat → bool) : Prop := ∀ i j, joined m i j → χ i ≠ χ j.

Lemma proper_spec m n c : valid m n → proper m c = true ↔ ∀ i j, joined m i j → colour_at c i ≠ colour_at c j.
Proof.
  intros (_ & Hl & Ho & Hn). unfold proper. rewrite forallb_elem. split.
  - intros H. assert (∀ i j, face_joins m i j → colour_at c i ≠ colour_at c j) as Hf.
    { intros i j (f & Hi & Hj).
      assert ((Z.of_nat i, Z.of_nat j) ∈ zip (f_own m) (f_nei m)) as Hin.
      { apply (list_elem_of_lookup_2 _ f), lookup_zip_with_Some. by exists (Z.of_nat i), (Z.of_nat j). }
      apply H, negb_true_iff, Z.eqb_neq in Hin. cbn in Hin. by rewrite !Nat2Z.id in Hin. }
    intros i j [Hij|Hij]; [by apply Hf|]. intros E. by apply (Hf j i Hij).
  - intros H [a b] [f Hf]%list_elem_of_lookup_1. apply lookup_zip_with_Some in Hf as (a' & b' & [= <- <-] & Ha & Hb).
    apply negb_true_iff, Z.eqb_neq. apply H. left. exists f. cbn.
    pose proof (Ho a (list_elem_of_lookup_2 _ _ _ Ha)). pose proof (Hn b (list_elem_of_lookup_2 _ _ _ Hb)).
    by rewrite !Z2Nat.id by lia.
Qed.

(** C32: the colouring.  On a mesh whose faces join its cells, the walk from the first
    cell ends, and the flag it leaves says whether the mesh has the two colours the
    red-black candidates need: it is set exactly when every cell is connected with the
    first and some two-colouring exists.  The colours are then such a colouring: each
    cell is red or black, and no face joins two cells of one colour. *)
Theorem colouring_decides m n :
  valid m n → 0 < n →
  ∃ col, colour_cells m = Ok col ∧ length (colour col) = n ∧
    (bip col = true ↔ (∀ i, i < n → rtc (joined m) 0 i) ∧ ∃ χ, two_coloured m χ) ∧
    (bip col = true → (∀ i, i < n → colour_at (colour col) i = 0%Z ∨ colour_at (colour col) i = 1%Z) ∧
       ∀ i j, joined m i j → colour_at (colour col) i ≠ colour_at (colour col) j).
Proof.
  intros Hv Hpos. unfold colour_cells. destruct (adjacency_spec m n Hv) as (adj & -> & Hadj).
  cbn [mbind res_mbind]. pose proof Hv as (Hn & _). rewrite Hn, Nat2Z.id.
  rewrite (proj2 (Nat.eqb_neq _ _)) by lia.
  fold (start n). destruct (colour_loop_inv m n adj Hv Hadj (S n) _ _ (walk_inv_start m n Hpos)) as (c & -> & [Hl H0 Hval Hre _ _ Hcl Hfol]).
  { intros _. unfold uncoloured. apply Nat.lt_succ_r. etransitivity; [apply List.filter_length_le|]. by rewrite length_seq. }
  cbn [mbind res_mbind]. eexists. split; [done|]. cbn [colour bip]. split; [done|].
  assert (forallb (λ k, (0 <=? k)%Z) c = true ↔ ∀ i, i < n → (0 ≤ colour_at c i)%Z) as Hall.
  { rewrite forallb_elem. split.
    - intros H i Hi. apply Z.leb_le, H. destruct (lookup_lt_is_Some_2 c i) as [k Hk]; [lia|].
      rewrite (nth_lookup_Some _ _ _ _ Hk). by eapply list_elem_of_lookup_2.
    - intros H k [i Hi]%list_elem_of_lookup_1. apply Z.leb_le. pose proof (lookup_lt_Some _ _ _ Hi).
      rewrite <- (nth_lookup_Some _ _ (-1)%Z _ Hi). apply H. lia. }
  rewrite andb_true_iff, (proper_spec m n c Hv), Hall. split.
  - split.
    + intros [Hp Hc]. split; [intros i Hi; by apply Hre, Hc|]. exists (λ i, (colour_at c i =? 0)%Z).
      intros i j Hij. destruct (joined_range m n i j Hv Hij) as [Hi Hj]. specialize (Hp i j Hij).
      pose proof (Hc i Hi). pose proof (Hc j Hj). pose proof (Hval i Hi). pose proof (Hval j Hj).
      destruct (Z.eqb_spec (colour_at c i) 0), (Z.eqb_spec (colour_at c j) 0); try done; lia.
    + intros [Hcon [χ Hχ]].
      assert (∀ i, i < n → (0 ≤ colour_at c i)%Z) as Hc.
      { intros i Hi. refine (rtc_ind_r (λ i, 0 ≤ colour_at c i)%Z 0 H0 _ i (Hcon i Hi)).
        intros j k _ Hjk IH. destruct (joined_range m n j k Hv Hjk).
        eapply Hcl; [|exact IH|apply not_elem_of_nil|exact Hjk]. done. }
      split; [|done]. intros i j Hij. destruct (joined_range m n i j Hv Hij) as [Hi Hj].
      rewrite (Hfol χ Hχ i Hi (Hc i Hi)), (Hfol χ Hχ j Hj (Hc j Hj)).
      specialize (Hχ i j Hij). destruct (χ i), (χ j), (χ 0); done.
  - intros [Hp Hc]. split; [|done]. intros i Hi. pose proof (Hc i Hi). destruct (Hval i Hi) as [?|[?|?]]; lia.
Qed.
End Colour.
