(* ===== verification/PrecondSums.v ===== *)
(** * bench/rhoSimpleFoam: sums over the faces

    In exact arithmetic: sums over a list, the entries of a vector after the operations
    of the experiments, and what a sweep over the faces leaves when every face is used
    after the cell it reads is final. *)
From S2P Require Export Precond.

(** The product of a sparse matrix: a vector of the number of rows; in exact arithmetic
    each entry is the sum over the entries of its row. *)
Class SparseShape (F : Type) `{!Sparse F} := {
  spmv_length : ∀ n ts x, length (spmv n ts x) = n;
}.

Module Sums.
Import Mesh Prec.

Section sums.
Context {F : Type} `{NumOps F}.
Abbreviation vec := (list F).
Definition fsum {A} (l : list A) (g : A → F) : F := foldr (λ x, add (g x)) zero l.
Abbreviation val w i := (nth i w zero).

(** ** Entries *)
Lemma val_alter g (j : nat) (w : vec) i :
  i < length w → val (alter g j w) i = if j =? i then g (val w i) else val w i.
Proof.
  intros Hi. destruct (lookup_lt_is_Some_2 w i Hi) as [v Hv]. rewrite (nth_lookup_Some _ _ _ _ Hv).
  apply nth_lookup_Some. destruct (Nat.eqb_spec j i) as [->|Hne].
  - by rewrite list_lookup_alter_eq, Hv.
  - by rewrite list_lookup_alter_ne.
Qed.
Lemma val_zip op (a b : vec) i : i < length a → i < length b → val (zip_with op a b) i = op (val a i) (val b i).
Proof.
  intros Ha Hb. destruct (lookup_lt_is_Some_2 a i Ha) as [x Hx], (lookup_lt_is_Some_2 b i Hb) as [y Hy].
  rewrite (nth_lookup_Some _ _ _ _ Hx), (nth_lookup_Some _ _ _ _ Hy).
  apply nth_lookup_Some, lookup_zip_with_Some. by exists x, y.
Qed.
Lemma val_map (g : F → F) (a : vec) i : i < length a → val (map g a) i = g (val a i).
Proof.
  intros Ha. destruct (lookup_lt_is_Some_2 a i Ha) as [x Hx]. rewrite (nth_lookup_Some _ _ _ _ Hx).
  apply nth_lookup_Some. change (map g a) with (g <$> a). by rewrite list_lookup_fmap, Hx.
Qed.
Lemma val_imap (g : nat → F → F) (a : vec) i : i < length a → val (imap g a) i = g i (val a i).
Proof.
  intros Ha. destruct (lookup_lt_is_Some_2 a i Ha) as [x Hx]. rewrite (nth_lookup_Some _ _ _ _ Hx).
  apply nth_lookup_Some. by rewrite list_lookup_imap, Hx.
Qed.
Lemma val_zeros n i : val (zeros n) i = zero.
Proof. unfold zeros. revert i; induction n as [|n IH]; intros [|i]; try done. apply IH. Qed.
Lemma val_eq (a b : vec) : length a = length b → (∀ i, i < length a → val a i = val b i) → a = b.
Proof.
  intros Hl Hv. apply list_eq_same_length with (n := length a); [done|done|]. intros i x y Hi Hx Hy.
  specialize (Hv i Hi). by rewrite (nth_lookup_Some _ _ _ _ Hx), (nth_lookup_Some _ _ _ _ Hy) in Hv.
Qed.

(** ** Sequential updates *)

(** The loop [w[tgt f] -= g(f, w[src f])] over [l]. *)
Definition run {A} (tgt src : A → nat) (g : A → F → F) (l : list A) (w : vec) : vec :=
  fold_left (λ w f, alter (λ v, sub v (g f (val w (src f)))) (tgt f) w) l w.
Lemma length_run {A} (tgt src : A → nat) g l w : length (run tgt src g l w) = length w.
Proof. unfold run. revert w; induction l as [|f l IH]; intros w; [done|]. cbn. by rewrite IH, length_alter. Qed.
Lemma run_other {A} (tgt src : A → nat) g l w k :
  (∀ f, f ∈ l → tgt f ≠ k) → k < length w → val (run tgt src g l w) k = val w k.
Proof.
  unfold run. revert w; induction l as [|f l IH]; intros w Hl Hk; [done|]. cbn [fold_left].
  rewrite IH; [|intros f' Hf'; apply Hl; by right|by rewrite length_alter].
  rewrite val_alter by done. by rewrite (proj2 (Nat.eqb_neq _ _)) by (apply Hl; left).
Qed.
Lemma length_add_at (a : vec) l : length (add_at a l) = length a.
Proof. unfold add_at. revert a; induction l as [|e l IH]; intros a; [done|]. cbn. by rewrite IH, length_alter. Qed.
End sums.

(** ** Exact sums *)
Section exact.
Context {F : Type} `{NumLaws F}.
Abbreviation vec := (list F).
Abbreviation val w i := (nth i w zero).
Add Ring num_ring_of_F : (num_ring (F := F)).

Lemma fsum_cons {A} (x : A) l g : fsum (x :: l) g = add (g x) (fsum l g).
Proof. done. Qed.
Lemma fsum_ext {A} (l : list A) g h : (∀ x, x ∈ l → g x = h x) → fsum l g = fsum l h.
Proof.
  induction l as [|x l IH]; intros Hgh; [done|]. rewrite !fsum_cons, Hgh by left. f_equal. apply IH.
  intros y Hy. apply Hgh. by right.
Qed.
Lemma fsum_add {A} (l : list A) g h : fsum l (λ x, add (g x) (h x)) = add (fsum l g) (fsum l h).
Proof. induction l as [|x l IH]; [cbn; ring|]. rewrite !fsum_cons, IH. ring. Qed.
Lemma fsum_scale {A} (l : list A) c g : fsum l (λ x, mul c (g x)) = mul c (fsum l g).
Proof. induction l as [|x l IH]; [cbn; ring|]. rewrite !fsum_cons, IH. ring. Qed.
Lemma fsum_sub {A} (l : list A) g h : fsum l (λ x, sub (g x) (h x)) = sub (fsum l g) (fsum l h).
Proof. induction l as [|x l IH]; [cbn; ring|]. rewrite !fsum_cons, IH. ring. Qed.
Lemma fsum_zero {A} (l : list A) : fsum l (λ _, zero) = zero.
Proof. induction l as [|x l IH]; [done|]. rewrite fsum_cons, IH. ring. Qed.
Lemma fsum_app {A} (l k : list A) g : fsum (l ++ k) g = add (fsum l g) (fsum k g).
Proof.
  induction l as [|x l IH]; cbn [app]; [change (fsum [] g) with (zero (F := F)); ring|].
  rewrite !fsum_cons, IH. ring.
Qed.
Lemma fsum_map {A B} (f : A → B) l g : fsum (map f l) g = fsum l (λ x, g (f x)).
Proof. induction l as [|x l IH]; [done|]. cbn [map]. by rewrite !fsum_cons, IH. Qed.
Lemma fsum_filter {A} (p : A → bool) l g : fsum (List.filter p l) g = fsum l (λ x, if p x then g x else zero).
Proof.
  induction l as [|x l IH]; [done|]. cbn [List.filter]. rewrite fsum_cons. destruct (p x).
  - by rewrite fsum_cons, IH.
  - rewrite IH. ring.
Qed.
Lemma fsum_rev {A} (l : list A) g : fsum (rev l) g = fsum l g.
Proof. induction l as [|x l IH]; [done|]. cbn [rev]. rewrite fsum_app, IH, !fsum_cons. cbn. ring. Qed.

Lemma val_add_at (a : vec) l i :
  i < length a → val (add_at a l) i = add (val a i) (fsum l (λ e, if e.1 =? i then e.2 else zero)).
Proof.
  unfold add_at. revert a; induction l as [|e l IH]; intros a Hi; cbn [fold_left]; [cbn; ring|].
  rewrite IH by (by rewrite length_alter). rewrite val_alter, fsum_cons by done.
  destruct (e.1 =? i); ring.
Qed.

(** Every cell that is read is final: no face at or after the one that reads it writes
    to it. *)
Definition settled {A} (tgt src : A → nat) (l : list A) : Prop :=
  ∀ i j f g, l !! i = Some f → l !! j = Some g → i ≤ j → tgt g ≠ src f.
Lemma settled_cons {A} (tgt src : A → nat) f l :
  settled tgt src (f :: l) → settled tgt src l ∧ ∀ g, g ∈ f :: l → tgt g ≠ src f.
Proof.
  intros Hs. split.
  - intros i j a b Ha Hb Hij. apply (Hs (S i) (S j)); [done|done|lia].
  - intros g [j Hj]%list_elem_of_lookup_1. apply (Hs 0 j); [done|done|lia].
Qed.

Lemma val_run {A} (tgt src : A → nat) (g : A → F → F) l w i :
  settled tgt src l → (∀ f, f ∈ l → src f < length w) → i < length w →
  val (run tgt src g l w) i =
    sub (val w i) (fsum l (λ f, if tgt f =? i then g f (val (run tgt src g l w) (src f)) else zero)).
Proof.
  revert w; induction l as [|f l IH]; intros w Hs Hr Hi; [cbn; ring|].
  apply settled_cons in Hs as [Hs Hf]. rewrite fsum_cons.
  assert (val (run tgt src g (f :: l) w) (src f) = val w (src f)) as Hsrc.
  { apply run_other; [exact Hf | apply Hr; left]. }
  rewrite Hsrc. change (run tgt src g (f :: l) w)
    with (run tgt src g l (alter (λ v, sub v (g f (val w (src f)))) (tgt f) w)).
  rewrite IH at 1; [|done|intros f' Hf'; rewrite length_alter; apply Hr; by right|by rewrite length_alter].
  rewrite val_alter by done. destruct (tgt f =? i); ring.
Qed.

(** Cancelling a divisor. *)
Lemma recip_mul (d : F) : d ≠ zero → mul (div one d) d = one.
Proof. apply div_cancel. Qed.
Lemma mul_cancel_r (a b d : F) : d ≠ zero → mul a d = mul b d → a = b.
Proof.
  intros Hd E. pose proof (recip_mul d Hd) as Hr.
  replace a with (mul (mul a d) (div one d)).
  - rewrite E. transitivity (mul b (mul (div one d) d)); [ring|]. rewrite Hr. ring.
  - transitivity (mul a (mul (div one d) d)); [ring|]. rewrite Hr. ring.
Qed.
Lemma div_neg (a d : F) : d ≠ zero → div (sub zero a) d = sub zero (div a d).
Proof.
  intros Hd. apply (mul_cancel_r _ _ d Hd). rewrite div_cancel by done.
  transitivity (sub zero (mul (div a d) d)); [|ring]. by rewrite div_cancel.
Qed.
End exact.
End Sums.

Class SparseLaws (F : Type) `{NumOps F, !Sparse F} := {
  spmv_shape :: SparseShape F;
  spmv_entry : ∀ n (ts : triples F) x i, length x = n → (∀ e, e ∈ ts → e.1.1 < n ∧ e.1.2 < n) → i < n →
    nth i (spmv n ts x) zero = Sums.fsum ts (λ e, if e.1.1 =? i then mul e.2 (nth e.1.2 x zero) else zero);
}.
