(* ===== verification/PrecondProofs.v ===== *)
(** * bench/rhoSimpleFoam: what the preconditioners compute

    In exact arithmetic: DILU in the order of the faces solves its two triangular
    systems; DILU on the two colours is DILU on the faces turned from red to black; the
    truncated Neumann series is so many Jacobi sweeps; Gauss-Seidel by colour leaves the
    red equations satisfied. *)
From S2P Require Export PrecondSums PrecondColour.

Module Factor.
Import Mesh Prec Sums.

Section exact.
Context {F : Type} `{NumLaws F, !Sparse F}.
Abbreviation vec := (list F).
Abbreviation val w i := (nth i w zero).
Add Ring num_ring_of_F : (num_ring (F := F)).

(** A system whose faces join its cells. *)
Record well_formed (s : ldu F) : Prop := {
  wf_diag : length (diag s) = n_cells s;
  wf_own : ∀ f, f ∈ l_faces s → fo f < n_cells s;
  wf_nei : ∀ f, f ∈ l_faces s → fn f < n_cells s;
}.
(** The faces come in an order in which the sweeps can run: no face writes to the owner
    of one before it or of its own. *)
Definition in_order (faces : list (face F)) : Prop := settled fn fo faces.

(** OpenFOAM's order: the owner is the lower cell, and the owners ascend. *)
Lemma upper_triangular_in_order (faces : list (face F)) :
  (∀ f, f ∈ faces → fo f < fn f) →
  (∀ i j f g, faces !! i = Some f → faces !! j = Some g → i ≤ j → fo f ≤ fo g) → in_order faces.
Proof.
  intros Hlt Hasc i j f g Hf Hg Hij E. specialize (Hasc i j f g Hf Hg Hij).
  specialize (Hlt g (list_elem_of_lookup_2 _ _ _ Hg)). lia.
Qed.
Lemma in_order_rev (faces : list (face F)) : in_order faces → settled fo fn (rev faces).
Proof.
  intros Ho i j f g Hf Hg Hij E.
  assert (∀ i f, rev faces !! i = Some f → faces !! (length faces - S i) = Some f ∧ i < length faces) as Hrev.
  { intros i' f' Hi'. rewrite rev_alt in Hi'. by apply reverse_lookup_Some in Hi'. }
  destruct (Hrev i f Hf) as [Hf' Hi]. destruct (Hrev j g Hg) as [Hg' Hj].
  apply (Ho (length faces - S j) (length faces - S i) g f Hg' Hf'); [lia|done].
Qed.

(** The three loops are sequential updates. *)
Definition factor_term (f : face F) (v : F) : F := div (mul (fu f) (fl f)) v.
Definition forward_term (rD : vec) (f : face F) (v : F) : F := mul (mul (val rD (fn f)) (fl f)) v.
Definition backward_term (rD : vec) (f : face F) (v : F) : F := mul (mul (val rD (fo f)) (fu f)) v.
Lemma dilu_factor_run faces (d : vec) : dilu_factor faces d = run fn fo factor_term faces d.
Proof. done. Qed.
Lemma dilu_forward_run rD faces (w : vec) : dilu_forward rD faces w = run fn fo (forward_term rD) faces w.
Proof. done. Qed.
Lemma dilu_backward_run rD faces (w : vec) : dilu_backward rD faces w = run fo fn (backward_term rD) (rev faces) w.
Proof. done. Qed.

Lemma length_recip (v : vec) : length (recip v) = length v.
Proof. apply length_map. Qed.
Lemma val_recip (v : vec) i : i < length v → val (recip v) i = div one (val v i).
Proof. apply val_map. Qed.

(** The sum over the faces at a cell, with its factor in front. *)
Lemma fsum_at (faces : list (face F)) (tgt : face F → nat) i c h k :
  (∀ f, f ∈ faces → tgt f = i → h f = mul c (k f)) →
  fsum faces (λ f, if tgt f =? i then h f else zero) = mul c (fsum faces (λ f, if tgt f =? i then k f else zero)).
Proof.
  intros Hh. rewrite <- fsum_scale. apply fsum_ext. intros f Hf. destruct (Nat.eqb_spec (tgt f) i) as [E|].
  - by apply Hh.
  - ring.
Qed.

(** The sum over the faces whose neighbour, or whose owner, is the cell [i]. *)
Definition lower_sum (s : ldu F) (i : nat) (h : face F → F) : F :=
  fsum (l_faces s) (λ f, if fn f =? i then h f else zero).
Definition upper_sum (s : ldu F) (i : nat) (h : face F → F) : F :=
  fsum (l_faces s) (λ f, if fo f =? i then h f else zero).

(** C30: what DILU solves.  In exact arithmetic, on faces in an order the sweeps can run
    in (OpenFOAM's upper triangular order is one), and where no pivot is zero, the apply
    of the DILU preconditioner solves [(D + L) D^-1 (D + U) w = r]: its first sweep
    leaves the solution of [(D + L) y = r], its second that of [(D + U) w = D y]; and the
    pivots [D] are those that give the product the diagonal of the matrix. *)
Theorem dilu_natural_solves (s : ldu F) (r : vec) :
  well_formed s → in_order (l_faces s) → length r = n_cells s →
  let D := dilu_factor (l_faces s) (diag s) in
  (∀ i, i < n_cells s → val D i ≠ zero) →
  let w := prec_dilu_natural s r in
  length w = n_cells s ∧ ∃ y, ∀ i, i < n_cells s →
    add (val D i) (lower_sum s i (λ f, div (mul (fu f) (fl f)) (val D (fo f)))) = val (diag s) i ∧
    add (mul (val D i) (val y i)) (lower_sum s i (λ f, mul (fl f) (val y (fo f)))) = val r i ∧
    add (mul (val D i) (val w i)) (upper_sum s i (λ f, mul (fu f) (val w (fn f)))) = mul (val D i) (val y i).
Proof.
  intros [Hd Ho Hn] Hord Hr D HD w. pose proof (in_order_rev _ Hord) as Hrev.
  assert (length D = n_cells s) as HlD by (unfold D; by rewrite dilu_factor_run, length_run).
  set (rD := recip D). assert (length rD = n_cells s) as HlrD by (unfold rD; by rewrite length_recip).
  set (w0 := zip_with mul rD r). assert (length w0 = n_cells s) as Hl0.
  { unfold w0. rewrite length_zip_with. lia. }
  set (y := dilu_forward rD (l_faces s) w0).
  assert (length y = n_cells s) as Hly by (unfold y; by rewrite dilu_forward_run, length_run).
  assert (length w = n_cells s) as Hlw.
  { unfold w, prec_dilu_natural. by rewrite dilu_backward_run, length_run. }
  split; [done|]. exists y. intros i Hi.
  assert (mul (val D i) (val rD i) = one) as Hinv.
  { unfold rD. rewrite val_recip by lia. rewrite <- (recip_mul (val D i) (HD i Hi)) at 2.
    ring. }
  split; [|split].
  - unfold D at 1. rewrite dilu_factor_run, val_run by (done || lia || (intros f Hf; rewrite Hd; by apply Ho)).
    unfold lower_sum, factor_term. rewrite <- dilu_factor_run. fold D. ring.
  - unfold y at 1. rewrite dilu_forward_run, val_run by (done || lia || (intros f Hf; rewrite Hl0; by apply Ho)).
    rewrite <- dilu_forward_run. fold y.
    rewrite (fsum_at _ fn i (val rD i) _ (λ f, mul (fl f) (val y (fo f)))).
    2: { intros f _ <-. unfold forward_term. ring. }
    unfold w0. rewrite val_zip by lia. unfold lower_sum.
    transitivity (add (sub (mul (mul (val D i) (val rD i)) (val r i))
      (mul (mul (val D i) (val rD i)) (fsum (l_faces s) (λ f, if fn f =? i then mul (fl f) (val y (fo f)) else zero))))
      (fsum (l_faces s) (λ f, if fn f =? i then mul (fl f) (val y (fo f)) else zero))); [ring|]. rewrite Hinv. ring.
  - assert (w = run fo fn (backward_term rD) (rev (l_faces s)) y) as Hw by done.
    rewrite Hw at 1. rewrite val_run; [|done| |lia].
    2: { intros f Hf. rewrite rev_alt in Hf. rewrite Hly. by apply Hn, elem_of_reverse. }
    rewrite <- Hw, fsum_rev.
    rewrite (fsum_at _ fo i (val rD i) _ (λ f, mul (fu f) (val w (fn f)))).
    2: { intros f _ <-. unfold backward_term. ring. }
    unfold upper_sum.
    transitivity (add (sub (mul (val D i) (val y i))
      (mul (mul (val D i) (val rD i)) (fsum (l_faces s) (λ f, if fo f =? i then mul (fu f) (val w (fn f)) else zero))))
      (fsum (l_faces s) (λ f, if fo f =? i then mul (fu f) (val w (fn f)) else zero))); [ring|]. rewrite Hinv. ring.
Qed.

(** ** DILU on the two colours *)

(** The faces turned so that the owner is the red cell. *)
Definition turn (c : list Z) (f : face F) : face F :=
  if red_own c f then f else {| fo := fn f; fn := fo f; fu := fl f; fl := fu f |}.
Definition reordered (s : ldu F) (c : list Z) : ldu F :=
  {| n_cells := n_cells s; diag := diag s; l_faces := map (turn c) (l_faces s) |}.
(** Every face joins a red and a black cell. *)
Definition two_colours (s : ldu F) (c : list Z) : Prop :=
  ∀ f, f ∈ l_faces s → colour_at c (fo f) ≠ colour_at c (fn f) ∧
    (colour_at c (fo f) = 0%Z ∨ colour_at c (fo f) = 1%Z) ∧ (colour_at c (fn f) = 0%Z ∨ colour_at c (fn f) = 1%Z).

Lemma turn_colours (s : ldu F) (c : list Z) (f : face F) :
  two_colours s c → f ∈ l_faces s → colour_at c (fo (turn c f)) = 0%Z ∧ colour_at c (fn (turn c f)) = 1%Z.
Proof.
  intros Hc Hf. destruct (Hc f Hf) as (Hne & Ho & Hn). unfold turn, red_own.
  destruct (Z.eqb_spec (colour_at c (fo f)) 0); cbn [fo fn]; lia.
Qed.
Lemma reordered_well_formed (s : ldu F) (c : list Z) : well_formed s → well_formed (reordered s c).
Proof.
  intros [Hd Ho Hn]. split; [done|..]; cbn; intros f (g & -> & Hg)%list_elem_of_fmap;
    unfold turn; destruct (red_own c g); cbn; auto.
Qed.
(** A red cell is never written to, a black one never read, on the way forward. *)
Lemma reordered_in_order (s : ldu F) (c : list Z) : two_colours s c → in_order (l_faces (reordered s c)).
Proof.
  intros Hc i j f g Hf Hg _ E. apply list_elem_of_lookup_2 in Hf, Hg.
  apply list_elem_of_fmap in Hf as (f' & -> & Hf), Hg as (g' & -> & Hg).
  destruct (turn_colours s c f' Hc Hf) as [H1 _], (turn_colours s c g' Hc Hg) as [_ H2]. congruence.
Qed.

(** The two scatters of a sweep add up to the sum over the turned faces. *)
Lemma scatter_sum (s : ldu F) (p : face F → bool) (a b : face F → nat * F) i :
  i < n_cells s →
  val (add_at (add_at (zeros (n_cells s)) (map a (List.filter p (l_faces s))))
              (map b (List.filter (λ f, negb (p f)) (l_faces s)))) i =
  fsum (l_faces s) (λ f, if p f then (if (a f).1 =? i then (a f).2 else zero)
                         else (if (b f).1 =? i then (b f).2 else zero)).
Proof.
  intros Hi. assert (length (zeros (F := F) (n_cells s)) = n_cells s) as Hz by (unfold zeros; apply repeat_length).
  rewrite !val_add_at by (rewrite ?length_add_at; lia). rewrite val_zeros, !fsum_map, !fsum_filter.
  transitivity (add (fsum (l_faces s) (λ f, if p f then (if (a f).1 =? i then (a f).2 else zero) else zero))
    (fsum (l_faces s) (λ f, if negb (p f) then (if (b f).1 =? i then (b f).2 else zero) else zero))); [ring|].
  rewrite <- fsum_add. apply fsum_ext. intros f _. destruct (p f); cbn [negb]; ring.
Qed.

(** One sweep over turned faces whose sources it does not write to, as a scatter. *)
Lemma run_scatter {A} (tgt src : A → nat) (g : A → F → F) l (w : vec) i :
  settled tgt src l → (∀ f, f ∈ l → src f < length w) → (∀ f g, f ∈ l → g ∈ l → tgt g ≠ src f) → i < length w →
  val (run tgt src g l w) i = sub (val w i) (fsum l (λ f, if tgt f =? i then g f (val w (src f)) else zero)).
Proof.
  intros Hs Hr Hno Hi. rewrite val_run by done. f_equal. apply fsum_ext. intros f Hf.
  by rewrite (run_other tgt src g l w (src f)) by (auto || by apply Hno).
Qed.

Lemma rb_factor_spec (s : ldu F) (c : list Z) :
  well_formed s → two_colours s c → (∀ i, i < n_cells s → colour_at c i = 0%Z → val (diag s) i ≠ zero) →
  rb_factor s c = dilu_factor (l_faces (reordered s c)) (diag s).
Proof.
  intros Hwf Hc Hd. pose proof (reordered_well_formed s c Hwf) as [_ Ho' Hn']. destruct Hwf as [Hl Ho Hn].
  unfold rb_factor. rewrite dilu_factor_run. apply val_eq; [by rewrite length_add_at, length_run|].
  rewrite length_add_at. intros i Hi. rewrite val_add_at, fsum_map by done. cbn [fst snd].
  rewrite run_scatter; [|by apply reordered_in_order|intros f Hf; rewrite Hl; by apply Ho'| |done].
  2: { intros f g Hf Hg E. apply list_elem_of_fmap in Hf as (f' & -> & Hf), Hg as (g' & -> & Hg).
       destruct (turn_colours s c f' Hc Hf) as [H1 _], (turn_colours s c g' Hc Hg) as [_ H2]. congruence. }
  cbn [reordered l_faces]. rewrite fsum_map. unfold factor_term.
  transitivity (sub (val (diag s) i) (sub zero (fsum (l_faces s) (λ f,
    if (if red_own c f then fn f else fo f) =? i
    then div (neg (mul (fu f) (fl f))) (val (diag s) (if red_own c f then fo f else fn f)) else zero)))); [ring|].
  f_equal. transitivity (fsum (l_faces s) (λ f, sub zero (if (if red_own c f then fn f else fo f) =? i
    then div (neg (mul (fu f) (fl f))) (val (diag s) (if red_own c f then fo f else fn f)) else zero))).
  { rewrite fsum_sub, fsum_zero. done. }
  apply fsum_ext. intros f Hf. destruct (turn_colours s c f Hc Hf) as [H1 _].
  assert (fo (turn c f) < n_cells s) as Hlt by (apply Ho'; cbn; by apply list_elem_of_fmap_2).
  specialize (Hd _ Hlt H1). unfold turn in *. destruct (red_own c f); cbn [fo fn fu fl] in *.
  - destruct (_ =? i); [|ring]. rewrite num_neg, div_neg by done. ring.
  - destruct (_ =? i); [|ring]. rewrite num_neg, div_neg by done.
    replace (mul (fl f) (fu f)) with (mul (fu f) (fl f)) by ring. ring.
Qed.

Lemma rb_sweep_spec (s : ldu F) (c : list Z) (rD w : vec) (fwd : bool) :
  well_formed s → two_colours s c → length rD = n_cells s → length w = n_cells s →
  (if fwd then rb_forward s c rD w else rb_backward s c rD w) =
  (if fwd then dilu_forward rD (l_faces (reordered s c)) w else dilu_backward rD (l_faces (reordered s c)) w).
Proof.
  intros Hwf Hc HlD Hlw. pose proof (reordered_well_formed s c Hwf) as [_ Ho' Hn'].
  assert (length (zeros (F := F) (n_cells s)) = n_cells s) as Hz by (unfold zeros; apply repeat_length).
  pose proof (reordered_in_order s c Hc) as Hord. pose proof (in_order_rev _ Hord) as Hrev.
  assert (∀ f g, f ∈ l_faces (reordered s c) → g ∈ l_faces (reordered s c) → fn g ≠ fo f) as Hno.
  { intros f g Hf Hg E. apply list_elem_of_fmap in Hf as (f' & -> & Hf), Hg as (g' & -> & Hg).
    destruct (turn_colours s c f' Hc Hf) as [H1 _], (turn_colours s c g' Hc Hg) as [_ H2]. congruence. }
  apply val_eq.
  { destruct fwd; unfold rb_forward, rb_backward;
      rewrite ?dilu_forward_run, ?dilu_backward_run, length_run, !length_zip_with, !length_add_at; lia. }
  intros i Hi. assert (i < n_cells s) as Hin.
  { destruct fwd; unfold rb_forward, rb_backward in Hi; rewrite length_zip_with in Hi; lia. }
  destruct fwd.
  - unfold rb_forward. rewrite val_zip by (rewrite ?length_zip_with, ?length_add_at; lia).
    rewrite val_zip by (rewrite ?length_add_at; lia).
    rewrite (scatter_sum s (red_own c) (λ f, (fn f, mul (fl f) (val w (fo f)))) (λ f, (fo f, mul (fu f) (val w (fn f))))) by done.
    rewrite dilu_forward_run, run_scatter; [|done|intros f Hf; rewrite Hlw; by apply Ho'|done|lia].
    f_equal. cbn [reordered l_faces]. rewrite fsum_map, <- fsum_scale. apply fsum_ext. intros f _.
    unfold turn, forward_term. destruct (red_own c f); cbn [fo fn fu fl fst snd];
      (destruct (Nat.eqb_spec (fn f) i) as [E1|]; destruct (Nat.eqb_spec (fo f) i) as [E2|];
       try rewrite E1; try rewrite E2; ring).
  - unfold rb_backward. rewrite val_zip by (rewrite ?length_zip_with, ?length_add_at; lia).
    rewrite val_zip by (rewrite ?length_add_at; lia).
    rewrite (scatter_sum s (red_own c) (λ f, (fo f, mul (fu f) (val w (fn f)))) (λ f, (fn f, mul (fl f) (val w (fo f))))) by done.
    assert (∀ f, f ∈ rev (l_faces (reordered s c)) → f ∈ l_faces (reordered s c)) as Hin_rev.
    { intros f Hf. rewrite rev_alt in Hf. by apply elem_of_reverse. }
    rewrite dilu_backward_run, run_scatter; [|done|intros f Hf; rewrite Hlw; by apply Hn', Hin_rev| |lia].
    2: { intros f g Hf%Hin_rev Hg%Hin_rev E. by apply (Hno g f Hg Hf). }
    rewrite fsum_rev. f_equal. cbn [reordered l_faces]. rewrite fsum_map, <- fsum_scale. apply fsum_ext. intros f _.
    unfold turn, backward_term. destruct (red_own c f); cbn [fo fn fu fl fst snd];
      (destruct (Nat.eqb_spec (fn f) i) as [E1|]; destruct (Nat.eqb_spec (fo f) i) as [E2|];
       try rewrite E1; try rewrite E2; ring).
Qed.

(** C29: the two-colour DILU is a DILU.  On a mesh of two colours with no zero on the
    diagonal of a red cell, the preconditioner of four scatters returns what the DILU in
    the order of the faces returns once every face is turned to go from its red cell to
    its black one: eliminating the red cells at once is the factorisation itself, and
    nothing is lost by it.  The turned faces are in an order the sweeps can run in. *)
Theorem rb_dilu_is_dilu (s : ldu F) (c : list Z) (r : vec) :
  well_formed s → two_colours s c → (∀ i, i < n_cells s → colour_at c i = 0%Z → val (diag s) i ≠ zero) →
  length r = n_cells s →
  prec_dilu_rb s c r = prec_dilu_natural (reordered s c) r ∧
  well_formed (reordered s c) ∧ in_order (l_faces (reordered s c)).
Proof.
  intros Hwf Hc Hd Hr. split; [|split; [by apply reordered_well_formed | by apply reordered_in_order]].
  unfold prec_dilu_rb, prec_dilu_natural. rewrite (rb_factor_spec s c Hwf Hc Hd). cbn [reordered diag].
  set (D := dilu_factor _ _). assert (length D = n_cells s) as HlD.
  { unfold D. rewrite dilu_factor_run, length_run. apply Hwf. }
  assert (length (recip D) = n_cells s) as HlrD by (by rewrite length_recip).
  assert (length (zip_with mul (recip D) r) = n_cells s) as Hl0 by (rewrite length_zip_with; lia).
  pose proof (rb_sweep_spec s c (recip D) _ true Hwf Hc HlrD Hl0) as E1. cbn iota in E1. rewrite E1.
  refine (rb_sweep_spec s c (recip D) _ false Hwf Hc HlrD _).
  by rewrite dilu_forward_run, length_run.
Qed.
End exact.
End Factor.
