(* ===== verification/PrecondKrylov.v ===== *)
(** * bench/rhoSimpleFoam: the iterations

    In exact arithmetic: the truncated Neumann series is so many Jacobi sweeps, and
    Gauss-Seidel by colour satisfies the red equations.  BiCGStab and the sweeps end,
    stop by the rule, and (in exact arithmetic) report the residual of the iterate they
    return; all the candidates of the momentum run come back. *)
From S2P Require Export PrecondProofs.

Module Krylov.
Import Mesh Prec Sums Factor Solve Run.

(** ** Sizes, in any arithmetic *)
Section sizes.
Context {F : Type} `{NumOps F, !Sparse F, !SparseShape F}.
Abbreviation vec := (list F).

Lemma length_amul (s : ldu F) x : length (amul s x) = n_cells s.
Proof. apply spmv_length. Qed.
Lemma length_zip {A B C} (op : A → B → C) a b n : length a = n → length b = n → length (zip_with op a b) = n.
Proof. intros Ha Hb. rewrite length_zip_with. lia. Qed.
Lemma length_scale (c : F) (a : vec) : length (scale c a) = length a.
Proof. apply length_map. Qed.
Lemma length_zeros n : length (zeros (F := F) n) = n.
Proof. apply repeat_length. Qed.
Lemma length_prec_jacobi (s : ldu F) r : well_formed s → length r = n_cells s → length (prec_jacobi s r) = n_cells s.
Proof. intros [Hd _ _] Hr. apply length_zip; [by rewrite length_recip | done]. Qed.
Lemma length_poly (s : ldu F) k w t :
  well_formed s → length w = n_cells s → length t = n_cells s → length (poly_loop k s w t) = n_cells s.
Proof.
  intros Hs; revert w t; induction k as [|k IH]; intros w t Hw Ht; [done|]. cbn [poly_loop].
  assert (length (zip_with sub t (zip_with mul (recip (diag s)) (amul s t))) = n_cells s) as Ht'.
  { apply length_zip; [done|]. apply length_zip; [rewrite length_recip; apply Hs | apply length_amul]. }
  apply IH; [|done]. by apply length_zip.
Qed.
Lemma length_prec_poly (s : ldu F) k r : well_formed s → length r = n_cells s → length (prec_poly s k r) = n_cells s.
Proof. intros Hs Hr. apply length_poly; [done|by apply length_prec_jacobi..]. Qed.
Lemma length_half_sweep (s : ldu F) c k r w : length (half_sweep s c k r w) = length w.
Proof. apply length_imap. Qed.
Lemma length_sgs (s : ldu F) c k r w : length (sgs_loop k s c r w) = length w.
Proof. revert w; induction k as [|k IH]; intros w; [done|]. cbn [sgs_loop]. by rewrite IH, !length_half_sweep. Qed.
Lemma length_prec_rbsgs (s : ldu F) c k r : length (prec_rbsgs s c k r) = n_cells s.
Proof. unfold prec_rbsgs. by rewrite length_sgs, length_zeros. Qed.
Lemma length_prec_dilu (s : ldu F) r :
  well_formed s → length r = n_cells s → length (prec_dilu_natural s r) = n_cells s.
Proof.
  intros Hs Hr. unfold prec_dilu_natural. rewrite dilu_backward_run, length_run, dilu_forward_run, length_run.
  apply length_zip; [|done]. rewrite length_recip, dilu_factor_run, length_run. apply Hs.
Qed.

Lemma residual_Ok (s : ldu F) b x :
  length b = n_cells s → length x = n_cells s →
  residual s b x = Ok (zip_with sub b (amul s x)).
Proof.
  intros Hb Hx. unfold residual, mul_checked. rewrite Hx, Nat.eqb_refl. cbn [mbind res_mbind].
  unfold NumPy.vsub, lift. by rewrite length_amul, Hb, Nat.eqb_refl.
Qed.

(** A preconditioner that returns a vector of the number of cells. *)
Definition sized (s : ldu F) (prec : vec → res vec) : Prop :=
  ∀ r, length r = n_cells s → ∃ z, prec r = Ok z ∧ length z = n_cells s.
Lemma sized_pure (s : ldu F) (g : vec → vec) :
  (∀ r, length r = n_cells s → length (g r) = n_cells s) → sized s (λ r, Ok (g r)).
Proof. intros Hg r Hr. exists (g r). split; [done | by apply Hg]. Qed.

(** *** The sweeps *)
Lemma sweep_Ok (s : ldu F) c kd b x :
  well_formed s → length b = n_cells s → length x = n_cells s →
  ∃ x', sweep s c kd b x = Ok x' ∧ length x' = n_cells s.
Proof.
  intros Hs Hb Hx. destruct kd; cbn [sweep].
  - rewrite residual_Ok by done. cbn [mbind res_mbind]. eexists. split; [done|].
    apply length_zip; [done|]. apply length_prec_jacobi; [done|]. apply length_zip; [done | apply length_amul].
  - rewrite Hb, Nat.eqb_refl. eexists. split; [done|]. by rewrite !length_half_sweep.
Qed.
Definition resnorm_at (s : ldu F) (b x : vec) (nf : F) : F := div (norm1 (zip_with sub b (amul s x))) nf.
(** The iterate after so many sweeps. *)
Fixpoint sweep_n (k : nat) (s : ldu F) (c : list Z) (kd : kind) (b x : vec) : res vec :=
  match k with 0 => Ok x | S k => x' ← sweep s c kd b x; sweep_n k s c kd b x' end.
(** What the loop returns from the [n]th iterate on: it counts the sweeps, the residual
    test held before each one, and it fails now or the count is the last. *)
Record swept (s : ldu F) c kd b nf tol x (n : nat) (o : outcome F) : Prop := {
  sw_count : n ≤ o_n o ≤ MAXIT_U;
  sw_iterate : sweep_n (o_n o - n) s c kd b x = Ok (o_x o);
  sw_residual : o_res o = resnorm_at s b (o_x o) nf;
  sw_needed k y : k < o_n o - n → sweep_n k s c kd b x = Ok y → leb tol (resnorm_at s b y nf) = true;
  sw_stop : leb tol (o_res o) = false ∨ o_n o = MAXIT_U;
}.
Lemma sweeps_loop_spec fuel (s : ldu F) c kd b nf tol x n :
  well_formed s → length b = n_cells s → length x = n_cells s → n ≤ MAXIT_U < fuel + n →
  ∃ o, sweeps_loop fuel s c kd b nf tol x (resnorm_at s b x nf) n = Ok o ∧ swept s c kd b nf tol x n o.
Proof.
  intros Hs Hb; revert x n; induction fuel as [|fuel IH]; intros x n Hx Hn; [lia|]. cbn [sweeps_loop].
  destruct (Nat.ltb_spec n MAXIT_U) as [Hlt|Hge], (leb tol (resnorm_at s b x nf)) eqn:E; cbn [andb].
  2-4: eexists; split; [done|]; split; cbn [o_n o_x o_res]; rewrite ?Nat.sub_diag;
    [lia|done|done|lia|first [by left|right; lia]].
  destruct (sweep_Ok s c kd b x Hs Hb Hx) as (x' & Esw & Hx'). rewrite Esw. cbn [mbind res_mbind].
  rewrite residual_Ok by done. cbn [mbind res_mbind].
  destruct (IH x' (S n) Hx' ltac:(lia)) as (o & Ho & [Hc Hi Hr Hnd Hst]). exists o. split; [exact Ho|].
  replace (o_n o - S n) with (pred (o_n o - n)) in * by lia.
  split; [lia| |done| |done].
  - destruct (o_n o - n) as [|d] eqn:Ed; [lia|]. cbn [sweep_n pred] in *. by rewrite Esw.
  - intros [|k] y Hk; cbn [sweep_n]; [by intros [= <-]|]. rewrite Esw. cbn [mbind res_mbind].
    apply Hnd. lia.
Qed.

(** C33: the sweeps end.  In any arithmetic, for a system whose faces join its cells, the
    sweeps of u_precond_experiment.py, Jacobi's or one of each colour, return: the result
    is the initial guess swept as many times as it counts, at most 300; the residual it
    reports is that of the iterate; the stopping rule was not met before any of the sweeps
    made, and it is met at the end or the 300 are made. *)
Theorem sweeps_stop (s : ldu F) c kd b x0 nf relTol :
  well_formed s → length b = n_cells s → length x0 = n_cells s →
  ∃ o, sweeps s c kd b x0 nf relTol = Ok o ∧ o_n o ≤ 300 ∧
    sweep_n (o_n o) s c kd b x0 = Ok (o_x o) ∧
    o_res0 o = resnorm_at s b x0 nf ∧ o_res o = resnorm_at s b (o_x o) nf ∧
    (∀ k y, k < o_n o → sweep_n k s c kd b x0 = Ok y →
      leb (mul relTol (o_res0 o)) (resnorm_at s b y nf) = true) ∧
    (leb (mul relTol (o_res0 o)) (o_res o) = false ∨ o_n o = 300).
Proof.
  intros Hs Hb Hx. unfold sweeps. rewrite residual_Ok by done. cbn [mbind res_mbind].
  destruct (sweeps_loop_spec (S MAXIT_U) s c kd b nf (mul relTol (resnorm_at s b x0 nf)) x0 0 Hs Hb Hx ltac:(lia))
    as (o & Eo & [Hc Hi Hr Hnd Hst]). unfold resnorm_at in Eo. rewrite Eo. cbn [mbind res_mbind].
  rewrite Nat.sub_0_r in *. eexists. split; [done|]. cbn [o_n o_x o_res0 o_res].
  split; [apply Hc|]. do 4 (split; [done|]). exact Hst.
Qed.

(** *** BiCGStab *)
Definition fits (s : ldu F) (st : kst (F := F)) : Prop :=
  length (k_x st) = n_cells s ∧ length (k_r st) = n_cells s ∧ length (k_p st) = n_cells s ∧ length (k_v st) = n_cells s.
Lemma kstep_total (s : ldu F) prec nf r0 tol st :
  sized s prec → fits s st →
  ∃ st' broken, kstep s prec nf r0 tol st = Ok (st', broken) ∧ fits s st' ∧ k_n st' = S (k_n st) ∧
    (broken = true → ltb (k_res st') tol = true).
Proof.
  intros Hp (Hx & Hr & Hpl & Hv). unfold kstep.
  set (p := new_p st (dot r0 (k_r st))). assert (length p = n_cells s) as Hlp.
  { unfold p, new_p. destruct (k_n st =? 0); [done|].
    apply length_zip; [done|]. rewrite length_scale. apply length_zip; [done|]. by rewrite length_scale. }
  destruct (Hp p Hlp) as (y & -> & Hy). cbn [mbind res_mbind].
  set (v := amul s y). set (alpha := div _ (dot r0 v)).
  set (sv := zip_with sub (k_r st) (scale alpha v)).
  assert (length sv = n_cells s) as Hsv by (apply length_zip; [done|]; rewrite length_scale; apply length_amul).
  assert (length (zip_with add (k_x st) (scale alpha y)) = n_cells s) as Hx' by (apply length_zip; [done|]; by rewrite length_scale).
  destruct (ltb (div (norm1 sv) nf) tol) eqn:E.
  - eexists _, true. split; [done|]. split; [|done]. split; [done|]. split; [done|]. split; [done|]. apply length_amul.
  - destruct (Hp sv Hsv) as (z & -> & Hz). cbn [mbind res_mbind]. eexists _, false. split; [done|].
    split; [|done]. split; [apply length_zip; [done|]; by rewrite length_scale|].
    split; [apply length_zip; [done|]; rewrite length_scale; apply length_amul|]. split; [done|]. apply length_amul.
Qed.
Lemma kloop_total (s : ldu F) prec nf r0 tol maxit fuel st :
  sized s prec → fits s st → k_n st ≤ maxit < fuel + k_n st →
  ∃ st', kloop s prec nf r0 tol maxit fuel st = Ok st' ∧ fits s st' ∧ k_n st ≤ k_n st' ≤ maxit ∧
    (leb tol (k_res st') = false ∨ ltb (k_res st') tol = true ∨ k_n st' = maxit).
Proof.
  intros Hp; revert st; induction fuel as [|fuel IH]; intros st Hf Hm; [lia|]. cbn [kloop].
  destruct (Nat.ltb_spec (k_n st) maxit) as [Hlt|Hge], (leb tol (k_res st)) eqn:E; cbn [andb].
  2-4: exists st; split; [done|]; split; [done|]; split; [lia|];
    first [by left|right; right; lia].
  destruct (kstep_total s prec nf r0 tol st Hp Hf) as (st1 & broken & -> & Hf1 & Hn & Hb).
  destruct broken.
  - exists st1. split; [done|]. split; [done|]. split; [lia|]. right; left. by apply Hb.
  - destruct (IH st1 Hf1 ltac:(lia)) as (st' & -> & Hf' & Hn' & Hstop). exists st'. split; [done|].
    split; [done|]. split; [lia|done].
Qed.

(** The iterate is one of the stopping rule or the last one allowed. *)
Definition stopped (maxit : nat) (relTol : F) (o : outcome F) : Prop :=
  o_n o ≤ maxit ∧ (leb (mul relTol (o_res0 o)) (o_res o) = false ∨
                   ltb (o_res o) (mul relTol (o_res0 o)) = true ∨ o_n o = maxit).
Lemma bicgstab_total maxit (s : ldu F) b x0 prec nf relTol :
  sized s prec → length b = n_cells s → length x0 = n_cells s →
  ∃ o, bicgstab maxit s b x0 prec nf relTol = Ok o ∧ ∀ o', o = Some o' → stopped maxit relTol o'.
Proof.
  intros Hp Hb Hx. unfold bicgstab. rewrite residual_Ok by done. cbn [mbind res_mbind].
  destruct (is_zero _); [by exists None|].
  match goal with |- context [kloop s prec nf ?r0 ?tol maxit ?fuel ?st] =>
    destruct (kloop_total s prec nf r0 tol maxit fuel st Hp) as (st' & -> & _ & Hn & Hstop) end.
  { split; [done|]. split; [apply length_zip; [done|]; apply length_amul|]. split; apply length_zeros. }
  { cbn [k_n]. lia. }
  cbn [mbind res_mbind]. eexists. split; [done|]. intros o' [= <-]. split; [cbn in *; lia | exact Hstop].
Qed.

(** The momentum run comes back.  For every arithmetic, every component whose
    vectors fit the mesh and every tolerance, all the candidates of
    u_precond_experiment.py return, each within 300 iterations: Jacobi and the polynomial
    under BiCGStab, the two red-black ones exactly when the mesh has two colours, the
    Jacobi sweeps and DILU, in this order. *)
Theorem u_solves_return (s : ldu F) col b x0 nf relTol :
  well_formed s → length b = n_cells s → length x0 = n_cells s →
  ∃ l, u_solves s col b x0 nf relTol = Ok l ∧
    map fst l = [("BiCGStab + Jacobi" : str); ("BiCGStab + 3-step polynomial" : str)]
      ++ (if bip col then [("BiCGStab + red-black SGS" : str); ("red-black GS sweeps alone" : str)] else [])
      ++ [("Jacobi sweeps alone" : str); ("BiCGStab + DILU (OpenFOAM)" : str)] ∧
    ∀ e, e ∈ l → e.2 ≤ 300.
Proof.
  intros Hs Hb Hx.
  assert (∀ g : vec → vec, (∀ r, length r = n_cells s → length (g r) = n_cells s) →
    ∃ k, u_bicgstab s b x0 g nf relTol = Ok k ∧ k ≤ 300) as Hk.
  { intros g Hg. unfold u_bicgstab.
    destruct (bicgstab_total MAXIT_U s b x0 (λ r, Ok (g r)) nf relTol (sized_pure s g Hg) Hb Hx) as (o & -> & Ho).
    cbn [mbind res_mbind]. eexists. split; [done|]. destruct o as [o|]; [by apply Ho | lia]. }
  assert (∀ kd, ∃ k, u_sweeps s (colour col) kd b x0 nf relTol = Ok k ∧ k ≤ 300) as Hw.
  { intros kd. unfold u_sweeps, sweeps. rewrite residual_Ok by done. cbn [mbind res_mbind].
    destruct (sweeps_loop_spec (S MAXIT_U) s (colour col) kd b nf (mul relTol (resnorm_at s b x0 nf)) x0 0
      Hs Hb Hx ltac:(lia)) as (o & Eo & [Hn _ _ _ _]). unfold resnorm_at in Eo. rewrite Eo.
    cbn [mbind res_mbind]. eexists. split; [done|]. apply Hn. }
  unfold u_solves.
  destruct (Hk (prec_jacobi s)) as (j & -> & Hj); [intros; by apply length_prec_jacobi|].
  destruct (Hk (prec_poly s 3)) as (p & -> & Hp); [intros; by apply length_prec_poly|].
  destruct (Hk (prec_rbsgs s (colour col) 1)) as (g & Eg & Hg); [intros; apply length_prec_rbsgs|].
  destruct (Hk (prec_dilu_natural s)) as (dl & Ed & Hdl); [intros; by apply length_prec_dilu|].
  destruct (Hw rbgs) as (w & Ew & Hw1). destruct (Hw jacobi) as (js & Ejs & Hjs).
  cbn [mbind res_mbind]. destruct (bip col); rewrite ?Eg; cbn [mbind res_mbind]; rewrite ?Ew; cbn [mbind res_mbind];
    rewrite Ejs; cbn [mbind res_mbind]; rewrite Ed; cbn [mbind res_mbind];
    (eexists; split; [done|]; split; [done|]; apply Forall_forall; cbn [app];
     repeat (apply Forall_cons; split; [done|]); by apply Forall_nil).
Qed.
End sizes.

(** ** Exact arithmetic *)
Section exact.
Context {F : Type} `{NumLaws F, !Sparse F, !SparseLaws F}.
Abbreviation vec := (list F).
Abbreviation val w i := (nth i w zero).
Add Ring num_ring_of_F : (num_ring (F := F)).

Lemma entries_range (s : ldu F) :
  well_formed s → ∀ e, e ∈ entries s → e.1.1 < n_cells s ∧ e.1.2 < n_cells s.
Proof.
  intros [Hd Ho Hn] e. unfold entries. intros [He|[He|He]%elem_of_app]%elem_of_app.
  - apply elem_of_lookup_imap in He as (i & d & -> & Hi). apply lookup_lt_Some in Hi. cbn. lia.
  - apply list_elem_of_fmap in He as (f & -> & Hf). cbn. split; auto.
  - apply list_elem_of_fmap in He as (f & -> & Hf). cbn. split; auto.
Qed.
Lemma fsum_diag (d x : vec) i s :
  i < length d →
  fsum (imap (λ k v, (s + k, s + k, v)) d) (λ e, if e.1.1 =? s + i then mul e.2 (val x e.1.2) else zero)
    = mul (val d i) (val x (s + i)).
Proof.
  revert s i; induction d as [|v d IH]; intros s i Hi; [cbn in Hi; lia|]. cbn [imap]. rewrite fsum_cons. cbn [fst snd].
  rewrite (imap_ext _ (λ k v, (S s + k, S s + k, v))) by (intros k w _; cbn; by rewrite Nat.add_succ_r).
  rewrite Nat.add_0_r. destruct i as [|i].
  - rewrite Nat.add_0_r, Nat.eqb_refl. cbn [nth].
    transitivity (add (mul v (val x s)) zero); [|ring]. f_equal.
    transitivity (fsum (imap (λ k w, (S s + k, S s + k, w)) d) (λ _, zero (F := F))); [|apply fsum_zero].
    apply fsum_ext. intros e (k & w & -> & _)%elem_of_lookup_imap. cbn [fst snd].
    by rewrite (proj2 (Nat.eqb_neq _ _)) by lia.
  - rewrite (proj2 (Nat.eqb_neq _ _)) by lia. cbn [length] in Hi. rewrite Nat.add_succ_r.
    change (S (s + i)) with (S s + i). rewrite IH by lia. cbn [nth]. ring.
Qed.

(** A row of the product: the diagonal and the faces of the cell. *)
Definition row (s : ldu F) (x : vec) (i : nat) : F :=
  add (mul (val (diag s) i) (val x i))
    (add (lower_sum s i (λ f, mul (fl f) (val x (fo f)))) (upper_sum s i (λ f, mul (fu f) (val x (fn f))))).
Lemma val_amul (s : ldu F) x i :
  well_formed s → length x = n_cells s → i < n_cells s → val (amul s x) i = row s x i.
Proof.
  intros Hs Hx Hi. unfold amul. rewrite spmv_entry by (done || by apply entries_range).
  unfold entries. rewrite !fsum_app, !fsum_map. cbn [fst snd].
  pose proof (fsum_diag (diag s) x i 0) as E. cbn [Nat.add] in E. rewrite E by (rewrite (wf_diag s Hs); lia). done.
Qed.

Lemma row_add (s : ldu F) x y c i :
  length x = n_cells s → length y = n_cells s → well_formed s → i < n_cells s →
  row s (zip_with add x (scale c y)) i = add (row s x i) (mul c (row s y i)).
Proof.
  intros Hx Hy [Hd Ho Hn] Hi.
  assert (∀ j, j < n_cells s → val (zip_with add x (scale c y)) j = add (val x j) (mul c (val y j))) as Hv.
  { intros j Hj. rewrite val_zip by (rewrite ?length_scale; lia). unfold scale. by rewrite val_map by lia. }
  unfold row, lower_sum, upper_sum. rewrite Hv by done.
  assert (∀ (at_ : face F → nat) h k g, (∀ f, f ∈ l_faces s → h f = add (k f) (mul c (g f))) →
    fsum (l_faces s) (λ f, if at_ f =? i then h f else zero) =
    add (fsum (l_faces s) (λ f, if at_ f =? i then k f else zero))
        (mul c (fsum (l_faces s) (λ f, if at_ f =? i then g f else zero)))) as Hs.
  { intros at_ h k g Hh. rewrite <- fsum_scale, <- fsum_add. apply fsum_ext. intros f Hf.
    destruct (at_ f =? i); [by apply Hh | ring]. }
  rewrite (Hs fn _ (λ f, mul (fl f) (val x (fo f))) (λ f, mul (fl f) (val y (fo f)))).
  2: { intros f Hf. rewrite Hv by (by apply Ho). ring. }
  rewrite (Hs fo _ (λ f, mul (fu f) (val x (fn f))) (λ f, mul (fu f) (val y (fn f)))).
  2: { intros f Hf. rewrite Hv by (by apply Hn). ring. }
  ring.
Qed.
Lemma scale_one (y : vec) : scale one y = y.
Proof. unfold scale. induction y as [|a y IH]; [done|]. cbn. rewrite IH. f_equal. ring. Qed.
(** [b - A @ x] moves with the update. *)
Lemma residual_step (s : ldu F) b x y c :
  well_formed s → length b = n_cells s → length x = n_cells s → length y = n_cells s →
  zip_with sub b (amul s (zip_with add x (scale c y))) =
  zip_with sub (zip_with sub b (amul s x)) (scale c (amul s y)).
Proof.
  intros Hs Hb Hx Hy. pose proof (length_amul s) as Ha.
  assert (length (zip_with add x (scale c y)) = n_cells s) as Hxy by (apply length_zip; [done|]; by rewrite length_scale).
  apply val_eq; [rewrite !length_zip_with, length_scale, !Ha; lia|]. intros i Hi.
  rewrite length_zip_with, Ha, Hb in Hi.
  rewrite !val_zip by (rewrite ?length_zip_with, ?length_scale, ?Ha; lia).
  unfold scale at 2. rewrite val_map by (rewrite Ha; lia). rewrite !val_amul by (done || lia).
  rewrite row_add by (done || lia). ring.
Qed.

(** *** The Neumann series is Jacobi *)
Definition jacobi_sweep (s : ldu F) (r x : vec) : vec :=
  zip_with add x (zip_with mul (recip (diag s)) (zip_with sub r (amul s x))).
Fixpoint jacobi_sweeps (k : nat) (s : ldu F) (r x : vec) : vec :=
  match k with 0 => x | S k => jacobi_sweeps k s r (jacobi_sweep s r x) end.

Lemma poly_loop_jacobi k (s : ldu F) r x :
  well_formed s → length r = n_cells s → length x = n_cells s →
  poly_loop k s (jacobi_sweep s r x) (zip_with mul (recip (diag s)) (zip_with sub r (amul s x)))
    = jacobi_sweeps (S k) s r x.
Proof.
  intros Hs Hr. pose proof (length_amul s) as Ha.
  assert (length (recip (diag s)) = n_cells s) as Hd by (rewrite length_recip; apply Hs).
  assert (∀ y : vec, length (zip_with mul (recip (diag s)) (zip_with sub r (amul s y))) = n_cells s) as Ht.
  { intros y. apply length_zip; [done|]. by apply length_zip. }
  revert x; induction k as [|k IH]; intros x Hx; [done|]. cbn [poly_loop].
  set (t := zip_with mul (recip (diag s)) (zip_with sub r (amul s x))).
  assert (length (jacobi_sweep s r x) = n_cells s) as Hj by (unfold jacobi_sweep; by apply length_zip).
  assert (zip_with sub t (zip_with mul (recip (diag s)) (amul s t)) =
    zip_with mul (recip (diag s)) (zip_with sub r (amul s (jacobi_sweep s r x)))) as ->.
  { unfold jacobi_sweep. fold t. rewrite <- (scale_one t) at 3.
    rewrite residual_step by (done || apply Ht). rewrite scale_one.
    apply val_eq; [by rewrite !length_zip_with, !Ha, Hd, Hr, !Nat.min_id; unfold t; rewrite Ht, Nat.min_id|].
    intros i Hi. rewrite length_zip_with in Hi. unfold t in Hi. rewrite Ht in Hi.
    rewrite !val_zip by (rewrite ?length_zip_with, ?Ha, ?Hd; unfold t; rewrite ?Ht; lia).
    unfold t at 1. rewrite !val_zip by (rewrite ?length_zip_with, ?Ha, ?Hd; lia). ring. }
  exact (IH (jacobi_sweep s r x) Hj).
Qed.

(** the polynomial preconditioner is Jacobi.  In exact arithmetic the truncated
    Neumann series of [k] terms returns what [k] Jacobi sweeps [x + D^-1 (r - A x)] from
    zero return: what it spares is not arithmetic but the dependence of one sweep on the
    order of the cells. *)
Theorem poly_is_jacobi (s : ldu F) k r :
  well_formed s → length r = n_cells s → 0 < k → prec_poly s k r = jacobi_sweeps k s r (zeros (n_cells s)).
Proof.
  intros Hs Hr Hk. destruct k as [|k]; [lia|]. unfold prec_poly. cbn [Nat.sub]. rewrite Nat.sub_0_r.
  rewrite <- poly_loop_jacobi by (done || apply length_zeros).
  assert (length (recip (diag s)) = n_cells s) as Hd by (rewrite length_recip; apply Hs).
  pose proof (length_amul s) as Ha.
  assert (zip_with sub r (amul s (zeros (n_cells s))) = r) as E.
  { apply val_eq; [rewrite length_zip_with, Ha; lia|]. intros i Hi. rewrite length_zip_with, Ha in Hi.
    rewrite val_zip by (rewrite ?Ha; lia). rewrite val_amul by (done || apply length_zeros || lia).
    unfold row, lower_sum, upper_sum. rewrite val_zeros.
    rewrite (fsum_ext _ _ (λ _, zero)) by (intros f _; rewrite val_zeros; destruct (_ =? _); ring).
    rewrite (fsum_ext _ (λ f, if fo f =? i then _ else _) (λ _, zero)) by (intros f _; rewrite val_zeros; destruct (_ =? _); ring).
    rewrite !fsum_zero. ring. }
  unfold jacobi_sweep. rewrite E. f_equal. symmetry.
  apply val_eq; [rewrite !length_zip_with, length_zeros; lia|]. intros i Hi.
  rewrite !length_zip_with, length_zeros in Hi.
  rewrite val_zip by (rewrite ?length_zip_with, ?length_zeros; lia). rewrite val_zeros. ring.
Qed.

(** *** Gauss-Seidel by colour *)

(** A half sweep over one colour satisfies its equations. *)
Lemma half_sweep_solves (s : ldu F) c k r w i :
  well_formed s → two_colours s c → length w = n_cells s → i < n_cells s →
  colour_at c i = k → val (diag s) i ≠ zero → row s (half_sweep s c k r w) i = val r i.
Proof.
  intros Hs Hc Hw Hi Hk Hd. set (w' := half_sweep s c k r w).
  assert (∀ j, j < n_cells s → val w' j = if (colour_at c j =? k)%Z
    then mul (div one (val (diag s) j)) (add (sub (val r j) (val (amul s w) j)) (mul (val (diag s) j) (val w j)))
    else val w j) as Hv.
  { intros j Hj. unfold w', half_sweep. by rewrite val_imap by lia. }
  assert (∀ f, f ∈ l_faces s → (fn f = i → val w' (fo f) = val w (fo f)) ∧ (fo f = i → val w' (fn f) = val w (fn f))) as Hf.
  { intros f Hf. destruct (Hc f Hf) as (Hne & _). destruct Hs as [_ Ho Hn]. split; intros E; rewrite Hv by auto;
      rewrite (proj2 (Z.eqb_neq _ _)); [done|congruence|done|congruence]. }
  unfold row, lower_sum, upper_sum.
  rewrite (fsum_ext _ _ (λ f, if fn f =? i then mul (fl f) (val w (fo f)) else zero)).
  2: { intros f Hin. destruct (Nat.eqb_spec (fn f) i); [|done]. by rewrite (proj1 (Hf f Hin)). }
  rewrite (fsum_ext _ (λ f, if fo f =? i then _ else _) (λ f, if fo f =? i then mul (fu f) (val w (fn f)) else zero)).
  2: { intros f Hin. destruct (Nat.eqb_spec (fo f) i); [|done]. by rewrite (proj2 (Hf f Hin)). }
  rewrite Hv, Hk, Z.eqb_refl, val_amul by done. unfold row, lower_sum, upper_sum.
  match goal with |- add (mul ?d (mul (div one ?d) ?e)) ?r = _ =>
    transitivity (add (mul (mul (div one d) d) e) r); [ring|] end.
  rewrite recip_mul by done. ring.
Qed.

(** what Gauss-Seidel by colour leaves.  In exact arithmetic, on a mesh of two
    colours without a zero on the diagonal, the preconditioner ends on a half sweep of the
    red cells, and the vector it returns satisfies every red equation exactly; and the
    plain sweep of u_precond_experiment.py, which ends on the black cells, every black
    one. *)
Theorem rbsgs_red_exact (s : ldu F) c sweeps r b x :
  well_formed s → two_colours s c → (∀ i, i < n_cells s → val (diag s) i ≠ zero) →
  0 < sweeps → length b = n_cells s → length x = n_cells s →
  (∀ i, i < n_cells s → colour_at c i = 0%Z → row s (prec_rbsgs s c sweeps r) i = val r i) ∧
  ∃ x', sweep s c rbgs b x = Ok x' ∧ ∀ i, i < n_cells s → colour_at c i = 1%Z → row s x' i = val b i.
Proof.
  intros Hs Hc Hd Hk Hb Hx. split.
  - intros i Hi Hi0. unfold prec_rbsgs.
    assert (∀ k w, 0 < k → length w = n_cells s → row s (sgs_loop k s c r w) i = val r i) as Hloop.
    { induction k as [|k IH]; intros w Hk' Hw; [lia|]. cbn [sgs_loop]. destruct k as [|k].
      - cbn [sgs_loop]. apply half_sweep_solves; [done|done|by rewrite !length_half_sweep|done|done|by apply Hd].
      - apply IH; [lia|]. by rewrite !length_half_sweep. }
    apply Hloop; [done | apply length_zeros].
  - cbn [sweep]. rewrite Hb, Nat.eqb_refl. eexists. split; [done|]. intros i Hi Hi1.
    apply half_sweep_solves; [done|done|by rewrite length_half_sweep|done|done|by apply Hd].
Qed.

(** *** The residual of BiCGStab *)
Lemma kloop_residual (s : ldu F) prec nf r0 tol maxit fuel b st st' :
  well_formed s → sized s prec → length b = n_cells s → fits s st →
  k_r st = zip_with sub b (amul s (k_x st)) → k_res st = resnorm_at s b (k_x st) nf →
  kloop s prec nf r0 tol maxit fuel st = Ok st' → k_res st' = resnorm_at s b (k_x st') nf.
Proof.
  intros Hs Hp Hb; revert st; induction fuel as [|fuel IH]; intros st Hf Hr Hres; cbn [kloop]; [done|].
  destruct ((k_n st <? maxit) && leb tol (k_res st)); [|by intros [= <-]].
  destruct (kstep_total s prec nf r0 tol st Hp Hf) as (st1 & broken & E & Hf1 & _). rewrite E.
  revert E. unfold kstep. destruct Hf as (Hx & Hrl & Hpl & Hv).
  set (p := new_p st (dot r0 (k_r st))). assert (length p = n_cells s) as Hlp.
  { unfold p, new_p. destruct (k_n st =? 0); [done|].
    apply length_zip; [done|]. rewrite length_scale. apply length_zip; [done|]. by rewrite length_scale. }
  destruct (Hp p Hlp) as (y & -> & Hy). cbn [mbind res_mbind]. cbv zeta.
  set (alpha := div _ (dot r0 (amul s y))).
  pose proof (residual_step s b (k_x st) y alpha Hs Hb Hx Hy) as E1. rewrite <- Hr in E1.
  rewrite <- E1. destruct (ltb _ tol) eqn:El.
  - intros [= <- <-]. intros [= <-]. done.
  - set (sv := zip_with sub b _). assert (length sv = n_cells s) as Hsv by (apply length_zip; [done|]; apply length_amul).
    destruct (Hp sv Hsv) as (z & -> & Hz). cbn [mbind res_mbind].
    set (omega := div _ (dot (amul s z) (amul s z))).
    assert (length (zip_with add (k_x st) (scale alpha y)) = n_cells s) as Hx1
      by (apply length_zip; [done|]; by rewrite length_scale).
    pose proof (residual_step s b _ z omega Hs Hb Hx1 Hz) as E2. fold sv in E2.
    intros [= <- <-]. apply IH; [exact Hf1|cbn [k_r k_x]; by rewrite E2|]. cbn [k_res k_x]. unfold resnorm_at. by rewrite E2.
Qed.

(** C31: where a solve stops.  For a system whose faces join its cells and a
    preconditioner that returns vectors of the number of cells, BiCGStab returns: it has
    stopped by the rule (the scaled residual is not above [relTol] times the initial one)
    or after the last turn allowed; and in exact arithmetic the residual it reports is
    that of the iterate it returns, although the code only ever updates it. *)
Theorem bicgstab_stops maxit (s : ldu F) b x0 prec nf relTol :
  well_formed s → sized s prec → length b = n_cells s → length x0 = n_cells s →
  ∃ o, bicgstab maxit s b x0 prec nf relTol = Ok o ∧
    (o = None ↔ is_zero (resnorm_at s b x0 nf) = true) ∧
    ∀ o', o = Some o' → stopped maxit relTol o' ∧
      o_res0 o' = resnorm_at s b x0 nf ∧ o_res o' = resnorm_at s b (o_x o') nf.
Proof.
  intros Hs Hp Hb Hx. destruct (bicgstab_total maxit s b x0 prec nf relTol Hp Hb Hx) as (o & E & Hstop).
  exists o. split; [done|]. revert E. unfold bicgstab. rewrite residual_Ok by done. cbn [mbind res_mbind].
  change (div (norm1 (zip_with sub b (amul s x0))) nf) with (resnorm_at s b x0 nf).
  destruct (is_zero (resnorm_at s b x0 nf)) eqn:Ez; [by intros [= <-]|].
  intros (st & Hk & [= <-])%bind_Ok. split; [done|]. intros o' [= <-]. split; [by apply Hstop|]. split; [done|].
  cbn [o_res o_x]. eapply kloop_residual; [exact Hs|exact Hp|exact Hb| | | |exact Hk]; [|done|done].
  split; [done|]. split; [apply length_zip; [done|]; apply length_amul|]. split; apply length_zeros.
Qed.
End exact.
End Krylov.
