(* ===== verification/PrecondWitness.v ===== *)
(** * bench/rhoSimpleFoam: the theorems on a chain of cells

    Three cells in rational arithmetic, and the sparse product as a sum. *)
From Stdlib Require Import QArith Qcanon.
From S2P Require Import PrecondKrylov.

Module PrecondWitness.
Import Mesh Prec Sums Colour Factor Solve Run Krylov.
Open Scope nat_scope.

#[export] Instance QSparse : Sparse Qc := {|
  spmv n ts x := map (λ i, fsum ts (λ e, if e.1.1 =? i then mul e.2 (nth e.1.2 x zero) else zero)) (seq 0 n) |}.
#[export] Instance QShape : SparseShape Qc.
Proof. split. intros n ts x. cbn. by rewrite length_map, length_seq. Qed.
#[export] Instance QSparseLaws : SparseLaws Qc.
Proof.
  split; [exact _|]. intros n ts x i _ _ Hi. cbn [spmv QSparse].
  apply nth_lookup_Some. change (map ?g ?l) with (g <$> l). rewrite list_lookup_fmap.
  by rewrite (proj2 (lookup_seq 0 n i i) (conj eq_refl Hi)).
Qed.

Definition q (z : Z) : Qc := Q2Qc (z # 1).
Definition chain : ldu Qc := {|
  n_cells := 3; diag := [q 4; q 5; q 4];
  l_faces := [{| fo := 0; fn := 1; fu := q (-1); fl := q (-2) |}; {| fo := 1; fn := 2; fu := q (-1); fl := q (-2) |}] |}.
Definition rhs : list Qc := [q 1; q 2; q 3].
Definition red_black : list Z := [0; 1; 0]%Z.

Lemma chain_wf : well_formed chain.
Proof.
  split; [done|..]; intros f Hf; cbn in Hf; rewrite !elem_of_cons in Hf;
    destruct Hf as [->|[->|[]%not_elem_of_nil]]; cbn; lia.
Qed.
Lemma chain_order : in_order (l_faces chain).
Proof.
  apply upper_triangular_in_order.
  - intros f Hf; cbn in Hf; rewrite !elem_of_cons in Hf; destruct Hf as [->|[->|[]%not_elem_of_nil]]; cbn; lia.
  - intros [|[|i]] [|[|j]] f g Hf Hg; cbn in *; simplify_eq; cbn; lia.
Qed.
Lemma chain_colours : two_colours chain red_black.
Proof.
  intros f Hf; cbn in Hf; rewrite !elem_of_cons in Hf;
    destruct Hf as [->|[->|[]%not_elem_of_nil]]; cbn; lia.
Qed.
Definition is_nonzero (x : Qc) : bool := negb (is_zero x).
Lemma nonzero_spec x : is_nonzero x = true → x ≠ zero.
Proof. unfold is_nonzero. intros E%negb_true_iff ->. by rewrite (proj2 (is_zero_spec zero) eq_refl) in E. Qed.
Lemma chain_diag i : i < 3 → nth i (diag chain) zero ≠ zero.
Proof. intros Hi. apply nonzero_spec. destruct i as [|[|[|i]]]; [vm_compute; reflexivity..|lia]. Qed.

(** The mesh of the chain. *)
Definition chain_mesh : faces := {| f_own := [0; 1]%Z; f_nei := [1; 2]%Z; f_cells := 3 |}.
Lemma chain_valid : valid chain_mesh 3.
Proof.
  split; [done|]. split; [done|]. split; intros i Hi; cbn in Hi; rewrite !elem_of_cons in Hi;
    destruct Hi as [->|[->|[]%not_elem_of_nil]]; lia.
Qed.
Lemma colouring_decides_witness :
  ∃ col, colour_cells chain_mesh = Ok col ∧ bip col = true ∧ colour col = red_black ∧
    ∀ i j, joined chain_mesh i j → colour_at (colour col) i ≠ colour_at (colour col) j.
Proof.
  destruct (colouring_decides chain_mesh 3 chain_valid ltac:(lia)) as (col & E & _ & _ & Hc).
  exists col. split; [exact E|].
  assert (colour_cells chain_mesh = Ok {| colour := red_black; bip := true |}) as E' by (vm_compute; reflexivity).
  rewrite E' in E. injection E as <-. split; [done|]. split; [done|]. by apply Hc.
Defined.

Lemma dilu_natural_solves_witness :
  length (prec_dilu_natural chain rhs) = 3 ∧ ∃ y, ∀ i, i < 3 →
    let D := dilu_factor (l_faces chain) (diag chain) in
    add (mul (nth i D zero) (nth i y zero)) (lower_sum chain i (λ f, mul (fl f) (nth (fo f) y zero))) = nth i rhs zero.
Proof.
  assert (∀ i, i < 3 → nth i (dilu_factor (l_faces chain) (diag chain)) zero ≠ zero) as HD.
  { intros i Hi. apply nonzero_spec. destruct i as [|[|[|i]]]; [vm_compute; reflexivity..|lia]. }
  destruct (dilu_natural_solves chain rhs chain_wf chain_order eq_refl HD) as (Hl & y & Hy).
  split; [exact Hl|]. exists y. intros i Hi. exact (proj1 (proj2 (Hy i Hi))).
Defined.

Lemma rb_dilu_is_dilu_witness :
  prec_dilu_rb chain red_black rhs = prec_dilu_natural (reordered chain red_black) rhs.
Proof.
  exact (proj1 (rb_dilu_is_dilu chain red_black rhs chain_wf chain_colours (λ i Hi _, chain_diag i Hi) eq_refl)).
Defined.

Lemma poly_is_jacobi_witness : prec_poly chain 3 rhs = jacobi_sweeps 3 chain rhs (zeros 3).
Proof. exact (poly_is_jacobi chain 3 rhs chain_wf eq_refl ltac:(lia)). Defined.

Lemma rbsgs_red_exact_witness : row chain (prec_rbsgs chain red_black 1 rhs) 2 = q 3.
Proof.
  exact (proj1 (rbsgs_red_exact chain red_black 1 rhs rhs rhs chain_wf chain_colours chain_diag ltac:(lia) eq_refl eq_refl)
    2 ltac:(cbn; lia) eq_refl).
Defined.

Definition scaled_jacobi (r : list Qc) : res (list Qc) := Ok (prec_jacobi chain r).
Lemma bicgstab_stops_witness :
  ∃ o, bicgstab MAXIT_EPS chain rhs (zeros 3) scaled_jacobi (q 1) (lit 1 1) = Ok (Some o) ∧
    stopped MAXIT_EPS (lit 1 1) o ∧ o_res o = resnorm_at chain rhs (o_x o) (q 1).
Proof.
  assert (sized chain scaled_jacobi) as Hp
    by (apply sized_pure; intros r; by apply (length_prec_jacobi chain r chain_wf)).
  destruct (bicgstab_stops MAXIT_EPS chain rhs (zeros 3) scaled_jacobi (q 1) (lit 1 1) chain_wf Hp eq_refl eq_refl)
    as (o & E & Hn & Ho).
  destruct o as [o|].
  - exists o. split; [exact E|]. destruct (Ho o eq_refl) as (H1 & _ & H2). exact (conj H1 H2).
  - exfalso. assert (is_zero (resnorm_at chain rhs (zeros 3) (q 1)) = false) as Ez by (vm_compute; reflexivity).
    rewrite (proj1 Hn eq_refl) in Ez. discriminate Ez.
Defined.

(** The sweeps of each colour bring the residual below a tenth of the first before the 300. *)
Lemma sweeps_stop_witness :
  ∃ o, sweeps chain red_black rbgs rhs (zeros 3) (q 1) (lit 1 1) = Ok o ∧ 0 < o_n o < 300 ∧
    sweep_n (o_n o) chain red_black rbgs rhs (zeros 3) = Ok (o_x o) ∧
    leb (mul (lit 1 1) (o_res0 o)) (o_res o) = false.
Proof.
  destruct (sweeps_stop chain red_black rbgs rhs (zeros 3) (q 1) (lit 1 1) chain_wf eq_refl eq_refl)
    as (o & E & _ & Hi & _ & _ & _ & Hst).
  assert (match sweeps chain red_black rbgs rhs (zeros 3) (q 1) (lit 1 1) with
          | Ok o => (0 <? o_n o) && (o_n o <? 300) | Raise _ => false end = true) as Hn by (vm_compute; reflexivity).
  rewrite E in Hn. apply andb_true_iff in Hn as [Hn1%Nat.ltb_lt Hn2%Nat.ltb_lt].
  exists o. split; [exact E|]. split; [lia|]. split; [exact Hi|]. destruct Hst as [Hst|Hst]; [exact Hst|lia].
Defined.

Lemma u_solves_return_witness :
  ∃ l, u_solves chain {| colour := red_black; bip := true |} rhs (zeros 3) (q 1) (lit 1 1) = Ok l ∧ length l = 6.
Proof.
  destruct (u_solves_return chain {| colour := red_black; bip := true |} rhs (zeros 3) (q 1) (lit 1 1)
    chain_wf eq_refl eq_refl) as (l & E & Hl & _).
  exists l. split; [exact E|]. by rewrite <- (length_map fst l), Hl.
Defined.
End PrecondWitness.
