(* ===== verification/Reports.v ===== *)
(** * The timing reports: tools/timeInterFoam/parts_report.py, bench/rhoSimpleFoam/phase_table.py

    Two programs that read the clocks a run has printed and tabulate OpenFOAM's beside
    brae's: [Parts] the parts of an interFoam step, [Phases] the blocks of a
    rhoSimpleFoam iteration.  Arithmetic is the class [NumOps]; [float(s)] and
    ['%w.df'] are parameters, and what is printed is a list of lines. *)
From S2P Require Export PyRe PyOs NumPy Amg.

(** ** What the reports share *)
Module Text.

(** The lines of an open text file, each with its newline. *)
Fixpoint lines (s : str) : list str :=
  match s with
  | [] => []
  | c :: s =>
      if Ascii.eqb c nl then [nl] :: lines s
      else match lines s with [] => [[c]] | l :: ls => (c :: l) :: ls end
  end.
(** ['%-ns'] and ['%ns'] *)
Definition ljust (n : nat) (s : str) : str := s ++ repeat " "%char (n - length s).
Definition rjust (n : nat) (s : str) : str := repeat " "%char (n - length s) ++ s.

(** A dict in the order of insertion. *)
Definition dget {A} (k : str) (d : list (str * A)) : option A :=
  snd <$> List.find (λ e, bool_decide (e.1 = k)) d.
Fixpoint dset {A} (k : str) (v : A) (d : list (str * A)) : list (str * A) :=
  match d with
  | [] => [(k, v)]
  | e :: d => if bool_decide (e.1 = k) then (k, v) :: d else e :: dset k v d
  end.
End Text.

(** ** parts_report.py *)
Module Parts.
Import Text.

Section parts.
Context {F : Type} `{NumOps F} (to_float : str → res F) (fixed : nat → nat → F → str).
Abbreviation table := (list (str * F)).
Definition of_int (z : Z) : F := lit z 0.

Definition B : str := "/home/ghost/cudafoam/runs/bench/parts".
Definition PARTS : list str :=
  ["deltaT" : str; "mesh" : str; "alpha" : str; "momentum" : str; "pressure" : str; "turbulence" : str; "write" : str].

(** *** OpenFOAM's clocks *)

(** [{f[i]: float(f[i + 1]) for i in range(2, len(f) - 1, 2)}] *)
Fixpoint clocks (w : list str) (d : table) : res table :=
  match w with
  | k :: v :: w => x ← to_float v; clocks w (dset k x d)
  | _ => Ok d
  end.
Definition timed_line (rows : gmap Z table) (line : str) : res (gmap Z table) :=
  if starts "TIMED " line then
    let w := words line in
    d ← clocks (drop 2 w) [];
    s ← getitem w 1;
    i ← Amg.int_of_str s;
    Ok (<[i := d]> rows)
  else Ok rows.
(** [max(rows)] *)
Definition last_step (rows : gmap Z table) : option Z :=
  match map fst (map_to_list rows) with [] => None | k :: ks => Some (fold_left Z.max ks k) end.
(** The mean of the steps after [K0], of the last whole one. *)
Definition measured (K0 : Z) (rows : gmap Z table) : res (option table) :=
  match last_step rows with
  | None => Ok None
  | Some m =>
      let last := (m - 1)%Z in
      if (last - K0 <? 5)%Z || negb (bool_decide (is_Some (rows !! K0))) then Ok None
      else
        d ← mapR (λ k,
              e ← from_opt KeyError (rows !! last); x ← from_opt KeyError (dget k e);
              e0 ← from_opt KeyError (rows !! K0); x0 ← from_opt KeyError (dget k e0);
              Ok (k, div (mul (of_int 1000) (sub x x0)) (of_int (last - K0)))) PARTS;
        Ok (Some d)
  end.
Definition of_parts (f : fs) (label : str) (K0 : Z) (arm : str) : res (option table) :=
  let p := B ++ ("/p_" : str) ++ label ++ ("_" : str) ++ arm ++ ("/log.of" : str) in
  if negb (exists_ f p) then Ok None
  else text ← read_text f p; rows ← foldR timed_line (lines text) ∅; measured K0 rows.

(** *** brae's phase table *)
Definition over_re : re := seqs [txt "phase time over "; RGroup 1 (many1 (cls [CDigit])); txt " steps"].
Definition row_re : re :=
  seqs [many1 sp; RGroup 1 (many_lazy any); many1 sp; RGroup 2 (many1 (cls [CDigit; CChar "."])); txt " ms/step"].
Record scan := { s_steps : Z; s_top : table; s_nested : table; s_inside : bool }.
Definition phase_line (st : scan) (line : str) : res scan :=
  match search over_re line 0 with
  | Some m =>
      n ← Amg.int_of_str (group_d 1 line m);
      Ok {| s_steps := n; s_top := s_top st; s_nested := s_nested st; s_inside := s_inside st |}
  | None =>
      if contains "inside those phases" line then
        Ok {| s_steps := s_steps st; s_top := s_top st; s_nested := s_nested st; s_inside := true |}
      else match match_ row_re line 0 with
      | Some m =>
          if (s_steps st =? 0)%Z then Ok st
          else
            let name := strip (group_d 1 line m) in
            v ← to_float (group_d 2 line m);
            if negb (bool_decide (name = ("ALL PHASES" : str))) && s_inside st then
              Ok {| s_steps := s_steps st; s_top := s_top st; s_nested := dset name v (s_nested st); s_inside := s_inside st |}
            else
              Ok {| s_steps := s_steps st; s_top := dset name v (s_top st); s_nested := s_nested st; s_inside := s_inside st |}
      | None => Ok st
      end
  end.
Definition brae_table (f : fs) (label arm : str) : res (option table * Z * table) :=
  let p := B ++ ("/p_" : str) ++ label ++ ("_brae_" : str) ++ arm ++ ("/log.brae" : str) in
  if negb (exists_ f p) then Ok (None, 0%Z, [])
  else
    text ← read_text f p;
    st ← foldR phase_line (lines text) {| s_steps := 0; s_top := []; s_nested := []; s_inside := false |};
    Ok (Some (s_top st), s_steps st, s_nested st).

(** The cost of a step from two runs of different lengths. *)
Definition per_step (full : table) (nf : Z) (half : table) (nh : Z) : table :=
  map (λ e, (e.1, div (sub (mul e.2 (of_int nf)) (mul (default zero (dget e.1 half)) (of_int nh)))
                      (of_int (nf - nh)))) full.
Definition brae_parts (f : fs) (label : str) : res (option table * option table * str) :=
  '(full, nf, nestF) ← brae_table f label "full";
  '(half, nh, nestH) ← brae_table f label "half";
  match full, half with
  | Some (e :: full), Some (e' :: half) =>
      if (nf <=? nh)%Z
      then Ok (None, None, ("brae: run lengths " : str) ++ dec nf ++ (" and " : str) ++ dec nh)
      else Ok (Some (per_step (e :: full) nf (e' :: half) nh), Some (per_step nestF nf nestH nh),
               dec nf ++ (" and " : str) ++ dec nh ++ (" steps" : str))
  | _, _ => Ok (None, None, "brae: no phase table" : str)
  end.

(** *** The table *)

(** brae's phases of each of OpenFOAM's parts, by the start of their names. *)
Definition MAP : list (str * list str) :=
  [("deltaT" : str, ["0 between steps" : str; "0 before setRDeltaT" : str; "0 setRDeltaT" : str]);
   ("mesh" : str, ["0 step preparation" : str]);
   ("alpha" : str, ["1 alpha step" : str]);
   ("momentum" : str, ["2 interface forces" : str; "3 momentum matrix" : str; "4 momentum predictor" : str]);
   ("pressure" : str, ["5 pressure correctors" : str]);
   ("turbulence" : str, ["7 turbulence closure" : str; "8 grad(U)" : str]);
   ("write" : str, ["9 write" : str; "6 after the step" : str; "9 end of the outer" : str])].
Definition in_part (keys : list str) (e : str * F) : bool := existsb (λ x, starts x e.1) keys.
(** [sum(...) if bp else None] *)
Definition brae_part (bp : option table) (keys : list str) : option F :=
  match bp with
  | Some (e :: l) => Some (sum (map snd (List.filter (in_part keys) (e :: l))))
  | _ => None
  end.
Record row := { r_part : str; r_of1 : option F; r_of20 : option F; r_brae : option F }.
Definition part_row (o1 o20 bp : option table) (pk : str * list str) : res row :=
  let at_ o := match o with Some (e :: l) => x ← from_opt KeyError (dget pk.1 (e :: l)); Ok (Some x) | _ => Ok (None : option F) end in
  a1 ← at_ o1;
  a20 ← at_ o20;
  Ok {| r_part := pk.1; r_of1 := a1; r_of20 := a20; r_brae := brae_part bp pk.2 |}.
(** [v or 0.0] *)
Definition or_zero (v : option F) : F := match v with Some x => if is_zero x then zero else x | None => zero end.
Definition totals (rows : list row) : F * F * F :=
  fold_left (λ t r, (add t.1.1 (or_zero (r_of1 r)), add t.1.2 (or_zero (r_of20 r)), add t.2 (or_zero (r_brae r))))
    rows (zero, zero, zero).

Definition cost (v : option F) : str := match v with Some x => fixed 10 1 x | None => "         -" end.
Definition ratio (a c : option F) : str :=
  match a, c with
  | Some x, Some y =>
      if negb (is_zero x) && negb (is_zero y) && ltb (lit 5 2) y then fixed 8 2 (div x y) ++ ("x" : str) else "        -"
  | _, _ => "        -"
  end.
Definition row_text (r : row) : str :=
  ("  " : str) ++ join " " [ljust 12 (r_part r); cost (r_of1 r); cost (r_of20 r); cost (r_brae r);
                            ratio (r_of20 r) (r_brae r); ratio (r_of1 r) (r_brae r)].
Definition speedup (t b : F) : str := fixed 8 2 (if is_zero b then zero else div t b) ++ ("x" : str).
Definition total_text (t : F * F * F) : str :=
  ("  " : str) ++ join " " [ljust 12 "TOTAL"; fixed 10 1 t.1.1; fixed 10 1 t.1.2; fixed 10 1 t.2;
                            speedup t.1.2 t.2; speedup t.1.1 t.2].
Definition title (label cells : str) : list str :=
  [label ++ ("  (" : str) ++ cells ++ (" cells)   ms a step" : str);
   ("  " : str) ++ join " " [ljust 12 "part"; rjust 10 "OF 1 core"; rjust 10 "OF 20"; rjust 10 "brae";
                             rjust 9 "vs 20"; rjust 9 "vs 1"]].
(** The fourteen dearest phases, without the cheap ones. *)
Definition dearest (bn : table) : table :=
  List.filter (λ e, leb (lit 3 1) e.2)
    (take 14 (sort_by (λ a b, negb (ltb (neg b.2) (neg a.2))) bn)).
Definition nested_text (bn : option table) : list str :=
  match bn with
  | Some (e :: l) =>
      ("  inside brae, ms a step:" : str)
      :: map (λ e, ("    " : str) ++ ljust 48 e.1 ++ (" " : str) ++ fixed 8 1 e.2) (dearest (e :: l))
  | _ => []
  end.

Record args := { a_label : str; a_cells : str; a_N : str; a_K0 : str }.
Definition main (f : fs) (a : args) : res (list str) :=
  _ ← Amg.int_of_str (a_N a);
  K0 ← Amg.int_of_str (a_K0 a);
  o1 ← of_parts f (a_label a) K0 "of1";
  o20 ← of_parts f (a_label a) K0 "of20";
  '(bp, bn, note) ← brae_parts f (a_label a);
  rows ← mapR (part_row o1 o20 bp) MAP;
  Ok (title (a_label a) (a_cells a) ++ map row_text rows
      ++ [total_text (totals rows); ("  (" : str) ++ note ++ (")" : str)] ++ nested_text bn).
End parts.
Arguments row : clear implicits.
Arguments scan : clear implicits.
End Parts.

(** ** phase_table.py *)
Module Phases.
Import Text Parts.

Section phases.
Context {F : Type} `{NumOps F} (to_float : str → res F) (fixed : nat → nat → F → str) (nan : F).
Abbreviation table := (list (str * F)).

(** *** OpenFOAM's lines *)
Definition num_set : list citem := CDigit :: chars ".eE+-".
Definition field_re : re := seqs [RGroup 1 (many1 word); chr " "; RGroup 2 (many1 (cls num_set))].
Definition solve_re : re := seqs [txt "(solve "; RGroup 1 (many1 (cls num_set)); txt ")"].
(** [dict(re.findall(...))] *)
Definition fields (line : str) : list (str * str) :=
  fold_left (λ d m, dset (group_d 1 line m) (group_d 2 line m) d) (finditer field_re line) [].
Definition solves (line : str) : list str := findall1 solve_re line.
Inductive source := Field (k : str) | Solve (i : nat).
Definition columns : list (str * source) :=
  [("UEqn" : str, Field "UEqn"); ("Usol" : str, Solve 0); ("EEqn" : str, Field "EEqn"); ("Esol" : str, Solve 1);
   ("pEqn" : str, Field "pEqn"); ("psol" : str, Solve 2); ("turbulence" : str, Field "turbulence");
   ("rest" : str, Field "rest"); ("total" : str, Field "total")].
Definition of_row (line : str) : res table :=
  mapR (λ c,
    s ← match c.2 with Field k => from_opt KeyError (dget k (fields line)) | Solve i => getitem (solves line) i end;
    x ← to_float s; Ok (c.1, x)) columns.
(** [rows[skip:]] *)
Definition from_index {A} (skip : Z) (l : list A) : list A :=
  drop (Z.to_nat (if (skip <? 0)%Z then Z.max 0 (Z.of_nat (length l) + skip) else skip)) l.
Definition of_means (skip : Z) (rows : list table) : res (table * nat) :=
  let rows := from_index skip rows in
  first ← getitem rows 0;
  d ← mapR (λ e,
        l ← mapR (λ r, from_opt KeyError (dget e.1 r)) rows;
        Ok (e.1, div (mul (of_int 1000) (sum l)) (of_int (Z.of_nat (length rows))))) first;
  Ok (d, length rows).
Definition of_side (text : str) (skip : Z) : res (table * nat) :=
  rows ← mapR of_row (List.filter (starts "PHASE") (lines text));
  of_means skip rows.

(** *** brae's report *)
Definition secs : re := many1 (cls [CDigit; CChar "."]).
Definition clock (name : str) (n : nat) : re :=
  seqs [txt name; secs; txt " s ("; RGroup n secs; txt " ms/it)"].
Definition phase_re : re :=
  seqs [txt "[phase] over "; RGroup 1 (many1 (cls [CDigit])); txt " iterations: ";
        clock "UEqn " 2; txt ", "; clock "EEqn " 3; txt ", "; clock "pEqn " 4; txt ", ";
        clock "turbulence " 5; txt "; "; clock "the four total " 6].
Definition linear_re : re :=
  seqs [txt "linear solves: "; clock "U " 1; txt ", "; clock "he " 2; txt ", "; clock "p " 3].
Definition wall_re : re := seqs [txt "ExecutionTime = "; RGroup 1 secs; txt " s"].
Definition groups (txt : str) (m : mobj) (l : list (str * nat)) : res table :=
  mapR (λ c, x ← to_float (group_d c.2 txt m); Ok (c.1, x)) l.
(** The last line with a time. *)
Fixpoint total_wall (l : list str) : res (option F) :=
  match l with
  | [] => Ok None
  | s :: l =>
      match search wall_re s 0 with
      | Some m => x ← to_float (group_d 1 s m); Ok (Some x)
      | None => total_wall l
      end
  end.
Definition FOUR : list (str * nat) :=
  [("UEqn" : str, 2); ("EEqn" : str, 3); ("pEqn" : str, 4); ("turbulence" : str, 5); ("four" : str, 6)].
Definition SOLVES : list (str * nat) := [("Usol" : str, 1); ("Esol" : str, 2); ("psol" : str, 3)].
Definition brae_side (text : str) (brae_ms : option F) : res (table * Z) :=
  m ← from_opt AttributeError (search phase_re text 0);
  b ← groups text m FOUR;
  m2 ← from_opt AttributeError (search linear_re text 0);
  b2 ← groups text m2 SOLVES;
  nIt ← Amg.int_of_str (group_d 1 text m);
  wall ← total_wall (rev (split nl text));
  total ← match brae_ms, wall with
          | Some x, _ => Ok x
          | None, Some t => if is_zero t then Ok nan else pydiv (mul (of_int 1000) t) (of_int nIt)
          | None, None => Ok nan
          end;
  four ← from_opt KeyError (dget "four" b);
  Ok (b ++ b2 ++ [("total" : str, total); ("rest" : str, sub total four)], nIt).

(** *** The table *)
Definition BLOCKS : list (str * str) :=
  [("UEqn (assemble+solve)" : str, "UEqn" : str); ("  of which U solve" : str, "Usol" : str);
   ("EEqn (assemble+solve)" : str, "EEqn" : str); ("  of which he solve" : str, "Esol" : str);
   ("pEqn (assemble+solve)" : str, "pEqn" : str); ("  of which p solve" : str, "psol" : str);
   ("turbulence (k+eps)" : str, "turbulence" : str); ("rest of the iteration" : str, "rest" : str);
   ("whole iteration" : str, "total" : str)].
Record block := { k_name : str; k_of : F; k_brae : F; k_ratio : F }.
Definition block_of (o b : table) (nk : str * str) : res block :=
  x ← from_opt KeyError (dget nk.2 o);
  y ← from_opt KeyError (dget nk.2 b);
  Ok {| k_name := nk.1; k_of := x; k_brae := y; k_ratio := if ltb zero x then div y x else nan |}.
Definition block_text (k : block) : str :=
  join " " [ljust 22 (k_name k); fixed 10 1 (k_of k); fixed 10 1 (k_brae k); fixed 8 2 (k_ratio k)].
Record report := { t_blocks : list block; t_mean : nat; t_skip : Z; t_over : Z }.
Definition report_text (r : report) : list str :=
  [join " " [ljust 22 "block (ms/iteration)"; rjust 10 "OF-20c"; rjust 10 "brae"; rjust 8 "brae/OF"]]
  ++ map block_text (t_blocks r)
  ++ [("(OpenFOAM: mean over " : str) ++ dec (Z.of_nat (t_mean r)) ++ (" iterations after skipping " : str)
      ++ dec (t_skip r) ++ (", max over ranks; brae: over " : str) ++ dec (t_over r) ++ (" iterations)" : str)].

Record args := { a_of : str; a_brae : str; a_skip : option str; a_ms : option str }.
Definition main (f : fs) (a : args) : res report :=
  skip ← match a_skip a with Some s => Amg.int_of_str s | None => Ok 1%Z end;
  ms ← match a_ms a with Some s => x ← to_float s; Ok (Some x) | None => Ok (None : option F) end;
  t ← read_text f (a_of a);
  '(o, n) ← of_side t skip;
  t ← read_text f (a_brae a);
  '(b, nIt) ← brae_side t ms;
  l ← mapR (block_of o b) BLOCKS;
  Ok {| t_blocks := l; t_mean := n; t_skip := skip; t_over := nIt |}.
End phases.
Arguments block : clear implicits.
Arguments report : clear implicits.
End Phases.
