(* ===== verification/ReportsProofs.v ===== *)
(** * The timing reports: what the tables say

    Theorems about Reports.v in exact arithmetic: the cost of a step from the clocks of
    a log, brae's column of parts_report.py, and the blocks of phase_table.py. *)
From S2P Require Import PrecondSums.
From S2P Require Export Reports.

Module PartsSpec.
Import Sums Text Parts.

(** ** Dicts *)
Lemma dget_cons {A} k (e : str * A) d : dget k (e :: d) = if bool_decide (e.1 = k) then Some e.2 else dget k d.
Proof. unfold dget. cbn [List.find]. by destruct (bool_decide (e.1 = k)). Qed.
Lemma dget_elem {A} k (d : list (str * A)) v : dget k d = Some v → (k, v) ∈ d.
Proof.
  induction d as [|[k' v'] d IH]; [done|]. rewrite dget_cons. cbn [fst snd].
  case_bool_decide as E; [intros [= ->]; subst; left | intros H; right; by apply IH].
Qed.
Lemma dget_map {A B} k (d : list (str * A)) (g : str * A → B) :
  dget k (map (λ e, (e.1, g e)) d) = (λ v, g (k, v)) <$> dget k d.
Proof.
  induction d as [|[k' v] d IH]; [done|]. cbn [map]. rewrite !dget_cons. cbn [fst snd].
  case_bool_decide; [by subst | apply IH].
Qed.

(** ** The parts of a phase *)

(** Two prefixes of one text: one is a prefix of the other. *)
Lemma starts_comparable p q s : starts p s = true → starts q s = true → starts p q || starts q p = true.
Proof.
  revert q s; induction p as [|a p IH]; intros [|b q] [|c s]; cbn [starts]; try done.
  intros [E1 H1]%andb_prop [E2 H2]%andb_prop. apply Ascii.eqb_eq in E1, E2. subst.
  rewrite Ascii.eqb_refl. cbn [andb]. by eapply IH.
Qed.
(** No two parts claim names with one beginning. *)
Definition apart (l : list (str * list str)) : bool :=
  forallb (λ i, forallb (λ j, (i =? j) ||
    match l !! i, l !! j with
    | Some p, Some q => forallb (λ x, forallb (λ y, negb (starts x y || starts y x)) q.2) p.2
    | _, _ => true
    end) (seq 0 (length l))) (seq 0 (length l)).
Lemma MAP_apart : apart MAP = true.
Proof. vm_compute. reflexivity. Qed.
Lemma apart_spec l i j p q : apart l = true → l !! i = Some p → l !! j = Some q → i ≠ j →
  ∀ x y, x ∈ p.2 → y ∈ q.2 → starts x y || starts y x = false.
Proof.
  intros H Hi Hj Hij x y Hx Hy. unfold apart in H.
  pose proof (lookup_lt_Some _ _ _ Hi). pose proof (lookup_lt_Some _ _ _ Hj).
  rewrite forallb_forall in H. specialize (H i ltac:(apply in_seq; lia)). rewrite forallb_forall in H.
  specialize (H j ltac:(apply in_seq; lia)). rewrite (proj2 (Nat.eqb_neq i j) Hij), Hi, Hj in H. cbn [orb] in H.
  rewrite forallb_forall in H. specialize (H x (proj1 (list_elem_of_In _ _) Hx)). rewrite forallb_forall in H.
  specialize (H y (proj1 (list_elem_of_In _ _) Hy)). by apply negb_true_iff in H.
Qed.

Section spec.
Context {F : Type} `{NumLaws F, !LitLaws F} (to_float : str → res F).
Abbreviation table := (list (str * F)).
Add Ring num_ring_of_parts : (num_ring (F := F)).

Lemma in_part_spec keys (e : str * F) : in_part keys e = true ↔ ∃ x, x ∈ keys ∧ starts x e.1 = true.
Proof. unfold in_part. rewrite existsb_exists. by setoid_rewrite list_elem_of_In. Qed.
(** A phase that some part takes in, and that only one does. *)
Definition counted (e : str * F) : bool := existsb (λ pk, in_part pk.2 e) MAP.
Lemma in_one_part (e : str * F) i j p q :
  MAP !! i = Some p → MAP !! j = Some q → in_part p.2 e = true → in_part q.2 e = true → i = j.
Proof.
  intros Hi Hj (x & Hx & Hs)%in_part_spec (y & Hy & Ht)%in_part_spec.
  destruct (decide (i = j)) as [|Hij]; [done|].
  pose proof (apart_spec _ _ _ _ _ MAP_apart Hi Hj Hij x y Hx Hy) as E.
  by rewrite (starts_comparable x y e.1 Hs Ht) in E.
Qed.
Lemma fsum_parts_gen (l : list (str * list str)) (e : str * F) (v : F) :
  (∀ i j p q, l !! i = Some p → l !! j = Some q → in_part p.2 e = true → in_part q.2 e = true → i = j) →
  fsum l (λ pk, if in_part pk.2 e then v else zero) = if existsb (λ pk, in_part pk.2 e) l then v else zero.
Proof.
  induction l as [|p l IH]; intros Hu; [done|]. rewrite fsum_cons. cbn [existsb].
  rewrite IH by (intros i j q q' Hi Hj Hp Hq; specialize (Hu (S i) (S j) q q' Hi Hj Hp Hq); lia).
  destruct (in_part p.2 e) eqn:E; [|cbn [orb]; ring]. cbn [orb].
  destruct (existsb _ l) eqn:El; [|ring].
  apply existsb_exists in El as (q & Hq & Hin). apply list_elem_of_In, list_elem_of_lookup in Hq as [j Hj].
  specialize (Hu 0 (S j) p q eq_refl Hj E Hin). lia.
Qed.
Lemma fsum_parts (e : str * F) v : fsum MAP (λ pk, if in_part pk.2 e then v else zero) = if counted e then v else zero.
Proof. apply fsum_parts_gen. intros i j p q. apply in_one_part. Qed.
Lemma fsum_swap {A B} (l : list A) (k : list B) (g : A → B → F) :
  fsum l (λ a, fsum k (g a)) = fsum k (λ b, fsum l (λ a, g a b)).
Proof.
  induction l as [|a l IH]; [change (zero = fsum k (λ _, zero)); by rewrite fsum_zero|]. rewrite fsum_cons, IH, <- fsum_add. done.
Qed.

(** ** brae's column *)
Lemma sum_fsum (l : list F) : sum l = fsum l id.
Proof. apply sum_spec. Qed.
Lemma or_zero_Some x : or_zero (Some x) = (x : F).
Proof. cbn. destruct (is_zero x) eqn:E; [|done]. by apply is_zero_spec in E. Qed.
Lemma totals_brae (rows : list (row F)) : (totals rows).2 = fsum rows (λ r, or_zero (r_brae r)).
Proof.
  unfold totals. assert (∀ t : F * F * F, (fold_left (λ t r, (add t.1.1 (or_zero (r_of1 r)),
    add t.1.2 (or_zero (r_of20 r)), add t.2 (or_zero (r_brae r)))) rows t).2
    = add t.2 (fsum rows (λ r, or_zero (r_brae r)))) as G.
  { induction rows as [|r rows IH]; intros t; [cbn; ring|]. cbn [fold_left]. rewrite IH, fsum_cons. cbn [snd]. ring. }
  rewrite G. cbn [snd]. ring.
Qed.
Lemma part_row_Ok o1 o20 (bp : option table) pk r :
  part_row o1 o20 bp pk = Ok r → r_part r = pk.1 ∧ r_brae r = brae_part bp pk.2.
Proof. intros (a1 & _ & (a20 & _ & [= <-])%bind_Ok)%bind_Ok. done. Qed.
Lemma brae_part_sum (bp : table) keys :
  bp ≠ [] → brae_part (Some bp) keys = Some (fsum bp (λ e, if in_part keys e then e.2 else zero)).
Proof.
  intros Hbp. rewrite <- fsum_filter. transitivity (Some (fsum (List.filter (in_part keys) bp) (λ e, id e.2))); [|done].
  rewrite <- (fsum_map snd _ id), <- sum_fsum. by destruct bp.
Qed.
Lemma brae_column (bp : table) o1 o20 rows :
  bp ≠ [] → mapR (part_row o1 o20 (Some bp)) MAP = Ok rows →
  (totals rows).2 = fsum (List.filter counted bp) snd.
Proof.
  intros Hbp Hrows. rewrite totals_brae, fsum_filter.
  transitivity (fsum MAP (λ pk, fsum bp (λ e, if in_part pk.2 e then e.2 else zero))).
  2: { rewrite fsum_swap. apply fsum_ext. intros e _. apply fsum_parts. }
  apply mapR_Ok in Hrows. induction Hrows as [|pk r l rows Hr _ IH]; [done|].
  rewrite !fsum_cons, IH. f_equal. destruct (part_row_Ok _ _ _ _ _ Hr) as [_ ->].
  by rewrite (brae_part_sum bp pk.2 Hbp), or_zero_Some.
Qed.
Lemma length_rows (bp : option table) o1 o20 rows :
  mapR (part_row o1 o20 bp) MAP = Ok rows → map r_part rows = map fst MAP.
Proof.
  intros Hrows%mapR_Ok. induction Hrows as [|pk r l rows Hr _ IH]; [done|]. cbn [map]. rewrite IH. f_equal.
  by apply (part_row_Ok _ _ _ _ _ Hr).
Qed.

(** What a run of [n] steps prints for a phase: its share of the start and of the
    steps, for a step. *)
Definition clocked (start cost : str → F) (n : Z) (k : str) (v : F) : Prop :=
  mul v (of_int n) = add (start k) (mul (of_int n) (cost k)).
Lemma per_step_cost start cost (full : table) nf (half : table) nh :
  (nh < nf)%Z →
  (∀ k v, (k, v) ∈ full → clocked start cost nf k v ∧ clocked start cost nh k (default zero (dget k half))) →
  per_step full nf half nh = map (λ e, (e.1, cost e.1)) full.
Proof.
  intros Hn Hc. unfold per_step. apply map_ext_in. intros [k v] Hkv%list_elem_of_In. cbn [fst snd]. f_equal.
  destruct (Hc k v Hkv) as [E1 E2]. unfold clocked in E1, E2. rewrite E1, E2.
  assert (of_int (nf - nh) ≠ zero) as Hnz by (apply lit_nonzero; lia).
  apply (mul_cancel_r _ _ (of_int (nf - nh)) Hnz). rewrite div_cancel by done. unfold of_int.
  rewrite lit_sub. ring.
Qed.

(** brae's column of parts_report.py.  In exact arithmetic, when the two runs of brae
    printed tables in which each phase has a share of the start of the run and a cost a
    step, the program finds the cost a step and the start is gone; and whatever
    OpenFOAM's logs hold, the rows are the seven parts, the total of brae's column is the
    sum over the phases that belong to a part, and none of them belongs to two. *)
Theorem parts_column f label e full nf nestF e' half nh nestH start cost :
  brae_table to_float f label "full" = Ok (Some (e :: full), nf, nestF) →
  brae_table to_float f label "half" = Ok (Some (e' :: half), nh, nestH) →
  (nh < nf)%Z →
  (∀ k v, (k, v) ∈ e :: full →
     clocked start cost nf k v ∧ clocked start cost nh k (default zero (dget k (e' :: half)))) →
  ∃ bp nest note, brae_parts to_float f label = Ok (Some bp, nest, note) ∧
    map fst bp = map fst (e :: full) ∧ (∀ k v, (k, v) ∈ bp → v = cost k) ∧
    ∀ o1 o20 rows, mapR (part_row o1 o20 (Some bp)) MAP = Ok rows →
      map r_part rows = PARTS ∧ (totals rows).2 = fsum (List.filter counted bp) (λ e, cost e.1) ∧
      ∀ e, e ∈ bp → ∀ i j p q, MAP !! i = Some p → MAP !! j = Some q →
        in_part p.2 e = true → in_part q.2 e = true → i = j.
Proof.
  intros Ef Eh Hn Hc. unfold brae_parts. rewrite Ef, Eh. cbn [mbind res_mbind].
  rewrite (proj2 (Z.leb_gt nf nh)) by lia. rewrite (per_step_cost start cost) by done.
  do 3 eexists. split; [done|]. split; [by rewrite map_map|]. split.
  { intros k v (d & [= -> ->] & _)%list_elem_of_In%in_map_iff. done. }
  intros o1 o20 rows Hrows. split; [by rewrite (length_rows _ _ _ _ Hrows)|]. split.
  - match type of Hrows with mapR (part_row _ _ (Some ?bp)) _ = _ => assert (bp ≠ []) as Hne by done end.
    rewrite (brae_column _ _ _ _ Hne Hrows). apply fsum_ext.
    intros x (Hx & _)%list_elem_of_In%filter_In. by apply in_map_iff in Hx as (d & <- & _).
  - intros x _ i j p q. apply in_one_part.
Qed.

(** ** OpenFOAM's column *)

(** What the clock of a part shows at a step. *)
Definition clock (rows : gmap Z table) (k : str) (i : Z) : F := default zero (rows !! i ≫= dget k).
(** The steps from [a], excluded, on. *)
Definition steps_from (a : Z) (n : nat) : list Z := map (λ j, (a + 1 + Z.of_nat j)%Z) (seq 0 n).
Lemma clock_telescopes rows k (cost : Z → F) a n :
  (∀ i, (a < i ≤ a + Z.of_nat n)%Z → clock rows k i = add (clock rows k (i - 1)) (cost i)) →
  sub (clock rows k (a + Z.of_nat n)) (clock rows k a) = fsum (steps_from a n) cost.
Proof.
  induction n as [|n IH]; intros Hc.
  { rewrite Z.add_0_r. change (fsum _ _) with (zero (F := F)). ring. }
  unfold steps_from in *. rewrite seq_S, map_app, fsum_app, <- IH by (intros i Hi; apply Hc; lia).
  cbn [map Nat.add]. rewrite fsum_cons. change (fsum [] cost) with (zero (F := F)).
  specialize (Hc (a + Z.of_nat (S n))%Z ltac:(lia)).
  replace (a + Z.of_nat (S n) - 1)%Z with (a + Z.of_nat n)%Z in Hc by lia.
  replace (a + 1 + Z.of_nat n)%Z with (a + Z.of_nat (S n))%Z by lia. rewrite Hc. ring.
Qed.

Definition is_last (rows : gmap Z table) (m : Z) : Prop := is_Some (rows !! m) ∧ ∀ i, is_Some (rows !! i) → (i ≤ m)%Z.
Lemma fold_max_spec (l : list Z) k : (∀ x, x ∈ k :: l → (x ≤ fold_left Z.max l k)%Z) ∧ fold_left Z.max l k ∈ k :: l.
Proof.
  revert k; induction l as [|y l IH]; intros k; cbn [fold_left].
  { split; [|left]. intros x Hx. apply list_elem_of_singleton in Hx. lia. }
  destruct (IH (Z.max k y)) as [H1 H2]. split.
  - intros x Hx. pose proof (H1 (Z.max k y) ltac:(left)). apply elem_of_cons in Hx as [->|[->|Hx]%elem_of_cons]; [lia|lia|].
    apply H1. by right.
  - apply elem_of_cons in H2 as [->|H2]; [|do 2 right; done].
    destruct (Z.max_spec k y) as [[_ ->]|[_ ->]]; [right; left | left].
Qed.
Lemma last_step_spec (rows : gmap Z table) m : last_step rows = Some m → is_last rows m.
Proof.
  unfold last_step. destruct (map fst (map_to_list rows)) as [|k ks] eqn:E; [done|]. intros [= <-].
  assert (∀ i, i ∈ k :: ks ↔ is_Some (rows !! i)) as Hk.
  { intros i. rewrite <- E. change (map fst ?l) with (l.*1). rewrite list_elem_of_fmap. split.
    - intros ([j e] & -> & Hj%elem_of_map_to_list). by exists e.
    - intros [e He%elem_of_map_to_list]. by exists (i, e). }
  destruct (fold_max_spec ks k) as [H1 H2]. split; [by apply Hk|]. intros i Hi. by apply H1, Hk.
Qed.

(** OpenFOAM's columns of parts_report.py.  When the program gives a column, the log
    was there, its clocks of the step [K0] and of the last step but one are complete and
    at least five steps apart, the column has the seven parts, and, in exact arithmetic,
    each holds the mean cost, in milliseconds, of the steps after [K0] up to that last
    step but one, whatever the steps cost: the clocks count from the start of the run. *)
Theorem of_parts_mean f label K0 arm d :
  of_parts to_float f label K0 arm = Ok (Some d) →
  ∃ text rows last,
    read_text f (B ++ ("/p_" : str) ++ label ++ ("_" : str) ++ arm ++ ("/log.of" : str)) = Ok text ∧
    foldR (timed_line to_float) (lines text) ∅ = Ok rows ∧
    is_last rows (last + 1) ∧ (K0 + 5 ≤ last)%Z ∧ map fst d = PARTS ∧
    ∀ k v cost, (k, v) ∈ d →
      (∀ i, (K0 < i ≤ last)%Z → clock rows k i = add (clock rows k (i - 1)) (cost i)) →
      mul v (of_int (last - K0)) = mul (of_int 1000) (fsum (steps_from K0 (Z.to_nat (last - K0))) cost).
Proof.
  unfold of_parts. destruct (negb _); [done|]. intros (text & Ht & (rows & Hr & Hm)%bind_Ok)%bind_Ok.
  unfold measured in Hm. destruct (last_step rows) as [m|] eqn:El; [|done].
  destruct (_ || _) eqn:Eg; [done|]. apply orb_false_iff in Eg as [Hn Hk0]. apply Z.ltb_ge in Hn.
  apply bind_Ok in Hm as (d' & Hd & [= ->]). exists text, rows, (m - 1)%Z.
  split; [done|]. split; [done|]. split; [replace (m - 1 + 1)%Z with m by lia; by apply last_step_spec|].
  split; [lia|]. apply mapR_Ok in Hd.
  assert (∀ k v, (k, v) ∈ d → v = div (mul (of_int 1000) (sub (clock rows k (m - 1)) (clock rows k K0))) (of_int (m - 1 - K0)))
    as Hv.
  { intros k v Hin. apply list_elem_of_lookup in Hin as [i Hi].
    destruct (Forall2_lookup_r _ _ _ _ _ Hd Hi) as (k' & _ & Hg).
    apply bind_Ok in Hg as (e & E1%from_opt_Ok & (x & E2%from_opt_Ok & (e0 & E3%from_opt_Ok & (x0 & E4%from_opt_Ok & [= -> <-])%bind_Ok)%bind_Ok)%bind_Ok).
    unfold clock. rewrite E1, E3. cbn [mbind option_bind]. by rewrite E2, E4. }
  split.
  - clear Hv. induction Hd as [|k [k' v] l d Hg _ IH]; [done|]. cbn [map fst]. rewrite IH. f_equal.
    by apply bind_Ok in Hg as (? & _ & (? & _ & (? & _ & (? & _ & [= -> _])%bind_Ok)%bind_Ok)%bind_Ok).
  - intros k v cost Hin Hc. rewrite (Hv k v Hin), div_cancel by (apply lit_nonzero; lia). f_equal.
    rewrite <- (clock_telescopes rows k cost K0) by (intros i Hi; apply Hc; lia). by replace (K0 + _)%Z with (m - 1)%Z by lia.
Qed.
End spec.
End PartsSpec.

(** A decidable statement about constants. *)
Ltac by_evaluation := match goal with |- ?P => apply (bool_decide_unpack P); vm_compute; exact I end.

Module PhasesSpec.
Import Sums Text Parts Phases PartsSpec.

Section spec.
Context {F : Type} `{NumLaws F, !LitLaws F} (to_float : str → res F) (nan : F).
Abbreviation table := (list (str * F)).
Add Ring num_ring_of_phases : (num_ring (F := F)).

(** The value of a key, and the sum of the five blocks of an iteration. *)
Definition at_key (d : table) (k : str) : F := default zero (dget k d).
Definition five : list str := ["UEqn" : str; "EEqn" : str; "pEqn" : str; "turbulence" : str; "rest" : str].

(** ** Tables built key by key *)
Lemma mapR_keyed {A} (l : list (str * A)) (g : str * A → res F) d :
  mapR (λ e, x ← g e; Ok (e.1, x)) l = Ok d →
  map fst d = map fst l ∧ ∀ k, k ∈ map fst l → ∃ e v, e ∈ l ∧ e.1 = k ∧ dget k d = Some v ∧ g e = Ok v.
Proof.
  intros Hd%mapR_Ok. induction Hd as [|e [k v] l d Hg _ [IHk IHd]]; [split; [done|intros k Hk; by apply not_elem_of_nil in Hk]|].
  apply bind_Ok in Hg as (x & Hx & [= <- <-]). cbn [map fst]. rewrite IHk. split; [done|].
  intros k Hk. destruct (decide (e.1 = k)) as [<-|Hne].
  - exists e, x. split; [left|]. split; [done|]. split; [|done]. rewrite dget_cons. cbn [fst]. by rewrite bool_decide_eq_true_2.
  - apply elem_of_cons in Hk as [E|Hk]; [congruence|]. destruct (IHd k Hk) as (e' & v' & Hin & E & Hv & Hg).
    exists e', v'. split; [by right|]. split; [done|]. split; [|done].
    rewrite dget_cons. cbn [fst]. by rewrite bool_decide_eq_false_2.
Qed.
Lemma dget_app (d d' : table) k : k ∉ map fst d → dget k (d ++ d') = dget k d'.
Proof.
  induction d as [|e d IH]; intros Hk; [done|]. cbn [map] in Hk. apply not_elem_of_cons in Hk as [Hne Hk].
  cbn [app]. rewrite dget_cons, bool_decide_eq_false_2 by congruence. by apply IH.
Qed.
Lemma dget_app_l (d d' : table) k : k ∈ map fst d → dget k (d ++ d') = dget k d.
Proof.
  induction d as [|e d IH]; intros Hk; [by apply not_elem_of_nil in Hk|]. cbn [app]. rewrite !dget_cons.
  case_bool_decide; [done|]. cbn [map] in Hk. apply elem_of_cons in Hk as [E|Hk]; [congruence | by apply IH].
Qed.

(** ** The two columns *)
Lemma of_means_spec skip (rows : list table) d n :
  of_means skip rows = Ok (d, n) →
  (∀ r, r ∈ rows → map fst r = map fst columns) →
  map fst d = map fst columns ∧ n = length (from_index skip rows) ∧ 0 < n ∧
  ∀ k, k ∈ map fst columns →
    mul (at_key d k) (of_int (Z.of_nat n)) = mul (of_int 1000) (fsum (from_index skip rows) (λ r, at_key r k)).
Proof.
  unfold of_means. intros Hm Hk. assert (∀ r, r ∈ from_index skip rows → r ∈ rows) as Hsub.
  { intros r Hr. unfold from_index in Hr. apply list_elem_of_lookup in Hr as [i Hi]. rewrite lookup_drop in Hi.
    by eapply list_elem_of_lookup_2. }
  set (l := from_index skip rows) in *.
  apply bind_Ok in Hm as (r0 & Hr0%getitem_Ok & (d' & Hd & [= -> <-])%bind_Ok).
  assert (0 < length l) as Hpos by (apply lookup_lt_Some in Hr0; lia).
  assert (map fst r0 = map fst columns) as Ek by (eapply Hk, Hsub, list_elem_of_lookup_2; done).
  assert (∀ e : str * F, (l' ← mapR (λ r : table, from_opt KeyError (dget e.1 r)) l;
     Ok (e.1, div (mul (of_int 1000) (sum l')) (of_int (Z.of_nat (length l)))))
   = (x ← (l' ← mapR (λ r : table, from_opt KeyError (dget e.1 r)) l;
           Ok (div (mul (of_int 1000) (sum l')) (of_int (Z.of_nat (length l))))); Ok (e.1, x))) as Eform
    by (intros e; by destruct (mapR _ l)).
  erewrite mapR_ext in Hd by exact Eform. apply mapR_keyed in Hd as [Hkeys Hvals]. rewrite Ek in *.
  split; [done|]. split; [done|]. split; [done|]. intros k Hin.
  destruct (Hvals k Hin) as (e & v & _ & <- & Hv & (l' & Hl & [= <-])%bind_Ok).
  unfold at_key at 1. rewrite Hv. cbn [from_option]. unfold id at 1.
  rewrite div_cancel by (apply lit_nonzero; lia). f_equal. rewrite sum_fsum.
  apply mapR_Ok in Hl. clear -Hl. induction Hl as [|r x l l' Hx _ IH]; [done|].
  rewrite !fsum_cons, IH. f_equal. apply from_opt_Ok in Hx. unfold at_key. by rewrite Hx.
Qed.

Lemma brae_side_spec text ms b nIt :
  brae_side to_float nan text ms = Ok (b, nIt) →
  at_key b "rest" = sub (at_key b "total") (at_key b "four") ∧
  ∃ m b1, search phase_re text 0 = Some m ∧ groups to_float text m FOUR = Ok b1 ∧
    ∀ k, k ∈ map fst FOUR → at_key b k = at_key b1 k.
Proof.
  unfold brae_side. intros (m & Hm%from_opt_Ok & (b1 & H1 & (m2 & _ & (b2 & H2 & (z & _ & (wl & _ &
    (total & _ & (four & H4%from_opt_Ok & [= <- <-])%bind_Ok)%bind_Ok)%bind_Ok)%bind_Ok)%bind_Ok)%bind_Ok)%bind_Ok)%bind_Ok.
  pose proof H1 as H1'. apply mapR_keyed in H1 as [K1 _], H2 as [K2 _]. unfold at_key. split.
  2: { exists m, b1. split; [done|]. split; [done|]. intros k Hk. by rewrite dget_app_l by by rewrite K1. }
  rewrite !(dget_app b1) by (rewrite K1; by_evaluation).
  rewrite !(dget_app b2) by (rewrite K2; by_evaluation).
  rewrite dget_app_l by (rewrite K1; by_evaluation). by rewrite H4.
Qed.

(** The entry of a column in the row of a block. *)
Definition column (g : block F → F) (r : report F) (i : nat) : F := default zero (g <$> t_blocks r !! i).
Lemma column_spec o b l skip n over i nk :
  mapR (block_of nan o b) BLOCKS = Ok l → BLOCKS !! i = Some nk →
  let r := {| t_blocks := l; t_mean := n; t_skip := skip; t_over := over |} in
  column k_of r i = at_key o nk.2 ∧ column k_brae r i = at_key b nk.2.
Proof.
  intros Hl%mapR_Ok Hi r. destruct (Forall2_lookup_l _ _ _ _ _ Hl Hi) as (k & Hk & Hb).
  unfold column, r. cbn [t_blocks]. rewrite Hk. cbn [fmap option_fmap option_map from_option].
  unfold at_key. apply bind_Ok in Hb as (x & ->%from_opt_Ok & (y & ->%from_opt_Ok & [= <-])%bind_Ok). done.
Qed.
Lemma of_row_keys line d : of_row to_float line = Ok d → map fst d = map fst columns.
Proof.
  unfold of_row. intros Hd. assert (∀ c : str * source,
    (s ← match c.2 with Field k => from_opt KeyError (dget k (fields line)) | Solve i => getitem (solves line) i end;
     x ← to_float s; Ok (c.1, x)) =
    (x ← (s ← match c.2 with Field k => from_opt KeyError (dget k (fields line)) | Solve i => getitem (solves line) i end;
          to_float s); Ok (c.1, x))) as E
    by (intros c; by destruct (match c.2 with Field k => _ | Solve i => _ end)).
  rewrite (mapR_ext _ _ _ E) in Hd. apply mapR_keyed in Hd. tauto.
Qed.

Lemma of_side_adds text skip o n :
  of_side to_float text skip = Ok (o, n) →
  (∀ line d, line ∈ lines text → starts "PHASE" line = true → of_row to_float line = Ok d → at_key d "total" = fsum five (at_key d)) →
  0 < n ∧ at_key o "total" = fsum five (at_key o).
Proof.
  intros Hos Ho.
  unfold of_side in Hos. apply bind_Ok in Hos as (rows & Hrows%mapR_Ok & Hmeans).
  assert (∀ r, r ∈ rows → ∃ line, line ∈ lines text ∧ starts "PHASE" line = true ∧ of_row to_float line = Ok r) as Hrow.
  { intros r Hr. apply list_elem_of_lookup in Hr as [i Hi]. destruct (Forall2_lookup_r _ _ _ _ _ Hrows Hi) as (line & Hline & E).
    exists line. apply list_elem_of_lookup_2, list_elem_of_In, filter_In in Hline as [Hin Hs].
    split; [by apply list_elem_of_In|]. done. }
  destruct (of_means_spec skip rows o n Hmeans) as (Hk & Hn & Hpos & Hv).
  { intros r Hr. destruct (Hrow r Hr) as (line & _ & _ & E). by apply (of_row_keys line). }
  split; [done|].
  apply (mul_cancel_r _ _ (of_int (Z.of_nat n))); [apply lit_nonzero; lia|].
  rewrite Hv by by_evaluation.
  transitivity (fsum five (λ k, mul (at_key o k) (of_int (Z.of_nat n)))).
  2: { cbn [five fsum foldr]. ring. }
  rewrite (fsum_ext five _ (λ k, mul (of_int 1000) (fsum (from_index skip rows) (λ r, at_key r k)))).
  2: { intros k Hin. apply Hv. unfold five in Hin. rewrite !elem_of_cons in Hin.
       destruct Hin as [->|[->|[->|[->|[->|[]%not_elem_of_nil]]]]]; by_evaluation. }
  rewrite fsum_scale. f_equal. rewrite fsum_swap. apply fsum_ext. intros r Hr.
  assert (r ∈ rows) as Hin. { unfold from_index in Hr. apply list_elem_of_lookup in Hr as [i Hi].
    rewrite lookup_drop in Hi. by eapply list_elem_of_lookup_2. }
  destruct (Hrow r Hin) as (line & Hline & Hs & E). by apply (Ho line r Hline Hs).
Qed.

(** C34: the blocks of phase_table.py add up.  In exact arithmetic, when each PHASE line of
    OpenFOAM's log has the sum of its five blocks as its total, and brae's report the sum
    of its four as theirs, the rows of the table do in both columns: momentum, energy,
    pressure, turbulence and the rest make the whole iteration, also with iterations
    skipped and with brae's wall time given or taken from the log. *)
Theorem blocks_add_up f a r :
  main to_float nan f a = Ok r →
  (∀ text line d, read_text f (a_of a) = Ok text → line ∈ lines text → starts "PHASE" line = true →
     of_row to_float line = Ok d →
     at_key d "total" = fsum five (at_key d)) →
  (∀ text m b, read_text f (a_brae a) = Ok text → search phase_re text 0 = Some m →
     groups to_float text m FOUR = Ok b → at_key b "four" = fsum (take 4 five) (at_key b)) →
  map k_name (t_blocks r) = map fst BLOCKS ∧ 0 < t_mean r ∧
  column k_of r 8 = fsum [0; 2; 4; 6; 7] (column k_of r) ∧
  column k_brae r 8 = fsum [0; 2; 4; 6; 7] (column k_brae r).
Proof.
  intros Hm Ho Hb. unfold main in Hm.
  apply bind_Ok in Hm as (skip & _ & (ms & _ & (ot & Hot & ([o n] & Hos & (bt & Hbt & ([b over] & Hbs & (l & Hl & [= <-])%bind_Ok)%bind_Ok)%bind_Ok)%bind_Ok)%bind_Ok)%bind_Ok).
  assert (∀ i nk, BLOCKS !! i = Some nk → _) as Hcol by (intros i nk; exact (column_spec o b l skip n over i nk Hl)).
  split.
  { cbn [t_blocks]. apply mapR_Ok in Hl. clear -Hl. induction Hl as [|nk k l' l Hk _ IH]; [done|]. cbn [map]. rewrite IH.
    f_equal. by apply bind_Ok in Hk as (x & _ & (y & _ & [= <-])%bind_Ok). }
  destruct (of_side_adds ot skip o n Hos (λ line d, Ho ot line d Hot)) as [Hpos Eo]. split; [done|].
  split.
  - rewrite (proj1 (Hcol 8 _ eq_refl)). cbn [snd]. rewrite Eo. cbn [five fsum foldr].
    by rewrite (proj1 (Hcol 0 _ eq_refl)), (proj1 (Hcol 2 _ eq_refl)), (proj1 (Hcol 4 _ eq_refl)),
      (proj1 (Hcol 6 _ eq_refl)), (proj1 (Hcol 7 _ eq_refl)).
  - rewrite (proj2 (Hcol 8 _ eq_refl)). cbn [snd fsum foldr].
    rewrite (proj2 (Hcol 0 _ eq_refl)), (proj2 (Hcol 2 _ eq_refl)), (proj2 (Hcol 4 _ eq_refl)),
      (proj2 (Hcol 6 _ eq_refl)), (proj2 (Hcol 7 _ eq_refl)). cbn [snd].
    destruct (brae_side_spec _ _ _ _ Hbs) as (Er & m & b1 & Hsm & Hg & Hk).
    assert (at_key b "four" = fsum (take 4 five) (at_key b)) as E4.
    { rewrite Hk, (Hb bt m b1 Hbt Hsm Hg) by by_evaluation. cbn [five take fsum foldr]. by rewrite !Hk by by_evaluation. }
    rewrite Er, E4. cbn [five take fsum foldr]. ring.
Qed.
End spec.
End PhasesSpec.
