(* ===== verification/ReportsWitness.v ===== *)
(** * The timing reports: the theorems on three logs

    Rational arithmetic, with numbers written as integers. *)
From Stdlib Require Import QArith Qcanon.
From S2P Require Import PrecondSums ReportsProofs.

Module ReportsWitness.
Import Sums Text Parts PartsSpec.
Open Scope nat_scope.

Definition q (z : Z) : Qc := lit z 0.
Definition read_int (s : str) : res Qc := q <$> Amg.int_of_str s.

(** A log of OpenFOAM with the clocks of eight steps, and brae's tables of two runs. *)
Definition timed (i : Z) : str :=
  ("TIMED " : str) ++ dec i ++ flat_map (λ k, (" " : str) ++ k ++ (" " : str) ++ dec (3 + 2 * i)) PARTS ++ [nl].
Definition of_log : str := flat_map timed [1; 2; 3; 4; 5; 6; 7; 8]%Z.
Definition phases (n a b : Z) : str :=
  ("  phase time over " : str) ++ dec n ++ (" steps (sync):" : str) ++ [nl]
  ++ ("    1 alpha step          " : str) ++ dec a ++ (" ms/step  60%" : str) ++ [nl]
  ++ ("    9 write               " : str) ++ dec b ++ (" ms/step  40%" : str) ++ [nl]
  ++ ("    ALL PHASES            " : str) ++ dec (a + b) ++ (" ms/step" : str) ++ [nl]
  ++ ("  inside those phases:" : str) ++ [nl]
  ++ ("    alpha: a corrector    " : str) ++ dec a ++ (" ms/step" : str) ++ [nl].
Definition phase_log : str :=
  ("PHASE UEqn 3 (solve 1) EEqn 2 (solve 1) pEqn 4 (solve 3) turbulence 5 rest 6 total 20" : str) ++ [nl]
  ++ ("ExecutionTime = 1 s" : str) ++ [nl]
  ++ ("PHASE UEqn 1 (solve 1) EEqn 1 (solve 1) pEqn 1 (solve 1) turbulence 1 rest 1 total 5" : str) ++ [nl].
Definition brae_log : str :=
  ("[phase] over 10 iterations: UEqn 1 s (100 ms/it), EEqn 1 s (50 ms/it), pEqn 1 s (25 ms/it), turbulence 1 s (5 ms/it); the four total 2 s (180 ms/it)" : str)
  ++ [nl] ++ ("  [phase] of which the linear solves: U 1 s (1 ms/it), he 2 s (2 ms/it), p 3 s (3 ms/it)" : str) ++ [nl]
  ++ ("ExecutionTime = 4 s" : str) ++ [nl].
Definition logs : fs := {|
  root := Dir [("home" : str, Dir [("ghost" : str, Dir [("cudafoam" : str, Dir [("runs" : str, Dir [("bench" : str,
    Dir [("parts" : str, Dir
      [("p_d_of1" : str, Dir [("log.of" : str, File of_log 0 false)]);
       ("p_d_brae_full" : str, Dir [("log.brae" : str, File (phases 4 10 6) 0 false)]);
       ("p_d_brae_half" : str, Dir [("log.brae" : str, File (phases 2 12 6) 0 false)])])])])])])]);
    ("of" : str, File phase_log 0 false); ("brae" : str, File brae_log 0 false)];
  real := normpath |}.

#[export] Instance Qc_eqdec : EqDecision Qc := Qc_eq_dec.

(** Four steps at 10 and two at 12: a start of 8 and 8 a step. *)
Definition start (k : str) : Qc := if starts "1" k then q 8 else if starts "ALL" k then q 8 else q 0.
Definition cost (k : str) : Qc := if starts "1" k then q 8 else if starts "9" k then q 6 else q 14.
Definition full_table : list (str * Qc) := [("1 alpha step" : str, q 10); ("9 write" : str, q 6); ("ALL PHASES" : str, q 16)].
Definition half_table : list (str * Qc) := [("1 alpha step" : str, q 12); ("9 write" : str, q 6); ("ALL PHASES" : str, q 18)].
Definition nested v : list (str * Qc) := [("alpha: a corrector" : str, q v)].

Lemma full_read : brae_table read_int logs "d" "full" = Ok (Some full_table, 4%Z, nested 10).
Proof. vm_compute. reflexivity. Qed.
Lemma half_read : brae_table read_int logs "d" "half" = Ok (Some half_table, 2%Z, nested 12).
Proof. vm_compute. reflexivity. Qed.

Lemma parts_column_witness :
  ∃ bp nest note, brae_parts read_int logs "d" = Ok (Some bp, nest, note) ∧ ∀ k v, (k, v) ∈ bp → v = cost k.
Proof.
  destruct (parts_column read_int logs "d" _ _ 4 _ _ _ 2 _ start cost full_read half_read ltac:(lia)) as (bp & nest & note & E & _ & Hc & _).
  - intros k v Hin. rewrite !elem_of_cons in Hin.
    destruct Hin as [[= -> ->]|[[= -> ->]|[[= -> ->]|[]%not_elem_of_nil]]]; split; apply Qc_is_canon; vm_compute; reflexivity.
  - exists bp, nest, note. exact (conj E Hc).
Defined.

Definition of_column : list (str * Qc) :=
  match of_parts read_int logs "d" 2 "of1" with Ok (Some d) => d | _ => [] end.
Lemma of_column_read : of_parts read_int logs "d" 2 "of1" = Ok (Some of_column).
Proof.
  assert (match of_parts read_int logs "d" 2 "of1" with Ok (Some _) => true | _ => false end = true) as E
    by (vm_compute; reflexivity).
  unfold of_column. by destruct (of_parts read_int logs "d" 2 "of1") as [[d|]|].
Qed.
Lemma of_parts_mean_witness :
  of_parts read_int logs "d" 2 "of1" = Ok (Some of_column) ∧
  ∃ last, map fst of_column = PARTS ∧ (2 + 5 ≤ last)%Z.
Proof.
  split; [exact of_column_read|].
  destruct (of_parts_mean read_int logs "d" 2 "of1" of_column of_column_read) as (text & rows & last & _ & _ & _ & Hl & Hk & _).
  exists last. exact (conj Hk Hl).
Defined.
Definition table_args : Phases.args := {| Phases.a_of := "/of"; Phases.a_brae := "/brae"; Phases.a_skip := None; Phases.a_ms := None |}.
Definition table_of : Phases.report Qc :=
  match Phases.main read_int (q 0) logs table_args with
  | Ok r => r
  | Raise _ => {| Phases.t_blocks := []; Phases.t_mean := 0; Phases.t_skip := 0; Phases.t_over := 0 |}
  end.
Lemma phases_read : Phases.main read_int (q 0) logs table_args = Ok table_of.
Proof.
  assert (match Phases.main read_int (q 0) logs table_args with Ok _ => true | _ => false end = true) as E
    by (vm_compute; reflexivity).
  unfold table_of. by destruct (Phases.main read_int (q 0) logs table_args).
Qed.
Lemma phase_log_read text : read_text logs "/of" = Ok text → text = phase_log.
Proof. intros E. assert (read_text logs "/of" = Ok phase_log) as E' by (vm_compute; reflexivity). congruence. Qed.
Lemma brae_log_read text : read_text logs "/brae" = Ok text → text = brae_log.
Proof. intros E. assert (read_text logs "/brae" = Ok brae_log) as E' by (vm_compute; reflexivity). congruence. Qed.

(** The totals of the log, line by line. *)
Definition adds (line : str) : bool :=
  match Phases.of_row read_int line with
  | Ok d => bool_decide (PhasesSpec.at_key d "total" = fsum PhasesSpec.five (PhasesSpec.at_key d))
  | Raise _ => true
  end.
Lemma log_adds : forallb adds (lines phase_log) = true.
Proof. vm_compute. reflexivity. Qed.

Definition four_adds : bool :=
  match search Phases.phase_re brae_log 0 with
  | Some m => match Phases.groups read_int brae_log m Phases.FOUR with
              | Ok b => bool_decide (PhasesSpec.at_key b "four" = fsum (take 4 PhasesSpec.five) (PhasesSpec.at_key b))
              | Raise _ => true
              end
  | None => true
  end.
Lemma log_four : four_adds = true.
Proof. vm_compute. reflexivity. Qed.
Lemma bool_decide_holds (P : Prop) `{Decision P} : bool_decide P = true → P.
Proof. apply bool_decide_eq_true. Qed.

Lemma blocks_add_up_witness :
  PhasesSpec.column Phases.k_of table_of 8 = fsum [0; 2; 4; 6; 7] (PhasesSpec.column Phases.k_of table_of) ∧
  PhasesSpec.column Phases.k_brae table_of 8 = fsum [0; 2; 4; 6; 7] (PhasesSpec.column Phases.k_brae table_of).
Proof.
  destruct (PhasesSpec.blocks_add_up read_int (q 0) logs table_args table_of phases_read) as (_ & _ & E).
  - intros text line d Ht Hin _ Ed. apply phase_log_read in Ht. rewrite Ht in Hin.
    pose proof log_adds as Ha. rewrite forallb_forall in Ha. specialize (Ha line (proj1 (list_elem_of_In _ _) Hin)).
    unfold adds in Ha. rewrite Ed in Ha. exact (bool_decide_holds _ Ha).
  - intros text m b Ht Hm Hg. apply brae_log_read in Ht. rewrite Ht in Hm, Hg. pose proof log_four as Ha.
    unfold four_adds in Ha. rewrite Hm, Hg in Ha. exact (bool_decide_holds _ Ha).
  - exact E.
Defined.
End ReportsWitness.
