(* ===== verification/Render.v ===== *)
(** * demo/f16/render.py: the cameras and the pictures of the F-16 film

    [Camera] fits a camera to points, [Film] chooses the cells, samples the times,
    lays the camera track and draws the pictures.  PyVista is a parameter: a dataset,
    what is read of it and what is computed on it. *)
From stdpp Require Import gmap.
From S2P Require Export NumPy Amg.

(** What the cameras use of NumPy beyond [NumOps]. *)
Class Trig (F : Type) := {
  cos : F → F; sin : F → F; tan : F → F; radians : F → F; pi : F;
  sqrt : F → F; cbrt : F → F; minimum : F → F → F;
}.

Module Camera.
Section camera.
Context {F : Type} `{NumOps F, !Trig F}.
Abbreviation vec := (list F).

(** A row of an array of points. *)
Record v3 := V3 { vx : F; vy : F; vz : F }.
Definition map3 (f : F → F) (a : v3) : v3 := V3 (f (vx a)) (f (vy a)) (f (vz a)).
Definition zip3 (f : F → F → F) (a b : v3) : v3 := V3 (f (vx a) (vx b)) (f (vy a) (vy b)) (f (vz a) (vz b)).
Definition add3 : v3 → v3 → v3 := zip3 add.
Definition sub3 : v3 → v3 → v3 := zip3 sub.
Definition scale3 (k : F) : v3 → v3 := map3 (mul k).
Definition neg3 : v3 → v3 := map3 neg.
Definition dot3 (a b : v3) : F := dot [vx a; vy a; vz a] [vx b; vy b; vz b].
Definition cross (a b : v3) : v3 :=
  V3 (sub (mul (vy a) (vz b)) (mul (vz a) (vy b))) (sub (mul (vz a) (vx b)) (mul (vx a) (vz b)))
     (sub (mul (vx a) (vy b)) (mul (vy a) (vx b))).
Definition norm3 (a : v3) : F := sqrt (dot3 a a).

Definition vmin (a : vec) : res F :=
  match a with [] => Raise ValueError | x :: a => Ok (fold_left minimum a x) end.
(** [pts.min(axis=0)], [pts.max(axis=0)] *)
Definition axes (reduce : vec → res F) (pts : list v3) : res v3 :=
  x ← reduce (map vx pts);
  y ← reduce (map vy pts);
  z ← reduce (map vz pts);
  Ok (V3 x y z).

Definition view_dir (az el : F) : v3 :=
  let a := radians az in
  let e := radians el in
  V3 (mul (cos e) (cos a)) (mul (cos e) (sin a)) (sin e).

(** What the camera looks at and how far from it it is. *)
Record shot := { focus : v3; distance : F }.

Definition right_of (fwd : v3) : v3 :=
  let right := cross fwd (V3 zero zero one) in
  let n := norm3 right in
  let '(axis, n) := if ltb n (lit 1 6) then (V3 one zero zero, one) else (right, n) in
  map3 (λ x, div x n) axis.
Definition bbox_centre (pts : list v3) : res v3 :=
  lo ← axes vmin pts;
  hi ← axes vmax pts;
  Ok (scale3 (lit 5 1) (add3 lo hi)).

(** One turn of the loop: the distance that has every point in the frame, then the
    focus moved to the middle of the picture. *)
Section turn.
Context (pts : list v3) (d right up : v3) (tv th pad : F).
Definition reach (c axis : v3) (t : F) : vec :=
  map (λ v, add (dot3 v d) (div (absf (dot3 v axis)) t)) (map (λ p, sub3 p c) pts).
Definition fit_distance (c : v3) : res F :=
  u ← vmax (reach c up tv);
  r ← vmax (reach c right th);
  Ok (mul (pmax u r) pad).
Definition screen (c axis : v3) (dist : F) : vec :=
  map (λ w, div (dot3 w axis) (maximum (dot3 w (neg3 d)) (lit 1 9)))
      (map (λ p, sub3 p (add3 c (scale3 dist d))) pts).
Definition shift (c axis : v3) (dist : F) : res v3 :=
  let l := screen c axis dist in
  hi ← vmax l;
  lo ← vmin l;
  Ok (scale3 (mul (mul (lit 5 1) (add hi lo)) dist) axis).
Definition turn (s : shot) : res shot :=
  dist ← fit_distance (focus s);
  u ← shift (focus s) up dist;
  r ← shift (focus s) right dist;
  Ok {| focus := add3 (add3 (focus s) u) r; distance := dist |}.
End turn.

Definition fit_camera (pts : list v3) (az el : F) (win : vec) (view_angle pad : F) (iters : nat) : res shot :=
  let d := view_dir az el in
  let fwd := neg3 d in
  let right := right_of fwd in
  let up := cross right fwd in
  let tv := tan (div (radians view_angle) (lit 2 0)) in
  w ← getitem win 0;
  h ← getitem win 1;
  ratio ← pydiv w h;
  let th := mul tv ratio in
  c ← bbox_centre pts;
  Amg.times iters (turn pts d right up tv th pad) {| focus := c; distance := one |}.
End camera.
Arguments v3 : clear implicits.
Arguments shot : clear implicits.
End Camera.

(** What the film uses of PyVista: the surface of the body and the cells as they are
    read, the filters, and the isosurfaces. *)
Class Vtk (F : Type) := {
  Grid : Type; Iso : Type;
  read : F → Grid;                                (* the internal mesh at a time *)
  body_points : F → list (Camera.v3 F);           (* the patch, extracted *)
  cell_centers : Grid → list (Camera.v3 F);
  volumes : Grid → list F;
  extract_cells : list nat → Grid → Grid;
  cell_data_to_point_data : Grid → Grid;
  vectors : str → Grid → list (Camera.v3 F); set_vectors : str → list (Camera.v3 F) → Grid → Grid;
  scalars : str → Grid → list F; set_scalars : str → list F → Grid → Grid;
  compute_derivative : str → Grid → Grid;         (* with qcriterion=True *)
  contour : F → str → Grid → Iso;
  smooth_iso : Iso → Iso;                         (* 12 turns, factor 0.1 *)
  n_cells : Iso → nat; points : Iso → list (Camera.v3 F); iso_scalars : str → Iso → list F;
}.
(** What it uses of NumPy besides. *)
Class Numeric (F : Type) := {
  nan_to_num : F → F;
  linspace : Z → Z → Z → res (list Z);            (* np.linspace(a, b, n).astype(int) *)
  interp : list Z → list Z → list F → res (list F);
  percentile : list F → Z → res F;
  show4 : F → str;                                (* f'{x:.4f}' *)
}.

Module Film.
Import Camera.
Section film.
Context {F : Type} `{NumOps F, !Trig F, !Vtk F, !Numeric F} (to_float : str → res F).
Abbreviation vec := (list F).

(** ** The environment; [BOX] and [WIN] as json.loads gives them *)
Record settings := {
  BOX : vec; CELL_L : F; QLEV : str; OPAC : option str; LABEL : option str; WIN : vec; NFIT : Z; AZ0 : F;
  ONLY : option str; K0 : option str; K1 : option str;
}.
(** The levels of Q with their opacities; what one list has more than the other is
    left out. *)
Definition LEVELS (s : settings) : res (list (F * F)) :=
  opac ← mapR to_float (split "," (default ("0.14,0.38,1.0" : str) (OPAC s)));
  mapR (λ vo : str * F, v ← to_float vo.1; Ok (v, vo.2)) (combine (split "," (QLEV s)) opac).

(** The angles of a view at a part of the film. *)
Definition VIEWS (az0 : F) : list (str * (F → F * F)) :=
  [("orbit" : str, λ f, (add az0 (mul (lit 360 0) f),
      add (lit 30 0) (mul (mul (sub (neg (lit 20 0)) (lit 30 0)) (lit 5 1))
        (sub one (cos (mul (mul (lit 2 0) pi) f))))));
   ("top" : str, λ _, (az0, lit 72 0));
   ("corner" : str, λ _, (az0, lit 22 0))].

(** ** The isosurfaces *)
Definition nan3 : v3 F → v3 F := map3 nan_to_num.
Definition build_iso (levels : list (F * F)) (mesh : Grid) : list (Iso * F) :=
  let ip := cell_data_to_point_data mesh in
  let ip := set_vectors "U" (map nan3 (vectors "U" ip)) ip in
  let g := compute_derivative "U" ip in
  let g := set_scalars "Qc" (map nan_to_num (scalars "qcriterion" g)) g in
  let g := set_scalars "magU" (map (λ u, norm3 (nan3 u)) (vectors "U" g)) g in
  map (λ lo : F * F,
    let iso := contour lo.1 "Qc" g in
    (if 0 <? n_cells iso then smooth_iso iso else iso, lo.2)) levels.

(** ** The cells that are kept *)
Definition within (lo hi x : F) : bool := leb lo x && leb x hi.
Definition kept_cells (s : settings) (mesh : Grid) : res (list nat) :=
  box ← mapR (getitem (BOX s)) (seq 0 6);
  match box with
  | [x0; x1; y0; y1; z0; z1] =>
      let keep (cl : v3 F * F) := within x0 x1 (vx cl.1) && within y0 y1 (vy cl.1) && within z0 z1 (vz cl.1)
                                  && ltb (cbrt (absf cl.2)) (CELL_L s) in
      let cells := combine (cell_centers mesh) (volumes mesh) in
      Ok (List.filter (λ i, match cells !! i with Some c => keep c | None => false end) (seq 0 (length cells)))
  | _ => Raise IndexError
  end.

(** ** The times *)
Definition int_default (o : option str) (d : Z) : res Z :=
  match o with Some t => Amg.int_of_str t | None => Ok d end.
Definition range (a b : Z) : list Z := map (λ i, a + Z.of_nat i)%Z (seq 0 (Z.to_nat (b - a))).
(** The frames that are drawn: those asked for, or all from [K0] to [K1]. *)
Definition frames (s : settings) (n : nat) : res (list Z) :=
  k0 ← int_default (K0 s) 0;
  k1 ← int_default (K1 s) (Z.of_nat n - 1);
  match ONLY s with
  | Some ((_ :: _) as only) => mapR Amg.int_of_str (split "," only)
  | _ => Ok (range k0 (k1 + 1))
  end.
Definition frac (n : nat) (k : Z) : F := div (lit k 0) (lit (Z.max 1 (Z.of_nat n - 1)) 0).
Definition unique_ints (l : list Z) : list Z := sort_by Z.leb (remove_dups l).
(** The frames the cameras are fitted at. *)
Definition fit_frames (s : settings) (idx : list Z) : res (list Z) :=
  a ← get idx 0;
  b ← get idx (-1);
  l ← linspace a b (NFIT s);
  Ok (unique_ints l).

(** ** The camera track *)
Definition every {A} (k : nat) (l : list A) : list A :=
  omap (λ ix : nat * A, if ix.1 mod k =? 0 then Some ix.2 else None) (combine (seq 0 (length l)) l).
Definition limit_points (P : list (v3 F)) : list (v3 F) :=
  if (400000 <? Z.of_nat (length P))%Z then every (Z.to_nat (Z.of_nat (length P) / 400000 + 1)) P else P.
Definition drawn (isos : list (Iso * F)) : list (Iso * F) := List.filter (λ io, 0 <? n_cells io.1) isos.

(** What is fitted at one time: a shot for each view, and the speeds seen. *)
Section run.
Context (s : settings) (levels : list (F * F)) (ts : list F) (body : list (v3 F)) (ids : list nat).
Definition isos_at (k : Z) : res (list (Iso * F)) :=
  t ← get ts k; Ok (build_iso levels (extract_cells ids (read t))).
Definition fit_points (isos : list (Iso * F)) : list (v3 F) :=
  limit_points (body ++ concat (map (λ io, points io.1) (drawn isos))).
Definition fit_view (P : list (v3 F)) (j : Z) (view : str * (F → F * F)) : res (shot F) :=
  let '(az, el) := view.2 (frac (length ts) j) in
  fit_camera P az el (WIN s) (lit 30 0) (lit 106 2) 6.
Definition sample (j : Z) : res (list (shot F) * list vec) :=
  isos ← isos_at j;
  shots ← mapR (fit_view (fit_points isos) j) (VIEWS (AZ0 s));
  Ok (shots, map (λ io, iso_scalars "magU" io.1) (drawn isos)).

(** A track: the shots fitted, interpolated at every time. *)
Definition lay (fit_idx : list Z) (shots : list (shot F)) : res (list (shot F)) :=
  let allk := map Z.of_nat (seq 0 (length ts)) in
  match shots with
  | [] => Raise IndexError
  | _ =>
      x ← interp allk fit_idx (map (λ c, vx (focus c)) shots);
      y ← interp allk fit_idx (map (λ c, vy (focus c)) shots);
      z ← interp allk fit_idx (map (λ c, vz (focus c)) shots);
      d ← interp allk fit_idx (map distance shots);
      Ok (zip_with (λ c d, {| focus := c; distance := d |}) (zip_with (λ xy z, V3 xy.1 xy.2 z) (combine x y) z) d)
  end.
Definition track_of (fit_idx : list Z) (samples : list (list (shot F))) (v : nat) : res (list (shot F)) :=
  shots ← mapR (λ l, getitem l v) samples; lay fit_idx shots.

(** ** The pictures *)
Record picture := {
  path : str; position : v3 F; look_at : v3 F; view_up : v3 F;
  meshes : list (Iso * F); clim : F * F; caption : str;
}.
(** [f'{k:04d}'] *)
Definition pad4 (k : Z) : str :=
  if (k <? 0)%Z then ("-" : str) ++ replicate (3 - length (dec (- k))) "0"%char ++ dec (- k)
  else replicate (4 - length (dec k)) "0"%char ++ dec k.
Definition frame_path (name : str) (k : Z) : str :=
  ("frames_" : str) ++ name ++ ("/v" : str) ++ pad4 k ++ (".png" : str).
Definition draw_view (limits : F * F) (k : Z) (t : F) (isos : list (Iso * F))
    (view : (str * (F → F * F)) * list (shot F)) : res picture :=
  let '(az, el) := view.1.2 (frac (length ts) k) in
  c ← get view.2 k;
  Ok {| path := frame_path view.1.1 k; position := add3 (focus c) (scale3 (distance c) (view_dir az el));
        look_at := focus c; view_up := V3 zero zero one; meshes := drawn isos; clim := limits;
        caption := default [] (LABEL s) ++ ("   t=" : str) ++ show4 t ++ ("s" : str) |}.
Definition draw_time (limits : F * F) (tracks : list (list (shot F))) (k : Z) : res (list picture) :=
  t ← get ts k;
  isos ← isos_at k;
  mapR (draw_view limits k t isos) (combine (VIEWS (AZ0 s)) tracks).
End run.

Definition main (s : settings) (time_values : list F) : res (list picture) :=
  levels ← LEVELS s;
  let ts := sort_by leb time_values in
  last ← get ts (-1);
  let body := body_points last in
  ids ← kept_cells s (read last);
  idx ← frames s (length ts);
  fit_idx ← fit_frames s idx;
  samples ← mapR (sample s levels ts body ids) fit_idx;
  tracks ← mapR (track_of ts fit_idx (map fst samples)) (seq 0 (length (VIEWS (AZ0 s))));
  match concat (map snd samples) with
  | [] => Raise ValueError
  | vals =>
      lo ← percentile (concat vals) 2;
      hi ← percentile (concat vals) 98;
      pictures ← mapR (draw_time s levels ts ids (lo, hi) tracks) idx;
      Ok (concat pictures)
  end.
End film.
End Film.
