(* ===== verification/RenderCamera.v ===== *)
(** * demo/f16/render.py: what the camera sees

    Over the real numbers: the directions of a camera are orthonormal, the distance a
    turn fits has every point in the frame, and the turns end. *)
From Stdlib Require Import Reals Lra Psatz.
From stdpp Require Import gmap.
From S2P Require Export Render.

Module Seen.
Import Camera.
Open Scope R_scope.

(** ** The real numbers *)
#[export] Instance ROps : NumOps R := {|
  zero := 0; one := 1; add := Rplus; sub := Rminus; mul := Rmult; div := Rdiv; neg := Ropp; absf := Rabs;
  ltb := λ a b, if Rlt_dec a b then true else false; leb := λ a b, if Rle_dec a b then true else false;
  maximum := Rmax; lit := λ m e, IZR m / 10 ^ e; is_zero := λ a, if Req_dec_T a 0 then true else false;
  dot := λ a b, foldr Rplus 0 (zip_with Rmult a b); sum := foldr Rplus 0; printed := id |}.
#[export] Instance RTrig : Trig R := {|
  cos := Rtrigo_def.cos; sin := Rtrigo_def.sin; tan := Rtrigo1.tan; radians := λ x, x * PI / 180; pi := PI;
  sqrt := R_sqrt.sqrt; minimum := Rmin;
  cbrt := λ x, if Rlt_dec x 0 then - Rpower (- x) (1 / 3) else if Rlt_dec 0 x then Rpower x (1 / 3) else 0 |}.

Abbreviation v3 := (Camera.v3 R).
Implicit Types (p c d v w : v3) (s : shot R).

Lemma dot3_R (a b : v3) : dot3 a b = vx a * vx b + vy a * vy b + vz a * vz b.
Proof. unfold dot3. cbn. ring. Qed.
Lemma v3_eq (a b : v3) : vx a = vx b → vy a = vy b → vz a = vz b → a = b.
Proof. destruct a, b. cbn. by intros -> -> ->. Qed.
Ltac vectors := repeat match goal with a : Camera.v3 R |- _ => destruct a end;
  rewrite ?dot3_R in *; cbn [vx vy vz add3 sub3 scale3 neg3 zip3 map3 cross add sub mul div neg one zero ROps] in *.

(** ** Extremes *)
Lemma fold_Rmax (l : list R) x : (∀ y, y ∈ x :: l → y <= fold_left Rmax l x) ∧ fold_left Rmax l x ∈ x :: l.
Proof.
  revert x; induction l as [|z l IH]; intros x; cbn [fold_left].
  - split; [|left]. intros y ->%list_elem_of_singleton. lra.
  - destruct (IH (Rmax x z)) as [Hle Hin]. split.
    + intros y [->|[->|Hy]%elem_of_cons]%elem_of_cons.
      * eapply Rle_trans; [apply Rmax_l|]. apply Hle. left.
      * eapply Rle_trans; [apply Rmax_r|]. apply Hle. left.
      * apply Hle. by right.
    + apply elem_of_cons in Hin as [E|Hin]; [|by right; right].
      rewrite E. unfold Rmax. destruct (Rle_dec x z); [right; left | left].
Qed.
Lemma vmax_R (l : list R) : l ≠ [] → ∃ m, vmax l = Ok m ∧ m ∈ l ∧ ∀ y, y ∈ l → y <= m.
Proof. destruct l as [|x l]; [done|]. intros _. destruct (fold_Rmax l x). by eexists. Qed.
Lemma fold_Rmin (l : list R) x : (∀ y, y ∈ x :: l → fold_left Rmin l x <= y) ∧ fold_left Rmin l x ∈ x :: l.
Proof.
  revert x; induction l as [|z l IH]; intros x; cbn [fold_left].
  - split; [|left]. intros y ->%list_elem_of_singleton. lra.
  - destruct (IH (Rmin x z)) as [Hle Hin]. split.
    + intros y [->|[->|Hy]%elem_of_cons]%elem_of_cons.
      * eapply Rle_trans; [apply Hle; left|]. apply Rmin_l.
      * eapply Rle_trans; [apply Hle; left|]. apply Rmin_r.
      * apply Hle. by right.
    + apply elem_of_cons in Hin as [E|Hin]; [|by right; right].
      rewrite E. unfold Rmin. destruct (Rle_dec x z); [left | right; left].
Qed.
Lemma vmin_R (l : list R) : l ≠ [] → ∃ m, vmin l = Ok m ∧ m ∈ l ∧ ∀ y, y ∈ l → m <= y.
Proof. destruct l as [|x l]; [done|]. intros _. destruct (fold_Rmin l x). by eexists. Qed.

(** ** The directions of the camera *)
Record orthonormal d (right up : v3) : Prop := {
  d_unit : dot3 d d = 1; up_unit : dot3 up up = 1; right_unit : dot3 right right = 1;
  d_up : dot3 d up = 0; d_right : dot3 d right = 0; up_right : dot3 up right = 0;
}.
Lemma view_dir_unit az el : dot3 (view_dir az el) (view_dir az el) = 1.
Proof.
  rewrite dot3_R. unfold view_dir. cbn. set (a := az * PI / 180). set (e := el * PI / 180).
  pose proof (sin2_cos2 a) as Ha. pose proof (sin2_cos2 e) as He. unfold Rsqr in *. nra.
Qed.
Lemma right_of_R d :
  1 / 10 ^ 6 <= norm3 (cross (neg3 d) (V3 0 0 1)) →
  ∃ n, 0 < n ∧ n * n = vx d * vx d + vy d * vy d ∧ right_of (neg3 d) = V3 (- vy d / n) (vx d / n) 0.
Proof.
  intros Hm. unfold right_of. change (V3 zero zero one) with (V3 0 0 1). set (n := norm3 _) in *.
  assert (0 < n) as Hn by lra. exists n. split; [done|].
  assert (ltb n (lit 1 6) = false) as -> by (cbn [ltb lit ROps]; by destruct (Rlt_dec _ _); [lra|]).
  destruct d as [x y z]. split.
  - unfold n, norm3. cbn [sqrt RTrig]. rewrite R_sqrt.sqrt_sqrt, dot3_R by (rewrite dot3_R; cbn; nra). cbn. ring.
  - clearbody n. apply v3_eq; unfold cross; cbn; field; lra.
Qed.
Lemma camera_orthonormal d :
  dot3 d d = 1 → 1 / 10 ^ 6 <= norm3 (cross (neg3 d) (V3 0 0 1)) →
  orthonormal d (right_of (neg3 d)) (cross (right_of (neg3 d)) (neg3 d)).
Proof.
  intros Hd (n & Hn & E & ->)%right_of_R. destruct d as [x y z]. rewrite dot3_R in Hd. cbn in E, Hd.
  assert (n <> 0) as Hn0 by lra.
  assert (∀ k : R, k / n * n = k) as Hdiv by (intros; field; lra).
  assert (∃ a b, y = b * n ∧ x = a * n) as (a & b & -> & ->) by (exists (x / n), (y / n); split; field; lra).
  assert (a * a + b * b = 1) as Hab.
  { apply Rmult_eq_reg_r with (n * n); nra. }
  cbn [vx vy vz]. assert (- (b * n) / n = - b) as -> by (field; lra). assert (a * n / n = a) as -> by (field; lra).
  split; rewrite dot3_R; cbn; nra.
Qed.

(** ** One turn *)

(** The camera at [c + dist * d] that looks at [c] has the point in the picture. *)
Definition in_frame d (right up : v3) (tv th : R) c (dist : R) p : Prop :=
  let w := sub3 p (add3 c (scale3 dist d)) in
  Rabs (dot3 w up) <= tv * dot3 w (neg3 d) ∧ Rabs (dot3 w right) <= th * dot3 w (neg3 d).

Lemma pmax_R (a b : R) : a <= pmax a b ∧ b <= pmax a b.
Proof. unfold pmax. cbn [ltb ROps]. destruct (Rlt_dec a b); lra. Qed.
Lemma div_le (x t m : R) : 0 < t → x / t <= m → x <= t * m.
Proof. intros Ht Hm. apply (Rmult_le_compat_l t) in Hm; [|lra]. replace (t * (x / t)) with x in Hm by (field; lra). lra. Qed.
Lemma dot3_sub (a b c : v3) : dot3 (sub3 a b) c = dot3 a c - dot3 b c.
Proof. vectors. ring. Qed.
Lemma dot3_add (a b c : v3) : dot3 (add3 a b) c = dot3 a c + dot3 b c.
Proof. vectors. ring. Qed.
Lemma dot3_scale k (a b : v3) : dot3 (scale3 k a) b = k * dot3 a b.
Proof. vectors. ring. Qed.
Lemma dot3_neg (a b : v3) : dot3 a (neg3 b) = - dot3 a b.
Proof. vectors. ring. Qed.
Lemma dot3_comm (a b : v3) : dot3 a b = dot3 b a.
Proof. vectors. ring. Qed.
Lemma depth_of d p c dist : dot3 d d = 1 → dot3 (sub3 p (add3 c (scale3 dist d))) (neg3 d) = dist - dot3 (sub3 p c) d.
Proof. intros Hd. rewrite dot3_neg, !dot3_sub, dot3_add, dot3_scale, Hd. ring. Qed.
Lemma across d (axis : v3) p c dist :
  dot3 d axis = 0 → dot3 (sub3 p (add3 c (scale3 dist d))) axis = dot3 (sub3 p c) axis.
Proof. intros Hd. rewrite !dot3_sub, dot3_add, dot3_scale, Hd. ring. Qed.

Section turn.
Context (pts : list v3) (d right up : v3) (tv th pad : R).
Context (Hd : orthonormal d right up) (Htv : 0 < tv) (Hth : 0 < th) (Hpad : 1 <= pad).

Lemma reach_le c axis t m p :
  (∀ y, y ∈ reach pts d c axis t → y <= m) → p ∈ pts →
  dot3 (sub3 p c) d + Rabs (dot3 (sub3 p c) axis) / t <= m.
Proof.
  intros Hm Hp. apply Hm. unfold reach. rewrite map_map.
  apply list_elem_of_fmap. by exists p.
Qed.
Lemma fit_distance_spec c :
  (∃ p, p ∈ pts ∧ 0 <= dot3 (sub3 p c) d) →
  ∃ dist, fit_distance pts d right up tv th pad c = Ok dist ∧ 0 <= dist ∧
    ∀ p, p ∈ pts → in_frame d right up tv th c dist p.
Proof.
  intros (p0 & Hp0 & Hs0). unfold fit_distance.
  assert (∀ axis t, reach pts d c axis t ≠ []) as Hne.
  { intros axis t E%(f_equal length). unfold reach in E. rewrite !length_map in E. by destruct pts; [apply elem_of_nil in Hp0|]. }
  destruct (vmax_R (reach pts d c up tv) (Hne _ _)) as (u & -> & _ & Hu). cbn [mbind res_mbind].
  destruct (vmax_R (reach pts d c right th) (Hne _ _)) as (r & -> & _ & Hr). cbn [mbind res_mbind].
  destruct (pmax_R u r) as [Hmu Hmr]. cbn [mul ROps]. set (m := pmax u r) in *. eexists. split; [done|].
  assert (0 <= m) as Hm.
  { pose proof (reach_le _ _ _ _ _ Hu Hp0). assert (0 <= Rabs (dot3 (sub3 p0 c) up) / tv); [|lra].
    apply Rmult_le_pos; [apply Rabs_pos|]. by left; apply Rinv_0_lt_compat. }
  split; [nra|]. intros p Hp. unfold in_frame.
  rewrite depth_of by apply Hd. rewrite !across by apply Hd.
  pose proof (reach_le _ _ _ _ _ Hu Hp). pose proof (reach_le _ _ _ _ _ Hr Hp).
  assert (m <= m * pad) by nra. split; apply div_le; lra.
Qed.

Lemma shift_spec c axis t dist :
  0 < t → 0 <= dist → pts ≠ [] →
  (∀ p, p ∈ pts → let w := sub3 p (add3 c (scale3 dist d)) in Rabs (dot3 w axis) <= t * dot3 w (neg3 d)) →
  ∃ k, shift pts d c axis dist = Ok (scale3 k axis) ∧ Rabs k <= t * dist.
Proof.
  intros Ht Hdist Hne Hp. unfold shift. set (l := screen pts d c axis dist).
  assert (∀ y, y ∈ l → - t <= y <= t) as Hl.
  { unfold l, screen. rewrite map_map. intros y (p & -> & Hin)%list_elem_of_fmap. specialize (Hp p Hin). cbn zeta in Hp.
    cbn [maximum div ROps lit]. set (w := sub3 p _) in *. set (a := dot3 w axis) in *. set (b := dot3 w (neg3 d)) in *.
    pose proof (Rmax_l b (1 / 10 ^ 9)). pose proof (Rmax_r b (1 / 10 ^ 9)). set (m := Rmax b _) in *.
    assert (0 < m) by lra. assert (Rabs a <= t * m) as Ha by nra.
    assert (a = a / m * m) as Ea by (field; lra). set (y := a / m) in *.
    assert (- (t * m) <= a <= t * m) as Ha' by (unfold Rabs in Ha; destruct (Rcase_abs a); lra).
    rewrite Ea in Ha'. nra. }
  assert (l ≠ []) as Hl0 by (unfold l, screen; by destruct pts).
  destruct (vmax_R l Hl0) as (hi & -> & Hhi & _). destruct (vmin_R l Hl0) as (lo & -> & Hlo & _).
  cbn [mbind res_mbind]. eexists. split; [done|]. cbn [mul add lit ROps].
  apply Hl in Hhi, Hlo. apply Rabs_le. nra.
Qed.

(** A turn of the loop does not fail; from the old focus its distance has every point
    in the frame, and the focus moves across the view by less than a frame. *)
Lemma turn_spec s :
  (∃ p, p ∈ pts ∧ 0 <= dot3 (sub3 p (focus s)) d) →
  ∃ s' a b, turn pts d right up tv th pad s = Ok s' ∧ 0 <= distance s' ∧
    (∀ p, p ∈ pts → in_frame d right up tv th (focus s) (distance s') p) ∧
    focus s' = add3 (add3 (focus s) (scale3 a up)) (scale3 b right) ∧
    Rabs a <= tv * distance s' ∧ Rabs b <= th * distance s'.
Proof.
  intros Hp. destruct (fit_distance_spec (focus s) Hp) as (dist & E & Hdist & Hin). unfold turn.
  rewrite E. cbn [mbind res_mbind].
  assert (pts ≠ []) as Hne by (destruct Hp as (p & Hp & _); by destruct pts; [apply elem_of_nil in Hp|]).
  destruct (shift_spec (focus s) up tv dist Htv Hdist Hne) as (a & -> & Ha); [intros p Hpp; apply Hin, Hpp|].
  destruct (shift_spec (focus s) right th dist Hth Hdist Hne) as (b & -> & Hb); [intros p Hpp; apply Hin, Hpp|].
  cbn [mbind res_mbind]. eexists _, a, b. split; [done|]. done.
Qed.
Lemma turn_depth s s' a b :
  focus s' = add3 (add3 (focus s) (scale3 a up)) (scale3 b right) →
  ∀ p, dot3 (sub3 p (focus s')) d = dot3 (sub3 p (focus s)) d.
Proof.
  intros -> p. rewrite !dot3_sub, !dot3_add, !dot3_scale, (dot3_comm up), (dot3_comm right),
    (d_up _ _ _ Hd), (d_right _ _ _ Hd). ring.
Qed.
Lemma turns_spec n s :
  (∃ p, p ∈ pts ∧ 0 <= dot3 (sub3 p (focus s)) d) →
  ∃ c s' a b, Amg.times (S n) (turn pts d right up tv th pad) s = Ok s' ∧ 0 <= distance s' ∧
    (∀ p, p ∈ pts → in_frame d right up tv th c (distance s') p) ∧
    focus s' = add3 (add3 c (scale3 a up)) (scale3 b right) ∧
    Rabs a <= tv * distance s' ∧ Rabs b <= th * distance s'.
Proof.
  revert s; induction n as [|n IH]; intros s Hp; destruct (turn_spec s Hp) as (s' & a & b & E & H1 & H2 & H3 & H4).
  - exists (focus s), s', a, b. cbn [Amg.times]. by rewrite E.
  - change (Amg.times (S (S n)) ?f s) with (s ← f s; Amg.times (S n) f s). rewrite E. cbn [mbind res_mbind].
    apply IH. destruct Hp as (p & Hp & Hs). exists p. split; [done|]. by rewrite (turn_depth s s' a b).
Qed.
End turn.

(** ** Angles *)
Lemma PI_bound : 3 < PI ∧ PI < 3.5.
Proof.
  pose proof PI2_3_2. split; [lra|]. destruct (PI_ineq 1) as [_ Hu].
  unfold tg_alt, PI_tg in Hu. cbn in Hu. lra.
Qed.
Lemma sin_small y : -1 <= y <= 1 → Rtrigo_def.sin y * Rtrigo_def.sin y <= y * y.
Proof.
  pose proof PI_bound. assert (∀ z, 0 <= z <= 1 → Rtrigo_def.sin z * Rtrigo_def.sin z <= z * z) as Hpos.
  { intros z [[Hz|<-] Hz1]; [|rewrite sin_0; lra]. pose proof (sin_lt_x z Hz). pose proof (sin_ge_0 z). nra. }
  intros Hy. destruct (Rle_dec 0 y); [apply Hpos; lra|].
  specialize (Hpos (- y)). rewrite sin_neg in Hpos. nra.
Qed.
Lemma cos_lower x : -2 <= x <= 2 → 1 - x * x / 2 <= Rtrigo_def.cos x.
Proof.
  intros Hx. replace x with (2 * (x / 2)) at 3 by field. rewrite cos_2a_sin.
  pose proof (sin_small (x / 2)). nra.
Qed.

(** The views do not look straight up or down. *)
Lemma upright az el : -72 <= el <= 72 → 1 / 10 ^ 6 <= norm3 (cross (neg3 (view_dir az el)) (V3 0 0 1)).
Proof.
  intros Hel. unfold norm3. rewrite dot3_R. unfold view_dir. cbn [vx vy vz cross neg3 map3 sub mul neg cos sin radians sqrt ROps RTrig].
  set (a := az * PI / 180). set (e := el * PI / 180).
  assert (0.01 <= Rtrigo_def.cos e) as He.
  { pose proof PI_bound. assert (-1.4 <= e <= 1.4) by (unfold e; nra). pose proof (cos_lower e). nra. }
  set (k := Rtrigo_def.cos e) in *. pose proof (sin2_cos2 a) as Ha. unfold Rsqr in Ha.
  match goal with |- _ <= R_sqrt.sqrt ?x => replace x with (k * k) end.
  - rewrite sqrt_square; lra.
  - match goal with |- _ = ?x => transitivity (k * k * (Rtrigo_def.sin a * Rtrigo_def.sin a + Rtrigo_def.cos a * Rtrigo_def.cos a)) end.
    + rewrite Ha. ring.
    + ring.
Qed.
Lemma half_angle va : 0 < va < 180 → 0 < Rtrigo1.tan (va * PI / 180 / (2 / 10 ^ 0)).
Proof. intros Hva. pose proof PI_bound. apply tan_gt_0; cbn; nra. Qed.

(** ** The camera *)
Lemma bbox_total (pts : list v3) : pts ≠ [] → ∃ c, bbox_centre pts = Ok c.
Proof.
  intros Hne. assert (∀ f : v3 → R, map f pts ≠ []) as Hm by (by destruct pts).
  assert (∀ reduce : list R → res R, (∀ l, l ≠ [] → ∃ m, reduce l = Ok m) → ∃ a, axes reduce pts = Ok a) as Hax.
  { intros reduce Hr. unfold axes. destruct (Hr _ (Hm vx)) as [x ->], (Hr _ (Hm vy)) as [y ->], (Hr _ (Hm vz)) as [z ->].
    by eexists. }
  unfold bbox_centre. destruct (Hax vmin) as [lo ->]; [intros l Hl; destruct (vmin_R l Hl) as (m & E & _); by exists m|].
  destruct (Hax vmax) as [hi ->]; [intros l Hl; destruct (vmax_R l Hl) as (m & E & _); by exists m|]. by eexists.
Qed.

(** The camera that looks along [- view_dir az el] and is [dist] away from [c] has the
    point in its picture, [tv] and [th] being the tangents of the half-angles. *)
Definition camera_sees (az el tv th : R) c (dist : R) p : Prop :=
  in_frame (view_dir az el) (right_of (neg3 (view_dir az el)))
    (cross (right_of (neg3 (view_dir az el))) (neg3 (view_dir az el))) tv th c dist p.
(** The shot is at [c], moved across the view by less than a frame. *)
Definition moved_from (az el tv th : R) c s : Prop :=
  ∃ a b, focus s = add3 (add3 c (scale3 a (cross (right_of (neg3 (view_dir az el))) (neg3 (view_dir az el)))))
                        (scale3 b (right_of (neg3 (view_dir az el)))) ∧
    Rabs a <= tv * distance s ∧ Rabs b <= th * distance s.
Definition half (va : R) : R := Rtrigo1.tan (va * PI / 180 / (2 / 10 ^ 0)).

Lemma fit_camera_frames (pts : list v3) (az el w h va pad : R) n centre :
  -72 <= el <= 72 → 0 < w → 0 < h → 0 < va < 180 → 1 <= pad →
  bbox_centre pts = Ok centre → (∃ p, p ∈ pts ∧ 0 <= dot3 (sub3 p centre) (view_dir az el)) →
  ∃ c s, fit_camera pts az el [w; h] va pad (S n) = Ok s ∧ 0 <= distance s ∧
    (∀ p, p ∈ pts → camera_sees az el (half va) (half va * (w / h)) c (distance s) p) ∧
    moved_from az el (half va) (half va * (w / h)) c s.
Proof.
  intros Hel Hw Hh Hva Hpad Hc Hp. unfold fit_camera. cbn [getitem lookup list_lookup from_opt mbind res_mbind].
  unfold pydiv. assert (is_zero h = false) as -> by (cbn; by destruct (Req_dec_T h 0); [lra|]).
  cbn [mbind res_mbind]. rewrite Hc. cbn [mbind res_mbind].
  assert (0 < w / h) by (apply Rdiv_lt_0_compat; lra). pose proof (half_angle va Hva) as Ht.
  destruct (turns_spec pts (view_dir az el) (right_of (neg3 (view_dir az el)))
    (cross (right_of (neg3 (view_dir az el))) (neg3 (view_dir az el))) (half va) (half va * (w / h)) pad) with
    (n := n) (s := {| focus := centre; distance := one |}) as (c & s & a & b & E & H1 & H2 & H3).
  - by apply camera_orthonormal; [apply view_dir_unit | apply upright].
  - done.
  - unfold half. nra.
  - done.
  - done.
  - exists c, s. split; [exact E|]. split; [done|]. split; [done|]. by exists a, b.
Qed.

(** ** Moved points *)
Lemma sub3_move (t p c : v3) : sub3 (add3 t p) (add3 t c) = sub3 p c.
Proof. apply v3_eq; vectors; ring. Qed.
Lemma add3_assoc (a b c : v3) : add3 (add3 a b) c = add3 a (add3 b c).
Proof. apply v3_eq; vectors; ring. Qed.
Lemma half_move (t a b : v3) : scale3 (lit 5 1) (add3 (add3 t a) (add3 t b)) = add3 t (scale3 (lit 5 1) (add3 a b)).
Proof. apply v3_eq; vectors; cbn [lit ROps]; field. Qed.
Section moved.
Context (t : v3).
Definition move s : shot R := {| focus := add3 t (focus s); distance := distance s |}.
Lemma reach_move pts d c axis k : reach (map (add3 t) pts) d (add3 t c) axis k = reach pts d c axis k.
Proof. unfold reach. rewrite !map_map. apply map_ext. intros p. by rewrite sub3_move. Qed.
Lemma screen_move pts d c axis dist : screen (map (add3 t) pts) d (add3 t c) axis dist = screen pts d c axis dist.
Proof. unfold screen. rewrite !map_map. apply map_ext. intros p. by rewrite add3_assoc, sub3_move. Qed.
Lemma turn_move pts d right up tv th pad s :
  turn (map (add3 t) pts) d right up tv th pad (move s) = s' ← turn pts d right up tv th pad s; Ok (move s').
Proof.
  unfold turn, fit_distance, shift. cbn [move focus]. rewrite !reach_move.
  destruct (vmax (reach pts d _ up tv)) as [u|]; [|done]. cbn [mbind res_mbind].
  destruct (vmax (reach pts d _ right th)) as [r|]; [|done]. cbn [mbind res_mbind]. rewrite !screen_move.
  destruct (vmax (screen _ _ _ up _)) as [hi|]; [|done]. cbn [mbind res_mbind].
  destruct (vmin (screen _ _ _ up _)) as [lo|]; [|done]. cbn [mbind res_mbind].
  destruct (vmax (screen _ _ _ right _)) as [hi'|]; [|done]. cbn [mbind res_mbind].
  destruct (vmin (screen _ _ _ right _)) as [lo'|]; [|done]. cbn [mbind res_mbind].
  unfold move. cbn [focus distance]. by rewrite !add3_assoc.
Qed.
Lemma turns_move pts d right up tv th pad n s :
  Amg.times n (turn (map (add3 t) pts) d right up tv th pad) (move s) =
  s' ← Amg.times n (turn pts d right up tv th pad) s; Ok (move s').
Proof.
  revert s; induction n as [|n IH]; intros s; cbn [Amg.times]; [done|]. rewrite turn_move.
  destruct (turn pts d right up tv th pad s) as [s1|]; [|done]. cbn [mbind res_mbind]. apply IH.
Qed.
Lemma extreme_move (f : R → R → R) k (l : list R) x :
  (∀ a b, f (k + a) (k + b) = k + f a b) → fold_left f (map (Rplus k) l) (k + x) = k + fold_left f l x.
Proof. intros Hf. revert x; induction l as [|y l IH]; intros x; cbn [fold_left map]; [done|]. by rewrite Hf, IH. Qed.
Lemma axes_move (reduce : list R → res R) pts :
  (∀ k l, reduce (map (Rplus k) l) = m ← reduce l; Ok (k + m)) →
  axes reduce (map (add3 t) pts) = a ← axes reduce pts; Ok (add3 t a).
Proof.
  intros Hr. unfold axes. rewrite !map_map.
  assert (∀ f : v3 → R, (∀ p, f (add3 t p) = f t + f p) →
    reduce (map (λ p, f (add3 t p)) pts) = m ← reduce (map f pts); Ok (f t + m)) as Hf.
  { intros f Hf. rewrite <- Hr, map_map. f_equal. apply map_ext, Hf. }
  rewrite !Hf by done. destruct (reduce (map vx pts)); [|done]. cbn [mbind res_mbind].
  destruct (reduce (map vy pts)); [|done]. cbn [mbind res_mbind]. by destruct (reduce (map vz pts)).
Qed.
Lemma bbox_move pts : bbox_centre (map (add3 t) pts) = c ← bbox_centre pts; Ok (add3 t c).
Proof.
  unfold bbox_centre. rewrite !axes_move.
  - destruct (axes vmin pts) as [lo|]; [|done]. cbn [mbind res_mbind]. destruct (axes vmax pts) as [hi|]; [|done].
    cbn [mbind res_mbind]. by rewrite half_move.
  - intros k [|x l]; [done|]. change (Ok (fold_left Rmin (map (Rplus k) l) (k + x)) = Ok (k + fold_left Rmin l x)).
    f_equal. apply extreme_move.
    intros a b. unfold Rmin. destruct (Rle_dec (k + a) (k + b)), (Rle_dec a b); lra.
  - intros k [|x l]; [done|]. change (Ok (fold_left Rmax (map (Rplus k) l) (k + x)) = Ok (k + fold_left Rmax l x)).
    f_equal. apply extreme_move.
    intros a b. unfold Rmax. destruct (Rle_dec (k + a) (k + b)), (Rle_dec a b); lra.
Qed.
End moved.

(** C40: the shot follows the points.  Over the real numbers, on points that are all moved by
    the same vector [fit_camera] gives the same distance and the focus moved by that
    vector, and raises exactly when it does on the points as they were. *)
Theorem fit_camera_moved (t : v3) (pts : list v3) (az el : R) (win : list R) (va pad : R) n :
  fit_camera (map (add3 t) pts) az el win va pad n = s ← fit_camera pts az el win va pad n; Ok (move t s).
Proof.
  unfold fit_camera. destruct (getitem win 0) as [w|]; [|done]. cbn [mbind res_mbind].
  destruct (getitem win 1) as [h|]; [|done]. cbn [mbind res_mbind]. destruct (pydiv w h) as [ratio|]; [|done].
  cbn [mbind res_mbind]. rewrite bbox_move. destruct (bbox_centre pts) as [c|]; [|done]. cbn [mbind res_mbind].
  rewrite <- turns_move. done.
Qed.
End Seen.
