(* ===== verification/RenderProofs.v ===== *)
(** * demo/f16/render.py: the pictures of the film

    Every frame that is asked for is drawn once in each view, under a name of its own;
    at a frame the cameras were fitted at, the picture has the fitted camera; and the
    views of the film see what they are fitted to. *)
From Stdlib Require Import Reals Lra.
From stdpp Require Import gmap.
From S2P Require Export RenderCamera ReplayLoad.

Module Pictures.
Import Camera Film.

(** ** The names of the pictures *)
Lemma int_of_zeros n u (neg : bool) :
  0 < Load.nb u →
  Amg.int_of_str ((if neg then ("-" : str) else ([] : str)) ++ replicate n "0"%char ++ Load.utext u)
  = Ok (if neg then - Z.of_N (Load.value_acc 0 u) else Z.of_N (Load.value_acc 0 u))%Z.
Proof.
  intros Hu. assert (∃ u', replicate n "0"%char ++ Load.utext u = Load.utext u' ∧
    Load.value_acc 0 u' = Load.value_acc 0 u ∧ 0 < Load.nb u') as (u' & -> & <- & Hn).
  { induction n as [|n (u' & E & Hv & Hn)]; [by exists u|]. exists (Decimal.D0 u'). cbn [replicate app]. rewrite E.
    split; [done|]. split; [exact Hv | cbn; lia]. }
  unfold Amg.int_of_str. pose proof (Load.utext_digits u') as Hd.
  assert (Forall (λ c, is_space c = false) (Load.utext u')) as Hs
    by (eapply Forall_impl; [exact Hd | exact Load.digit_not_space]).
  destruct neg; cbn [app].
  - change (("-" : str) ++ Load.utext u') with ("-"%char :: Load.utext u').
    rewrite Load.strip_id by (by constructor). cbn [take_sign]. rewrite Load.digits_go_utext.
    by destruct (0 + Load.nb u') eqn:E; [lia|].
  - rewrite Load.strip_id, Load.take_sign_utext, Load.digits_go_utext by done.
    by destruct (0 + Load.nb u') eqn:E; [lia|].
Qed.
Lemma dec_text k : (0 ≤ k)%Z → ∃ u, dec k = Load.utext u ∧ Z.of_N (Load.value_acc 0 u) = k ∧ 0 < Load.nb u.
Proof.
  intros Hk. unfold dec. destruct (Z.to_int k) as [d|d] eqn:E.
  - destruct (Load.ztext_cases d) as (u & Hu & Hv & Hn). exists u. split; [exact Hu|]. split; [|done].
    rewrite Hv. transitivity (Z.of_int (Z.to_int k)); [by rewrite E | apply DecimalZ.of_to].
  - exfalso. destruct k; cbn in E; [done|done|lia].
Qed.
Lemma int_of_pad4 k : Amg.int_of_str (pad4 k) = Ok k.
Proof.
  unfold pad4. destruct (Z.ltb_spec k 0).
  - destruct (dec_text (- k)) as (u & -> & Hv & Hn); [lia|]. etransitivity; [exact (int_of_zeros _ u true Hn) | f_equal; lia].
  - destruct (dec_text k) as (u & -> & Hv & Hn); [lia|]. etransitivity; [exact (int_of_zeros _ u false Hn) | by f_equal].
Qed.
Lemma pad4_inj k k' : pad4 k = pad4 k' → k = k'.
Proof. intros E. pose proof (int_of_pad4 k) as H. rewrite E, int_of_pad4 in H. by injection H. Qed.

Definition VIEW_NAMES : list str := ["orbit" : str; "top" : str; "corner" : str].
Lemma frame_path_inj n n' k k' :
  n ∈ VIEW_NAMES → n' ∈ VIEW_NAMES → frame_path n k = frame_path n' k' → n = n' ∧ k = k'.
Proof.
  intros Hn Hn' E. unfold frame_path in E. apply app_inv_head in E.
  assert (n = n') as <-.
  { unfold VIEW_NAMES in Hn, Hn'. rewrite !elem_of_cons, elem_of_nil in Hn, Hn'.
    destruct Hn as [->|[->|[->|[]]]], Hn' as [->|[->|[->|[]]]]; done. }
  apply app_inv_head, app_inv_head, app_inv_tail, pad4_inj in E. done.
Qed.
Lemma paths_NoDup idx : NoDup idx → NoDup (flat_map (λ k, map (λ n, frame_path n k) VIEW_NAMES) idx).
Proof.
  assert (∀ k l, NoDup l → l ⊆ VIEW_NAMES → NoDup (map (λ n, frame_path n k) l)) as Hone.
  { intros k l. induction 1 as [|n l Hn _ IH]; intros Hl; cbn [map]; constructor; [|apply IH; set_solver].
    intros (n' & E & Hin)%list_elem_of_fmap. destruct (frame_path_inj n n' k k) as [-> _]; [set_solver|set_solver|done|done]. }
  induction 1 as [|k idx Hk _ IH]; cbn [flat_map]; [constructor|]. apply NoDup_app. split; [|split; [|done]].
  - apply Hone; [|done]. apply (bool_decide_unpack _). vm_compute. exact I.
  - intros p (n & -> & Hn)%list_elem_of_fmap Hp. apply list_elem_of_In, in_flat_map in Hp as (k' & Hk' & Hp).
    apply list_elem_of_In, list_elem_of_fmap in Hp as (n' & E & Hn'). apply list_elem_of_In in Hk'.
    by destruct (frame_path_inj n n' k k' Hn Hn' E) as [_ ->].
Qed.

(** ** The frames the cameras are fitted at *)
Definition increasing (l : list Z) : Prop :=
  ∀ i j a b, i < j → l !! i = Some a → l !! j = Some b → (a < b)%Z.
Lemma sorted_increasing l : sorted_le Z.leb l → NoDup l → increasing l.
Proof.
  intros Hs; induction Hs as [|x l Hx _ IH]; intros Hnd i j a b Hij Hi Hj; [done|].
  apply NoDup_cons in Hnd as [Hn Hnd]. destruct j as [|j]; [lia|]. cbn in Hj. destruct i as [|i]; cbn in Hi.
  - injection Hi as <-. apply list_elem_of_lookup_2 in Hj. rewrite Forall_forall in Hx. specialize (Hx b Hj).
    apply Z.leb_le in Hx. assert (x ≠ b) by (by intros ->). lia.
  - apply (IH Hnd i j a b); [lia|done|done].
Qed.
Lemma unique_increasing l : increasing (unique_ints l).
Proof.
  apply sorted_increasing.
  - apply sort_by_sorted; intros *; rewrite !Z.leb_le; lia.
  - unfold unique_ints. rewrite sort_by_Permutation. apply NoDup_remove_dups.
Qed.

Section film.
Context {F : Type} `{NumOps F, !Trig F, !Vtk F, !Numeric F} (to_float : str → res F).

(** What is used of [np.interp]: there is a value for every abscissa, and at a sampled
    abscissa it is the sample. *)
Definition interp_samples : Prop := ∀ x xp (fp l : list F), interp x xp fp = Ok l →
  increasing xp → length fp = length xp →
  length l = length x ∧ ∀ a i k, x !! a = Some k → xp !! i = Some k → l !! a = fp !! i.

(** A run of [main], opened. *)
Record run_of (s : settings (F := F)) (tv : list F) (pics : list picture)
    (levels : list (F * F)) (body : list (v3 F)) (ids : list nat) (idx fit_idx : list Z)
    (samples : list (list (shot F) * list (list F))) (tracks : list (list (shot F))) (limits : F * F) : Prop := {
  run_frames : frames s (length tv) = Ok idx;
  run_fit : fit_frames s idx = Ok fit_idx;
  run_samples : mapR (sample s levels (sort_by leb tv) body ids) fit_idx = Ok samples;
  run_tracks : mapR (track_of (sort_by leb tv) fit_idx (map fst samples)) (seq 0 3) = Ok tracks;
  run_pictures : ∃ l, mapR (draw_time s levels (sort_by leb tv) ids limits tracks) idx = Ok l ∧ pics = concat l;
}.
Lemma main_run s tv pics :
  main to_float s tv = Ok pics →
  ∃ levels body ids idx fit_idx samples tracks limits, run_of s tv pics levels body ids idx fit_idx samples tracks limits.
Proof.
  unfold main. rewrite (Permutation_length (sort_by_Permutation leb tv)). intros (levels & _ & E)%bind_Ok.
  apply bind_Ok in E as (last & _ & E).
  apply bind_Ok in E as (ids & _ & E). apply bind_Ok in E as (idx & Hi & E). apply bind_Ok in E as (fit_idx & Hf & E).
  apply bind_Ok in E as (samples & Hs & E). apply bind_Ok in E as (tracks & Ht & E).
  destruct (concat (map snd samples)) as [|v vals]; [done|].
  apply bind_Ok in E as (lo & _ & E). apply bind_Ok in E as (hi & _ & E). apply bind_Ok in E as (l & Hl & [= <-]).
  exists levels, (body_points last), ids, idx, fit_idx, samples, tracks, (lo, hi). split; try done. by exists l.
Qed.

Lemma draw_view_Ok s ts limits k t isos view p :
  draw_view s ts limits k t isos view = Ok p →
  path p = frame_path view.1.1 k ∧ ∃ c, get view.2 k = Ok c ∧ look_at p = focus c ∧
    position p = add3 (focus c) (scale3 (distance c)
      (view_dir (view.1.2 (frac (length ts) k)).1 (view.1.2 (frac (length ts) k)).2)).
Proof.
  unfold draw_view. destruct (view.1.2 _) as [az el]. intros (c & Hc & [= <-])%bind_Ok. split; [done|]. by exists c.
Qed.
Lemma draw_time_Ok s levels ts ids limits tracks k l :
  draw_time s levels ts ids limits tracks k = Ok l →
  ∃ t isos, get ts k = Ok t ∧ isos_at levels ts ids k = Ok isos ∧
    Forall2 (λ v p, draw_view s ts limits k t isos v = Ok p) (combine (VIEWS (AZ0 s)) tracks) l.
Proof. unfold draw_time. intros (t & Ht & (isos & Hi & Hl%mapR_Ok)%bind_Ok)%bind_Ok. by exists t, isos. Qed.
Lemma three_tracks s (tracks : list (list (shot F))) :
  length tracks = 3 → map (λ v : (str * (F → F * F)) * list (shot F), v.1.1) (combine (VIEWS (AZ0 s)) tracks) = VIEW_NAMES.
Proof. destruct tracks as [|a [|b [|c [|]]]]; done. Qed.

(** C39: the frames of the film.  When render.py ends it has written one picture for each
    frame that was asked for and each of the three views, in this order, each under the name of its
    view and frame; a list of frames without repetition overwrites none. *)
Theorem film_pictures s tv pics :
  main to_float s tv = Ok pics →
  ∃ idx, frames s (length tv) = Ok idx ∧
    map path pics = flat_map (λ k, map (λ n, frame_path n k) VIEW_NAMES) idx ∧
    (NoDup idx → NoDup (map path pics)).
Proof.
  intros (levels & body & ids & idx & fit_idx & samples & tracks & limits & [Hi _ _ Ht (l & Hl & ->)])%main_run.
  exists idx. split; [done|].
  assert (map path (concat l) = flat_map (λ k, map (λ n, frame_path n k) VIEW_NAMES) idx) as E.
  { apply mapR_Ok in Hl, Ht. pose proof (Forall2_length _ _ _ Ht) as H3. cbn in H3.
    clear Hi. induction Hl as [|k ps idx l Hk _ IH]; [done|]. cbn [concat flat_map]. rewrite map_app, IH. f_equal.
    apply draw_time_Ok in Hk as (t & isos & _ & _ & Hk). rewrite <- (three_tracks s tracks), map_map by done.
    clear -Hk. induction Hk as [|v p vs ps Hv _ IH]; [done|]. cbn [map]. rewrite IH. f_equal.
    by apply draw_view_Ok in Hv as [-> _]. }
  split; [done|]. intros Hnd. rewrite E. by apply paths_NoDup.
Qed.

(** ** The fitted cameras *)
Lemma lay_at (Hint : interp_samples) ts fit_idx shots l i k c :
  lay ts fit_idx shots = Ok l → increasing fit_idx → length shots = length fit_idx → k < length ts →
  fit_idx !! i = Some (Z.of_nat k) → shots !! i = Some c → l !! k = Some c.
Proof.
  intros E Hinc Hlen Hk Hi Hc. unfold lay in E. destruct shots as [|c0 shots0]; [done|].
  set (shots := c0 :: shots0) in *. set (allk := map Z.of_nat (seq 0 (length ts))) in *.
  assert (allk !! k = Some (Z.of_nat k)) as Ha.
  { unfold allk. rewrite list_lookup_fmap, lookup_seq_lt by done. done. }
  assert (∀ (f : shot F → F) l, interp allk fit_idx (map f shots) = Ok l → l !! k = Some (f c)) as Hf.
  { intros f l' E'. destruct (Hint _ _ _ _ E' Hinc) as [_ Hat]; [by rewrite length_map|].
    rewrite (Hat k i _ Ha Hi), list_lookup_fmap, Hc. done. }
  apply bind_Ok in E as (x & Hx & E). apply bind_Ok in E as (y & Hy & E). apply bind_Ok in E as (z & Hz & E).
  apply bind_Ok in E as (d & Hd & [= <-]). rewrite !lookup_zip_with.
  rewrite (Hf _ _ Hd), (Hf _ _ Hz).
  assert (combine x y !! k = Some (vx (focus c), vy (focus c))) as ->.
  { pose proof (Hf _ _ Hx) as H1. pose proof (Hf _ _ Hy) as H2. clear -H1 H2. revert y k H1 H2.
    induction x as [|a x IH]; intros [|b y] [|k]; try done; cbn; [by intros [= ->] [= ->] | apply IH]. }
  cbn. destruct c as [[] ?]. done.
Qed.
Lemma samples_view s levels ts body ids fit_idx samples v view :
  mapR (sample s levels ts body ids) fit_idx = Ok samples → VIEWS (AZ0 s) !! v = Some view →
  ∀ shots, mapR (λ l, getitem l v) (map fst samples) = Ok shots →
  length shots = length fit_idx ∧ ∀ i j, fit_idx !! i = Some j → ∃ isos c, isos_at levels ts ids j = Ok isos ∧
    shots !! i = Some c ∧ fit_view s ts (fit_points body isos) j view = Ok c.
Proof.
  intros Hs%mapR_Ok Hv shots Hsh%mapR_Ok. pose proof (Forall2_length _ _ _ Hs) as L1. pose proof (Forall2_length _ _ _ Hsh) as L2.
  rewrite length_map in L2. split; [congruence|]. intros i j Hj.
  destruct (Forall2_lookup_l _ _ _ _ _ Hs Hj) as ([cs vs] & Hcs & Hsample).
  unfold sample in Hsample. apply bind_Ok in Hsample as (isos & Hisos & (cs' & Hm%mapR_Ok & [= -> _])%bind_Ok).
  assert (map fst samples !! i = Some cs) as Hcs' by (by rewrite list_lookup_fmap, Hcs).
  destruct (Forall2_lookup_l _ _ _ _ _ Hsh Hcs') as (c & Hc & Hg%getitem_Ok).
  destruct (Forall2_lookup_l _ _ _ _ _ Hm Hv) as (c' & Hc' & Hfit). exists isos, c. split; [done|]. split; [done|].
  by rewrite Hg in Hc'; injection Hc' as <-.
Qed.

(** C38: the fitted camera.  With an interpolation that goes through its samples, a frame the
    cameras were fitted at is drawn, in each view, with the camera that [fit_camera]
    gives at the angles of that view and frame for the points of that frame: the body
    and the isosurfaces the picture shows. *)
Theorem film_sampled (Hint : interp_samples) s tv pics :
  main to_float s tv = Ok pics →
  ∃ levels body ids idx fit_idx, frames s (length tv) = Ok idx ∧ fit_frames s idx = Ok fit_idx ∧
    ∀ k view, Z.of_nat k ∈ idx → Z.of_nat k ∈ fit_idx → k < length tv → view ∈ VIEWS (AZ0 s) →
    ∃ p isos c, p ∈ pics ∧ path p = frame_path view.1 (Z.of_nat k) ∧
      isos_at levels (sort_by leb tv) ids (Z.of_nat k) = Ok isos ∧ meshes p = drawn isos ∧
      fit_view s (sort_by leb tv) (fit_points body isos) (Z.of_nat k) view = Ok c ∧ look_at p = focus c ∧
      position p = add3 (focus c) (scale3 (distance c)
        (view_dir (view.2 (frac (length tv) (Z.of_nat k))).1 (view.2 (frac (length tv) (Z.of_nat k))).2)).
Proof.
  intros (levels & body & ids & idx & fit_idx & samples & tracks & limits & [Hi Hf Hs Ht (l & Hl & ->)])%main_run.
  exists levels, body, ids, idx, fit_idx. split; [done|]. split; [done|].
  assert (increasing fit_idx) as Hinc.
  { unfold fit_frames in Hf. apply bind_Ok in Hf as (a & _ & (b & _ & (l' & _ & [= <-])%bind_Ok)%bind_Ok).
    apply unique_increasing. }
  pose proof (Permutation_length (sort_by_Permutation leb tv)) as Hlen. rewrite <- Hlen in *. set (ts := sort_by leb tv) in *.
  intros k view [a Ha]%list_elem_of_lookup_1 [i Hfi]%list_elem_of_lookup_1 Hk [v Hv]%list_elem_of_lookup_1.
  apply mapR_Ok in Hl, Ht. pose proof (Forall2_length _ _ _ Ht) as H3. cbn in H3.
  destruct (Forall2_lookup_l _ _ _ _ _ Hl Ha) as (ps & Hps & (t & isos & _ & Hisos & Hd)%draw_time_Ok).
  assert (v < 3) as Hv3 by (by apply lookup_lt_Some in Hv).
  destruct (Forall2_lookup_l _ _ _ v v Ht) as (track & Htr & Hlay); [by rewrite lookup_seq_lt|].
  unfold track_of in Hlay. apply bind_Ok in Hlay as (shots & Hshots & Hlay).
  destruct (samples_view s levels ts body ids fit_idx samples v view Hs Hv shots Hshots) as [Hsl Hat].
  destruct (Hat i _ Hfi) as (isos' & c & Hisos' & Hc & Hfit). rewrite Hisos in Hisos'. injection Hisos' as <-.
  pose proof (lay_at Hint ts fit_idx shots track i k c Hlay Hinc Hsl Hk Hfi Hc) as Hck.
  assert (combine (VIEWS (AZ0 s)) tracks !! v = Some (view, track)) as Hcv.
  { clear -Hv Htr. revert v tracks Hv Htr. induction (VIEWS (AZ0 s)) as [|w l IH]; intros [|v] [|u tracks]; try done; cbn;
      [by intros [= ->] [= ->] | apply IH]. }
  destruct (Forall2_lookup_l _ _ _ _ _ Hd Hcv) as (p & Hp & Hdraw).
  pose proof (draw_view_Ok _ _ _ _ _ _ _ _ Hdraw) as (Hpath & c' & Hc' & Hlook & Hpos). cbn [fst snd] in Hpath, Hc', Hpos.
  unfold get in Hc'. rewrite Aggregate.position_in in Hc' by (apply lookup_lt_Some in Hck; lia).
  cbn [mbind res_mbind] in Hc'. rewrite Nat2Z.id in Hc'. apply getitem_Ok in Hc'. rewrite Hck in Hc'. injection Hc' as <-.
  exists p, isos, c. split; [|split; [done|split; [done|split; [|done]]]].
  - apply list_elem_of_In, in_concat. exists ps. split; apply list_elem_of_In; by eapply list_elem_of_lookup_2.
  - unfold draw_view in Hdraw. cbn [fst snd] in Hdraw. destruct (view.2 _) as [az el]. by apply bind_Ok in Hdraw as (? & _ & [= <-]).
Qed.
End film.
End Pictures.

Module Views.
Import Camera Film Seen.
Open Scope R_scope.

Lemma views_elevation (az0 f : R) view : view ∈ VIEWS az0 → -72 <= (view.2 f).2 <= 72.
Proof.
  unfold VIEWS. rewrite !elem_of_cons, elem_of_nil. intros [->|[->|[->|[]]]]; cbn; [|lra|lra].
  pose proof (COS_bound (2 / 1 * PI * f)). nra.
Qed.

(** C37: the views see what they are fitted to.  Over the real numbers, for a window of
    positive sides and points of which one is not behind the middle of their box, the
    fit of each view at each frame succeeds.  The distance it gives has every point in
    the picture of the camera that is so far from some [c], at the opening of 30 degrees; the focus
    it gives is [c] moved across the view, by at most the half-height and the half-width
    of the frame at that distance. *)
Theorem views_see (s : settings (F := R)) (ts : list R) (P : list (Camera.v3 R)) j view (w h : R) centre :
  view ∈ VIEWS (AZ0 s) → WIN s = [w; h] → 0 < w → 0 < h → bbox_centre P = Ok centre →
  let az := (view.2 (frac (length ts) j)).1 in
  let el := (view.2 (frac (length ts) j)).2 in
  (∃ p, p ∈ P ∧ 0 <= dot3 (sub3 p centre) (view_dir az el)) →
  ∃ c shot, fit_view s ts P j view = Ok shot ∧ 0 <= distance shot ∧
    (∀ p, p ∈ P → camera_sees az el (half 30) (half 30 * (w / h)) c (distance shot) p) ∧
    moved_from az el (half 30) (half 30 * (w / h)) c shot.
Proof.
  intros Hv Hwin Hw Hh Hc az el Hp. unfold fit_view. rewrite Hwin.
  pose proof (views_elevation (AZ0 s) (frac (length ts) j) view Hv) as Hel. fold el in Hel. subst az el.
  destruct (view.2 _) as [az el]. cbn [fst snd] in Hp, Hel.
  replace (lit 30 0 : R) with 30 by (cbn; field).
  apply (fit_camera_frames P az el w h 30 (lit 106 2) 5 centre); try done; cbn; lra.
Qed.
End Views.

(** A body along the view that the fitted camera loses. *)
Module Clipped.
Import Camera.

(** IEEE doubles for the one camera that looks along the x axis: both angles are zero,
    their cosine is one and their sine zero; the tangent is that of 15 degrees; the only
    root that is taken is that of one. *)
#[export] Instance AlongX : Trig float := {|
  cos := λ _, one; sin := λ _, zero; tan := λ _, lit 2679491924311227 16; radians := λ x, x; pi := lit 3141592653589793 15;
  sqrt := λ x, x; cbrt := λ x, x; minimum := pmin |}.
Definition whole (z : Z) : float := lit z 0.
Definition nose : v3 float := V3 (whole 9) (whole 2) (whole 0).
Definition tail : v3 float := V3 (whole (-9)) (whole (-2)) (whole 0).
(** [p] is before the camera, and more than three half-widths off the middle of its picture. *)
Definition far_outside (s : shot float) (p : v3 float) : bool :=
  let w := sub3 p (add3 (focus s) (scale3 (distance s) (V3 one zero zero))) in
  let depth := neg (vx w) in
  ltb zero depth && ltb (mul (whole 3) (mul (mul (lit 2679491924311227 16) (div (whole 1500) (whole 860))) depth)) (absf (vy w)).

(** The shot is not refitted.  [fit_camera] moves the focus once more after it has
    fitted the distance: of a body of two points along the view, in the window and with
    the opening the film uses by default, the near point is outside the picture of the
    returned camera, more than three half-widths off its middle. *)
Theorem camera_misses :
  ∃ s, fit_camera [tail; nose] (whole 0) (whole 0) (map whole [1500; 860]%Z) (whole 30) (lit 106 2) 6 = Ok s ∧
    far_outside s nose = true.
Proof.
  set (r := fit_camera _ _ _ _ _ _ _).
  assert (match r with Ok s => far_outside s nose | Raise _ => false end = true) as E by (vm_compute; reflexivity).
  destruct r as [s|]; [|discriminate E]. by exists s.
Qed.
End Clipped.
