(* ===== verification/RenderWitness.v ===== *)
(** * demo/f16/render.py: the theorems at concrete inputs

    A thin body along the view and a film of three frames; and the shot that loses a
    point of the body. *)
From Stdlib Require Import Reals Lra QArith Qcanon.
From stdpp Require Import gmap.
From S2P Require Import RenderProofs Fixed.

Module RenderWitness.
Import Camera Film Pictures.
Open Scope nat_scope.

(** ** A film of three frames *)
Definition fx (z : Z) : fixed := (z * 10 ^ 10)%Z.
(** One direction of view, and the tangent of 15 degrees. *)
#[export] Instance FixedTrig : Trig fixed := {|
  cos := λ _, 6000000000%Z; sin := λ _, 8000000000%Z; tan := λ _, 2680000000%Z; radians := λ x, x; pi := fx 3;
  sqrt := λ x, Z.sqrt (x * 10 ^ 10)%Z; cbrt := λ x, x; minimum := Z.min |}.
Definition thin_body : list (Camera.v3 fixed) := [V3 (fx (-9)) (fx (-2)) (fx 0); V3 (fx 9) (fx 2) (fx 0)].
(** A dataset is the time it was read at; an isosurface is one point that moves. *)
#[export] Instance FixedVtk : Vtk fixed := {|
  Grid := fixed; Iso := list (Camera.v3 fixed); read := λ x, x; body_points := λ _, thin_body;
  cell_centers := λ _, [V3 (fx 1) (fx 1) (fx 1)]; volumes := λ _, [fx 1]; extract_cells := λ _ g, g;
  cell_data_to_point_data := λ x, x; vectors := λ _ _, []; set_vectors := λ _ _ g, g; scalars := λ _ _, [];
  set_scalars := λ _ _ g, g; compute_derivative := λ _ g, g; contour := λ _ _ g, [V3 g (fx 1) (fx 2)];
  smooth_iso := λ x, x; n_cells := length; points := λ x, x; iso_scalars := λ _ l, map vx l |}.
Definition sampled (xp : list Z) (fp : list fixed) (k : Z) : fixed :=
  match List.find (λ e, (e.1 =? k)%Z) (combine xp fp) with Some e => e.2 | None => zero end.
#[export] Instance FixedNumeric : Numeric fixed := {|
  nan_to_num := λ x, x;
  linspace := λ a b n, if (n <? 0)%Z then Raise ValueError
                       else Ok (map (λ i, a + Z.of_nat i * (b - a) ÷ Z.max 1 (n - 1))%Z (seq 0 (Z.to_nat n)));
  interp := λ x xp fp, Ok (map (sampled xp fp) x);
  percentile := λ l _, match l with [] => Raise IndexError | x :: _ => Ok x end; show4 := dec |}.
Lemma sampled_at xp fp i k :
  increasing xp → length fp = length xp → xp !! i = Some k → fp !! i = Some (sampled xp fp k).
Proof.
  intros Hinc Hl. assert (∀ i j, xp !! i = Some k → xp !! j = Some k → i = j) as Hinj.
  { intros a b Ha Hb. destruct (lt_eq_lt_dec a b) as [[Hlt| ->]|Hlt]; [|done|].
    - pose proof (Hinc a b k k Hlt Ha Hb). lia.
    - pose proof (Hinc b a k k Hlt Hb Ha). lia. }
  clear Hinc. unfold sampled. revert fp i Hl Hinj. induction xp as [|x xp IH]; intros [|f fp] i Hl Hinj Hi; try done.
  cbn [combine List.find fst]. destruct (Z.eqb_spec x k) as [->|Hne].
  - by rewrite (Hinj i 0 Hi eq_refl).
  - destruct i as [|i]; [by injection Hi|]. cbn. apply IH; [by injection Hl| |done].
    intros a b Ha Hb. by injection (Hinj (S a) (S b) Ha Hb).
Qed.
Lemma fixed_interp : interp_samples (F := fixed).
Proof.
  intros x xp fp l [= <-] Hinc Hl. split; [by rewrite length_map|]. intros a i k Ha Hi.
  rewrite list_lookup_fmap, Ha. cbn. symmetry. by apply sampled_at.
Qed.

Definition whole_number (s : str) : res fixed := z ← Amg.int_of_str s; Ok (fx z).
Definition film3 : settings (F := fixed) := {|
  BOX := map fx [0; 2; 0; 2; 0; 2]%Z; CELL_L := fx 3; QLEV := "5"; OPAC := Some ("1" : str); LABEL := None;
  WIN := map fx [1500; 860]%Z; NFIT := 2; AZ0 := fx (-125); ONLY := None; K0 := None; K1 := None |}.
Definition times3 : list fixed := map fx [2; 0; 1]%Z.
Definition ends (r : res (list (picture (F := fixed)))) : bool := match r with Ok _ => true | Raise _ => false end.
Lemma film3_ends : ends (main whole_number film3 times3) = true.
Proof. vm_compute. reflexivity. Qed.
Lemma film3_frames : frames film3 (length times3) = Ok [0; 1; 2]%Z.
Proof. reflexivity. Qed.
Lemma film3_fit : fit_frames film3 [0; 1; 2]%Z = Ok [0; 2]%Z.
Proof. reflexivity. Qed.

Lemma film_pictures_witness :
  ∃ pics, main whole_number film3 times3 = Ok pics ∧
    map path pics = flat_map (λ k, map (λ n, frame_path n k) VIEW_NAMES) [0; 1; 2]%Z ∧ NoDup (map path pics).
Proof.
  destruct (main whole_number film3 times3) as [pics|e] eqn:E.
  2: { pose proof film3_ends as H. rewrite E in H. discriminate H. }
  destruct (film_pictures whole_number film3 times3 pics E) as (idx & Hi & Hp & Hn).
  rewrite film3_frames in Hi. injection Hi as <-. exists pics. split; [exact eq_refl|]. split; [exact Hp|].
  apply Hn. apply (bool_decide_unpack _). vm_compute. exact I.
Defined.
(** Every isosurface of this dataset has a cell. *)
Lemma all_drawn levels (g : Grid (F := fixed)) : drawn (build_iso levels g) = build_iso levels g.
Proof. unfold build_iso. induction levels as [|[v o] l IH]; [reflexivity|]. cbn. f_equal. exact IH. Qed.
Lemma film_sampled_witness :
  ∃ pics p levels ids c, main whole_number film3 times3 = Ok pics ∧ p ∈ pics ∧ path p = frame_path "top" 2 ∧
    isos_at levels (sort_by leb times3) ids 2 = Ok (meshes p) ∧ look_at p = focus c.
Proof.
  destruct (main whole_number film3 times3) as [pics|e] eqn:E.
  2: { pose proof film3_ends as H. rewrite E in H. discriminate H. }
  destruct (film_sampled whole_number fixed_interp film3 times3 pics E) as (levels & body & ids & idx & fit_idx & Hi & Hf & Hat).
  rewrite film3_frames in Hi. injection Hi as <-. rewrite film3_fit in Hf. injection Hf as <-.
  destruct (Hat 2 (nth 1 (VIEWS (AZ0 film3)) ("" : str, λ _, (zero, zero)))) as (p & isos & c & Hp & Hpath & Hisos & Hm & _ & Hl & _).
  - right; right; left.
  - right; left.
  - cbn. lia.
  - right; left.
  - exists pics, p, levels, ids, c. split; [exact eq_refl|]. split; [exact Hp|]. split; [exact Hpath|]. split; [|exact Hl].
    rewrite Hm. change (isos_at levels (sort_by leb times3) ids (Z.of_nat 2) = Ok (drawn isos)). rewrite Hisos. f_equal.
    unfold isos_at in Hisos.
    apply bind_Ok in Hisos as (t & _ & Hisos). injection Hisos as <-. symmetry. apply all_drawn.
Defined.

(** ** The views of the thin body, over the real numbers *)
Section thin.
Import Seen.
Open Scope R_scope.
Definition thin : list (Camera.v3 R) := [V3 (-9) (-2) 0; V3 9 2 0].
Lemma thin_centre : bbox_centre thin = Ok (V3 0 0 0).
Proof.
  unfold bbox_centre, axes. cbn [map thin vmin vmax fold_left minimum maximum mbind res_mbind vx vy vz Seen.ROps Seen.RTrig].
  rewrite !Rmin_left, !Rmax_right by lra. cbn [mbind res_mbind]. f_equal. apply Seen.v3_eq; cbn; field.
Qed.
Definition film_R : settings (F := R) := {|
  BOX := []; CELL_L := 0; QLEV := []; OPAC := None; LABEL := None; WIN := [1500; 860]; NFIT := 10; AZ0 := -125;
  ONLY := None; K0 := None; K1 := None |}.
Lemma views_see_witness :
  ∃ c shot, fit_view film_R [0] thin 0 ("corner" : str, λ _, (-125, lit 22 0)) = Ok shot ∧
    ∀ p, p ∈ thin → Seen.camera_sees (-125) (lit 22 0) (Seen.half 30) (Seen.half 30 * (1500 / 860)) c (distance shot) p.
Proof.
  destruct (Views.views_see film_R [0] thin 0 ("corner" : str, λ _, (-125, lit 22 0)) 1500 860 (V3 0 0 0))
    as (c & shot & H1 & _ & H2 & _).
  - right; right; left.
  - reflexivity.
  - lra.
  - lra.
  - exact thin_centre.
  - cbn [snd fst]. destruct (Rle_dec 0 (dot3 (sub3 (V3 9 2 0) (V3 0 0 0)) (view_dir (-125) (lit 22 0)))) as [Hle|Hgt].
    + exists (V3 9 2 0). split; [right; left | exact Hle].
    + exists (V3 (-9) (-2) 0). split; [left|]. rewrite Seen.dot3_R in *. cbn [vx vy vz sub3 zip3 sub Seen.ROps] in *. lra.
  - exists c, shot. exact (conj H1 H2).
Defined.
End thin.
End RenderWitness.
