(* ===== verification/Stages.v ===== *)
(** * tools/dumpSimpleFoam/compare_stages.py: two stage dumps side by side

    Reading an OpenFOAM field, a face list and the patches of a mesh, the sets of cells
    next to a boundary, the measures of a field and of an increment, and the report.
    Arithmetic is the class [NumOps]; [gzip], [np.loadtxt], [np.fromstring], the cast to
    integers, [np.linalg.norm] and [np.argsort] are parameters, and what the program
    prints is a value.  A file is text, as in the other programs. *)
From S2P Require Export PyRe PyOs NumPy Amg.

Module Stages.

Section stages.
Context {F : Type} `{NumOps F} (to_float : str → res F).
Context (gunzip : str → res str).                 (* gzip.open(p).read() *)
Context (fromstring : str → res (list F)).        (* np.fromstring(s, sep=' ') *)
Context (to_int : F → Z).                         (* astype(np.int64) *)
Context (norm2 : list F → F).                     (* np.linalg.norm *)
Context (argsort : list F → list nat).
Abbreviation vec := (list F).

(** ** Arrays: of no, one or two dimensions *)
Inductive arr := Scalar (x : F) | Flat (l : vec) | Table (cols : nat) (l : list vec).
Definition ndim (a : arr) : nat := match a with Scalar _ => 0 | Flat _ => 1 | Table _ _ => 2 end.
Definition shape (a : arr) : list nat :=
  match a with Scalar _ => [] | Flat l => [length l] | Table c l => [length l; c] end.
Definition shape0 (a : arr) : res nat := getitem (shape a) 0.
Definition flat (a : arr) : vec := match a with Scalar x => [x] | Flat l => l | Table _ l => concat l end.
Definition amap (g : F → F) (a : arr) : arr :=
  match a with Scalar x => Scalar (g x) | Flat l => Flat (map g l) | Table c l => Table c (map (map g) l) end.

(** An operation on two arrays, the smaller one repeated along the larger. *)
Definition fits (m n : nat) : bool := (m =? n) || (m =? 1) || (n =? 1).
Definition rows_op (op : F → F → F) (c c' : nat) (l l' : list vec) : res arr :=
  if fits c c' && fits (length l) (length l') then
    l2 ← (if length l =? length l' then mapR (λ e, lift op e.1 e.2) (zip l l')
          else match l, l' with
               | [r], _ => mapR (lift op r) l'
               | _, [r'] => mapR (λ r, lift op r r') l
               | _, _ => Raise ValueError
               end);
    Ok (Table (if c =? c' then c else if c =? 1 then c' else c) l2)
  else Raise ValueError.
Definition arr_op (op : F → F → F) (a b : arr) : res arr :=
  match a, b with
  | Scalar x, _ => Ok (amap (op x) b)
  | _, Scalar y => Ok (amap (λ x, op x y) a)
  | Flat l, Flat l' => Flat <$> lift op l l'
  | Flat l, Table c' l' => rows_op op (length l) c' [l] l'
  | Table c l, Flat l' => rows_op op c (length l') l [l']
  | Table c l, Table c' l' => rows_op op c c' l l'
  end.
(** [a[mask]] and [a[:n]] *)
Definition masked {A} (mask : list bool) (l : list A) : list A :=
  map snd (List.filter fst (zip mask l)).
Definition select (mask : list bool) (a : arr) : res arr :=
  n ← shape0 a;
  if length mask =? n then
    Ok (match a with Scalar x => Scalar x | Flat l => Flat (masked mask l) | Table c l => Table c (masked mask l) end)
  else Raise IndexError.
Definition first (n : nat) (a : arr) : res arr :=
  match a with Scalar _ => Raise IndexError | Flat l => Ok (Flat (take n l)) | Table c l => Ok (Table c (take n l)) end.
(** [a[:, 0]] *)
Definition column0 (c : nat) (l : list vec) : res arr :=
  if c =? 0 then Raise IndexError else Flat <$> mapR (λ r, getitem r 0) l.

Definition somes {A} (l : list (option A)) : list A :=
  flat_map (λ o, match o with Some x => [x] | None => [] end) l.

(** ** Reading *)
Section files.
Context (f : fs).
Definition read (p : str) : res str :=
  if exists_ f p then read_file f p
  else let gz := p ++ (".gz" : str) in
       if exists_ f gz then b ← read_file f gz; gunzip b else Raise OSError.

(** [s.index(p)] *)
Definition index (p s : str) : res nat := from_opt ValueError (find p s 0).
(** [s.strip('()')] *)
Definition paren (c : ascii) : bool := Ascii.eqb c "(" || Ascii.eqb c ")".
Fixpoint lstrip_parens (s : str) : str :=
  match s with c :: s' => if paren c then lstrip_parens s' else s | [] => [] end.
Definition strip_parens (s : str) : str := rev (lstrip_parens (rev (lstrip_parens s))).
(** [a.reshape(n, 3)] of the right size *)
Fixpoint triplets (n : nat) (l : vec) : list vec :=
  match n with 0 => [] | S n => take 3 l :: triplets n (drop 3 l) end.

Definition uniform_re : re :=
  seqs [txt "internalField"; many1 sp; txt "uniform"; many1 sp; RGroup 1 (many1 (ncls [CChar ";"])); chr ";"].
Definition nonuniform_re : re :=
  seqs [txt "internalField"; many1 sp; txt "nonuniform"; many1 sp; txt "List<"; RGroup 1 (many1 word); chr ">";
        many sp; opt (chr nl); many sp; RGroup 2 (many1 (cls [CDigit])); many sp; chr "("].
Definition spaced (s : str) : str := replace1 nl " " s.
Definition of_internal (path : str) : res arr :=
  s ← read path;
  i ← index "internalField" s;
  let tail := drop i s in
  match match_ uniform_re tail 0 with
  | Some m =>
      let tok := strip (group_d 1 tail m) in
      if starts "(" tok then l ← mapR to_float (words (strip_parens tok)); Ok (Table (length l) [l])
      else x ← to_float tok; Ok (Flat [x])
  | None =>
      m ← from_opt ValueError (match_ nonuniform_re tail 0);
      n ← Amg.int_of_str (group_d 2 tail m);
      let body := drop (m_end m) tail in
      j ← index (nl :: (")" : str)) body;
      let body := take j body in
      if bool_decide (group_d 1 tail m = ("scalar" : str)) then
        a ← fromstring (spaced body);
        if (Z.of_nat (length a) =? n)%Z then Ok (Flat a) else Raise AssertionError
      else
        a ← fromstring (spaced (replace1 ")" " " (replace1 "(" " " body)));
        if (Z.of_nat (length a) =? 3 * n)%Z then Ok (Table 3 (triplets (Z.to_nat n) a)) else Raise AssertionError
  end.

Definition list_re : re :=
  seqs [chr nl; RGroup 1 (many1 (cls [CDigit])); many sp; chr nl; chr "("].
Definition of_list (path : str) : res (list Z) :=
  s ← read path;
  m ← from_opt AttributeError (search list_re s 0);
  let body := drop (m_end m) s in
  j ← index (nl :: (")" : str)) body;
  l ← fromstring (spaced (take j body)); Ok (map to_int l).

Record patch := { p_name : str; p_type : str; p_faces : Z; p_start : Z }.
Definition block_re : re :=
  seqs [RGroup 1 (many1 word); many sp; chr "{"; RGroup 2 (many (ncls [CChar "}"])); chr "}"].
Definition type_re : re :=
  seqs [RWordB; txt "type"; many1 sp; RGroup 1 (many1 word); many sp; chr ";"].
Definition number_re (key : str) : re :=
  seqs [txt key; many1 sp; RGroup 1 (many1 (cls [CDigit])); many sp; chr ";"].
Definition patch_of (s : str) (m : mobj) : res (option patch) :=
  let d := group_d 2 s m in
  match search (number_re "nFaces") d 0, search (number_re "startFace") d 0 with
  | Some nf, Some sf =>
      n ← Amg.int_of_str (group_d 1 d nf);
      k ← Amg.int_of_str (group_d 1 d sf);
      Ok (Some {| p_name := group_d 1 s m;
                  p_type := match search type_re d 0 with Some t => group_d 1 d t | None => "?" end;
                  p_faces := n; p_start := k |})
  | _, _ => Ok None
  end.
Definition patches_of (meshdir : str) : res (list patch) :=
  s ← read (pjoin meshdir "boundary");
  i ← index "// * * *" s;
  let s := drop i s in
  l ← mapR (patch_of s) (finditer block_re s); Ok (somes l).

(** ** The sets of cells *)

(** [own[sf:sf + nf]] *)
Definition patch_owners (own : list Z) (p : patch) : list Z :=
  take (Z.to_nat (p_faces p)) (drop (Z.to_nat (p_start p)) own).
(** [a[cells] = True] *)
Definition mark (cells : list Z) (a : list bool) : res (list bool) := foldR (λ a i, put a i true) cells a.
Definition mark_patch (own : list Z) (s : list bool * list bool) (p : patch) : res (list bool * list bool) :=
  if bool_decide (p_type p = ("empty" : str)) then Ok s
  else
    touched ← mark (patch_owners own p) s.1;
    if bool_decide (p_type p = ("wall" : str)) then wall ← mark (patch_owners own p) s.2; Ok (touched, wall)
    else Ok (touched, s.2).
Definition list_max (l : list Z) : res Z :=
  match l with [] => Raise ValueError | k :: l => Ok (fold_left Z.max l k) end.
Definition cell_count (own nei : list Z) : res Z :=
  a ← list_max own; b ← list_max nei; Ok (Z.max a b + 1)%Z.
Definition cell_sets (n : Z) (own : list Z) (pats : list patch) : res (list bool * list bool) :=
  if (n <? 0)%Z then Raise ValueError
  else foldR (mark_patch own) pats (repeat false (Z.to_nat n), repeat false (Z.to_nat n)).
Definition subsets (s : list bool * list bool) : list (str * option (list bool)) :=
  [("all" : str, None); ("interior" : str, Some (map negb s.1)); ("patch-adj" : str, Some s.1);
   ("wall-adj" : str, Some s.2)].

(** ** The measures *)
Definition rel (a b : arr) : res F :=
  d ← arr_op NumPy.sub a b; Ok (div (norm2 (flat d)) (pmax (norm2 (flat a)) (lit 1 300))).
(** A uniform field, which OpenFOAM writes as one row, repeated. *)
Definition spread (o b : arr) : res arr :=
  if ndim o =? ndim b then
    n ← shape0 o;
    if n =? 1 then
      k ← shape0 b;
      if 1 <? k then
        Ok (match o with Scalar x => Scalar x | Flat l => Flat (concat (repeat l k)) | Table c l => Table c (concat (repeat l k)) end)
      else Ok o
    else Ok o
  else Ok o.
(** What a line shows: two shapes, or the measure on each subset that is not empty and
    that of the increment with the size of OpenFOAM's. *)
Inductive shown := Shape (o b : list nat) | Diff (state : list (str * F)) (increment : option (F * F)).
Definition on_subset (o b : arr) (s : str * option (list bool)) : res (option (str * F)) :=
  oo ← match s.2 with None => Ok o | Some mask => select mask o end;
  bb ← match s.2 with None => Ok b | Some mask => select mask b end;
  if bool_decide (flat oo = []) then Ok None else r ← rel oo bb; Ok (Some (s.1, r)).
Definition increment_of (o b base : arr) : res (F * F) :=
  d_o ← arr_op NumPy.sub o base;
  d_b ← arr_op NumPy.sub b base;
  r ← rel d_o d_b; Ok (r, norm2 (flat d_o)).
Definition line (o b : arr) (base : option arr) (sets : list (str * option (list bool))) : res shown :=
  o ← spread o b;
  if bool_decide (shape o = shape b) then
    l ← mapR (on_subset o b) sets;
    i ← match base with None => Ok (None : option (F * F)) | Some s => d ← increment_of o b s; Ok (Some d) end;
    Ok (Diff (somes l) i)
  else Ok (Shape (shape o) (shape b)).

(** ** The report *)
Inductive kind := KScalar | KVector.
Definition CELLS : list (str * kind) :=
  [("stage_Uass" : str, KVector); ("stage_V" : str, KScalar); ("stage_nuEff" : str, KScalar); ("stage_UDiag0" : str, KScalar);
   ("stage_UDiag" : str, KScalar); ("stage_USrc" : str, KVector); ("stage_rAU" : str, KScalar); ("stage_rAtU" : str, KScalar);
   ("stage_HbyA" : str, KVector); ("stage_Upred" : str, KVector); ("stage_pOut" : str, KScalar); ("stage_Uout" : str, KVector)].
Definition FACES : list (str * kind) :=
  [("stage_phiU" : str, KScalar); ("stage_UUpper" : str, KScalar); ("stage_ULower" : str, KScalar);
   ("stage_phiHbyA" : str, KScalar); ("stage_phiOut" : str, KScalar)].
Definition BASE : list (str * str) :=
  [("stage_Uass" : str, "U" : str); ("stage_HbyA" : str, "U" : str); ("stage_Upred" : str, "U" : str); ("stage_Uout" : str, "U" : str);
   ("stage_pOut" : str, "p" : str); ("stage_phiU" : str, "phi" : str); ("stage_phiHbyA" : str, "phi" : str);
   ("stage_phiOut" : str, "phi" : str)].
Definition assoc {A} (k : str) (l : list (str * A)) : option A := snd <$> List.find (λ e, bool_decide (e.1 = k)) l.

Context (loadtxt : str → res arr).
Context (ofdir brdir : str).
Definition brae (name : str) (k : kind) : res arr :=
  a ← loadtxt (pjoin brdir name);
  match k, a with KVector, _ => Ok a | KScalar, Table c l => column0 c l | KScalar, _ => Ok a end.
(** The fields of the base time that can be read. *)
Definition base_fields (basedir : option str) : list (str * arr) :=
  match basedir with
  | Some (c :: d) =>
      omap (λ n, match of_internal (pjoin (c :: d) n) with Ok a => Some (n, a) | Raise _ => None end)
           ["U" : str; "p" : str; "phi" : str]
  | _ => []
  end.
Definition base_of (base : list (str * arr)) (name : str) : option arr := n ← assoc name BASE; assoc n base.

Inductive entry := MissingOF | MissingBrae | Line (s : shown).
Definition stage (compare : arr → arr → res shown) (nk : str * kind) : res entry :=
  match of_internal (pjoin ofdir nk.1) with
  | Raise _ => Ok MissingOF
  | Ok o =>
      if negb (exists_ f (pjoin brdir nk.1)) then Ok MissingBrae
      else b ← brae nk.1 nk.2; s ← compare o b; Ok (Line s)
  end.
Definition cell_stage (base : list (str * arr)) (sets : list (str * option (list bool))) (nk : str * kind) : res entry :=
  stage (λ o b, line o b (base_of base nk.1) sets) nk.
Definition face_stage (base : list (str * arr)) (nk : str * kind) : res entry :=
  stage (λ o b,
    n ← shape0 o; k ← shape0 b;
    let n := Nat.min n k in
    o ← first n o;
    b ← first n b;
    s ← match base_of base nk.1 with None => Ok None | Some s => s ← first n s; Ok (Some s) end;
    line o b s [("all" : str, None)]) nk.

(** *** SIMPLEC *)
Definition amax (a : arr) : res F := vmax (flat a).
Definition amin (a : arr) : res F := neg <$> vmax (map neg (flat a)).
(** One line of the section; the section ends where something raises. *)
Inductive simplec :=
  | RowSum (s : shown)
  | Ratio (of_lo of_hi b_lo b_hi : F)
  | Range (of_lo of_hi b_lo b_hi : F) (negatives : nat)
  | Worst (cell : nat) (o b d : F) (patches : list str).
Fixpoint until_raise {A} (l : list (res A)) : list A * bool :=
  match l with
  | [] => ([], true)
  | Ok x :: l => let '(xs, done) := until_raise l in (x :: xs, done)
  | Raise _ :: _ => ([], false)
  end.
Definition touching (own : list Z) (pats : list patch) (c : nat) : list str :=
  map p_name (List.filter (λ p, existsb (Z.eqb (Z.of_nat c)) (patch_owners own p)) pats).
Definition ratio_line (rAtUo rAUo rAtUb : arr) : res simplec :=
  q ← arr_op div rAtUo rAUo;
  lo ← amin q; hi ← amax q;
  rAUb ← brae "stage_rAU" KScalar;
  qb ← arr_op div rAtUb rAUb;
  blo ← amin qb; bhi ← amax qb;
  Ok (Ratio lo hi blo bhi).
Definition range_line (rAtUo rAtUb : arr) : res simplec :=
  lo ← amin rAtUo; hi ← amax rAtUo; blo ← amin rAtUb; bhi ← amax rAtUb;
  Ok (Range lo hi blo bhi (length (List.filter (λ x, ltb x zero) (flat rAtUb)))).
Definition relative_errors (rAtUo rAtUb : arr) : res arr :=
  e ← arr_op NumPy.sub rAtUo rAtUb;
  arr_op div (amap absf e) (amap (λ x, maximum (absf x) (lit 1 300)) rAtUo).
Definition worst_lines (own : list Z) (pats : list patch) (rAtUo rAtUb : arr) : list (res simplec) :=
  match relative_errors rAtUo rAtUb with
  | Ok (Flat d) =>
      map (λ c, x ← getitem (flat rAtUo) c; y ← getitem (flat rAtUb) c; e ← getitem d c;
                Ok (Worst c x y e (touching own pats c)))
        (take 8 (argsort (map neg d)))
  | Ok _ => [Raise TypeError]
  | Raise e => [Raise e]
  end.
Definition simplec_section (own : list Z) (pats : list patch) (sets : list (str * option (list bool))) :
    list simplec * bool :=
  let loaded :=
    rowOF ← of_internal (pjoin ofdir "stage_rowSum");
    rAtUb ← brae "stage_rAtU" KScalar;
    rAtUo ← of_internal (pjoin ofdir "stage_rAtU");
    rAUo ← of_internal (pjoin ofdir "stage_rAU");
    Ok (rowOF, rAtUb, rAtUo, rAUo) in
  match loaded with
  | Raise _ => ([], false)
  | Ok (rowOF, rAtUb, rAtUo, rAUo) =>
      until_raise ((s ← line rowOF (amap (div one) rAtUb) None sets; Ok (RowSum s))
        :: ratio_line rAtUo rAUo rAtUb :: range_line rAtUo rAtUb :: worst_lines own pats rAtUo rAtUb)
  end.

Record report := {
  r_cells : Z; r_faces : nat; r_interior : nat; r_patch : nat; r_wall : nat;
  r_patches : list patch; r_cell_fields : list (str * entry); r_face_fields : list (str * entry);
  r_simplec : list simplec * bool;
}.
Definition count (l : list bool) : nat := length (List.filter id l).
Definition main (meshdir : str) (basedir : option str) : res report :=
  own ← of_list (pjoin meshdir "owner");
  nei ← of_list (pjoin meshdir "neighbour");
  n ← cell_count own nei;
  pats ← patches_of meshdir;
  s ← cell_sets n own pats;
  let base := base_fields basedir in
  cells ← mapR (λ nk, e ← cell_stage base (subsets s) nk; Ok (nk.1, e)) CELLS;
  faces ← mapR (λ nk, e ← face_stage base nk; Ok (nk.1, e)) FACES;
  Ok {| r_cells := n; r_faces := length nei; r_interior := count (map negb s.1); r_patch := count s.1;
        r_wall := count s.2; r_patches := pats; r_cell_fields := cells; r_face_fields := faces;
        r_simplec := simplec_section own pats (subsets s) |}.
End files.
End stages.
Arguments arr : clear implicits.
Arguments shown : clear implicits.
End Stages.
