(* ===== verification/StagesProofs.v ===== *)
(** * tools/dumpSimpleFoam/compare_stages.py: what the comparison shows

    Theorems about Stages.v: the sets of cells next to a boundary, and what the measures
    of a field and of an increment mean in exact arithmetic. *)
From S2P Require Import PrecondSums.
From S2P Require Export Stages.

Module StagesSpec.
Import Sums Stages.

(** ** The sets of cells *)

(** Cell [i] has a face on a patch of the given kind. *)
Definition next_to (own : list Z) (P : patch → bool) (pats : list patch) (i : nat) : bool :=
  existsb (λ p, P p && existsb (Z.eqb (Z.of_nat i)) (patch_owners own p)) pats.
Definition boundary (p : patch) : bool := negb (bool_decide (p_type p = ("empty" : str))).
Definition is_wall (p : patch) : bool := boundary p && bool_decide (p_type p = ("wall" : str)).

Lemma put_in_range {A} (l : list A) (i : Z) v : (0 <= i < Z.of_nat (length l))%Z → put l i v = Ok (<[Z.to_nat i := v]> l).
Proof.
  intros Hi. unfold put, position. rewrite (proj2 (Z.leb_le _ _)), (proj2 (Z.ltb_lt _ _)) by lia. done.
Qed.
Lemma mark_spec cells (a : list bool) :
  (∀ c, c ∈ cells → (0 <= c < Z.of_nat (length a))%Z) →
  mark cells a = Ok (imap (λ i b, b || existsb (Z.eqb (Z.of_nat i)) cells) a).
Proof.
  unfold mark. revert a; induction cells as [|c cells IH]; intros a Hc; cbn [foldR].
  { f_equal. apply list_eq. intros i. rewrite list_lookup_imap. destruct (a !! i); cbn; [by rewrite orb_false_r | done]. }
  rewrite put_in_range by (apply Hc; left). cbn [mbind res_mbind]. rewrite IH.
  2: { intros d Hd. rewrite length_insert. apply Hc. by right. }
  f_equal. apply list_eq. intros i. rewrite !list_lookup_imap. destruct (decide (i = Z.to_nat c)) as [->|Hne].
  - pose proof (Hc c ltac:(left)) as Hr. destruct (lookup_lt_is_Some_2 a (Z.to_nat c) ltac:(lia)) as [b Hb].
    rewrite list_lookup_insert_eq, Hb by lia. cbn [fmap option_fmap option_map existsb].
    rewrite (proj2 (Z.eqb_eq (Z.of_nat (Z.to_nat c)) c)) by lia. by rewrite orb_true_r.
  - rewrite list_lookup_insert_ne by done. destruct (a !! i); [|done]. cbn [fmap option_fmap option_map existsb].
    pose proof (Hc c ltac:(left)). by rewrite (proj2 (Z.eqb_neq (Z.of_nat i) c)) by lia.
Qed.
(** The mask of a predicate. *)
Definition mask_of (n : nat) (g : nat → bool) : list bool := map g (seq 0 n).
Lemma mask_lookup n g i : mask_of n g !! i = if decide (i < n) then Some (g i) else None.
Proof.
  unfold mask_of. change (map g ?l) with (g <$> l). rewrite list_lookup_fmap. case_decide.
  - by rewrite (proj2 (lookup_seq 0 n i i)).
  - by rewrite (proj2 (lookup_ge_None (seq 0 n) i)) by (rewrite length_seq; lia).
Qed.
Lemma mark_mask n g cells : (∀ c, c ∈ cells → (0 <= c < Z.of_nat n)%Z) →
  mark cells (mask_of n g) = Ok (mask_of n (λ i, g i || existsb (Z.eqb (Z.of_nat i)) cells)).
Proof.
  intros Hc. rewrite mark_spec by (unfold mask_of; rewrite length_map, length_seq; done). f_equal.
  apply list_eq. intros i. rewrite list_lookup_imap, !mask_lookup. by case_decide.
Qed.
Lemma mask_ext n g h : (∀ i, i < n → g i = h i) → mask_of n g = mask_of n h.
Proof. intros Hgh. apply list_eq. intros i. rewrite !mask_lookup. case_decide; [by rewrite Hgh | done]. Qed.

Lemma patch_owners_sub own p c : c ∈ patch_owners own p → c ∈ own.
Proof.
  unfold patch_owners. intros (i & Hi)%list_elem_of_lookup. apply lookup_take_Some in Hi as [Hi _].
  rewrite lookup_drop in Hi. by eapply list_elem_of_lookup_2.
Qed.
Lemma mark_patch_mask n own p g h :
  (∀ c, c ∈ own → (0 <= c < Z.of_nat n)%Z) →
  let here i := existsb (Z.eqb (Z.of_nat i)) (patch_owners own p) in
  mark_patch own (mask_of n g, mask_of n h) p =
  Ok (mask_of n (λ i, g i || (boundary p && here i)), mask_of n (λ i, h i || (is_wall p && here i))).
Proof.
  intros Hown here. assert (∀ c, c ∈ patch_owners own p → (0 <= c < Z.of_nat n)%Z) as Hp
    by (intros c Hc; by eapply Hown, patch_owners_sub).
  assert (∀ k, mask_of n (λ i, k i || false) = mask_of n k) as Ek by (intros k; apply mask_ext; intros i _; by rewrite orb_false_r).
  unfold mark_patch, is_wall, boundary. cbn [fst snd]. case_bool_decide; cbn [negb andb]; [by rewrite !Ek|].
  rewrite (mark_mask n g) by done. cbn [mbind res_mbind]. case_bool_decide; cbn [andb]; [|by rewrite Ek].
  by rewrite mark_mask.
Qed.
Lemma cell_sets_spec n own pats :
  (∀ c, c ∈ own → (0 <= c < Z.of_nat n)%Z) →
  cell_sets (Z.of_nat n) own pats = Ok (mask_of n (next_to own boundary pats), mask_of n (next_to own is_wall pats)).
Proof.
  intros Hown. unfold cell_sets. rewrite (proj2 (Z.ltb_ge _ 0)), Nat2Z.id by lia.
  assert (∀ m, repeat false m = mask_of m (λ _, false)) as E.
  { intros m. unfold mask_of. generalize 0. induction m as [|m IH]; intros k; [done|]. cbn. by rewrite (IH (S k)). }
  rewrite E. clear E.
  assert (∀ g h, foldR (mark_patch own) pats (mask_of n g, mask_of n h) =
    Ok (mask_of n (λ i, g i || next_to own boundary pats i), mask_of n (λ i, h i || next_to own is_wall pats i))) as G.
  { induction pats as [|p pats IH]; intros g h; cbn [foldR].
    { f_equal. f_equal; apply mask_ext; intros i _; cbn; by rewrite orb_false_r. }
    rewrite (mark_patch_mask n own p g h Hown). cbn [mbind res_mbind]. rewrite IH.
    f_equal. f_equal; apply mask_ext; intros i _; unfold next_to; cbn [existsb]; by rewrite orb_assoc. }
  rewrite G. done.
Qed.


(** Counting a mask. *)
Definition cells_where (n : nat) (g : nat → bool) : nat := length (List.filter g (seq 0 n)).
Lemma count_mask n g : count (mask_of n g) = cells_where n g.
Proof.
  unfold count, mask_of, cells_where. induction (seq 0 n) as [|i l IH]; [done|]. cbn [map List.filter].
  unfold id at 1. destruct (g i); cbn [length]; by rewrite IH.
Qed.
Lemma cells_where_negb n g : cells_where n (λ i, negb (g i)) + cells_where n g = n.
Proof.
  unfold cells_where. rewrite <- (length_seq n 0) at 3. induction (seq 0 n) as [|i l IH]; [done|].
  cbn [List.filter]. destruct (g i); cbn [negb length] in *; lia.
Qed.
Lemma cells_where_le n g h : (∀ i, g i = true → h i = true) → cells_where n g ≤ cells_where n h.
Proof.
  intros Hgh. unfold cells_where. induction (seq 0 n) as [|i l IH]; [done|]. cbn [List.filter].
  destruct (g i) eqn:E; [rewrite (Hgh i E); cbn [length]; lia|]. destruct (h i); cbn [length]; lia.
Qed.
Lemma wall_boundary own pats i : next_to own is_wall pats i = true → next_to own boundary pats i = true.
Proof.
  unfold next_to. rewrite !existsb_exists. intros (p & Hp & [Hw Hi]%andb_prop). exists p. split; [done|].
  rewrite Hi. unfold is_wall in Hw. by apply andb_prop in Hw as [-> _].
Qed.
Lemma list_max_spec l m : list_max l = Ok m → (∃ c, c ∈ l) ∧ ∀ c, c ∈ l → (c <= m)%Z.
Proof.
  destruct l as [|k l]; [done|]. cbn [list_max]. intros [= <-]. split; [exists k; left|].
  revert k; induction l as [|y l IH]; intros k c Hc; cbn [fold_left]; [apply list_elem_of_singleton in Hc; lia|].
  pose proof (IH (Z.max k y) (Z.max k y) ltac:(left)).
  apply elem_of_cons in Hc as [->|[->|Hc]%elem_of_cons]; [lia|lia|]. apply IH. by right.
Qed.

(** C36: the sets of cells.  When the owners read from the mesh are cells, the program
    marks exactly the cells that have a face on a patch that is not empty, and as wall
    cells those with one on a wall: the interior cells and the others are all the
    cells, the wall cells are among the others, these are the numbers it reports, and
    every cell field is compared on these sets. *)
Theorem mesh_sets {F} `{NumOps F} to_float gunzip fromstring to_int norm2 argsort f loadtxt ofdir brdir
    meshdir basedir (r : report (F := F)) :
  main to_float gunzip fromstring to_int norm2 argsort f loadtxt ofdir brdir meshdir basedir = Ok r →
  ∃ own, of_list gunzip fromstring to_int f (pjoin meshdir "owner") = Ok own ∧
    let n := Z.to_nat (r_cells r) in
    let touched := next_to own boundary (r_patches r) in
    let wall := next_to own is_wall (r_patches r) in
    (∀ c, c ∈ own → (0 <= c)%Z) →
    (∀ c, c ∈ own → (c < r_cells r)%Z) ∧
    r_patch r = cells_where n touched ∧ r_wall r = cells_where n wall ∧
    r_interior r + r_patch r = n ∧ r_wall r ≤ r_patch r ∧
    ∃ base, mapR (λ nk, e ← cell_stage to_float gunzip fromstring norm2 f loadtxt ofdir brdir base
                            (subsets (mask_of n touched, mask_of n wall)) nk; Ok (nk.1, e)) CELLS
            = Ok (r_cell_fields r).
Proof.
  unfold main. intros (own & Ho & (nei & Hn & (n & Hc & (pats & Hp & (s & Hs &
    (cells & Hcells & (faces & _ & [= <-])%bind_Ok)%bind_Ok)%bind_Ok)%bind_Ok)%bind_Ok)%bind_Ok)%bind_Ok.
  exists own. split; [done|]. cbn [r_cells r_patches r_patch r_wall r_interior r_cell_fields]. intros Hpos.
  unfold cell_count in Hc. apply bind_Ok in Hc as (a & [[c0 Hc0] Ha]%list_max_spec & (b & _ & [= <-])%bind_Ok).
  set (n := (Z.max a b + 1)%Z) in *.
  assert (∀ c, c ∈ own → (c < n)%Z) as Hlt by (intros c Hc; specialize (Ha c Hc); lia).
  assert (0 <= n)%Z as Hn0 by (specialize (Hlt c0 Hc0); specialize (Hpos c0 Hc0); lia).
  rewrite <- (Z2Nat.id n Hn0) in Hs. rewrite cell_sets_spec in Hs.
  2: { intros c Hc. rewrite Z2Nat.id by done. split; [by apply Hpos | by apply Hlt]. }
  injection Hs as <-. cbn [fst snd] in *. split; [done|].
  assert (∀ g, map negb (mask_of (Z.to_nat n) g) = mask_of (Z.to_nat n) (λ i, negb (g i))) as Em
    by (intros g; unfold mask_of; apply map_map).
  rewrite Em, !count_mask. split; [done|]. split; [done|]. split; [apply cells_where_negb|].
  split; [apply cells_where_le, wall_boundary|]. by eexists.
Qed.

(** A uniform face field is compared on one face: the two fields are cut to the shorter
    before the uniform one could be spread, and what brae has on the other faces does
    not matter. *)
Theorem face_uniform_first {F} `{NumOps F} to_float gunzip fromstring norm2 f loadtxt ofdir brdir base nk
    (x y : F) l :
  of_internal to_float gunzip fromstring f (pjoin ofdir nk.1) = Ok (Flat [x]) →
  exists_ f (pjoin brdir nk.1) = true →
  brae loadtxt brdir nk.1 nk.2 = Ok (Flat (y :: l)) →
  face_stage to_float gunzip fromstring norm2 f loadtxt ofdir brdir base nk =
  (s ← match base_of base nk.1 with None => Ok None | Some s => s ← first 1 s; Ok (Some s) end;
   v ← line norm2 (Flat [x]) (Flat [y]) s [("all" : str, None)]; Ok (Line v)).
Proof.
  intros Ho He Hb. unfold face_stage, stage. rewrite Ho, He, Hb. cbn [negb mbind res_mbind].
  change (shape0 (Flat [x])) with (Ok 1). change (shape0 (Flat (y :: l))) with (Ok (S (length l))).
  cbn [mbind res_mbind Nat.min first take]. by destruct (base_of base nk.1) as [s|]; [destruct (first 1 s)|].
Qed.

(** ** Arrays of one shape *)
Section spec.
Context {F : Type} `{NumLaws F}.
Abbreviation vec := (list F).
Add Ring num_ring_of_stages : (num_ring (F := F)).

Definition regular (a : arr F) : Prop := match a with Table c l => ∀ r, r ∈ l → length r = c | _ => True end.

Lemma lift_lengths op (a b : vec) : length a = length b → lift op a b = Ok (zip_with op a b).
Proof. intros E. unfold lift. by rewrite E, Nat.eqb_refl. Qed.
Lemma concat_zip op c (l l' : list vec) :
  (∀ r, r ∈ l → length r = c) → (∀ r, r ∈ l' → length r = c) → length l = length l' →
  ∃ l2, mapR (λ e, lift op e.1 e.2) (zip l l') = Ok l2 ∧ concat l2 = zip_with op (concat l) (concat l') ∧
    length l2 = length l ∧ ∀ r, r ∈ l2 → length r = c.
Proof.
  revert l'; induction l as [|r l IH]; intros [|r' l'] Hl Hl' E; try done.
  { exists []. split; [done|]. split; [done|]. split; [done|]. intros r Hr. by apply not_elem_of_nil in Hr. }
  destruct (IH l') as (l2 & E1 & E2 & E3 & E4); [intros x Hx; apply Hl; by right|intros x Hx; apply Hl'; by right|by injection E|].
  pose proof (Hl r ltac:(left)) as Hr. pose proof (Hl' r' ltac:(left)) as Hr'.
  exists (zip_with op r r' :: l2). cbn [zip zip_with mapR fst snd]. rewrite lift_lengths by congruence. cbn [mbind res_mbind].
  change (zip_with pair l l') with (zip l l'). rewrite E1. cbn [mbind res_mbind concat length]. split; [done|]. split; [|split].
  - by rewrite zip_with_app, E2 by congruence.
  - by rewrite E3.
  - intros x [->|Hx]%elem_of_cons; [rewrite length_zip_with; lia | by apply E4].
Qed.
Lemma arr_op_same op (a b : arr F) :
  regular a → regular b → shape a = shape b →
  ∃ c, arr_op op a b = Ok c ∧ regular c ∧ shape c = shape a ∧ flat c = zip_with op (flat a) (flat b).
Proof.
  intros Ha Hb E. destruct a as [x|l|c l], b as [y|l'|c' l']; cbn [shape] in E; try discriminate E.
  - by exists (Scalar (op x y)).
  - injection E as E. exists (Flat (zip_with op l l')). cbn [arr_op]. rewrite lift_lengths by done. split; [done|].
    split; [done|]. split; [cbn [shape]; f_equal; rewrite length_zip_with; lia | done].
  - injection E as E Ec. subst c'. destruct (concat_zip op c l l' Ha Hb E) as (l2 & E1 & E2 & E3 & E4).
    exists (Table c l2). cbn [arr_op]. unfold rows_op, fits. rewrite E, !Nat.eqb_refl, E1.
    cbn [orb andb mbind res_mbind]. split; [done|]. split; [done|]. split; [cbn [shape]; by rewrite E3, E | done].
Qed.
Lemma length_flat (a b : arr F) : regular a → regular b → shape a = shape b → length (flat a) = length (flat b).
Proof.
  intros Ha Hb E. destruct (arr_op_same (λ x _, x) a b Ha Hb E) as (c & E1 & _ & _ & Ec).
  destruct a as [x|l|c0 l], b as [y|l'|c' l']; cbn [shape] in E; try discriminate E; cbn [flat].
  - done.
  - by injection E.
  - injection E as E Ec'. subst c'. clear E1 Ec c. revert l' Hb E; induction l as [|r l IH]; intros [|r' l'] Hb E; try done.
    cbn [concat]. rewrite !length_app. f_equal.
    + rewrite (Ha r), (Hb r') by left. done.
    + apply IH; [intros x Hx; apply Ha; by right|intros x Hx; apply Hb; by right|by injection E].
Qed.
Lemma flat_inj (a b : arr F) : regular a → regular b → shape a = shape b → flat a = flat b → a = b.
Proof.
  intros Ha Hb E Ef. destruct a as [x|l|c l], b as [y|l'|c' l']; cbn [shape] in E; try discriminate E; cbn [flat] in Ef.
  - by injection Ef as ->.
  - by subst.
  - injection E as E Ec. subst c'. f_equal. revert l' Hb E Ef; induction l as [|r l IH]; intros [|r' l'] Hb E Ef; try done.
    cbn [concat] in Ef. apply app_inj_1 in Ef as [-> Ef]; [|by rewrite (Ha r), (Hb r') by left].
    f_equal. apply IH; [intros x Hx; apply Ha; by right|intros x Hx; apply Hb; by right|by injection E|done].
Qed.

(** Selecting rows keeps arrays of one shape so. *)
Lemma masked_spec {A B} mask (l : list A) (l' : list B) :
  length l = length l' → length (masked mask l) = length (masked mask l').
Proof.
  unfold masked. rewrite !length_map. revert l l'; induction mask as [|b mask IH]; intros [|x l] [|y l'] E; try done.
  cbn [zip zip_with List.filter fst]. injection E as E. destruct b; cbn [length]; [f_equal|]; by apply IH.
Qed.
Lemma masked_sub {A} mask (l : list A) x : x ∈ masked mask l → x ∈ l.
Proof.
  unfold masked. intros ([b y] & <- & [Hin _]%filter_In)%list_elem_of_In%in_map_iff. cbn [snd].
  apply list_elem_of_In. by eapply in_combine_r.
Qed.
Lemma select_same mask (a b a' : arr F) :
  regular a → regular b → shape a = shape b → select mask a = Ok a' →
  ∃ b', select mask b = Ok b' ∧ regular a' ∧ regular b' ∧ shape a' = shape b'.
Proof.
  intros Ha Hb E. unfold select, shape0. rewrite <- E. destruct a as [x|l|c l]; [done|..];
    (destruct b as [y|l'|c' l']; cbn [shape] in E; try discriminate E); cbn [shape getitem from_opt lookup list_lookup];
    (change (getitem (length l :: ?r) 0) with (Ok (length l)) || idtac); cbn [mbind res_mbind];
    (destruct (length mask =? length l); [|done]); intros [= <-].
  - injection E as E. eexists. split; [done|]. split; [done|]. split; [done|]. cbn [shape]. f_equal. by apply masked_spec.
  - injection E as E Ec. subst c'. eexists. split; [done|]. split; [intros r Hr; by apply Ha, (masked_sub mask)|].
    split; [intros r Hr; by apply Hb, (masked_sub mask)|]. cbn [shape]. by rewrite (masked_spec mask l l').
Qed.

(** ** The measures

    [np.linalg.norm] is zero on the zero vector only, and the floor of the divisor
    keeps it from being zero. *)
Context (norm2 : vec → F).
Abbreviation size_of l := (pmax (norm2 l) (lit 1 300)).
Hypothesis norm_zero : ∀ l : vec, norm2 l = zero ↔ ∀ x, x ∈ l → x = zero.
Hypothesis floor_nonzero : ∀ l : vec, size_of l ≠ zero.

Lemma sub_zero_iff (x y : F) : sub x y = zero ↔ x = y.
Proof. split; [|intros ->; ring]. intros E. replace x with (add (sub x y) y) by ring. rewrite E. ring. Qed.
Lemma zip_sub_zero (l l' : vec) : length l = length l' → (∀ x, x ∈ zip_with sub l l' → x = zero) ↔ l = l'.
Proof.
  revert l'; induction l as [|x l IH]; intros [|y l'] E; try done.
  { split; [done|]. intros _ x Hx. by apply not_elem_of_nil in Hx. }
  cbn [zip_with]. injection E as E. specialize (IH l' E). split.
  - intros Hz. f_equal; [apply sub_zero_iff, Hz; left|]. apply IH. intros z Hz'. apply Hz. by right.
  - intros [= -> <-] z [->|Hz]%elem_of_cons; [by apply sub_zero_iff|]. by apply IH.
Qed.
Lemma rel_spec (a b : arr F) : regular a → regular b → shape a = shape b →
  ∃ v, rel norm2 a b = Ok v ∧ mul v (size_of (flat a)) = norm2 (zip_with sub (flat a) (flat b)) ∧ (v = zero ↔ a = b).
Proof.
  intros Ha Hb E. destruct (arr_op_same sub a b Ha Hb E) as (c & Hc & _ & _ & Hf). unfold rel. rewrite Hc.
  cbn [mbind res_mbind]. rewrite Hf. set (d := norm2 (zip_with sub _ _)). set (v := div d _).
  assert (mul v (size_of (flat a)) = d) as Ev by (by apply div_cancel).
  exists v. split; [done|]. split; [done|]. transitivity (d = zero).
  - rewrite <- Ev. split; [intros ->; ring|]. intros Hz. apply (mul_cancel_r _ _ (size_of (flat a))); [done|].
    rewrite Hz. ring.
  - unfold d. rewrite norm_zero, zip_sub_zero by by apply length_flat. split; [by apply flat_inj | by intros ->].
Qed.

(** The part of an array a line compares. *)
Definition chosen (mask : option (list bool)) (a : arr F) : res (arr F) :=
  match mask with None => Ok a | Some m => select m a end.
Lemma on_subset_spec (o b : arr F) s r :
  regular o → regular b → shape o = shape b → on_subset norm2 o b s = Ok r →
  ∃ oo bb, chosen s.2 o = Ok oo ∧ chosen s.2 b = Ok bb ∧
    (flat oo = [] ∧ r = None ∨ ∃ v, r = Some (s.1, v) ∧ (v = zero ↔ oo = bb)).
Proof.
  intros Ho Hb E. unfold on_subset. intros (oo & Hoo & (bb & Hbb & Hr)%bind_Ok)%bind_Ok.
  exists oo, bb. split; [done|]. split; [done|].
  assert (regular oo ∧ regular bb ∧ shape oo = shape bb) as (Hro & Hrb & Es).
  { destruct (s.2) as [m|]; [|injection Hoo as <-; injection Hbb as <-; done].
    destruct (select_same m o b oo Ho Hb E Hoo) as (b' & Hb' & H1 & H2 & H3). rewrite Hbb in Hb'. injection Hb' as <-. done. }
  case_bool_decide; [injection Hr as <-; by left|]. right.
  destruct (rel_spec oo bb Hro Hrb Es) as (v & Hv & _ & Hz). rewrite Hv in Hr. injection Hr as <-. by exists v.
Qed.
Lemma elem_of_somes {A} (l : list (option A)) x : x ∈ somes l ↔ Some x ∈ l.
Proof.
  unfold somes. rewrite list_elem_of_In, in_flat_map. setoid_rewrite <- list_elem_of_In. split.
  - intros ([y|] & Hin & Hy); cbn in Hy; [|by apply not_elem_of_nil in Hy]. by apply list_elem_of_singleton in Hy as ->.
  - intros Hx. exists (Some x). split; [done | by left].
Qed.

(** C35: what a line of the report says.  In exact arithmetic, after a uniform field of
    OpenFOAM has been spread, a line shows two shapes exactly when they differ.
    Otherwise each measure it shows belongs to a subset and is zero exactly when the
    two fields agree on it; a subset is left out only when it selects nothing; and
    against a base field of the same shape the increment's measure is the size of the
    very difference of the two fields, divided by that of OpenFOAM's increment and not
    of its field, so that it cannot hide behind a large state. *)
Theorem stage_line (o b : arr F) base sets s :
  line norm2 o b base sets = Ok s →
  (∀ o', spread o b = Ok o' → regular o') → regular b →
  ∃ o', spread o b = Ok o' ∧
  match s with
  | Shape so sb => so = shape o' ∧ sb = shape b ∧ so ≠ sb
  | Diff state increment =>
      shape o' = shape b ∧
      (∀ label v, (label, v) ∈ state → ∃ mask oo bb,
         (label, mask) ∈ sets ∧ chosen mask o' = Ok oo ∧ chosen mask b = Ok bb ∧ (v = zero ↔ oo = bb)) ∧
      (∀ label mask, (label, mask) ∈ sets →
         (∃ v, (label, v) ∈ state) ∨ ∃ oo, chosen mask o' = Ok oo ∧ flat oo = []) ∧
      ∀ x, base = Some x → regular x → shape x = shape b →
        ∃ r d, increment = Some (r, d) ∧ d = norm2 (zip_with sub (flat o') (flat x)) ∧
          mul r (pmax d (lit 1 300)) = norm2 (zip_with sub (flat o') (flat b))
  end.
Proof.
  intros Hl Ho Hb. unfold line in Hl. apply bind_Ok in Hl as (o' & Es & Hl). specialize (Ho o' Es).
  exists o'. split; [done|]. case_bool_decide as E; [|by injection Hl as <-].
  apply bind_Ok in Hl as (l & Hsub%mapR_Ok & (i & Hi & [= <-])%bind_Ok). split; [done|]. split; [|split].
  - intros label v Hin%elem_of_somes. apply list_elem_of_lookup in Hin as [k Hk].
    destruct (Forall2_lookup_r _ _ _ _ _ Hsub Hk) as ([lb mask] & Hm & Hon).
    destruct (on_subset_spec o' b _ _ Ho Hb E Hon) as (oo & bb & H1 & H2 & [[_ ?]|(w & [= -> ->] & Hz)]); [done|].
    exists mask, oo, bb. split; [by eapply list_elem_of_lookup_2 | done].
  - intros label mask Hin. apply list_elem_of_lookup in Hin as [k Hk].
    destruct (Forall2_lookup_l _ _ _ _ _ Hsub Hk) as (r & Hr & Hon).
    destruct (on_subset_spec o' b _ _ Ho Hb E Hon) as (oo & bb & H1 & H2 & [[Hf _]|(w & -> & _)]); [right; by exists oo|].
    left. exists w. apply elem_of_somes. by eapply list_elem_of_lookup_2.
  - intros x -> Hx Ex. apply bind_Ok in Hi as ([r d] & Hd & [= <-]). exists r, d. split; [done|].
    unfold increment_of in Hd.
    destruct (arr_op_same sub o' x Ho Hx ltac:(congruence)) as (da & E1 & R1 & S1 & F1).
    destruct (arr_op_same sub b x Hb Hx ltac:(congruence)) as (db & E2 & R2 & S2 & F2).
    rewrite E1, E2 in Hd. cbn [mbind res_mbind] in Hd.
    destruct (rel_spec da db R1 R2 ltac:(congruence)) as (v & Ev & Hm & _). rewrite Ev in Hd. injection Hd as <- <-.
    rewrite F1 in Hm |- *. split; [done|]. rewrite Hm. f_equal. rewrite F2.
    pose proof (length_flat o' b Ho Hb E) as L1. pose proof (length_flat b x Hb Hx ltac:(congruence)) as L2. clear -L1 L2 H0.
    revert L1 L2. generalize (flat o') (flat b) (flat x). intros lo lb lx.
    revert lb lx; induction lo as [|p lo IH]; intros [|q lb] [|t lx] L1 L2; try done.
    cbn [zip_with]. f_equal; [ring|]. apply IH; [by injection L1 | by injection L2].
Qed.
End spec.
End StagesSpec.
