(* ===== verification/StagesWitness.v ===== *)
(** * tools/dumpSimpleFoam/compare_stages.py: the theorems on a small dump

    Three cells in rational arithmetic with the sum of the absolute values as the norm. *)
From Stdlib Require Import QArith Qcanon.
From S2P Require Import PrecondSums StagesProofs.

Module StagesWitness.
Import Stages StagesSpec.
Open Scope nat_scope.

Definition q (z : Z) : Qc := lit z 0.
Definition norm1 (l : list Qc) : Qc := foldr (λ x, Qcplus (Qc_abs x)) 0%Qc l.

Lemma Qc_abs_spec x : (0 <= Qc_abs x)%Qc ∧ (Qc_abs x = 0%Qc → x = 0%Qc).
Proof.
  unfold Qc_abs. destruct (Qclt_le_dec x 0) as [Hx|Hx]; split; try done.
  - apply Qclt_le_weak in Hx. apply Qcopp_le_compat in Hx. exact Hx.
  - intros E. rewrite <- (Qcopp_involutive x), E. by apply Qc_is_canon.
Qed.
Lemma sum_zero (a b : Qc) : (0 <= a)%Qc → (0 <= b)%Qc → (a + b = 0)%Qc → a = 0%Qc ∧ b = 0%Qc.
Proof.
  intros Ha Hb E. assert (a <= 0)%Qc as Ha'.
  { rewrite <- E. rewrite <- (Qcplus_0_r a) at 1. by apply Qcplus_le_compat; [apply Qcle_refl|]. }
  assert (a = 0%Qc) as -> by (by apply Qcle_antisym). split; [done|]. by rewrite Qcplus_0_l in E.
Qed.
Lemma norm1_nonneg l : (0 <= norm1 l)%Qc.
Proof.
  induction l as [|x l IH]; [apply Qcle_refl|]. cbn [norm1 foldr]. rewrite <- (Qcplus_0_l 0%Qc).
  apply Qcplus_le_compat; [apply Qc_abs_spec | exact IH].
Qed.
Lemma norm1_zero (l : list Qc) : norm1 l = zero ↔ ∀ x, x ∈ l → x = zero.
Proof.
  induction l as [|x l IH]; [split; [intros _ x Hx; by apply not_elem_of_nil in Hx | done]|].
  cbn [norm1 foldr]. change (foldr _ 0%Qc l) with (norm1 l). split.
  - intros E. destruct (sum_zero _ _ (proj1 (Qc_abs_spec x)) (norm1_nonneg l) E) as [E1 E2].
    intros y [->|Hy]%elem_of_cons; [by apply Qc_abs_spec | by apply IH].
  - intros Hx. rewrite (Hx x ltac:(left)). rewrite (proj2 IH) by (intros y Hy; apply Hx; by right). by apply Qc_is_canon.
Qed.
Lemma tiny_positive : (0 < lit (F := Qc) 1 300)%Qc.
Proof. vm_compute. reflexivity. Qed.
Lemma floor_nonzero (l : list Qc) : pmax (norm1 l) (lit 1 300) ≠ zero.
Proof.
  intros E. pose proof tiny_positive as Ht. revert E. unfold pmax. cbn [ltb QOps].
  destruct (Qclt_le_dec (norm1 l) (lit 1 300)) as [_|Hle]; intros E.
  - rewrite E in Ht. by apply Qclt_not_eq in Ht.
  - rewrite E in Hle. by apply (Qcle_not_lt _ _ Hle).
Qed.

(** A uniform field against one that differs in a cell, with the base at zero. *)
Definition of_field : arr Qc := Flat [q 2].
Definition brae_field : arr Qc := Flat [q 2; q 2; q 3].
Definition base_field : arr Qc := Flat [q 0; q 0; q 0].
Definition sets : list (str * option (list bool)) :=
  [("all" : str, None); ("interior" : str, Some [false; true; false]); ("wall-adj" : str, Some [false; false; false])].
Definition shown_line : shown Qc :=
  match line norm1 of_field brae_field (Some base_field) sets with Ok s => s | Raise _ => Shape [] [] end.
Lemma line_shown : line norm1 of_field brae_field (Some base_field) sets = Ok shown_line.
Proof.
  assert (match line norm1 of_field brae_field (Some base_field) sets with Ok _ => true | _ => false end = true) as E
    by (vm_compute; reflexivity).
  unfold shown_line. by destruct (line norm1 of_field brae_field (Some base_field) sets).
Qed.
Definition labels (s : shown Qc) : list str := match s with Diff l _ => map fst l | Shape _ _ => [] end.
Lemma two_labels : labels shown_line = ["all" : str; "interior" : str].
Proof. vm_compute. reflexivity. Qed.

Lemma stage_line_witness :
  ∃ o', spread of_field brae_field = Ok o' ∧ match shown_line with Shape so sb => so ≠ sb | Diff _ _ => shape o' = shape brae_field end.
Proof.
  destruct (stage_line norm1 norm1_zero floor_nonzero of_field brae_field (Some base_field) sets shown_line line_shown)
    as (o' & E & Hs).
  - intros o' Ho. injection Ho as <-. exact I.
  - exact I.
  - exists o'. split; [exact E|]. destruct shown_line; [exact (proj2 (proj2 Hs)) | exact (proj1 Hs)].
Defined.

(** A mesh of three cells in a row, with a wall at one end. *)
Definition list_file (l : list Z) : str :=
  nl :: dec (Z.of_nat (length l)) ++ nl :: ("(" : str) ++ flat_map (λ z, nl :: dec z) l ++ nl :: (")" : str).
Definition patch_file : str :=
  ("// * * * //" : str) ++ nl :: ("2(walls { type wall; nFaces 1; startFace 2; } sides { type empty; nFaces 3; startFace 3; })" : str).
Definition dump : fs := {|
  root := Dir [("mesh" : str, Dir [("owner" : str, File (list_file [0; 1; 0; 0; 1; 2]%Z) 0 false);
                                   ("neighbour" : str, File (list_file [1; 2]%Z) 0 false);
                                   ("boundary" : str, File patch_file 0 false)]);
               ("of" : str, Dir [("stage_V" : str, File "internalField uniform 2;" 0 false)]);
               ("brae" : str, Dir [("stage_V" : str, File "2 2 3" 0 false)])];
  real := normpath |}.
Definition ints (s : str) : res (list Qc) := mapR (λ w, q <$> Amg.int_of_str w) (words s).
Definition to_int (x : Qc) : Z := Qnum (this x).
Definition run_main : res (report (F := Qc)) :=
  main (λ s, q <$> Amg.int_of_str s) (λ _, Raise OSError) ints to_int norm1 (λ d, seq 0 (length d)) dump
    (λ p, s ← read_file dump p; Flat <$> ints s) "/of" "/brae" "/mesh" None.
Definition owners : res (list Z) := of_list (λ _, Raise OSError) ints to_int dump (pjoin "/mesh" "owner").
Lemma owners_read : owners = Ok [0; 1; 0; 0; 1; 2]%Z.
Proof. vm_compute. reflexivity. Qed.
Lemma mesh_sets_witness : ∃ r, run_main = Ok r ∧ r_interior r + r_patch r = Z.to_nat (r_cells r) ∧ r_wall r ≤ r_patch r.
Proof.
  assert (match run_main with Ok _ => true | _ => false end = true) as E by (vm_compute; reflexivity).
  destruct run_main as [r|e] eqn:Er; [|discriminate E]. exists r. split; [reflexivity|].
  destruct (mesh_sets _ _ _ _ _ _ _ _ _ _ _ _ r Er) as (own & Ho & Hr).
  pose proof owners_read as Eo. unfold owners in Eo. rewrite Eo in Ho. injection Ho as <-.
  destruct Hr as (_ & _ & _ & H1 & H2 & _).
  { intros c Hc. rewrite !elem_of_cons in Hc. destruct Hc as [->|[->|[->|[->|[->|[->|[]%not_elem_of_nil]]]]]]; lia. }
  exact (conj H1 H2).
Defined.
End StagesWitness.
