(* ===== verification/Defaults.v ===== *)
(** * tools/default_audit.py

    The audit for fields a hand-built controls struct leaves at their defaults: the
    structs, the builders and fillers of each, the sites that build one by hand, the
    ledger and the exit status.  The directories are read as the arguments name them
    and [os.walk] finds the files, in the order the file system lists them, which is
    that of the children of a [Dir]: of a function with several definitions the last
    one read gives its parameter. *)
From stdpp Require Import gmap.
From S2P Require Export Audits Resize.

Module Defaults.

(** ** parse_structs *)
Definition struct_re : re :=
  seqs [RWordB; txt "struct"; many1 sp; RGroup 1 (many1 word); many sp;
        opt (seqs [chr ":"; many sp; many1 (ncls (chars "{"))]); chr "{";
        RGroup 2 (many_lazy anys); chr nl; txt "};"].
Definition declarator : re :=
  seqs [many1 word; many sp; opt (seqs [chr "="; many1 (ncls (chars ",;"))])].
Definition field_re : re :=
  seqs [many (alts [seqs [txt "mutable"; many1 sp]; seqs [txt "static"; many1 sp]; seqs [txt "const"; many1 sp]]);
        many1 (cls (CWord :: chars ":<>*&")); opt (seqs [many sp; cls (chars "*&")]); many1 sp;
        RGroup 1 (seqs [declarator; many (seqs [many sp; chr ","; many sp; declarator])]);
        many sp; RGroup 2 (cls (chars "={;"))].
Definition namespace_re : re :=
  seqs [RWordB; txt "namespace"; many1 sp; RGroup 1 (many1 word); many sp; chr "{"].
Definition line_comment_re : re := seqs [txt "//"; many any].

Definition SKIPPED : list str :=
  ["struct" : str; "enum" : str; "class" : str; "using" : str; "typedef" : str; "#" : str].
Definition before (c : ascii) (s : str) : str := default [] (head (split c s)).
Definition is_method (line : str) : bool :=
  contains "(" line && contains ")" line && negb (contains "=" (before "(" line)).

(** One declarator: its name and whether it has a default. *)
Definition declared (group2 decl : str) : option (str * bool) :=
  let decl := strip decl in
  match decl with
  | [] => None
  | _ =>
      match strip (before "=" decl) with
      | [] => None
      | nm => Some (nm, contains "=" decl || contains group2 "={")
      end
  end.
(** The fields a line declares. *)
Definition line_fields (line : str) : list (str * bool) :=
  let line := strip line in
  if bool_decide (line = []) || existsb (λ p, starts p line) SKIPPED || is_method line then []
  else match match_ field_re line 0 with
       | None => []
       | Some fm => omap (declared (group_d 2 line fm)) (split "," (group_d 1 line fm))
       end.
Definition fields_of (body : str) : list (str * bool) :=
  flat_map line_fields (split nl (sub line_comment_re (λ _, []) body)).

(** A struct's definition: its file, its fields, the namespace it is in. *)
Record defn := { df_file : str; df_fields : list (str * bool); df_ns : option str }.
Definition struct_at (f s : str) (m : mobj) : option (str * defn) :=
  let fields := fields_of (group_d 2 s m) in
  let head_ := take (m_start m) s in
  if (3 <=? length fields) && existsb snd fields then
    Some (group_d 1 s m, {| df_file := f; df_fields := fields;
                            df_ns := last (findall1 namespace_re head_) |})
  else None.
Definition add_struct (out : gmap str (list defn)) (nd : str * defn) : gmap str (list defn) :=
  <[nd.1 := default [] (out !! nd.1) ++ [nd.2]]> out.
Definition parse_structs (text : list (str * str)) : gmap str (list defn) :=
  fold_left add_struct (flat_map (λ fs, omap (struct_at fs.1 fs.2) (finditer struct_re fs.2)) text) ∅.

(** ** enclosing_scope *)

(** How much of the text from the position on lies before the brace that closes the
    block, or all of it. *)
Fixpoint scope_loop (fuel : nat) (s : str) (depth : Z) : nat :=
  match fuel with
  | 0 => 0
  | S fuel =>
      match s with
      | [] => 0
      | c :: s' =>
          if starts "//" s then
            match find0 [nl] s with Some j => j + scope_loop fuel (drop j s) depth | None => length s end
          else if starts "/*" s then
            let j := match find "*/" s 2 with Some j => j + 2 | None => length s end in
            j + scope_loop fuel (drop j s) depth
          else if Ascii.eqb c dquote then
            let j := S (Resize.quoted dquote s') in j + scope_loop fuel (drop j s) depth
          else if Ascii.eqb c "{" then S (scope_loop fuel s' (depth + 1))
          else if Ascii.eqb c "}" then
            if (depth - 1 <? 0)%Z then 0 else S (scope_loop fuel s' (depth - 1))
          else S (scope_loop fuel s' depth)
      end
  end.
Definition enclosing_scope (s : str) (start : nat) : str :=
  let rest := drop start s in take (scope_loop (S (length rest)) rest 0) rest.

(** ** What a body assigns *)
Definition assign_re (var : str) : re :=
  seqs [RWordB; txt var; chr "."; RGroup 1 (many1 word); many sp; chr "=";
        RAhead false {| neg := false; items := chars "=" |}].
Definition fill_re (var : str) : re :=
  seqs [RWordB; txt var; chr "."; RGroup 1 (many1 word); many sp; chr ".";
        alts [txt "push_back"; txt "assign"; txt "resize"]].
Definition assigned_in (var body : str) : gset str :=
  list_to_set (findall1 (assign_re var) body ++ findall1 (fill_re var) body).

Definition opt_const : re := opt (seqs [txt "const"; many sp]).
Definition opt_braces : re := opt (seqs [chr "{"; many sp; chr "}"]).
Definition merge (out : gmap str (gset str)) (e : str * gset str) : gmap str (gset str) :=
  <[e.1 := default ∅ (out !! e.1) ∪ e.2]> out.

(** ** returning_builders *)
Definition builder_re (name : str) : re :=
  seqs [RWordB; txt name; many1 sp; RGroup 1 (many1 word); many sp; chr "(";
        RGroup 2 (many (ncls (chars ";{}"))); chr ")"; many sp; opt_const; chr "{"].
Definition local_re (name : str) : re :=
  seqs [RWordB; txt name; many1 sp; RGroup 1 (many1 word); many sp; opt_braces; chr ";"].
Definition builder_at (name s : str) (m : mobj) : option (str * gset str) :=
  let fname := group_d 1 s m in
  if bool_decide (fname ∈ ["if" : str; "for" : str; "while" : str; "switch" : str; "return" : str]) then None
  else
    let body := enclosing_scope s (m_end m) in
    local ← search (local_re name) body 0;
    let fields := assigned_in (group_d 1 body local) body in
    if bool_decide (fields = ∅) then None else Some (fname, fields).
Definition returning_builders (name : str) (text : list (str * str)) : gmap str (gset str) :=
  fold_left merge (flat_map (λ fs, omap (builder_at name fs.2) (finditer (builder_re name) fs.2)) text) ∅.

(** ** filler_functions *)
Definition blank_comments (s : str) : str :=
  sub HeaderOdr.line_comment (λ m, CacheKey.spaces (length (group0 s m))) s.

Definition filler_re (name : str) : re :=
  seqs [RWordB; RGroup 1 (many1 word); many sp; chr "(";
        RGroup 2 (seqs [many_lazy (ncls (chars ";()")); RWordB; txt name; many sp; chr "&"; many sp;
                        RGroup 3 (many1 word); RWordB; many_lazy (ncls (chars ";()"))]);
        chr ")"; many sp; opt_const; chr "{"].

(** The three dictionaries: the fields, the bodies and the parameter of a name. *)
Record filler := { fl_fields : gset str; fl_body : str; fl_param : str }.
Definition filler_at (s : str) (m : mobj) : option (str * filler) :=
  let fname := group_d 1 s m in
  if bool_decide (fname ∈ ["if" : str; "for" : str; "while" : str; "switch" : str]) then None
  else
    let param := group_d 3 s m in
    let body := enclosing_scope s (m_end m) in
    Some (fname, {| fl_fields := assigned_in param body; fl_body := body; fl_param := param |}).
Definition add_filler (out : gmap str filler) (e : str * filler) : gmap str filler :=
  <[e.1 := match out !! e.1 with
           | None => e.2
           | Some o => {| fl_fields := fl_fields o ∪ fl_fields e.2; fl_body := fl_body o ++ fl_body e.2;
                          fl_param := fl_param e.2 |}
           end]> out.
Definition fillers_of (name : str) (text : list (str * str)) : gmap str filler :=
  fold_left add_filler
    (flat_map (λ fs, let s := blank_comments fs.2 in omap (filler_at s) (finditer (filler_re name) s)) text) ∅.

(** [f(...)] with the variable among its arguments, ended by a semicolon. *)
Definition call_re (fname : str) : re :=
  seqs [RWordB; txt fname; many sp; chr "("; RGroup 1 (many_lazy (ncls (chars ";"))); chr ")"; many sp; chr ";"].
Definition names_re (var : str) : re :=
  seqs [alts [RBol; ncls (CWord :: chars ".")]; txt var; RWordB].
Definition hands_to (body var fname : str) : bool :=
  existsb (λ call, bool_decide (is_Some (search (names_re var) (group_d 1 body call) 0)))
    (finditer (call_re fname) body).

(** One reader hands its struct on to another. *)
Definition calls (fs : gmap str filler) (fname other : str) : bool :=
  match fs !! fname with
  | Some fl => negb (bool_decide (other = fname)) && hands_to (fl_body fl) (fl_param fl) other
  | None => false
  end.

(** The turn for one pair of names: whether it changed something, and the fields. *)
Definition pass_step (fs : gmap str filler) (fname : str) (s : bool * gmap str (gset str)) (other : str) :
    bool * gmap str (gset str) :=
  let fields := default ∅ (s.2 !! other) in
  let mine := default ∅ (s.2 !! fname) in
  if calls fs fname other && negb (bool_decide (fields ⊆ mine))
  then (true, <[fname := mine ∪ fields]> s.2) else s.
Definition one_pass (fs : gmap str filler) (names : list str) (fields : gmap str (gset str)) :
    bool * gmap str (gset str) :=
  fold_left (λ s fname, fold_left (pass_step fs fname) names s) names (false, fields).

(** [while changed] *)
Fixpoint close_loop (fuel : nat) (fs : gmap str filler) (names : list str) (fields : gmap str (gset str)) :
    res (gmap str (gset str)) :=
  match fuel with
  | 0 => Raise OutOfFuel
  | S fuel =>
      let '(changed, fields) := one_pass fs names fields in
      if changed then close_loop fuel fs names fields else Ok fields
  end.
(** Every field any reader assigns. *)
Definition all_fields (fields : gmap str (gset str)) : gset str := ⋃ (map snd (map_to_list fields)).
(** A pass that changes something adds a field to a name. *)
Definition close_fuel (names : list str) (fields : gmap str (gset str)) : nat :=
  S (length names * size (all_fields fields)).

Definition filler_functions (name : str) (text : list (str * str)) : res (gmap str (gset str)) :=
  let fs := fillers_of name text in
  let names := map fst (map_to_list fs) in
  let fields := fl_fields <$> fs in
  r ← close_loop (close_fuel names fields) fs names fields;
  Ok (filter (λ kv, kv.2 ≠ ∅) r).

(** ** in_builder, hand_built_sites *)
Definition in_builder_re (name : str) : re :=
  seqs [chr nl; txt name; many1 sp; many1 word; many sp; chr "("; many (ncls (chars ";{}")); chr ")";
        many sp; opt_const; chr "{"].
Definition in_builder (s : str) (pos : nat) (name : str) : bool :=
  match rfind (nl :: name ++ " ") s pos with
  | None => false
  | Some h =>
      match match_ (in_builder_re name) (drop h s) 0 with
      | None => false
      | Some m => h + m_end m <=? pos
      end
  end.

Definition site_re (name : str) : re :=
  seqs [opt (seqs [RGroup 1 (many1 word); many sp; txt "::"; many sp]); RWordB; txt name; many1 sp;
        RGroup 2 (many1 word); many sp; opt_braces; chr ";"].
Definition built_by (window var fname : str) : bool :=
  bool_decide (is_Some (search (seqs [RWordB; txt var; many sp; chr "="; many sp; txt fname; many sp; chr "("])
                               window 0)).

Record site := { st_file : str; st_line : nat; st_var : str; st_assigned : gset str; st_ns : option str }.
Definition gather (p : str → bool) (m : gmap str (gset str)) : gset str :=
  ⋃ (map snd (List.filter (λ e, p e.1) (map_to_list m))).
Definition site_at (name : str) (fillers builders : gmap str (gset str)) (f s : str) (m : mobj) :
    option site :=
  let var := group_d 2 s m in
  let window := enclosing_scope s (m_end m) in
  let assigned := assigned_in var window ∪ gather (hands_to window var) fillers
                  ∪ gather (built_by window var) builders in
  if bool_decide (assigned = ∅) || in_builder s (m_start m) name then None
  else Some {| st_file := f; st_line := line_of s (m_start m); st_var := var; st_assigned := assigned;
               st_ns := group 1 s m |}.
Definition hand_built_sites (name : str) (text : list (str * str)) (fillers builders : gmap str (gset str)) :
    list site :=
  flat_map (λ fs, omap (site_at name fillers builders fs.1 fs.2) (finditer (site_re name) fs.2)) text.

(** ** main *)
Abbreviation key := (str * str * str)%type.

Fixpoint arguments (argv : list str) (allow_path : option str) (dirs : list str) :
    res (option str * list str) :=
  match argv with
  | [] => Ok (allow_path, dirs)
  | a :: argv =>
      if bool_decide (a = "--allow" :> str) then
        match argv with v :: argv => arguments argv (Some v) dirs | [] => Raise IndexError end
      else arguments argv allow_path (dirs ++ [a])
  end.
Definition ledger_entry (line : str) : option key :=
  match words (strip (before "#" line)) with [a; b; c] => Some (a, b, c) | _ => None end.
Definition ledger (f : fs) (allow_path : option str) : res (list key) :=
  match allow_path with
  | Some ((_ :: _) as p) =>
      if exists_ f p then text ← read_text f p; Ok (omap ledger_entry (split nl text)) else Ok []
  | _ => Ok []
  end.

(** A field set at another site of the struct and not at this one. *)
Record omission := {
  o_qual : str; o_name : str; o_qualify : bool; o_file : str; o_line : nat; o_var : str; o_field : str;
}.

Definition namespaces (defs : list defn) : gset str := list_to_set (omap df_ns defs).
Definition qualified (defs : list defn) : bool := 1 <? size (namespaces defs).
Definition qual_of (name : str) (defs : list defn) (d : defn) : str :=
  match df_ns d with
  | Some ((_ :: _) as ns) => if qualified defs then ns ++ "::" ++ name else name
  | _ => name
  end.
(** The sites that could be building a definition. *)
Definition sites_of (all_sites : list site) (defs : list defn) (d : defn) : list site :=
  List.filter (λ s, bool_decide (st_assigned s ⊆ list_to_set (map fst (df_fields d)))
                    && (negb (qualified defs) || bool_decide (st_ns s = None) || bool_decide (st_ns s = df_ns d)))
    all_sites.
Definition omissions_at (name : str) (defs : list defn) (d : defn) (sites : list site) (s : site) :
    list omission :=
  let union := ⋃ (map st_assigned sites) in
  map (λ missing, {| o_qual := qual_of name defs d; o_name := name; o_qualify := qualified defs;
                     o_file := st_file s; o_line := st_line s; o_var := st_var s; o_field := missing |})
    (sorted (elements ((union ∖ st_assigned s) ∩ list_to_set (map fst (df_fields d))))).
(** The omissions of one definition, when at least two sites build it. *)
Definition of_defn (name : str) (defs : list defn) (all_sites : list site) (d : defn) :
    option (str * list omission) :=
  let sites := sites_of all_sites defs d in
  if length sites <? 2 then None
  else Some (qual_of name defs d, flat_map (omissions_at name defs d sites) sites).
Definition of_struct (text : list (str * str)) (nd : str * list defn) : res (list (str * list omission)) :=
  fillers ← filler_functions nd.1 text;
  let all_sites := hand_built_sites nd.1 text fillers (returning_builders nd.1 text) in
  Ok (omap (of_defn nd.1 nd.2 all_sites) nd.2).

Definition o_key (o : omission) : key := (o_qual o, o_var o, o_field o).
Definition o_star (o : omission) : key := (o_qual o, o_var o, "*" : str).
Definition o_bare (o : omission) : key := (o_name o, o_var o, o_field o).
(** The ledger entries an omission uses. *)
Definition uses (allow : list key) (o : omission) : list key :=
  (if o_qualify o && bool_decide (o_bare o ∈ allow) then [o_bare o] else [])
  ++ (if bool_decide (o_key o ∈ allow) then [o_key o]
      else if bool_decide (o_star o ∈ allow) then [o_star o] else []).
Definition unlisted (allow : list key) (o : omission) : bool :=
  negb (bool_decide (o_key o ∈ allow)) && negb (bool_decide (o_star o ∈ allow)).
Definition ambiguous (allow : list key) (o : omission) : bool :=
  o_qualify o && bool_decide (o_bare o ∈ allow).

#[export] Instance omission_eq_dec : EqDecision omission.
Proof. solve_decision. Defined.

Record report := {
  r_structs : nat; r_unlisted : list omission; r_ambiguous : list omission; r_stale : list key;
}.
Definition key_leb (a b : key) : bool :=
  if bool_decide (a.1.1 = b.1.1) then
    if bool_decide (a.1.2 = b.1.2) then str_leb a.2 b.2 else str_leb a.1.2 b.1.2
  else str_leb a.1.1 b.1.1.

(** The same site is reported once: [seen]. *)
Definition audit (text : list (str * str)) (allow : list key) : res report :=
  let structs := sort_by (λ a b, str_leb a.1 b.1) (map_to_list (parse_structs text)) in
  evaluated ← mapR (of_struct text) structs;
  let evaluated := concat evaluated in
  let os := flat_map snd evaluated in
  let used := flat_map (uses allow) os in
  Ok {| r_structs := length structs;
        r_unlisted := remove_dups (List.filter (unlisted allow) os);
        r_ambiguous := List.filter (ambiguous allow) os;
        r_stale := sort_by key_leb (List.filter (λ k, negb (bool_decide (k ∈ used))
                     && bool_decide (k.1.1 ∈ map fst evaluated)) (remove_dups allow)) |}.

(** [os.walk(root)] as it comes, each directory with its files; a link to a directory is
    one of the directories and is not followed. *)
Fixpoint walk_ent (isd : str → bool) (base : str) (e : ent) : list (str * list str) :=
  match e with
  | Dir cs =>
      (base, map fst (List.filter (λ c, negb (is_dir_ent c.2 || isd (pjoin base c.1))) cs))
      :: concat (map (λ c, walk_ent isd (pjoin base c.1) c.2) cs)
  | _ => []
  end.
Definition walk (f : fs) (root : str) : list (str * list str) :=
  match entry f root with Some e => walk_ent (isdir f) root e | None => [] end.
Definition sources (f : fs) (dirs : list str) : list str :=
  flat_map (λ root, flat_map (λ de, map (pjoin de.1) (List.filter CacheKey.is_cuda de.2)) (walk f root)) dirs.
(** The keys of a dict made from them, in the order of their first insertion. *)
Definition dict_keys (l : list str) : list str := rev (remove_dups (rev l)).

Definition read_source (f : fs) (p : str) : res (str * str) := t ← read_text f p; Ok (p, t).
Definition main (f : fs) (argv : list str) : res (Z * report) :=
  '(allow_path, dirs) ← arguments argv None [];
  text ← mapR (read_source f) (dict_keys (sources f dirs));
  allow ← ledger f allow_path;
  r ← audit text allow;
  Ok (if bool_decide (r_unlisted r = []) && bool_decide (r_ambiguous r = []) && bool_decide (r_stale r = [])
      then 0%Z else 1%Z, r).
End Defaults.
