(* ===== verification/DefaultsProofs.v ===== *)
(** * tools/default_audit.py: what the audit promises

    Theorems about Defaults.v: the loop that hands fields from reader to reader
    ends with the least closed assignment, the scope of a declaration is its
    balanced block, and the exit status in terms of the sites and the ledger. *)
From stdpp Require Import gmap.
From S2P Require Import AuditProofs ResizeProofs Defaults.

(** ** Sums over a list of names *)
Lemma sum_list_map_le {A} (g h : A → nat) l :
  (∀ x, x ∈ l → g x ≤ h x) → sum_list (map g l) ≤ sum_list (map h l).
Proof.
  induction l as [|x l IH]; intros H; cbn; [lia|].
  pose proof (H x ltac:(left)). specialize (IH (λ y Hy, H y ltac:(by right))). lia.
Qed.
Lemma sum_list_map_lt {A} (g h : A → nat) l z :
  (∀ x, x ∈ l → g x ≤ h x) → z ∈ l → g z < h z → sum_list (map g l) < sum_list (map h l).
Proof.
  induction l as [|x l IH]; intros H Hz Hlt; [by apply not_elem_of_nil in Hz|]. cbn.
  pose proof (H x ltac:(left)).
  assert (∀ y, y ∈ l → g y ≤ h y) as Hl by (intros y Hy; apply H; by right).
  apply elem_of_cons in Hz as [->|Hz]; [pose proof (sum_list_map_le _ _ _ Hl); lia|].
  specialize (IH Hl Hz Hlt). lia.
Qed.
Lemma sum_list_map_bound {A} (g : A → nat) l n :
  (∀ x, x ∈ l → g x ≤ n) → sum_list (map g l) ≤ length l * n.
Proof.
  induction l as [|x l IH]; intros H; cbn; [lia|].
  pose proof (H x ltac:(left)). specialize (IH (λ y Hy, H y ltac:(by right))). lia.
Qed.


Lemma fold_left_pairs {A B S} (g : A → S → B → S) l1 l2 s :
  fold_left (λ s x, fold_left (g x) l2 s) l1 s = fold_left (λ s p, g p.1 s p.2) (list_prod l1 l2) s.
Proof.
  revert s; induction l1 as [|x l1 IH]; intros s; cbn; [done|].
  rewrite fold_left_app, IH. f_equal. clear. revert s.
  induction l2 as [|y l2 IH]; intros s; cbn; [done | apply IH].
Qed.

Module Closing.
Import Defaults.

Definition fields_at (m : gmap str (gset str)) (k : str) : gset str := default ∅ (m !! k).

Lemma fields_at_insert m k s k' :
  fields_at (<[k:=s]> m) k' = if decide (k = k') then s else fields_at m k'.
Proof.
  unfold fields_at. destruct (decide (k = k')) as [->|]; [by rewrite lookup_insert_eq|].
  by rewrite lookup_insert_ne.
Qed.
Lemma elem_of_all_fields m x : x ∈ all_fields m ↔ ∃ k s, m !! k = Some s ∧ x ∈ s.
Proof.
  unfold all_fields. rewrite elem_of_union_list. split.
  - intros (s & (p & -> & Hp)%elem_of_lmap & Hx). exists p.1, p.2.
    split; [|done]. apply elem_of_map_to_list. by destruct p.
  - intros (k & s & Hk & Hx). exists s. split; [|done]. apply elem_of_lmap.
    exists (k, s). split; [done|]. by apply elem_of_map_to_list.
Qed.

(** ** The loop over the readers *)
Section close.
Context (fs : gmap str filler) (names : list str) (init : gmap str (gset str)).
Context (Hnames : ∀ k, is_Some (init !! k) → k ∈ names).

(** [k] sets the field, itself or through the readers it hands the struct to. *)
Definition sets (k x : str) : Prop := ∃ k', rtc (calls fs) k k' ∧ x ∈ fields_at init k'.

Record good (m : gmap str (gset str)) : Prop := {
  g_dom : ∀ k, is_Some (m !! k) ↔ is_Some (init !! k);
  g_grown : ∀ k, fields_at init k ⊆ fields_at m k;
  g_sound : ∀ k x, x ∈ fields_at m k → sets k x;
}.
Context (Hcall : ∀ k k', calls fs k k' → is_Some (init !! k)).

Lemma good_init : good init.
Proof. split; [done|done|]. intros k x Hx. by exists k. Qed.

Definition total (m : gmap str (gset str)) : nat := sum_list (map (λ k, size (fields_at m k)) names).

Lemma good_bound m : good m → total m ≤ length names * size (all_fields init).
Proof.
  intros [_ _ Hs]. apply sum_list_map_bound. intros k _. apply subseteq_size. intros x Hx.
  destruct (Hs k x Hx) as (k' & _ & Hx'). unfold fields_at in Hx'. apply elem_of_all_fields.
  destruct (init !! k') as [s|] eqn:E; [by exists k', s | by apply elem_of_empty in Hx'].
Qed.

Lemma pass_step_spec b m k k' :
  good m →
  let s := pass_step fs k (b, m) k' in
  (s = (b, m) ∧ (calls fs k k' → fields_at m k' ⊆ fields_at m k))
  ∨ (s.1 = true ∧ good s.2 ∧ total m < total s.2).
Proof.
  intros Hg. unfold pass_step. cbn [fst snd]. fold (fields_at m k') (fields_at m k).
  destruct (calls fs k k') eqn:Ec; cbn [andb]; [|left; by split].
  case_bool_decide as Hsub; cbn [negb]; [left; by split|]. right. cbn [fst snd].
  pose proof (Hcall k k' ltac:(by rewrite Ec)) as Hk. split; [done|].
  assert (∀ j, fields_at m j ⊆ fields_at (<[k:=fields_at m k ∪ fields_at m k']> m) j) as Hgrow.
  { intros j. rewrite fields_at_insert. destruct (decide (k = j)) as [->|]; set_solver. }
  split; [split|].
  - intros j. rewrite <- (g_dom _ Hg). destruct (decide (k = j)) as [->|].
    + rewrite lookup_insert_eq. split; [|eauto]. intros _. by apply (g_dom _ Hg).
    + by rewrite lookup_insert_ne.
  - intros j. etrans; [apply (g_grown _ Hg) | apply Hgrow].
  - intros j x. rewrite fields_at_insert. destruct (decide (k = j)) as [<-|]; [|apply (g_sound _ Hg)].
    intros [Hx|Hx]%elem_of_union; [by apply (g_sound _ Hg)|].
    destruct (g_sound _ Hg _ _ Hx) as (j & Hj & Hxj). exists j. split; [|done].
    eapply rtc_l; [|done]. by rewrite Ec.
  - apply (sum_list_map_lt _ _ _ k); [intros j _; by apply subseteq_size | by apply Hnames|].
    rewrite fields_at_insert, decide_True by done. apply subset_size. set_solver.
Qed.

(** What a series of turns does: nothing, when every pair is closed already, or
    it grows the sets. *)
Lemma pass_steps_spec L b m :
  good m →
  let s := fold_left (λ s p, pass_step fs p.1 s p.2) L (b, m) in
  good s.2 ∧ total m ≤ total s.2 ∧
  ((s = (b, m) ∧ ∀ p, p ∈ L → calls fs p.1 p.2 → fields_at m p.2 ⊆ fields_at m p.1)
   ∨ (s.1 = true ∧ total m < total s.2)).
Proof.
  revert b m; induction L as [|p L IH]; intros b m Hg; cbn [fold_left].
  { split; [done|]. split; [done|]. left. split; [done|]. by intros ? ?%not_elem_of_nil. }
  pose proof (pass_step_spec b m p.1 p.2 Hg) as Hp. cbv zeta in Hp.
  destruct (pass_step fs p.1 (b, m) p.2) as [b1 m1]; cbn [fst snd] in *.
  destruct Hp as [[[= -> ->] Hcl]|(-> & Hg1 & Hlt)].
  - destruct (IH b m Hg) as (Hg2 & Hle & [[-> Hall]|Hgrow]); (split; [done|]); (split; [done|]).
    + left. split; [done|]. intros q [->|Hq]%elem_of_cons; auto.
    + by right.
  - destruct (IH true m1 Hg1) as (Hg2 & Hle & Hor). split; [done|]. split; [lia|]. right.
    destruct (fold_left _ _ _) as [b2 m2]; cbn [fst snd] in *.
    destruct Hor as [[[= -> ->] _]|[-> ?]]; (split; [done|lia]).
Qed.

Lemma one_pass_pairs m : one_pass fs names m =
  fold_left (λ s p, pass_step fs p.1 s p.2) (list_prod names names) (false, m).
Proof.
  apply (fold_left_pairs (λ k s k', pass_step fs k s k')).
Qed.

(** A closed assignment between the initial one and what is reachable is what is
    reachable. *)
Lemma closed_complete m :
  good m → (∀ k k', calls fs k k' → k' ∈ names → fields_at m k' ⊆ fields_at m k) →
  ∀ k x, x ∈ fields_at m k ↔ sets k x.
Proof.
  intros Hg Hcl k x. split; [apply (g_sound _ Hg)|]. intros (k' & Hr & Hx).
  induction Hr as [k|k k1 k' Hk _ IH]; [by apply (g_grown _ Hg)|].
  specialize (IH Hx). apply (Hcl k k1); [done| |done].
  unfold fields_at in IH. apply Hnames, (g_dom _ Hg).
  destruct (m !! k1); [eauto | by apply elem_of_empty in IH].
Qed.

Lemma close_loop_spec fuel m :
  good m → length names * size (all_fields init) < fuel + total m →
  ∃ r, close_loop fuel fs names m = Ok r ∧ good r ∧ ∀ k x, x ∈ fields_at r k ↔ sets k x.
Proof.
  revert m; induction fuel as [|fuel IH]; intros m Hg Hf.
  { pose proof (good_bound m Hg). lia. }
  cbn [close_loop]. rewrite one_pass_pairs.
  destruct (pass_steps_spec (list_prod names names) false m Hg) as (Hg1 & _ & Hor).
  destruct (fold_left _ _ _) as [b m1]; cbn [fst snd] in *.
  destruct Hor as [[[= -> ->] Hall]|[-> Hlt]].
  - exists m. split; [done|]. split; [done|]. apply closed_complete; [done|].
    intros k k' Hk Hk'. apply (Hall (k, k')); [|done].
    apply list_elem_of_In, in_prod; apply list_elem_of_In; [|done]. by apply Hnames, (Hcall k k').
  - apply IH; [done|]. lia.
Qed.
End close.
End Closing.

Module DefaultsSpec.
Import Defaults.

(** ** filler_functions *)

(** C18: The closure of the readers ends, however they call each other, and gives
    a function exactly the fields that it, or a reader it hands the struct to
    through any chain of calls, assigns; a function with no field is left out. *)
Theorem filler_functions_closure name text :
  ∃ r, filler_functions name text = Ok r ∧ (∀ k, r !! k ≠ Some ∅) ∧
    ∀ k x, (∃ s, r !! k = Some s ∧ x ∈ s) ↔
      ∃ k' fl, rtc (calls (fillers_of name text)) k k' ∧ fillers_of name text !! k' = Some fl ∧
        x ∈ fl_fields fl.
Proof.
  unfold filler_functions. set (fs := fillers_of name text).
  set (init := fl_fields <$> fs). set (names := map fst (map_to_list fs)).
  assert (∀ k, is_Some (init !! k) ↔ is_Some (fs !! k)) as Hinit
    by (intros k; unfold init; by rewrite lookup_fmap, fmap_is_Some).
  assert (∀ k, is_Some (init !! k) → k ∈ names) as Hnames.
  { intros k [fl Hfl]%Hinit. apply elem_of_lmap. exists (k, fl). split; [done|].
    by apply elem_of_map_to_list. }
  destruct (Closing.close_loop_spec fs names init Hnames) with (fuel := close_fuel names init) (m := init)
    as (r & Hr & Hg & Hspec).
  { intros k k' Hc. apply Hinit. unfold calls in Hc. destruct (fs !! k); [eauto | done]. }
  { apply Closing.good_init. }
  { unfold close_fuel. lia. }
  exists (filter (λ kv, kv.2 ≠ ∅) r). rewrite Hr. cbn [mbind res_mbind]. split; [done|]. split.
  { intros k Hk%map_lookup_filter_Some. by apply Hk. }
  intros k x. transitivity (x ∈ Closing.fields_at r k).
  - unfold Closing.fields_at. setoid_rewrite map_lookup_filter_Some. cbn [snd]. split.
    + by intros (s & [-> _] & Hx).
    + intros Hx. destruct (r !! k) as [s|]; [|by apply elem_of_empty in Hx].
      exists s. split; [|done]. split; [done|]. intros ->. by apply elem_of_empty in Hx.
  - rewrite Hspec. unfold Closing.sets, Closing.fields_at, init. setoid_rewrite lookup_fmap. split.
    + intros (k' & Hk & Hx). destruct (fs !! k') as [fl|] eqn:E; [|by apply elem_of_empty in Hx].
      by exists k', fl.
    + intros (k' & fl & Hk & E & Hx). exists k'. by rewrite E.
Qed.

(** ** enclosing_scope *)

(** Text whose braces match, outside its comments and its quoted text. *)
Inductive balanced : str → Prop :=
  | bal_nil : balanced []
  | bal_char c b :
      c ∉ ["/"%char; dquote; "{"%char; "}"%char] → balanced b → balanced (c :: b)
  | bal_line t b : nl ∉ t → balanced b → balanced (("//" : str) ++ t ++ nl :: b)
  | bal_quote t b : dquote ∉ t → bslash ∉ t → balanced b → balanced (dquote :: t ++ dquote :: b)
  | bal_block b1 b2 : balanced b1 → balanced b2 → balanced ("{"%char :: b1 ++ "}"%char :: b2).

(** One turn of the scan on a character that opens nothing. *)
Lemma scope_plain fuel c s depth :
  c ∉ ["/"%char; dquote; "{"%char; "}"%char] →
  scope_loop (S fuel) (c :: s) depth = S (scope_loop fuel s depth).
Proof.
  rewrite !not_elem_of_cons. intros (H1 & H2 & H3 & H4 & _). cbn [scope_loop].
  rewrite !(proj2 (Ascii.eqb_neq _ _)) by done.
  destruct (starts "//" (c :: s)) eqn:E; [by apply starts_spec in E as [? [= -> _]]|].
  by destruct (starts "/*" (c :: s)) eqn:E2; [apply starts_spec in E2 as [? [= -> _]]|].
Qed.
Lemma find0_char_app c p s : c ∉ p → find0 [c] (p ++ c :: s) = Some (length p).
Proof.
  intros Hp. apply find0_intro.
  - rewrite drop_app_length. cbn. by rewrite Ascii.eqb_refl.
  - rewrite length_app. lia.
  - intros m Hm. rewrite drop_app_le by lia. destruct (lookup_lt_is_Some_2 p m Hm) as [a Ha].
    rewrite (drop_S p a m Ha). cbn. rewrite andb_true_r. apply Ascii.eqb_neq. intros <-.
    apply Hp. by eapply list_elem_of_lookup_2.
Qed.

(** One turn on a string, and on the braces. *)
Lemma scope_quote fuel t s depth :
  dquote ∉ t → bslash ∉ t →
  scope_loop (S fuel) (dquote :: t ++ dquote :: s) depth = S (length t) + S (scope_loop fuel s depth).
Proof.
  intros H1 H2. remember (t ++ dquote :: s) as u eqn:Eu. cbn [scope_loop].
  change (starts "//" (dquote :: u)) with false. change (starts "/*" (dquote :: u)) with false.
  change (Ascii.eqb dquote dquote) with true. cbn iota. rewrite Eu.
  rewrite ResizeSpec.quoted_plain by (apply Forall_forall; intros a Ha; split; by intros ->).
  cbn [drop]. rewrite cons_middle, app_assoc.
  replace (S (length t)) with (length (t ++ [dquote])) at 2 by (rewrite length_app; cbn; lia).
  rewrite drop_app_length. lia.
Qed.
Lemma scope_open fuel s depth :
  scope_loop (S fuel) ("{"%char :: s) depth = S (scope_loop fuel s (depth + 1)).
Proof. done. Qed.
Lemma scope_close fuel s depth :
  (0 < depth)%Z → scope_loop (S fuel) ("}"%char :: s) depth = S (scope_loop fuel s (depth - 1)).
Proof.
  intros H. change (scope_loop (S fuel) ("}"%char :: s) depth) with
    (if (depth - 1 <? 0)%Z then 0 else S (scope_loop fuel s (depth - 1))).
  by rewrite (proj2 (Z.ltb_ge _ _)) by lia.
Qed.
(** What a comment to the end of a line takes: the line break is the next turn. *)
Lemma scope_line fuel t s depth :
  nl ∉ t →
  scope_loop (S fuel) (("//" : str) ++ t ++ nl :: s) depth = 2 + length t + scope_loop fuel (nl :: s) depth.
Proof.
  intros Ht. rewrite app_assoc.
  assert (nl ∉ ("//" : str) ++ t) as Hn by (apply not_elem_of_app; split; [by apply (bool_decide_eq_false_1 (nl ∈ _))|done]).
  change (2 + length t) with (length ("//" : str) + length t).
  rewrite <- (length_app ("//" : str) t).
  assert (starts "//" ((("//" : str) ++ t) ++ nl :: s) = true) as Hst by (rewrite <- app_assoc; apply starts_app).
  remember (("//" : str) ++ t) as u eqn:Eu.
  destruct (u ++ nl :: s) as [|a v] eqn:Ev; [by destruct u|]. cbn [scope_loop]. rewrite Hst.
  rewrite <- Ev, (find0_char_app nl u s Hn), drop_app_length. done.
Qed.

Ltac app_lengths :=
  repeat (cbn [length app] in *;
    match goal with
    | H : context [length (_ ++ _)] |- _ => rewrite length_app in H
    | |- context [length (_ ++ _)] => rewrite length_app
    end); cbn in *; lia.

(** The scan passes a balanced text at whatever depth it is. *)
Lemma scope_loop_balanced b : balanced b → ∀ fuel depth rest,
  (0 ≤ depth)%Z → length (b ++ rest) < fuel →
  ∃ fuel', length rest < fuel' ∧
    scope_loop fuel (b ++ rest) depth = length b + scope_loop fuel' rest depth.
Proof.
  induction 1 as [|c b Hc _ IH|t b Ht _ IH|t b Hq Hb _ IH|b1 b2 _ IH1 _ IH2]; intros fuel depth rest Hd Hf.
  { exists fuel. split; [done|]. done. }
  all: destruct fuel as [|fuel]; [cbn in Hf; lia|].
  - destruct (IH fuel depth rest) as (f' & Hf' & E); [done|cbn in Hf; lia|].
    exists f'. split; [done|]. cbn [app length]. by rewrite scope_plain, E.
  - rewrite <- !app_assoc, <- app_comm_cons in *. rewrite !length_app in *. cbn [length] in *.
    rewrite scope_line by done. destruct fuel as [|fuel]; [cbn in Hf; lia|].
    rewrite scope_plain by (by apply (bool_decide_eq_false_1 (nl ∈ _))).
    destruct (IH fuel depth rest) as (f' & Hf' & E); [done|app_lengths|].
    exists f'. split; [done|]. rewrite E. cbn. lia.
  - cbn [app length] in *. rewrite <- app_assoc, <- app_comm_cons in *. rewrite !length_app in *. cbn [length] in *.
    destruct (IH fuel depth rest) as (f' & Hf' & E); [done|app_lengths|].
    exists f'. split; [done|]. rewrite scope_quote by done. rewrite E. lia.
  - cbn [app length] in *. rewrite <- app_assoc, <- app_comm_cons in *. rewrite !length_app in *. cbn [length] in *.
    rewrite scope_open.
    destruct (IH1 fuel (depth + 1)%Z ("}"%char :: b2 ++ rest)) as (f1 & Hf1 & E1);
      [lia|app_lengths|].
    rewrite E1. destruct f1 as [|f1]; [cbn in Hf1; lia|]. rewrite scope_close by lia.
    destruct (IH2 f1 depth rest) as (f2 & Hf2 & E2); [lia|app_lengths|].
    exists f2. split; [done|]. replace (depth + 1 - 1)%Z with depth by lia. rewrite E2. lia.
Qed.

(** The scope a declaration sits in ends at the brace that closes the block:
    what is returned is the balanced text up to it, whatever braces its comments
    and its strings hold and whatever blocks it opens and closes. *)
Theorem enclosing_scope_block pre b rest :
  balanced b → enclosing_scope (pre ++ b ++ "}"%char :: rest) (length pre) = b.
Proof.
  intros Hb. unfold enclosing_scope. rewrite drop_app_length.
  destruct (scope_loop_balanced b Hb (S (length (b ++ "}"%char :: rest))) 0 ("}"%char :: rest))
    as (f & Hf & E); [done|lia|].
  destruct f as [|f]; [lia|]. rewrite E. cbn [scope_loop].
  change (scope_loop (S f) ("}"%char :: rest) 0) with 0. rewrite Nat.add_0_r.
  by rewrite take_app_length.
Qed.

(** ** main *)
Lemma list_nil_iff {A} (l : list A) : l = [] ↔ ∀ x, x ∉ l.
Proof.
  split; [by intros -> x ?%not_elem_of_nil|]. destruct l as [|x l]; [done|]. intros H.
  destruct (H x). left.
Qed.
Lemma within_arguments argv ap dirs : within (arguments argv ap dirs).
Proof.
  revert ap dirs. remember (length argv) as n eqn:En.
  revert argv En; induction n as [n IH] using lt_wf_ind; intros argv -> ap dirs.
  destruct argv as [|a argv]; [done|]. cbn [arguments]. case_bool_decide.
  - destruct argv as [|v argv]; [done|]. apply (IH (length argv)); [cbn; lia|done].
  - apply (IH (length argv)); [cbn; lia|done].
Qed.

(** The sites that could be building a definition, when there are two of them. *)
Record built (text : list (str * str)) (name : str) (defs : list defn) (d : defn) (sites : list site) : Prop := {
  b_struct : parse_structs text !! name = Some defs;
  b_def : d ∈ defs;
  b_sites : ∃ fillers, filler_functions name text = Ok fillers ∧
    sites = sites_of (hand_built_sites name text fillers (returning_builders name text)) defs d;
  b_two : 2 ≤ length sites;
}.

(** A site leaves a field of the definition alone that another site sets. *)
Record omits (text : list (str * str)) (o : omission) (d : defn) (sites : list site) (s s' : site)
    (defs : list defn) : Prop := {
  om_built : built text (o_name o) defs d sites;
  om_site : s ∈ sites;
  om_other : s' ∈ sites;
  om_field : o_field o ∈ map fst (df_fields d);
  om_set : o_field o ∈ st_assigned s';
  om_unset : o_field o ∉ st_assigned s;
  om_qual : o_qual o = qual_of (o_name o) defs d;
  om_qualify : o_qualify o = qualified defs;
  om_at : (o_file o, o_line o, o_var o) = (st_file s, st_line s, st_var s);
}.
Definition omitted (text : list (str * str)) (o : omission) : Prop :=
  ∃ d sites s s' defs, omits text o d sites s s' defs.
(** The definition's name is one whose ledger lines can be stale. *)
Definition compared (text : list (str * str)) (q : str) : Prop :=
  ∃ name defs d sites, built text name defs d sites ∧ q = qual_of name defs d.

Lemma omissions_at_spec name defs d sites s o :
  o ∈ omissions_at name defs d sites s ↔
    o_name o = name ∧ o_qual o = qual_of name defs d ∧ o_qualify o = qualified defs ∧
    (o_file o, o_line o, o_var o) = (st_file s, st_line s, st_var s) ∧
    o_field o ∈ map fst (df_fields d) ∧ o_field o ∉ st_assigned s ∧
    ∃ s', s' ∈ sites ∧ o_field o ∈ st_assigned s'.
Proof.
  unfold omissions_at. rewrite elem_of_lmap. setoid_rewrite elem_of_sorted.
  setoid_rewrite elem_of_elements. setoid_rewrite elem_of_intersection.
  setoid_rewrite elem_of_difference. setoid_rewrite elem_of_union_list.
  setoid_rewrite elem_of_lmap. setoid_rewrite elem_of_list_to_set. split.
  - intros (x & -> & ((u & (s' & -> & Hs') & Hx) & Hn) & Hf). cbn [o_name o_qual o_qualify o_file o_line o_var o_field]. do 4 (split; [done|]). apply elem_of_lmap in Hf. split; [done|]. split; [done|]. by exists s'.
  - destruct o as [q nm ql f l v x]; cbn. intros (-> & -> & -> & [= -> -> ->] & Hf & Hn & s' & Hs' & Hx).
    apply elem_of_lmap in Hf. exists x. split; [done|]. split; [|done]. split; [|done]. exists (st_assigned s').
    split; [by exists s' | done].
Qed.

Lemma of_struct_total text nd : ∃ rows, of_struct text nd = Ok rows.
Proof.
  unfold of_struct. destruct (filler_functions_closure nd.1 text) as (fillers & -> & _). eexists. reflexivity.
Qed.
Lemma of_struct_spec text name defs rows :
  parse_structs text !! name = Some defs → of_struct text (name, defs) = Ok rows →
  ∀ q os, (q, os) ∈ rows ↔ ∃ d sites, built text name defs d sites ∧ q = qual_of name defs d ∧
    os = flat_map (omissions_at name defs d sites) sites.
Proof.
  intros Hs (fillers & Hfl & H)%bind_Ok q os. cbn [fst snd] in *. injection H as <-.
  rewrite list_elem_of_omap. unfold of_defn. split.
  - intros (d & Hd & H). destruct (length (sites_of _ _ _) <? 2) eqn:E; [done|]. injection H as <- <-. apply Nat.ltb_ge in E.
    eexists d, _. split; [|done]. split; eauto.
  - intros (d & sites & [_ Hd (fillers' & Hfl' & ->) H2] & -> & ->).
    assert (fillers' = fillers) as -> by congruence. exists d. split; [done|].
    by rewrite (proj2 (Nat.ltb_ge _ _) H2).
Qed.

Lemma rows_spec text rows :
  mapR (of_struct text) (sort_by (λ a b, str_leb a.1 b.1) (map_to_list (parse_structs text))) = Ok rows →
  ∀ q os, (q, os) ∈ concat rows ↔ ∃ name defs d sites, built text name defs d sites ∧
    q = qual_of name defs d ∧ os = flat_map (omissions_at name defs d sites) sites.
Proof.
  intros H q os. rewrite (mapR_concat_elem _ _ _ _ H). split.
  - intros ([name defs] & r & Hin%elem_of_sort_by%elem_of_map_to_list & Hr & Hq).
    apply (of_struct_spec text name defs r Hin Hr) in Hq as (d & sites & ? & ? & ?). by exists name, defs, d, sites.
  - intros (name & defs & d & sites & Hb & Hq & Hos).
    destruct (of_struct_total text (name, defs)) as [r Hr].
    exists (name, defs), r. split; [apply elem_of_sort_by, elem_of_map_to_list, (b_struct _ _ _ _ _ Hb)|].
    split; [done|]. apply (of_struct_spec text name defs r (b_struct _ _ _ _ _ Hb) Hr). eauto.
Qed.

Lemma omissions_spec text rows o :
  mapR (of_struct text) (sort_by (λ a b, str_leb a.1 b.1) (map_to_list (parse_structs text))) = Ok rows →
  o ∈ flat_map snd (concat rows) ↔ omitted text o.
Proof.
  intros H. rewrite elem_of_flat_map. split.
  - intros ([q os] & Hin & Ho). apply (rows_spec _ _ H) in Hin as (name & defs & d & sites & Hb & -> & ->).
    cbn [snd] in Ho. apply elem_of_flat_map in Ho as (s & Hs & Ho).
    apply omissions_at_spec in Ho as (<- & ? & ? & ? & ? & ? & s' & ? & ?).
    exists d, sites, s, s', defs. by split.
  - intros (d & sites & s & s' & defs & [Hb Hs Hs' Hf Hx Hn Hq Hql Hat]).
    exists (qual_of (o_name o) defs d, flat_map (omissions_at (o_name o) defs d sites) sites).
    split; [apply (rows_spec _ _ H); by exists (o_name o), defs, d, sites|].
    cbn [snd]. apply elem_of_flat_map. exists s. split; [done|]. apply omissions_at_spec. do 6 (split; [done|]). by exists s'.
Qed.

Lemma compared_spec text rows q :
  mapR (of_struct text) (sort_by (λ a b, str_leb a.1 b.1) (map_to_list (parse_structs text))) = Ok rows →
  q ∈ map fst (concat rows) ↔ compared text q.
Proof.
  intros H. rewrite elem_of_lmap. split.
  - intros ([q' os] & -> & Hin). apply (rows_spec _ _ H) in Hin as (name & defs & d & sites & Hb & -> & _).
    by exists name, defs, d, sites.
  - intros (name & defs & d & sites & Hb & ->).
    exists (qual_of name defs d, flat_map (omissions_at name defs d sites) sites). split; [done|].
    apply (rows_spec _ _ H). by exists name, defs, d, sites.
Qed.

(** What the audit reports, in terms of the sources and the ledger; it reports
    something whatever the sources are. *)
Lemma audit_spec text allow : ∃ r (used : list key), audit text allow = Ok r ∧
  (∀ k, k ∈ used ↔ ∃ o, omitted text o ∧ k ∈ uses allow o) ∧
  (∀ o, o ∈ r_unlisted r ↔ omitted text o ∧ o_key o ∉ allow ∧ o_star o ∉ allow) ∧
  (∀ o, o ∈ r_ambiguous r ↔ omitted text o ∧ o_qualify o = true ∧ o_bare o ∈ allow) ∧
  (∀ k, k ∈ r_stale r ↔ k ∈ allow ∧ compared text k.1.1 ∧ k ∉ used).
Proof.
  unfold audit.
  destruct (mapR_total (of_struct text) (sort_by (λ a b, str_leb a.1 b.1) (map_to_list (parse_structs text))))
    as [rows E]; [intros nd _; apply of_struct_total|]. rewrite E. cbn [mbind res_mbind].
  eexists _, (flat_map (uses allow) (flat_map snd (concat rows))). split; [reflexivity|].
  cbn [r_unlisted r_ambiguous r_stale].
  pose proof (λ o, omissions_spec text rows o E) as Ho. split; [|split; [|split]].
  - intros k. rewrite elem_of_flat_map. by setoid_rewrite Ho.
  - intros o. rewrite elem_of_remove_dups, elem_of_lfilter, Ho. unfold unlisted.
    by rewrite andb_true_iff, !negb_true_iff, !bool_decide_eq_false.
  - intros o. rewrite elem_of_lfilter, Ho. unfold ambiguous. by rewrite andb_true_iff, bool_decide_eq_true.
  - intros k. rewrite elem_of_sort_by, elem_of_lfilter, elem_of_remove_dups, andb_true_iff, negb_true_iff.
    rewrite bool_decide_eq_false, bool_decide_eq_true. rewrite (compared_spec text rows k.1.1 E). tauto.
Qed.

(** C19: What the audit reports and how it exits, for the files of the directories in
    the order they are found.  Unlisted are the fields that one site leaves alone and
    another site of the same definition sets, when the ledger has them neither under the
    definition's own name nor by a star; ambiguous are those the ledger has under a bare
    name that several definitions share; stale are the ledger's lines that no such field
    uses, among the names of the definitions compared here, so that a line about a struct
    that is gone, or has fewer than two sites in these directories, is none.  The audit
    exits 0 when all three are empty and 1 otherwise, and it never runs out of its
    bounds. *)
Theorem default_audit_main f argv :
  within (main f argv) ∧
  ∀ st r, main f argv = Ok (st, r) → ∃ ap dirs text allow,
    arguments argv None [] = Ok (ap, dirs) ∧
    mapR (read_source f) (dict_keys (sources f dirs)) = Ok text ∧
    ledger f ap = Ok allow ∧ (st = 0 ∨ st = 1)%Z ∧
    (∀ o, o ∈ r_unlisted r ↔ omitted text o ∧ o_key o ∉ allow ∧ o_star o ∉ allow) ∧
    (∀ o, o ∈ r_ambiguous r ↔ omitted text o ∧ o_qualify o = true ∧ o_bare o ∈ allow) ∧
    (∀ k, k ∈ r_stale r ↔
      k ∈ allow ∧ compared text k.1.1 ∧ ¬ ∃ o, omitted text o ∧ k ∈ uses allow o) ∧
    (st = 0%Z ↔
      (∀ o, omitted text o → (o_key o ∈ allow ∨ o_star o ∈ allow)
                             ∧ ¬ (o_qualify o = true ∧ o_bare o ∈ allow)) ∧
      ∀ k, k ∈ allow → compared text k.1.1 → ∃ o, omitted text o ∧ k ∈ uses allow o).
Proof.
  split.
  - unfold main. apply within_bind; [apply within_arguments|]. intros [ap dirs] _.
    apply within_bind; [apply within_mapR; intros; unfold read_source; within|]. intros text _.
    apply within_bind; [unfold ledger; within|]. intros allow _.
    destruct (audit_spec text allow) as (r & used & -> & _). done.
  - intros st r. unfold main.
    intros ([ap dirs] & Ha & (text & Ht & (allow & Hl & (r' & Hr & H)%bind_Ok)%bind_Ok)%bind_Ok)%bind_Ok.
    injection H as <- <-. exists ap, dirs, text, allow. do 3 (split; [done|]).
    destruct (audit_spec text allow) as (r & used & Hr' & Hused & Hu & Hm & Hs).
    assert (r' = r) as -> by congruence. setoid_rewrite Hused in Hs.
    split; [by repeat case_bool_decide; cbn; auto|]. do 3 (split; [done|]).
    transitivity (r_unlisted r = [] ∧ r_ambiguous r = [] ∧ r_stale r = []).
    { do 3 case_bool_decide; cbn; naive_solver. }
    rewrite !list_nil_iff. setoid_rewrite Hu. setoid_rewrite Hm. setoid_rewrite Hs.
    setoid_rewrite <- Hused. split.
    + intros (H1 & H2 & H3). split.
      * intros o Ho. split; [|naive_solver].
        destruct (decide (o_key o ∈ allow)); [by left|]. destruct (decide (o_star o ∈ allow)); [by right|].
        by destruct (H1 o).
      * intros k Hk Hc. apply dec_stable. intros Hn. by apply (H3 k).
    + intros [H1 H2]. split; [|split].
      * intros o (Ho & Hk & Hst). by destruct (H1 o Ho) as [[?|?] _].
      * intros o (Ho & Hb). by apply (H1 o Ho).
      * intros k (Hk & Hc & Hn). by apply Hn, H2.
Qed.
End DefaultsSpec.

Module DefaultsWitness.
Import Defaults DefaultsSpec AuditProofs.AuditWitness.

Definition text_of (l : list str) : str := flat_map (λ s, s ++ [nl]) l.
(** A struct, a reader that hands it on to another, and two sites. *)
Definition w_source : str := text_of
  ["namespace gpu {" : str; "struct Ctl {" : str; "    double a = 1;" : str; "    int b = 2, c;" : str;
   "};" : str; "}" : str; "void inner(Ctl& p) { p.b = 3; }" : str; "void outer(Ctl& q) {" : str;
   "  inner(q); // }" : str; "}" : str; "void s1() {" : str; "  Ctl x;" : str; "  x.a = 1;" : str;
   "  outer(x);" : str; "}" : str; "void s2() {" : str; "  Ctl y;" : str; "  y.a = 2;" : str; "}" : str].
Definition w_fs : fs :=
  {| root := Dir [("r" : str, Dir
       [("allow" : str, File (text_of ["Ctl y b # kept" : str; "Gone z c # its struct is not there" : str]) 0 false);
        ("src" : str, Dir [("z.cu" : str, File [] 0 false); ("c.cu" : str, File w_source 0 false)])])];
     real := normpath |}.
Definition w_args : list str := ["--allow" : str; "/r/allow" : str; "/r/src" : str].

(** The order is the directory's, and a file found twice is read where it was found first. *)
Lemma w_order : dict_keys (sources w_fs ["/r/src" : str; "/r" : str; "/none" : str])
  = ["/r/src/z.cu" : str; "/r/src/c.cu" : str].
Proof. vm_compute. reflexivity. Qed.

(** A namespace that is closed again before the struct is still taken for the one
    the struct is in. *)
Lemma closed_namespace_kept :
  map df_ns (default [] (parse_structs
    [("f.cu" : str, text_of ["namespace gpu {" : str; "}" : str; "struct Ctl {" : str;
       "  double a = 1;" : str; "  int b, c;" : str; "};" : str])] !! ("Ctl" : str)))
  = [Some ("gpu" : str)].
Proof. vm_compute. reflexivity. Qed.

Lemma enclosing_scope_block_witness :
  balanced (text_of [" x.a = 1; // }" : str; "if (x) {}" : str]) ∧
  enclosing_scope ((" Ctl x;" : str) ++ text_of [" x.a = 1; // }" : str; "if (x) {}" : str] ++ "}"%char :: [])
    (length (" Ctl x;" : str)) = text_of [" x.a = 1; // }" : str; "if (x) {}" : str].
Proof.
  assert (balanced (text_of [" x.a = 1; // }" : str; "if (x) {}" : str])) as H.
  { cbn. do 10 (apply bal_char; [by apply (bool_decide_eq_false_1 _)|]).
    apply (bal_line (" }" : str)); [by apply (bool_decide_eq_false_1 _)|].
    do 7 (apply bal_char; [by apply (bool_decide_eq_false_1 _)|]).
    apply (bal_block [] [nl]); [constructor|]. apply bal_char; [by apply (bool_decide_eq_false_1 _)|].
    constructor. }
  split; [exact H|]. apply enclosing_scope_block. exact H.
Defined.

(** The ledger has a line about a struct that is not there: it is not stale, and the audit
    exits 0. *)
Lemma default_audit_main_witness :
  code2 (main w_fs w_args) = Some 0%Z ∧
  ∃ text allow r, ledger w_fs (Some ("/r/allow" : str)) = Ok allow ∧
    (("Gone" : str), ("z" : str), ("c" : str)) ∈ allow ∧ main w_fs w_args = Ok (0%Z, r) ∧
    (("Gone" : str), ("z" : str), ("c" : str)) ∉ r_stale r ∧
    ∀ o, omitted text o → o_key o ∈ allow ∨ o_star o ∈ allow.
Proof.
  assert (code2 (main w_fs w_args) = Some 0%Z) as E by (vm_compute; reflexivity).
  split; [exact E|]. apply code2_Ok in E as (r & E).
  destruct (proj2 (default_audit_main w_fs w_args) 0%Z r E)
    as (ap & dirs & text & allow & Ha & _ & Hl & _ & Hu & _ & Hs & Hst).
  assert (ap = Some ("/r/allow" : str)) as -> by (vm_compute in Ha; by injection Ha as <- _).
  exists text, allow, r. split; [exact Hl|]. split.
  { vm_compute in Hl. injection Hl as <-. right. left. }
  split; [exact E|]. split; [|intros o Ho; by apply (proj1 Hst)].
  intros (Hk & Hc & Hn)%Hs. apply Hn. apply (proj1 Hst); done.
Defined.
End DefaultsWitness.
