(* ===== verification/Pimple.v ===== *)
(** * tools/pimplefoam_coverage.py

    The manifest of what OpenFOAM registers against what brae names: the
    inventories taken from the sources with [grep] and [find], the table, the
    report and the file it is written to.  [sh] is the shell: the output of a
    command.  The arguments are those [argparse] returns. *)
From stdpp Require Import gmap.
From S2P Require Export PyRe PyOs.

Module Pimple.

(** ** What is refused or divergent on purpose, with the reason *)
Definition REFUSED : list (str * list (str * str)) :=
  [("dynamicFvMesh" : str,
    [("interfaceTrackingFvMesh" : str, "free-surface tracking: mesh motion driven by the interface itself" : str);
     ("dynamicMotionSolverFvMeshAMI" : str, "topology change during the run" : str);
     ("dynamicOversetFvMesh" : str, "overset replaces the matrix addressing" : str)]);
   ("motionSolver" : str, [("sixDoFRigidBodyMotion" : str, "rigid-body ODE + restraints" : str)]);
   ("RASModel" : str, [("kkLOmega" : str, "3-equation transition model" : str)]);
   ("LESModel" : str, [("kEqn" : str, "one-equation SGS k transport" : str)]);
   ("fvPatchField" : str,
    [("velocityFilmShell" : str, "finite-area film region coupled to the 3-D solve" : str);
     ("turbulentDFSEMInlet" : str, "synthetic-eddy inflow generator" : str);
     ("cyclicSlip" : str, "coupled patch brae does not build" : str)])].
Definition DIVERGENT : list (str * list (str * str)) :=
  [("ddtScheme" : str,
    [("backward" : str, "cell ddt implemented; fvc::ddtCorr flux coupling omitted (notice)" : str);
     ("CrankNicolson" : str, "cell ddt implemented; fvc::ddtCorr flux coupling omitted (notice)" : str);
     ("bounded" : str, "parsed as Euler, not OpenFOAM's bounded behaviour" : str)])].
(** [set(d.get(name, {}))] *)
Fixpoint keys_of (d : list (str * list (str * str))) (name : str) : gset str :=
  match d with
  | [] => ∅
  | (n, entries) :: d => if bool_decide (n = name) then list_to_set (map fst entries) else keys_of d name
  end.

Section pimple.
(** [refuses] is what the operating system does not let the run create or open for writing,
    for a reason other than what is there: permissions, a file system without room. *)
Context (f : fs) (sh : str → str) (refuses : str → bool).

(** ** The inventories *)
Definition alnum : list citem := [CRange "A" "Z"; CRange "a" "z"; CRange "0" "9"].
Definition ident : re := cls (alnum ++ [CChar "_"]).
Definition found_in (r : re) (text : str) : gset str := list_to_set (findall1 r text).

Definition typename_re : re := seqs [txt "TypeName("; chr dquote; RGroup 1 (many1 ident); chr dquote; chr ")"].
Definition typename_cmd (p : str) : str :=
  ("grep -rhoE 'TypeName\(" : str) ++ dquote :: ("[A-Za-z0-9_]+" : str) ++ dquote :: ("\)' " : str) ++ p
  ++ (" 2>/dev/null" : str).
Definition typenames (paths : list str) : gset str :=
  ⋃ (map (λ p, found_in typename_re (sh (typename_cmd p))) (List.filter (isdir f) paths)).

Definition rts_re (table : str) : re :=
  seqs [txt "addToRunTimeSelectionTable("; many sp; txt table; many sp; chr ","; many sp; RGroup 1 (many1 ident)].
Definition rts_cmd (table p : str) : str :=
  ("grep -rhoE 'addToRunTimeSelectionTable\(\s*" : str) ++ table ++ ("\s*,\s*[A-Za-z0-9_]+' " : str) ++ p
  ++ (" 2>/dev/null" : str).
Definition rts (paths : list str) (table : str) : gset str :=
  ⋃ (map (λ p, found_in (rts_re table) (sh (rts_cmd table p))) (List.filter (isdir f) paths)).

Definition scheme_re : re := seqs [txt "Scheme("; RGroup 1 (many1 (cls alnum))].
Definition schemes (path : str) : gset str :=
  found_in scheme_re
    (sh (("grep -rhoE 'make(Limited|LimitedV|Limited01)?SurfaceInterpolationScheme\([A-Za-z0-9]+' " : str)
         ++ path ++ (" 2>/dev/null" : str))).

Definition selectable (path : str) (dropped : list str) (d : str) : bool :=
  isdir f (pjoin path d) && negb (bool_decide (d ∈ dropped)) && negb (starts "derived" d)
  && negb (ends "Model" d).
Definition dirnames (path : str) (dropped : list str) : res (gset str) :=
  if isdir f path then l ← listdir f path; Ok (list_to_set (List.filter (selectable path dropped) l))
  else Ok ∅.

(** Every quoted literal of three characters or more. *)
Definition letters : list citem := [CRange "A" "Z"; CRange "a" "z"].
Definition literal_re : re :=
  seqs [chr dquote; RGroup 1 (seqs [cls letters; ident; many1 ident]); chr dquote].
Definition literal_cmd (BRAE : str) : str :=
  ("grep -rhoE '" : str) ++ dquote :: ("[A-Za-z][A-Za-z0-9_]{2,}" : str) ++ dquote :: ("' " : str) ++ BRAE
  ++ ("/src 2>/dev/null" : str).
Definition brae_strings (BRAE : str) : gset str := found_in literal_re (sh (literal_cmd BRAE)).

(** ** demanded *)
Definition chosen : re := RGroup 1 (seqs [cls letters; many ident]).
Definition upto_semi (before : list re) : re := seqs (before ++ [many1 sp; chosen; many sp; chr ";"]).
Definition turbulence : list str := ["constant/turbulenceProperties*" : str; "constant/momentumTransport*" : str].
Definition scopes : list (str * (list str * re)) :=
  [("fvPatchField" : str, (["0/*" : str; "0.orig/*" : str], upto_semi [RWordB; txt "type"]));
   ("ddtScheme" : str, (["system/fvSchemes" : str],
      seqs [txt "ddtSchemes"; many_lazy (ncls (chars "}")); txt "default"; many1 sp; chosen]));
   ("limitedScheme" : str, (["system/fvSchemes" : str], seqs [txt "Gauss"; many1 sp; chosen]));
   ("RASModel" : str, (turbulence, upto_semi [txt "RASModel"]));
   ("LESModel" : str, (turbulence, upto_semi [txt "LESModel"]));
   ("LESdelta" : str, (turbulence, upto_semi [RWordB; txt "delta"]));
   ("fvOption" : str, (["constant/fvOptions" : str; "system/fvOptions" : str], upto_semi [RWordB; txt "type"]));
   ("dynamicFvMesh" : str, (["constant/dynamicMeshDict" : str], upto_semi [txt "dynamicFvMesh"]));
   ("motionSolver" : str, (["constant/dynamicMeshDict" : str],
      upto_semi [alts [txt "motionSolver"; txt "solver"]]))].
Fixpoint scope_for (l : list (str * (list str * re))) (category : str) : option (list str * re) :=
  match l with
  | [] => None
  | (n, s) :: l => if bool_decide (n = category) then Some s else scope_for l category
  end.
Definition find_cmd (tutroot gl : str) : str :=
  ("find " : str) ++ tutroot ++ (" -path '*/" : str) ++ gl ++ ("' -type f -exec cat {} + 2>/dev/null" : str).
Definition demanded (tutroot category : str) : gset str :=
  if isdir f tutroot then
    match scope_for scopes category with
    | None => ∅
    | Some (globs, rx) => ⋃ (map (λ gl, found_in rx (sh (find_cmd tutroot gl))) globs)
    end
  else ∅.

(** ** build *)
Record category := { c_name : str; c_of : gset str; c_brae : gset str }.
Definition build (BRAE ofsrc : str) : res (list category) :=
  let fv := ofsrc ++ ("/finiteVolume" : str) in
  let tm := ofsrc ++ ("/TurbulenceModels" : str) in
  let br := brae_strings BRAE in
  let cat n s := {| c_name := n; c_of := s; c_brae := br |} in
  ras ← dirnames (tm ++ ("/turbulenceModels/RAS" : str)) ["RASModel" : str];
  les ← dirnames (tm ++ ("/turbulenceModels/LES" : str)) ["LESModel" : str; "LESdeltas" : str; "LESfilters" : str];
  deltas ← dirnames (tm ++ ("/turbulenceModels/LES/LESdeltas" : str)) [];
  Ok [cat ("fvPatchField" : str)
        (typenames [fv ++ ("/fields/fvPatchFields/basic" : str); fv ++ ("/fields/fvPatchFields/constraint" : str);
                    fv ++ ("/fields/fvPatchFields/derived" : str);
                    tm ++ ("/turbulenceModels/derivedFvPatchFields" : str); tm ++ ("/incompressible" : str)]);
      cat ("ddtScheme" : str) (typenames [fv ++ ("/finiteVolume/ddtSchemes" : str)]);
      cat ("limitedScheme" : str) (schemes (fv ++ ("/interpolation/surfaceInterpolation" : str)));
      cat ("RASModel" : str) ras;
      cat ("LESModel" : str) les;
      cat ("LESdelta" : str) deltas;
      cat ("fvOption" : str) (typenames [ofsrc ++ ("/fvOptions" : str)]);
      cat ("dynamicFvMesh" : str) (typenames [ofsrc ++ ("/dynamicFvMesh" : str)]);
      cat ("motionSolver" : str)
        (rts [ofsrc ++ ("/fvMotionSolver" : str); ofsrc ++ ("/dynamicMesh/motionSolvers" : str)] "motionSolver")].

(** ** The report *)
Record row := {
  r_name : str; r_of : nat; r_named : nat; r_refused : list str; r_divergent : list str;
  r_missing : list str; r_want : list str;
}.
Definition row_of (tutroot : str) (c : category) : row :=
  let refused := keys_of REFUSED (c_name c) in
  let divergent := keys_of DIVERGENT (c_name c) in
  let named := (c_of c ∩ c_brae c) ∪ refused ∪ divergent in
  let missing := c_of c ∖ named in
  {| r_name := c_name c; r_of := size (c_of c); r_named := size (c_of c ∩ c_brae c);
     r_refused := sorted (elements (refused ∩ c_of c)); r_divergent := sorted (elements (divergent ∩ c_of c));
     r_missing := sorted (elements missing);
     r_want := sorted (elements (missing ∩ demanded tutroot (c_name c))) |}.

Definition tick (s : str) : str := "`"%char :: s ++ ["`"%char].
Definition num (n : nat) : str := dec (Z.of_nat n).
Definition table_line (r : row) : str :=
  ("| " : str) ++ tick (r_name r) ++ (" | " : str) ++ num (r_of r) ++ (" | " : str) ++ num (r_named r)
  ++ (" | " : str) ++ num (length (r_refused r)) ++ (" | " : str) ++ num (length (r_divergent r))
  ++ (" | " : str) ++ num (length (r_missing r)) ++ (" | **" : str) ++ num (length (r_want r)) ++ ("** |" : str).
Definition ticked (l : list str) : str := join ", " (map tick l).
Definition some_line (heading : str) (l : list str) : list str :=
  match l with [] => [] | _ => [heading ++ ticked l; []] end.
Definition section_lines (r : row) : list str :=
  [("### " : str) ++ tick (r_name r) ++ (" -- " : str) ++ num (length (r_missing r)) ++ (" missing" : str); []]
  ++ some_line "Refused on purpose: " (r_refused r)
  ++ some_line "Deliberately divergent: " (r_divergent r)
  ++ some_line "**Demanded by a tutorial** (the actionable work list): " (r_want r)
  ++ [("All missing: " : str) ++ (match r_missing r with [] => ("_none_" : str) | l => ticked l end); []].
Definition preamble : list str :=
  ["# pimpleFoam coverage manifest" : str; [];
   "GENERATED by `tools/pimplefoam_coverage.py` -- do not hand-edit the tables." : str; [];
   ("Every row is a type OpenFOAM v2412 registers with a `TypeName(" : str) ++ dquote :: ("..." : str)
     ++ dquote :: (")` and that incompressible" : str);
   "pimpleFoam can therefore select from a case dictionary. `missing` means brae does not name it" : str;
   "anywhere: a case using it must be REFUSED at startup, never run to a plausible wrong answer." : str; [];
   "| category | OF types | named | refused | divergent | missing | **demanded** |" : str;
   "|---|---|---|---|---|---|---|" : str].
Definition report (rows : list row) : list str :=
  preamble ++ map table_line rows ++ [[]; "## Missing, by category" : str; []] ++ flat_map section_lines rows.

(** ** main *)
Record args := { a_of : str; a_out : str }.
Definition default_args (BRAE : str) (FOAM_SRC : option str) : args :=
  {| a_of := default ("/usr/lib/openfoam/openfoam2412/src" : str) FOAM_SRC;
     a_out := pjoin (pjoin BRAE ("..")) ("pimplefoam-coverage.md") |}.

(** The run ends with [sys.exit] and its message, or has written a file. *)
Inductive outcome :=
  | Exited (message : str)
  | Written (rows : list row) (path text : str).

(** The directory an entry is made in. *)
Definition parent (p : str) : str := match dirname p with [] => "." | d => d end.
(** [os.path.lexists]: something is there, if only a link that leads nowhere. *)
Definition lexists (p : str) : bool :=
  match entry f (parent p) with Some e => bool_decide (is_Some (child e (basename p))) | None => false end.
(** A directory, when [made] are those the run has made. *)
Definition dir_now (made : list str) (p : str) : bool := isdir f p || bool_decide (p ∈ made).
(** [os.mkdir] *)
Definition mkdir (made : list str) (p : str) : res (list str) :=
  if bool_decide (p = []) || exists_ f p || lexists p || negb (dir_now made (parent p)) || refuses p
  then Raise OSError else Ok (p :: made).
(** [os.makedirs(p, exist_ok=True)]: the names of the directories made.  A parent that is
    not there is made first, and a directory that is there already is as good as one made.
    A [FileExistsError] of the parent is passed over in the source: something that is not a
    directory is there, so that what follows raises. *)
Fixpoint makedirs (fuel : nat) (p : str) : res (list str) :=
  match fuel with
  | 0 => Raise OutOfFuel
  | S fuel =>
      let head := dirname p in
      let deeper := negb (bool_decide (head = [])) && negb (bool_decide (basename p = [])) && negb (exists_ f head) in
      made ← (if deeper then makedirs fuel head else Ok []);
      if deeper && bool_decide (basename p = "." :> str) then Ok (p :: made)
      else match mkdir made p with
           | Ok made => Ok made
           | Raise e => if negb (bool_decide (p = [])) && isdir f p then Ok made else Raise e
           end
  end.
(** [open(p, 'w')] after that: not of a directory, nor of a name that stands for one.  A link
    that leads nowhere makes the file it names, when that is not a link again. *)
Definition open_w (made : list str) (p : str) : res unit :=
  if refuses p || isdir f p || bool_decide (basename p ∈ [[]; "." : str; ".." : str]) then Raise OSError
  else if isfile f p then Ok ()
  else if (if lexists p then isdir f (dirname (real f p)) && negb (lexists (real f p))
           else dir_now made (parent p))
  then Ok () else Raise OSError.
Definition open_out (p : str) : res unit := made ← makedirs (S (length p)) (dirname p); open_w made p.
Definition rstrip_slash (s : str) : str := rev (strip_slashes (rev s)).
Definition main (BRAE : str) (a : args) : res outcome :=
  if negb (isdir f (a_of a)) then Ok (Exited (("OpenFOAM src not found: " : str) ++ a_of a))
  else
    let tutroot := pjoin (dirname (rstrip_slash (a_of a))) "tutorials/incompressible/pimpleFoam" in
    cats ← build BRAE (a_of a);
    let rows := map (row_of tutroot) cats in
    open_out (a_out a);;
    Ok (Written rows (a_out a) (join [nl] (report rows) ++ [nl])).
End pimple.
End Pimple.
