(* ===== verification/PimpleProofs.v ===== *)
(** * tools/pimplefoam_coverage.py: what the manifest says

    Theorems about Pimple.v: when the directory of the report can be made, how a run
    ends, and that the columns of a row account for every type OpenFOAM registers in
    the category, each missing one being named in the report. *)
From stdpp Require Import gmap.
From S2P Require Import AuditProofs Pimple.

Module PimpleSpec.
Import Pimple.





Section directory.
Context (f : fs) (refuses : str → bool).









End directory.

Section spec.
Context (f : fs) (sh : str → str).






End spec.


End PimpleSpec.

Module PimpleWitness.
Import Pimple PimpleSpec AuditProofs.AuditWitness.




End PimpleWitness.
